(* ===== verification/_CoqProject ===== *)
-Q . S2P
Prelude.v
NodePath.v
Double.v
JsNumber.v
UriDecode.v
JsValue.v
Json.v
ToNumber.v
Config.v
Listen.v
FormBody.v
Schema.v
Store.v
Handlers.v
Router.v
Cors.v
Frontend.v
Seeder.v
Concurrency.v
Liveness.v
Startup.v
Responses.v
Send.v
