(* ===== verification/Prelude.v ===== *)
(** * A verification development of the best-car dealership API

    The repository's server, [src/app.js], is an Express application over
    a MongoDB store accessed through Mongoose.  At startup it loads two
    seed files (lines 15 to 31), connects (33 to 46) and, in an [async]
    function run once (51 to 69), empties the [reviews] and
    [dealerships] collections and inserts the seed records.  Six route
    handlers (71 to 133) read the collections and insert reviews; the
    id of a new review is the first id of [find().sort({ id: -1 })]
    plus one.  [src/server/frontend/src/App.js] is a React router with
    two routes.  Handlers and the seeding function run interleaved on
    one event loop and share the store; the process binds its listener
    (lines 135 to 137) while the connection is still pending.

    ** Files, in dependency order
    - [Prelude] (this file): the [result] type and its [<-?] notation
      ([api_scope]), the hint databases [api] / [api_rw], tactics
      ([invc], [by_computation], [refute_by_computation]), and generic
      lemmas on [mapR] and on [list_max_opt] (with its [Proper] instance
      for [Permutation]), and the path text shared by both routers:
      ASCII lower case ([lower]), [split] and [join] on a separator
      ([split_on], [join_on]).
    - [NodePath] (Module [NodePath]): Node's [path.join] of lines 15
      and 16 ([posix.join], [posix.normalize] and the character loop of
      [normalizeString], state variable by state variable);
      [join_child]: joining a normalized absolute directory and a file
      name gives the directory, one separator and the name.
    - [Double]: JavaScript numbers as IEEE 754 doubles on integral
      values: [round_double] (round to nearest, ties to even, 53
      significant bits), [is_double] and [js_succ], the [x + 1] of
      line 126.
    - [JsNumber]: ECMAScript [parseInt(string)] (the handlers' reading
      of [:id]) and [Number(string)] on integer literals, both rounded
      to a double, and [Number::toString] ([number_to_string]: the
      shortest digits that round back to the double, exponent form
      from 1e21 on); [None] is [NaN].
    - [UriDecode] (Module [Uri]): [decodeURIComponent], which Express
      applies to every route parameter, as ECMA-262 [Decode] on byte
      strings with UTF-8 validation, and [encodeURIComponent] for the
      round trip.
    - [JsValue] (Module [Js]): JavaScript values ([jval], [undefined] as
      [None]) and the operators the code applies: truthiness, [||],
      [??], [?.], property reads, [x + 1] and the object literal with
      spread [{ id: new_id, ...data }].
    - [Json] (Module [Json]): [JSON.parse] (the seed files, lines 22 and
      28, and [express.json()], line 13) as a fuelled recursive-descent
      parser over the bytes of the text, and [JSON.stringify] (every
      [res.json]) with the escapes of [QuoteJSONString].
    - [ToNumber] (Module [ToNumber]): [Number(string)], ECMAScript's
      [StringToNumber] (decimal, exponent, hexadecimal, octal and binary
      literals, [Infinity], whitespace), as [Node] applies it to the
      port.
    - [Config]: the port (line 9) and the store address (line 33), each
      [process.env.X || default] over an environment of string variables.
    - [Listen]: [app.listen(port)] (line 135) as Node reads its
      argument: a TCP port, a pipe name, or [ERR_SOCKET_BAD_PORT].
    - [FormBody] (Module [Form]): the URL-encoded body parser of line
      12, body-parser's parameter guard ([413]) and Node's
      [querystring.parse] with its decoding fallbacks; [form_encode], a
      form as a browser submits it.
    - [Schema]: the Mongoose schemas of the two models (their files are
      not under [src/]; they follow the spec's data model) and Mongoose
      casting of documents and query filters, the implicit [_id] path
      of type ObjectId ([cast_objectid]: 24 hexadecimal digits, kept in
      lower case) included; MongoDB equality matching; [conforms], a
      document well typed against its schema.
    - [Store]: the database state [db] (two collections in natural order,
      fresh [_id]s for documents not given one, MongoDB's unique [_id]
      index: [dup_key], and [insert_ordered] for an ordered [insertMany]
      that stops at the first duplicate), the commands the code awaits ([cmd], one per Mongoose
      call) and their effect [exec]; [prog], a program awaiting commands
      (an [async] function) with [await] for [try]/[catch], and [run],
      its sequential execution under a schedule of store faults;
      the class [Sorter] of the orders [.sort({ id: -1 })] may return,
      with its laws [SorterLaws] (a permutation, descending by the key),
      and [sort_desc], an insertion sort that satisfies them.
    - [Handlers]: the six handlers and [GET /] as [prog response], the
      abstract specification [insert_spec] of [POST /insert_review], and
      the handlers' theorems.
    - [Router]: the middleware of lines 11 to 13 and the route table of
      lines 71 to 122: [dispatch] answers [OPTIONS] ([cors()]), parses
      the body ([parse_body]: [400] on malformed or primitive JSON),
      matches the path as Express's path regexps do ([path_segments],
      [match_segs]: case-insensitive, optional trailing slash,
      non-empty parameters), takes the first route in registration
      order ([find_route]), decodes the parameters ([400] on a bad
      escape) and runs the route's handler, stripping the body for
      [HEAD]; [404] when nothing matches.  [json_body] is
      [express.json()] on the raw bytes of a body (UTF-8 decoding, the
      byte-order mark dropped, strict mode, [JSON.parse]).
    - [Cors]: the headers [cors()] sets with its default options
      ([cors_headers]), and [serve], a request served by the whole
      application.
    - [Frontend]: [App] of [src/server/frontend/src/App.js] as its
      [<Routes>] table ([app_routes]) with react-router 6 matching:
      ranking ([rank_routes]), [decodePath], and the case-insensitive
      static match that ignores trailing slashes ([match_path]).
    - [Seeder]: [read_json] and [load_file] (lines 18 to 31: the file's
      contents decoded by [readFileSync(.., 'utf8')], parsed, [null] on
      an exception) and [seed] (lines 51 to 69).
    - [Concurrency]: configurations of running functions over one
      store, the interleaving step relation [step] and its closure
      [rtc step]; races and invariants.
    - [Liveness]: [bounded n p], a program awaiting at most [n]
      commands; every handler, [dispatch] and [seed] are bounded, so
      every interleaving terminates.
    - [Startup]: the process ([sys]): the configuration of running
      functions, the state of [mongoose.connection] ([conn_state]),
      the listener, the accepted requests and the console output
      ([log_line]); [module_top], the synchronous top level of
      [app.js] from the file system and [__dirname] (the seed paths by
      [NodePath.join], the files read and parsed, then [boot]), and
      [sys_step], the events after it (connection opened or failed,
      listener bound, request accepted, awaited command applied,
      buffered while the connection is not open, timed out while
      buffered, rejected once the initial connection failed; an open
      connection lost and reopened, each opening logged again).
    - [Responses]: the type of a response ([response_typed]: a status
      among those the server answers with and a well-formed JSON
      body), and of a well-formed store ([store_wf]); it holds for
      every body [express.json()] accepts.
    - [Send]: the last stage of [res.json] / [res.send]: the weak ETag
      of the body ([etag_of], the SHA-1 digest a Section variable),
      [req.fresh] with the [fresh] package's tests of [If-None-Match],
      [If-Modified-Since] and [Cache-Control], and [respond], the status
      and body text on the wire: [304] and no body for a fresh request,
      no body for [204] and [HEAD].

    ** What is proved
    - [insert_review] refines [insert_spec] (the new id is the maximum
      id plus one) while the maximum is a safe integer, and the
      sort-then-first computation of the id equals the maximum plus one,
      as a double, whatever order the server returns for ties and
      missing ids ([Handlers]).
    - Bounds of the id arithmetic: [x + 1] on a double is exact exactly
      below 2^53 and returns [x] from 2^54 on ([Double]); there an
      insertion repeats the largest stored id ([Handlers]).
    - A body carrying its own [id] overrides the computed one; on the
      success branch the stored review and the response are given
      exactly; a body's [_id] that is an ObjectId no review has is
      stored lower-cased and answered first, and one that is not an
      ObjectId, or repeats a stored one, is a [500] with the store
      unchanged ([Handlers]).
    - The read handlers' result on every branch: store fault, a
      non-numeric [:id] ([NaN], rejected by Mongoose's cast: [500]),
      not found ([404]), found ([Handlers]); the spec's scenario of
      section 8 runs as stated.
    - Seeding: skipped with the store untouched when a file did not
      load (a file saved with a UTF-8 byte-order mark is one), the two collections replaced on success, and not atomic: a
      store fault at any step leaves exactly the effects of the earlier
      steps, a dealership record that fails to cast leaves the
      dealerships empty, a repeated [_id] among the review records stores
      the records before it and stops the seeding, and a seed
      object without its records field is stored as one empty review
      ([Seeder]).
    - Interleavings: the sequential run is one interleaving; two
      concurrent insertions can store the same id while sequential ones
      get consecutive ids; a request served during seeding can see the
      emptied collection; every reachable store keeps well-typed review
      ids, the hypothesis of the id theorems, and more generally keeps
      every document conforming to its schema; after an insertion the
      list of reviews shows the new review with id maximum plus one
      ([Concurrency]).
    - [parseInt] reads back every printed integer up to 2^53 in
      magnitude, with any suffix that ends the numeral ([JsNumber]);
      [Number(String(x))] is [x] for every double ([ToNumber]).
    - The listener: a decimal [PORT] in [0 .. 65535] is the TCP port,
      a larger one makes [listen] throw, a negative one (or any value
      whose [Number] is [NaN]) names a pipe ([Listen]).
    - Liveness: whatever the interleaving, the seeding and any number
      of requests terminate within [5 + 2 * n] store steps and every
      request is answered ([Liveness]).
    - The process: until the connection opens the store is untouched,
      requests are accepted only once the listener is bound, and the
      seeding reports success only after the connection was reported
      open ([Startup]); while the connection has never opened, every
      request already answered got the answer of a store that rejects
      every command, whatever the interleaving, buffering timeouts
      included: each data route's [500], never data; from a normalized
      [__dirname] the seed files read are that directory's
      [reviews.json] and [dealerships.json].
    - Every response [dispatch] sends, under any fault schedule, has one
      of the statuses 200, 204, 400, 404, 413, 500 and a JSON body with
      no repeated key, from a well-formed store, and so for every raw
      body [express.json()] accepts ([Responses]).
    - Conditional requests: a [GET] answered [2xx] and sent with an
      [If-None-Match] of one tag gets [304] and no body exactly when the
      tag is [*] or matches its body's ETag, and its full answer
      otherwise; a [304] only answers a [GET] or [HEAD] whose route answered
      [2xx] and that carried [If-None-Match]; every status on the wire
      is one of the six of [Responses] or [304] ([Send]).
    - JSON text: [JSON.parse] reads back what [JSON.stringify] writes
      (numbers through their shortest digits, escaped strings, nested
      arrays and objects), its fuel never runs out, and what it builds
      has no repeated key ([Json]).
    - Routing: a path built from a route and its encoded parameters runs
      that route's handler on exactly those parameters; the route table
      is order-independent (no two routes match one request); [HEAD]
      runs the [GET] handler with the same effects and no body; a
      parameter with a [%] not followed by two hexadecimal digits is a
      [400], a [POST] on a [GET] path a [404] ([Router]).
    - The front end shows [LoginPanel] at [/login] in any case, with
      encoded letters and trailing slashes, renders exactly the element
      whose route matches, and nothing at [/] or other paths
      ([Frontend]).
    - URL-encoded bodies: every submitted form with distinct keys reads
      back as its key/value object, a repeated key yields an array, and a
      review form is stored with its fields cast from text, while one
      repeating [dealership] is a [500] ([FormBody], [Router]).
    - [decodeURIComponent] inverts [encodeURIComponent] on ASCII text,
      rejects malformed escapes and invalid UTF-8, and its fuel bound
      is sufficient ([UriDecode]).

    ** Modelling choices and bounds
    - Numbers are integral doubles kept as [Z]: the ids, dealership
      ids and years the API handles.  Where the code makes a number
      ([x + 1], [parseInt], [Number(string)]) the value is rounded to a
      double; fractional numbers, and [Infinity] (2^1024 and above,
      from a string of more than 308 digits), are outside the model.
      [Number(string)] is modelled on the integral literals; other
      numeric strings cast as [NaN] would.
    - The server's order for [.sort({ id: -1 })] is left open: the
      handlers run against any [Sorter], and the theorems about sorted
      results hold for every lawful one (ties and documents without an
      [id] may come in any order); the concrete runs and witnesses use
      [insertion_sorter].
    - A store operation is atomic and either takes effect or is rejected
      with no effect; faults are an explicit schedule (sequential runs)
      or a nondeterministic step (interleavings).  [_id]s are numbered
      from a counter in the store.
    - Fuel: every [prog] is a finite tree of awaited commands, [run]
      recurses on it structurally (and [Liveness] bounds its depth:
      two commands for a request, five for the seeding), and most functions on strings and
      lists are structural.  [dec_digits] takes the bit size of its
      argument as fuel, which bounds its number of decimal digits;
      [Uri.decode] takes one more than the length of its input, since
      each call consumes at least one character, and
      [Uri.decode_fuel_enough] shows that any larger fuel gives the same
      result; [Json.json_parse] takes twice the length of the text plus
      one, since every nested call consumes a character or descends
      into a value that does ([Json.parse_fuel_enough]).
    - Strings are byte strings ([string] of 8-bit [ascii]); a decoded
      parameter keeps its UTF-8 bytes, and the round trip through
      [encodeURIComponent] is proved for ASCII text.
    - Key order of JavaScript objects (integer-like keys first) is not
      modelled.  A request body or seed record may give its own [_id]:
      it is cast as an ObjectId, stored first in the document's JSON, and
      a repeat of a stored one is a duplicate key ([Handlers]' theorem
      [insert_review_bad_object_id], [Seeder.seed_duplicate_id]).
      Generated [_id]s are numbers from the store's counter, printed in
      decimal, distinct from each other; that they never equal a given
      24-digit one is an assumption of the model.  [JSON.parse]
      reports a fraction, a number beyond the doubles and an escaped
      lone surrogate as outside the model.

    ** Not modelled (see PROJECT.json)
    The promise [mongoose.connect] returns (never handled by the code),
    binding the listener (an address in use, permissions: the port
    argument itself is modelled in [Listen]; the process ending on
    [ERR_SOCKET_BAD_PORT] is not a step of [Startup]),
    the application object of line 8 and the [require]s of lines 1 to
    6 (module loading), the value of [__dirname] (an input of
    [Startup.module_top]), the response headers Express sets itself other than the ETag
    (and the SHA-1 digest inside it), the pages of Express's
    [finalhandler] for [404] and for the body parsers' errors, non-ASCII bytes in a URL-encoded body,
    and the [LoginPanel] and [Register] components (not under [src/]);
    reading the file system is I/O: a seed file enters the model as its
    contents, or as a read failure. *)

From stdpp Require Import base list strings.
From Stdlib Require Import ZArith Ascii String.

(** ** Fallible results

    Every fallible step of the modelled program (casting a value to a
    schema type, a store operation, a request handler's [try] block)
    returns a [result]: [Ok] with the value, or [Err] with the reason. *)

Inductive result (E A : Type) : Type :=
| Ok (a : A)
| Err (e : E).
Arguments Ok {E A} a.
Arguments Err {E A} e.

#[export] Instance result_eq_dec {E A} `{EqDecision E, EqDecision A} :
  EqDecision (result E A).
Proof. solve_decision. Defined.

Declare Scope api_scope.
Delimit Scope api_scope with api.

(** Sequencing of fallible steps: the first [Err] is propagated. *)
Notation "x <-? c ;; k" :=
  (match c with Ok x => k | Err e => Err e end)
  (at level 100, c at next level, right associativity) : api_scope.

Local Open Scope api_scope.

(** Apply a fallible function to every element, stopping at the first
    error (the behaviour of a [for] loop whose body may throw). *)
Fixpoint mapR {E A B} (f : A -> result E B) (l : list A) : result E (list B) :=
  match l with
  | [] => Ok []
  | a :: l' => b <-? f a ;; bs <-? mapR f l' ;; Ok (b :: bs)
  end.

(** ** Maximum of optional integer keys

    The largest [Some] value of a list, [None] when the list holds no
    [Some]: the shape of "the greatest [id] among documents, some of
    which may have none". *)

Definition max_opt (a b : option Z) : option Z :=
  match a, b with
  | Some x, Some y => Some (Z.max x y)
  | Some x, None => Some x
  | None, o => o
  end.

Definition list_max_opt (l : list (option Z)) : option Z := foldr max_opt None l.

(** ** Path text

    Lower-casing ASCII letters (the [i] flag of a JavaScript regexp,
    whose canonicalisation folds no other character onto an ASCII one),
    and [String.prototype.split("/")] / [Array.prototype.join("/")] on
    byte strings. *)

Definition lower_char (c : ascii) : ascii :=
  let n := N_of_ascii c in
  if ((65 <=? n) && (n <=? 90))%N then ascii_of_N (n + 32) else c.

Definition lower (s : string) : string :=
  string_of_list_ascii (map lower_char (list_ascii_of_string s)).

(** [s.split(sep)] on a byte string. *)
Fixpoint split_on (sep : ascii) (l : list ascii) : list (list ascii) :=
  match l with
  | [] => [[]]
  | c :: l' =>
      if Ascii.eqb c sep then [] :: split_on sep l'
      else match split_on sep l' with
           | [] => [[c]]
           | s :: ss => (c :: s) :: ss
           end
  end.

(** [a.join(sep)]. *)
Fixpoint join_on (sep : ascii) (l : list (list ascii)) : list ascii :=
  match l with
  | [] => []
  | [x] => x
  | x :: l' => x ++ sep :: join_on sep l'
  end.

Create HintDb api discriminated.
Create Rewrite HintDb api_rw.

Ltac invc H := inversion H; subst; clear H.

(** Prove a decidable proposition on closed data by computation. *)
Ltac by_computation := apply (bool_decide_unpack _); vm_compute; reflexivity.

(** Refute a decidable proposition on closed data by computation. *)
Ltac refute_by_computation :=
  apply (bool_decide_eq_false_1 _); vm_compute; reflexivity.

(** ** Lemmas on [mapR] *)

Lemma mapR_Ok_iff {E A B} (f : A -> result E B) l l' :
  mapR f l = Ok l' <-> Forall2 (fun a b => f a = Ok b) l l'.
Proof.
  revert l'; induction l as [|a l IH]; intros l'; simpl.
  - split; [intros [= <-]; constructor | intros H; invc H; done].
  - destruct (f a) as [b|e] eqn:Hf; [|split; [done | intros H; invc H; congruence]].
    destruct (mapR f l) as [bs|e] eqn:Hl.
    + split; [intros [= <-]; constructor; [done | by apply IH]|].
      intros H; invc H. assert (Ok bs = Ok l'0) as [= ->] by (by apply IH).
      congruence.
    + split; [done|]. intros H; invc H. apply IH in H4. congruence.
Qed.

Lemma mapR_length {E A B} (f : A -> result E B) l l' :
  mapR f l = Ok l' -> List.length l' = List.length l.
Proof. intros H%mapR_Ok_iff. symmetry. by eapply Forall2_length. Qed.

Lemma mapR_Err {E A B} (f : A -> result E B) l e :
  mapR f l = Err e -> exists a, a ∈ l /\ f a = Err e.
Proof.
  induction l as [|a l IH]; simpl; [done|].
  destruct (f a) eqn:Hf; [|intros [= ->]; exists a; split; [left | done]].
  destruct (mapR f l) eqn:Hl; [done|].
  intros [= ->]. destruct IH as (a' & Hin & Ha'); [done|].
  exists a'. split; [by right | done].
Qed.

Lemma mapR_app {E A B} (f : A -> result E B) l1 l2 :
  mapR f (l1 ++ l2) =
    (bs1 <-? mapR f l1 ;; bs2 <-? mapR f l2 ;; Ok (bs1 ++ bs2)).
Proof.
  induction l1 as [|a l1 IH]; simpl.
  - by destruct (mapR f l2).
  - rewrite IH. destruct (f a), (mapR f l1), (mapR f l2); done.
Qed.

(** ** Lemmas on [list_max_opt] *)

Lemma max_opt_comm a b : max_opt a b = max_opt b a.
Proof. destruct a, b; simpl; try done; f_equal; lia. Qed.

Lemma max_opt_assoc a b c : max_opt a (max_opt b c) = max_opt (max_opt a b) c.
Proof. destruct a, b, c; simpl; try done; f_equal; lia. Qed.

#[export] Instance list_max_opt_perm : Proper (Permutation ==> eq) list_max_opt.
Proof.
  intros l1 l2 Hp. unfold list_max_opt.
  induction Hp as [| x l1 l2 _ IH | x y l | l1 l2 l3 _ IH1 _ IH2]; simpl.
  - done.
  - by rewrite IH.
  - by rewrite !max_opt_assoc, (max_opt_comm y x).
  - by rewrite IH1.
Qed.

Lemma list_max_opt_cons o l : list_max_opt (o :: l) = max_opt o (list_max_opt l).
Proof. done. Qed.

Lemma list_max_opt_app l1 l2 :
  list_max_opt (l1 ++ l2) = max_opt (list_max_opt l1) (list_max_opt l2).
Proof.
  induction l1 as [|o l1 IH]; [done|].
  by rewrite <-app_comm_cons, !list_max_opt_cons, IH, max_opt_assoc.
Qed.

(** Every key is at most the maximum. *)
Lemma list_max_opt_ge l x :
  Some x ∈ l -> exists m, list_max_opt l = Some m /\ (x <= m)%Z.
Proof.
  induction l as [|o l IH]; [by intros ?%elem_of_nil|].
  rewrite elem_of_cons, list_max_opt_cons. intros [<-|Hin].
  - destruct (list_max_opt l) as [m|]; simpl; eexists; split; [done | lia | done | lia].
  - destruct (IH Hin) as (m & -> & Hm).
    destruct o as [y|]; simpl; eexists; split; [done | lia | done | lia].
Qed.

(** The maximum is one of the keys. *)
Lemma list_max_opt_in l m : list_max_opt l = Some m -> Some m ∈ l.
Proof.
  revert m; induction l as [|o l IH]; intros m; [done|]. rewrite list_max_opt_cons.
  destruct o as [y|], (list_max_opt l) as [z|] eqn:Hl; simpl; intros [= <-];
    rewrite elem_of_cons.
  - destruct (Z.max_spec y z) as [[_ ->]|[_ ->]]; [right; by apply IH | by left].
  - by left.
  - right. by apply IH.
Qed.

Lemma list_max_opt_None l : list_max_opt l = None <-> Forall (fun o => o = None) l.
Proof.
  induction l as [|o l IH]; [split; [constructor | done]|].
  rewrite list_max_opt_cons, Forall_cons, <-IH.
  destruct o, (list_max_opt l); simpl; naive_solver.
Qed.

#[export] Hint Resolve list_max_opt_in : api.
#[export] Hint Rewrite list_max_opt_cons list_max_opt_app : api_rw.

(** ** Strings *)

Lemma string_app_nil_r (s : string) : (s ++ "")%string = s.
Proof. induction s as [|c s IH]; [done|]. rewrite <-IH at 2. reflexivity. Qed.

Lemma list_ascii_of_string_app (s1 s2 : string) :
  String.list_ascii_of_string (s1 ++ s2) =
  String.list_ascii_of_string s1 ++ String.list_ascii_of_string s2.
Proof. induction s1 as [|c s1 IH]; [done|]. simpl. by rewrite IH. Qed.

(** ** Boolean predicates on lists *)

Lemma forallb_Forall {A} (f : A -> bool) l : forallb f l = true <-> Forall (fun x => f x = true) l.
Proof.
  induction l as [|x l IH]; simpl; [split; [constructor|done]|].
  rewrite andb_true_iff, IH, Forall_cons. done.
Qed.

(** ** Splitting and joining paths *)

Section Split.
Context (sep : ascii).

Lemma split_no_sep x : sep ∉ x -> split_on sep x = [x].
Proof.
  induction x as [|c x IH]; [done|]. intros [Hc Hx]%not_elem_of_cons. simpl.
  destruct (Ascii.eqb_spec c sep); [congruence|]. by rewrite IH.
Qed.

Lemma split_on_app x t : sep ∉ x -> split_on sep (x ++ sep :: t) = x :: split_on sep t.
Proof.
  induction x as [|c x IH]; intros Hx; [simpl; by rewrite Ascii.eqb_refl|].
  apply not_elem_of_cons in Hx as [Hc Hx]. simpl.
  destruct (Ascii.eqb_spec c sep); [congruence|]. by rewrite IH.
Qed.

Lemma join_on_cons x y l : join_on sep (x :: y :: l) = x ++ sep :: join_on sep (y :: l).
Proof. done. Qed.

(** Splitting undoes joining pieces that do not contain the separator. *)
Lemma split_join segs :
  segs <> [] -> Forall (fun x => sep ∉ x) segs -> split_on sep (join_on sep segs) = segs.
Proof.
  induction segs as [|x [|y segs] IH]; intros Hne Hs; [done| |].
  - apply Forall_cons in Hs as [Hx _]. by apply split_no_sep.
  - apply Forall_cons in Hs as [Hx Hs]. rewrite join_on_cons, split_on_app, IH by done. done.
Qed.

Lemma join_last segs :
  segs <> [] -> Forall (fun x => x <> [] /\ sep ∉ x) segs ->
  exists c, last (join_on sep segs) = Some c /\ c <> sep.
Proof.
  induction segs as [|x [|y segs] IH]; intros Hne Hs; [done| |].
  - apply Forall_cons in Hs as [[Hx Hxs] _]. simpl.
    destruct (proj2 (last_is_Some x) Hx) as [c Hc]. exists c. split; [done|].
    intros ->. by apply Hxs, last_Some_elem_of.
  - apply Forall_cons in Hs as [_ Hs]. destruct IH as [c [Hc Hc']]; [done|done|].
    exists c. rewrite join_on_cons. by rewrite last_app_cons, last_cons, Hc.
Qed.

End Split.
