(* ===== verification/NodePath.v ===== *)
(** * Node's [path.join] (lines 15 and 16 of [src/app.js])

    [path.join(__dirname, 'reviews.json')] and [path.join(__dirname,
    'dealerships.json')] name the seed files.  On POSIX, Node's
    [path.join] ([lib/path.js], [posix.join]) glues its non-empty
    arguments with ['/'] and hands the result to [posix.normalize],
    which runs [normalizeString]: a loop over the characters of the path
    that keeps the text [res] built so far, the length of its last
    segment [lastSegmentLength], the index [lastSlash] of the last
    separator and the number [dots] of dots of the current segment
    ([-1] once it holds another character).  [normalize_go] is that
    loop, one character per step, and [on_separator] the body run on a
    separator; the JavaScript integers of the state are [Z]s with their
    sentinel [-1].  Strings are byte strings, as in the rest of the
    development.  [join_child] shows that joining a normalized absolute
    directory (such as [__dirname]) with a file name gives the
    directory, a slash and the name. *)

From stdpp Require Import base list strings.
From Stdlib Require Import ZArith Ascii String.
From S2P Require Import Prelude.

Module NodePath.

Local Open Scope Z_scope.

(** ** [normalizeString(path, allowAboveRoot, '/', isPosixPathSeparator)] *)

(** The loop's variables: [res], [lastSegmentLength], [lastSlash], [dots]. *)
Record nstate := NState {
  res : list ascii;
  last_segment_length : Z;
  last_slash : Z;
  dots : Z
}.

Definition zlen {A} (l : list A) : Z := Z.of_nat (List.length l).

(** [s.charCodeAt(k) === c]. *)
Definition char_is (l : list ascii) (k : Z) (c : ascii) : bool :=
  (0 <=? k) && match l !! Z.to_nat k with Some d => bool_decide (d = c) | None => false end.

(** [s.slice(a, b)] for [0 <= a <= b]. *)
Definition str_slice (l : list ascii) (a b : Z) : list ascii :=
  take (Z.to_nat (b - a)) (drop (Z.to_nat a) l).

Fixpoint last_index_go (l : list ascii) (i acc : Z) : Z :=
  match l with
  | [] => acc
  | c :: l' => last_index_go l' (i + 1) (if bool_decide (c = "/"%char) then i else acc)
  end.

(** [res.lastIndexOf('/')]: [-1] when there is none. *)
Definition last_index_of (l : list ascii) : Z := last_index_go l 0 (-1).

(** [res += res.length > 0 ? '/..' : '..'] when [allowAboveRoot]. *)
Definition above_root (allow_above_root : bool) (r : list ascii) (seg : Z) : list ascii * Z :=
  if allow_above_root
  then (if 0 <? zlen r then r ++ ["/"; "."; "."]%char else ["."; "."]%char, 2)
  else (r, seg).

(** The body of the loop on a separator at index [i]: an empty segment
    or [.] is skipped; [..] drops the last segment of [res] (or is
    kept when [res] is empty or ends in [..] and the path is relative);
    any other segment is appended.  Every branch ends with
    [lastSlash = i; dots = 0]. *)
Definition on_separator (allow_above_root : bool) (path : list ascii) (i : Z) (st : nstate)
    : nstate :=
  let '(NState r seg ls d) := st in
  let '(r', seg') :=
    if (ls =? i - 1) || (d =? 1) then (r, seg)
    else if d =? 2 then
      if (zlen r <? 2) || negb (seg =? 2) || negb (char_is r (zlen r - 1) ".")
         || negb (char_is r (zlen r - 2) ".") then
        if 2 <? zlen r then
          let k := last_index_of r in
          if k =? -1 then ([], 0)
          else let r2 := str_slice r 0 k in (r2, zlen r2 - 1 - last_index_of r2)
        else if negb (zlen r =? 0) then ([], 0)
        else above_root allow_above_root r seg
      else above_root allow_above_root r seg
    else ((if 0 <? zlen r then r ++ "/"%char :: str_slice path (ls + 1) i
           else str_slice path (ls + 1) i), i - ls - 1) in
  NState r' seg' i 0.

(** A character other than a separator: [dots] counts the dots of the
    segment, [-1] once it holds another character. *)
Definition on_char (c : ascii) (st : nstate) : nstate :=
  NState (res st) (last_segment_length st) (last_slash st)
    (if bool_decide (c = "."%char) && negb (dots st =? -1) then dots st + 1 else -1).

(** The loop [for (let i = 0; i <= path.length; ++i)]: [cs] is the rest
    of [path] from index [i].  Past the end, a path that ends in a
    separator stops ([break]); otherwise the end counts as one. *)
Fixpoint normalize_go (allow_above_root : bool) (path cs : list ascii) (i : Z) (st : nstate)
    : nstate :=
  match cs with
  | [] => if char_is path (zlen path - 1) "/" then st else on_separator allow_above_root path i st
  | c :: cs' =>
      normalize_go allow_above_root path cs' (i + 1)
        (if bool_decide (c = "/"%char) then on_separator allow_above_root path i st
         else on_char c st)
  end.

Definition normalize_string (allow_above_root : bool) (path : list ascii) : list ascii :=
  res (normalize_go allow_above_root path path 0 (NState [] 0 (-1) 0)).

(** ** [posix.normalize] and [posix.join] *)

Definition normalize (p : string) : string :=
  let l := list_ascii_of_string p in
  match l with
  | [] => "."
  | _ =>
      let is_absolute := char_is l 0 "/" in
      let trailing_separator := char_is l (zlen l - 1) "/" in
      match normalize_string (negb is_absolute) l with
      | [] => if is_absolute then "/" else if trailing_separator then "./" else "."
      | r =>
          let r := if trailing_separator then r ++ ["/"%char] else r in
          string_of_list_ascii (if is_absolute then "/"%char :: r else r)
      end
  end.

(** [joined]: the non-empty arguments separated by ['/']; [undefined]
    when there is none. *)
Definition join_args (args : list string) : option string :=
  foldl (fun acc arg =>
           if String.eqb arg "" then acc
           else match acc with None => Some arg | Some j => Some (j +:+ "/" +:+ arg) end)
        None args.

Definition join (args : list string) : string :=
  match join_args args with None => "." | Some j => normalize j end.

(** ** Paths of plain segments *)

(** A segment that [normalizeString] keeps as it is: not empty, without
    a separator, neither [.] nor [..]. *)
Definition plain_segment (s : list ascii) : bool :=
  bool_decide (s <> []) && bool_decide ("/"%char ∉ s) &&
  negb (bool_decide (s = ["."%char])) && negb (bool_decide (s = ["."; "."]%char)).

Fixpoint sep_join (segs : list (list ascii)) : list ascii :=
  match segs with
  | [] => []
  | [s] => s
  | s :: ss => s ++ "/"%char :: sep_join ss
  end.

(** [res] once the segment [s] is appended. *)
Definition add_seg (r s : list ascii) : list ascii :=
  match r with [] => s | _ => r ++ "/"%char :: s end.

(** [dots] after the characters of [s]. *)
Definition dots_after (d : Z) (s : list ascii) : Z :=
  foldl (fun d c => if bool_decide (c = "."%char) && negb (d =? -1) then d + 1 else -1) d s.

Lemma zlen_app {A} (l1 l2 : list A) : zlen (l1 ++ l2) = zlen l1 + zlen l2.
Proof. unfold zlen. rewrite length_app. lia. Qed.

Lemma zlen_cons {A} (x : A) l : zlen (x :: l) = zlen l + 1.
Proof. unfold zlen. simpl. lia. Qed.

Lemma plain_segment_spec s :
  plain_segment s = true <->
  s <> [] /\ "/"%char ∉ s /\ s <> ["."%char] /\ s <> ["."; "."]%char.
Proof.
  unfold plain_segment. rewrite !andb_true_iff, !negb_true_iff, !bool_decide_eq_true,
    !bool_decide_eq_false. tauto.
Qed.

(** The characters of a segment only move [dots]. *)
Lemma go_chars allow path s cs i st :
  "/"%char ∉ s ->
  normalize_go allow path (s ++ cs) i st =
    normalize_go allow path cs (i + zlen s)
      (NState (res st) (last_segment_length st) (last_slash st) (dots_after (dots st) s)).
Proof.
  revert i st. induction s as [|c s IH]; intros i [r seg ls d] Hs.
  - rewrite Z.add_0_r. reflexivity.
  - apply not_elem_of_cons in Hs as [Hc Hs]. cbn [app normalize_go].
    rewrite bool_decide_false by congruence. rewrite IH by done.
    f_equal. rewrite zlen_cons. lia.
Qed.

Lemma dots_after_stuck s : dots_after (-1) s = -1.
Proof.
  unfold dots_after. induction s as [|c s IH]; [done|]. cbn [foldl].
  by rewrite Z.eqb_refl, andb_false_r.
Qed.

Lemma dots_after_count d s :
  0 <= d ->
  dots_after d s = if forallb (fun c => bool_decide (c = "."%char)) s then d + zlen s else -1.
Proof.
  revert d. induction s as [|c s IH]; intros d Hd; [simpl; unfold zlen; simpl; lia|].
  unfold dots_after in *. cbn [foldl forallb].
  destruct (bool_decide (c = "."%char)); cbn [andb negb].
  - replace (d =? -1) with false by lia. simpl. rewrite IH by lia.
    destruct (forallb _ s); [rewrite zlen_cons; lia | done].
  - apply dots_after_stuck.
Qed.

(** A plain segment ends with [dots] neither [1] nor [2]. *)
Lemma dots_after_plain s :
  plain_segment s = true -> dots_after 0 s <> 1 /\ dots_after 0 s <> 2.
Proof.
  intros (Hne & _ & H1 & H2)%plain_segment_spec. rewrite dots_after_count by lia.
  destruct (forallb _ s) eqn:Hf; [|lia].
  destruct s as [|a [|b [|c s]]]; try done; simpl in Hf; rewrite ?andb_true_iff, ?bool_decide_eq_true in Hf.
  - exfalso. apply H1. f_equal. tauto.
  - exfalso. apply H2. destruct Hf as (-> & -> & _). done.
  - unfold zlen. simpl. lia.
Qed.

Lemma slice_app pre s rest : str_slice (pre ++ s ++ rest) (zlen pre) (zlen pre + zlen s) = s.
Proof.
  unfold str_slice, zlen. rewrite !Nat2Z.id.
  replace (Z.to_nat _) with (List.length s) by lia.
  by rewrite drop_app_length, take_app_length.
Qed.

(** The separator (or the end) after a plain segment appends it to [res]. *)
Lemma on_separator_segment allow pre s rest r seg :
  plain_segment s = true ->
  on_separator allow (pre ++ s ++ rest) (zlen pre + zlen s)
    (NState r seg (zlen pre - 1) (dots_after 0 s)) =
  NState (add_seg r s) (zlen s) (zlen pre + zlen s) 0.
Proof.
  intros Hp. pose proof (dots_after_plain s Hp) as [D1 D2].
  pose proof Hp as (Hne & Hs & _)%plain_segment_spec. unfold on_separator.
  assert (0 < zlen s) by (destruct s; [done | rewrite zlen_cons; unfold zlen; lia]).
  replace (zlen pre - 1 =? zlen pre + zlen s - 1) with false by lia.
  rewrite (proj2 (Z.eqb_neq _ _) D1), (proj2 (Z.eqb_neq _ _) D2). cbn [orb].
  replace (zlen pre - 1 + 1) with (zlen pre) by lia. rewrite slice_app.
  replace (zlen pre + zlen s - (zlen pre - 1) - 1) with (zlen s) by lia.
  destruct r as [|x r]; [done|]. cbn [add_seg]. rewrite zlen_cons.
  destruct (Z.ltb_spec 0 (zlen r + 1)); [done | unfold zlen in *; lia].
Qed.

(** A plain segment followed by a separator is appended to [res]. *)
Lemma go_segment_sep allow pre s rest r seg :
  plain_segment s = true ->
  normalize_go allow (pre ++ s ++ "/"%char :: rest) (s ++ "/"%char :: rest) (zlen pre)
    (NState r seg (zlen pre - 1) 0) =
  normalize_go allow (pre ++ s ++ "/"%char :: rest) rest (zlen pre + zlen s + 1)
    (NState (add_seg r s) (zlen s) (zlen pre + zlen s) 0).
Proof.
  intros Hp. pose proof Hp as (_ & Hs & _)%plain_segment_spec.
  rewrite go_chars by done. cbn [normalize_go res last_segment_length last_slash dots].
  rewrite (bool_decide_eq_true_2 ("/"%char = "/"%char)) by done.
  by rewrite on_separator_segment.
Qed.

(** A path whose last character is not a separator does not stop early. *)
Lemma char_is_last_segment pre s :
  s <> [] -> "/"%char ∉ s -> char_is (pre ++ s) (zlen (pre ++ s) - 1) "/" = false.
Proof.
  intros Hne Hs. unfold char_is. rewrite zlen_app.
  assert (0 < zlen s) by (destruct s; [done | rewrite zlen_cons; unfold zlen; lia]).
  destruct (Z.leb_spec 0 (zlen pre + zlen s - 1)); [|done]. cbn [andb].
  rewrite lookup_app_r by (unfold zlen in *; lia).
  destruct (s !! _) as [d|] eqn:E; [|done].
  apply bool_decide_eq_false_2. intros ->. by apply Hs, (list_elem_of_lookup_2 _ _ _ E).
Qed.

(** A plain segment at the end of the path is appended to [res]. *)
Lemma go_segment_end allow pre s r seg :
  plain_segment s = true ->
  normalize_go allow (pre ++ s) s (zlen pre) (NState r seg (zlen pre - 1) 0) =
    NState (add_seg r s) (zlen s) (zlen pre + zlen s) 0.
Proof.
  intros Hp. pose proof Hp as (Hne & Hs & _)%plain_segment_spec.
  pose proof (go_chars allow (pre ++ s) s [] (zlen pre) (NState r seg (zlen pre - 1) 0) Hs) as E.
  rewrite app_nil_r in E. rewrite E. cbn [normalize_go res last_segment_length last_slash dots].
  rewrite char_is_last_segment by done.
  rewrite <-(app_nil_r s) at 1. by rewrite on_separator_segment.
Qed.

(** A separator right after another is skipped. *)
Lemma go_slash allow path rest i r seg :
  normalize_go allow path ("/"%char :: rest) i (NState r seg (i - 1) 0) =
    normalize_go allow path rest (i + 1) (NState r seg i 0).
Proof.
  cbn [normalize_go]. rewrite (bool_decide_eq_true_2 ("/"%char = "/"%char)) by done.
  unfold on_separator. by rewrite Z.eqb_refl.
Qed.

(** Plain segments separated by single separators, after one. *)
Lemma go_segments allow pre segs r seg :
  segs <> [] -> Forall (fun s => plain_segment s = true) segs ->
  res (normalize_go allow (pre ++ sep_join segs) (sep_join segs) (zlen pre)
         (NState r seg (zlen pre - 1) 0)) = foldl add_seg r segs.
Proof.
  revert pre r seg. induction segs as [|s [|s' ss] IH]; intros pre r seg Hne Hp; [done| |].
  - apply Forall_cons in Hp as [Hs _]. cbn [sep_join foldl]. by rewrite go_segment_end.
  - apply Forall_cons in Hp as [Hs Hp].
    change (sep_join (s :: s' :: ss)) with (s ++ "/"%char :: sep_join (s' :: ss)).
    rewrite go_segment_sep by done. cbn [foldl].
    assert (Hl : zlen (pre ++ s ++ ["/"%char]) = zlen pre + zlen s + 1)
      by (rewrite !zlen_app; unfold zlen; simpl; lia).
    replace (pre ++ s ++ "/"%char :: sep_join (s' :: ss))
      with ((pre ++ s ++ ["/"%char]) ++ sep_join (s' :: ss)) by (by rewrite <-!app_assoc).
    rewrite <-Hl. replace (zlen pre + zlen s) with (zlen (pre ++ s ++ ["/"%char]) - 1) by lia.
    by apply IH.
Qed.

Lemma foldl_add_seg_cons r segs :
  r <> [] -> foldl add_seg r segs = r ++ List.concat (map (fun s => "/"%char :: s) segs).
Proof.
  revert r. induction segs as [|s ss IH]; intros r Hr; [by rewrite app_nil_r|].
  cbn [foldl map List.concat]. destruct r as [|x r]; [done|]. cbn [add_seg].
  rewrite IH by (destruct r; done). by rewrite <-!app_assoc.
Qed.

Lemma sep_join_cons s ss : sep_join (s :: ss) = s ++ List.concat (map (fun t => "/"%char :: t) ss).
Proof.
  revert s. induction ss as [|s' ss IH]; intros s; [by rewrite app_nil_r|].
  change (sep_join (s :: s' :: ss)) with (s ++ "/"%char :: sep_join (s' :: ss)). by rewrite IH.
Qed.

Lemma foldl_add_seg_sep_join segs :
  Forall (fun s => plain_segment s = true) segs -> foldl add_seg [] segs = sep_join segs.
Proof.
  destruct segs as [|s ss]; [done|]. intros [Hs _]%Forall_cons.
  apply plain_segment_spec in Hs as [Hne _]. cbn [foldl add_seg].
  by rewrite foldl_add_seg_cons, sep_join_cons.
Qed.

(** The text of plain segments ends with a plain segment. *)
Lemma sep_join_last segs :
  segs <> [] -> Forall (fun s => plain_segment s = true) segs ->
  exists pre t, sep_join segs = pre ++ t /\ plain_segment t = true.
Proof.
  induction segs as [|s [|s' ss] IH]; intros Hne Hp; [done| |].
  - apply Forall_cons in Hp as [Hs _]. by exists [], s.
  - apply Forall_cons in Hp as [Hs Hp]. destruct (IH ltac:(done) Hp) as (pre & t & E & Ht).
    exists (s ++ "/"%char :: pre), t. split; [|done].
    change (sep_join (s :: s' :: ss)) with (s ++ "/"%char :: sep_join (s' :: ss)).
    rewrite E. by rewrite <-app_assoc.
Qed.

(** Separators after a separator are skipped. *)
Lemma go_slashes allow path k rest i r seg :
  normalize_go allow path (replicate k "/"%char ++ rest) i (NState r seg (i - 1) 0) =
    normalize_go allow path rest (i + Z.of_nat k) (NState r seg (i + Z.of_nat k - 1) 0).
Proof.
  revert i. induction k as [|k IH]; intros i.
  - by rewrite !Z.add_0_r.
  - cbn [replicate app]. rewrite go_slash.
    replace (NState r seg i 0) with (NState r seg (i + 1 - 1) 0) by (f_equal; lia).
    rewrite IH. replace (i + 1 + Z.of_nat k) with (i + Z.of_nat (S k)) by lia. done.
Qed.

(** [normalize] of an absolute path without a trailing separator is
    [normalizeString]'s result after one separator, when there is one. *)
Lemma normalize_absolute_spec l r :
  char_is l 0 "/" = true -> char_is l (zlen l - 1) "/" = false ->
  normalize_string false l = r -> r <> [] ->
  normalize (string_of_list_ascii l) = string_of_list_ascii ("/"%char :: r).
Proof.
  intros H0 H1 Hn Hr. unfold normalize. rewrite list_ascii_of_string_of_list_ascii.
  destruct l as [|a l]; [done|]. cbv zeta. rewrite H0, H1. cbn [negb]. rewrite Hn.
  by destruct r.
Qed.

(** [normalize] of an absolute path of plain segments (after any number
    of separators) is that path with a single leading separator. *)
Lemma normalize_absolute k segs :
  segs <> [] -> Forall (fun s => plain_segment s = true) segs ->
  normalize (string_of_list_ascii (replicate (S k) "/"%char ++ sep_join segs)) =
    string_of_list_ascii ("/"%char :: sep_join segs).
Proof.
  intros Hne Hp. destruct (sep_join_last segs Hne Hp) as (pre & t & E & Ht).
  pose proof Ht as (Htne & Hts & _)%plain_segment_spec.
  apply normalize_absolute_spec; [done | | | rewrite E; by destruct pre, t].
  - rewrite E, app_assoc. by apply char_is_last_segment.
  - unfold normalize_string. rewrite <-(app_nil_r (replicate (S k) _ ++ sep_join segs)) at 2.
    rewrite <-app_assoc, go_slashes, app_nil_r. cbn -[replicate].
    replace (0 + Z.of_nat (S k)) with (zlen (replicate (S k) "/"%char))
      by (unfold zlen; rewrite length_replicate; lia).
    rewrite go_segments by done. by apply foldl_add_seg_sep_join.
Qed.

Lemma sep_join_snoc l t : l <> [] -> sep_join (l ++ [t]) = sep_join l ++ "/"%char :: t.
Proof.
  intros Hl. destruct l as [|s l]; [done|]. cbn [app]. rewrite !sep_join_cons.
  rewrite List.map_app, List.concat_app, <-!app_assoc. simpl. by rewrite app_nil_r.
Qed.

Lemma list_ascii_of_string_concat segs :
  list_ascii_of_string (String.concat "/" segs) = sep_join (map list_ascii_of_string segs).
Proof.
  induction segs as [|s [|s' ss] IH]; [done | by cbn |].
  change (String.concat "/" (s :: s' :: ss)) with (s +:+ "/" +:+ String.concat "/" (s' :: ss)).
  rewrite !list_ascii_of_string_app, IH. done.
Qed.

Lemma string_eq_ascii s t : list_ascii_of_string s = list_ascii_of_string t -> s = t.
Proof.
  intros H. rewrite <-(string_of_list_ascii_of_string s), H. apply string_of_list_ascii_of_string.
Qed.

(** Lines 15 and 16: [path.join(dir, name)] for an absolute directory
    of plain segments (the root [/] when there is none), such as the
    [__dirname] Node gives a module, and a plain file name is the
    directory, one separator and the name. *)
Theorem join_child segs name :
  Forall (fun s => plain_segment (list_ascii_of_string s) = true) segs ->
  plain_segment (list_ascii_of_string name) = true ->
  NodePath.join ["/" +:+ String.concat "/" segs; name] = "/" +:+ String.concat "/" (segs ++ [name]).
Proof.
  intros Hs Hn. pose proof Hn as (Hne & _)%plain_segment_spec.
  unfold join, join_args. cbn [foldl].
  rewrite (proj2 (String.eqb_neq ("/" +:+ String.concat "/" segs) "")) by (cbn; discriminate).
  rewrite (proj2 (String.eqb_neq name "")) by (intros ->; by apply Hne).
  apply string_eq_ascii. rewrite <-(string_of_list_ascii_of_string (_ +:+ "/" +:+ name)).
  rewrite !list_ascii_of_string_app, !list_ascii_of_string_concat, map_app.
  assert (Hp : Forall (fun s => plain_segment s = true) (map list_ascii_of_string segs ++ [list_ascii_of_string name]))
    by (apply Forall_app; split; [by apply Forall_fmap | by constructor]).
  change (list_ascii_of_string "/") with ["/"%char]. rewrite <-app_assoc. cbn [app].
  destruct segs as [|s ss].
  - pose proof (normalize_absolute 1 [list_ascii_of_string name] ltac:(done) ltac:(done)) as E.
    cbn [replicate app sep_join map] in E |- *. by rewrite E, list_ascii_of_string_of_list_ascii.
  - rewrite <-sep_join_snoc by done.
    change [list_ascii_of_string name] with (map list_ascii_of_string [name]) in Hp |- *.
    rewrite <-!map_app in Hp |- *.
    pose proof (normalize_absolute 0 (map list_ascii_of_string ((s :: ss) ++ [name])) ltac:(simpl; discriminate) Hp) as E.
    cbn [replicate app] in E |- *. by rewrite E, list_ascii_of_string_of_list_ascii.
Qed.

(** ** Concrete instances *)

Lemma join_child_witness :
  NodePath.join ["/srv/app"; "reviews.json"] = "/srv/app/reviews.json" /\
  NodePath.join ["/"; "dealerships.json"] = "/dealerships.json".
Proof.
  split.
  - apply (join_child ["srv"; "app"] "reviews.json"); vm_compute; repeat constructor.
  - apply (join_child [] "dealerships.json"); vm_compute; repeat constructor.
Defined.

(** Directories that are not normalized: [..] climbs, [.], repeated
    and trailing separators vanish, a relative path stays relative. *)
Example join_examples :
  NodePath.join ["/srv/app/"; "../x/./y//z/"] = "/srv/x/y/z/" /\
  NodePath.join ["/a"; "../../b"] = "/b" /\
  NodePath.join ["a/b"; "../../.."; "c"] = "../c" /\
  NodePath.join [""; ""] = "." /\
  NodePath.join ["a/.."; "..."] = "...".
Proof. vm_compute. repeat split. Qed.

End NodePath.
