(* ===== verification/Double.v ===== *)
(** * JavaScript numbers as IEEE 754 doubles, on integral values

    A JavaScript number is a binary64 double: 53 significant bits.  The
    integers the API handles (ids, dealership ids) are doubles with an
    integral value, and the model keeps such a value as a [Z].  Where
    the code computes a new number, [(documents[0]?.id ?? 0) + 1] on
    line 126 of [src/app.js], the exact sum is rounded to the nearest
    double, ties to even, as IEEE 754 addition does:
    - [round_double]: that rounding, on an integer (the exact sum of two
      integral doubles is an integer);
    - [is_double]: the integers a double holds exactly;
    - [js_succ]: [x + 1] on an integral double.
    Below 2^53 every integer is a double and [x + 1] is exact; above, the
    spacing of the doubles is 2 or more and [x + 1] rounds.  The range
    of the finite doubles (below 2^1024) is never left by [x + 1], whose
    result is at most the largest double. *)

From stdpp Require Import base tactics.
From Stdlib Require Import ZArith Lia SpecFloat.
From S2P Require Import Prelude.

Module Double.

Local Open Scope Z_scope.

(** The significand width of binary64. *)
Definition prec : Z := 53.

(** The number of low bits a double of magnitude [a] cannot hold: the
    doubles between [2 ^ e] and [2 ^ (e + 1)] are spaced by
    [2 ^ (e - 52)]. *)
Definition drop_bits (a : Z) : Z := Z.max 0 (Z.log2 a - (prec - 1)).

(** Round to nearest, ties to even, of an integer. *)
Definition round_double (z : Z) : Z :=
  let a := Z.abs z in
  let u := 2 ^ drop_bits a in
  let q := a / u in
  let q' := match Z.compare (2 * (a mod u)) u with
            | Lt => q
            | Gt => q + 1
            | Eq => if Z.even q then q else q + 1
            end in
  Z.sgn z * (q' * u).

(** An integer a finite double holds exactly. *)
Definition is_double (z : Z) : bool :=
  (Z.abs z mod 2 ^ drop_bits (Z.abs z) =? 0) && (Z.abs z <? 2 ^ 1024).

(** [x + 1] for an integral double [x]. *)
Definition js_succ (x : Z) : Z := round_double (x + 1).

(** ** Lemmas *)

Lemma drop_bits_nonneg a : 0 <= drop_bits a.
Proof. unfold drop_bits. lia. Qed.

(** A number whose low bits are clear is its own rounding. *)
Lemma round_double_exact z :
  Z.abs z mod 2 ^ drop_bits (Z.abs z) = 0 -> round_double z = z.
Proof.
  intros H. unfold round_double. rewrite H.
  pose proof (drop_bits_nonneg (Z.abs z)).
  assert (Hu : 0 < 2 ^ drop_bits (Z.abs z)) by (apply Z.pow_pos_nonneg; lia).
  replace (2 * 0) with 0 by lia. destruct (Z.compare_spec 0 (2 ^ drop_bits (Z.abs z))); [lia| |lia].
  assert (E : Z.abs z / 2 ^ drop_bits (Z.abs z) * 2 ^ drop_bits (Z.abs z) = Z.abs z).
  { rewrite Z.mul_comm. symmetry. apply Z.div_exact; [lia | exact H]. }
  rewrite E. destruct z; simpl; lia.
Qed.

(** Rounding is symmetric. *)
Lemma round_double_opp z : round_double (- z) = - round_double z.
Proof. unfold round_double. rewrite Z.abs_opp, Z.sgn_opp. lia. Qed.

(** Below [2 ^ 53] no bit is dropped. *)
Lemma drop_bits_small a : 0 < a < 2 ^ 53 -> drop_bits a = 0.
Proof.
  intros Ha. unfold drop_bits, prec.
  assert (Z.log2 a < 53) by (apply Z.log2_lt_pow2; lia). lia.
Qed.

(** Every integer of magnitude at most [2 ^ 53] is a double. *)
Lemma round_double_small z : Z.abs z <= 2 ^ 53 -> round_double z = z.
Proof.
  intros Hz. apply round_double_exact.
  destruct (Z.eq_dec (Z.abs z) (2 ^ 53)) as [->|Hne].
  - reflexivity.
  - destruct (Z.eq_dec z 0) as [->|]; [reflexivity|].
    rewrite drop_bits_small by lia. apply Z.mod_1_r.
Qed.

Lemma js_succ_small x : -2 ^ 53 - 1 <= x < 2 ^ 53 -> js_succ x = x + 1.
Proof. intros Hx. apply round_double_small. lia. Qed.

Lemma log2_large a n : 0 <= n -> 2 ^ n <= a -> n <= Z.log2 a.
Proof. intros Hn Ha. rewrite <-(Z.log2_pow2 n) by done. by apply Z.log2_le_mono. Qed.

Lemma drop_bits_large a : 2 ^ 53 <= a -> drop_bits a = Z.log2 a - 52.
Proof. intros Ha. apply log2_large in Ha; [|lia]. unfold drop_bits, prec. lia. Qed.

Lemma pow2_even k : 1 <= k -> (2 | 2 ^ k).
Proof.
  intros Hk. exists (2 ^ (k - 1)). rewrite Z.mul_comm, <-Z.pow_succ_r by lia. f_equal. lia.
Qed.

(** From [2 ^ 53] on, every double is even. *)
Lemma round_double_even z : 2 ^ 53 <= Z.abs z -> (2 | round_double z).
Proof.
  intros Hz. unfold round_double. apply Z.divide_mul_r, Z.divide_mul_r, pow2_even.
  rewrite drop_bits_large by done. apply log2_large in Hz; lia.
Qed.

Lemma is_double_divide m : is_double m = true -> (2 ^ drop_bits (Z.abs m) | m).
Proof.
  unfold is_double. intros [Hm _]%andb_prop. apply Z.eqb_eq in Hm.
  pose proof (Z.pow_pos_nonneg 2 (drop_bits (Z.abs m))) as Hp.
  apply Z.divide_abs_r, Z.mod_divide; [|done]. pose proof (drop_bits_nonneg (Z.abs m)). lia.
Qed.

Lemma is_double_even m : is_double m = true -> 2 ^ 53 <= Z.abs m -> (2 | m).
Proof.
  intros Hm Hl. eapply Z.divide_trans; [|by apply is_double_divide].
  apply pow2_even. rewrite drop_bits_large by done. apply log2_large in Hl; lia.
Qed.

(** [x + 1] is exact below [2 ^ 53] only. *)
Lemma js_succ_exact m :
  0 <= m -> is_double m = true -> js_succ m = m + 1 <-> m < 2 ^ 53.
Proof.
  intros Hm Hd. split; [|intros; apply js_succ_small; lia].
  intros E. destruct (Z.lt_ge_cases m (2 ^ 53)) as [|Hl]; [done|exfalso].
  pose proof (round_double_even (m + 1)) as H1. unfold js_succ in E. rewrite E in H1.
  destruct H1 as [c Hc]; [lia|]. destruct (is_double_even m Hd) as [d Hdd]; lia.
Qed.

(** [m + 1] is not a power of two when [m] is even and large. *)
Lemma log2_succ_even m : 2 <= m -> (2 | m) -> Z.log2 (m + 1) = Z.log2 m.
Proof.
  intros Hm [c Hc]. destruct (Z.log2_succ_or m) as [H|H]; [exfalso|done].
  destruct (Z.log2_eq_succ_is_pow2 m H) as [b Hb].
  destruct (Z.lt_trichotomy b 0) as [Hb0|[->|Hb0]].
  - rewrite Z.pow_neg_r in Hb by done. lia.
  - simpl in Hb. lia.
  - destruct (pow2_even b) as [d Hd]; lia.
Qed.

(** From [2 ^ 54] on, the doubles are at least 4 apart and [x + 1]
    rounds back to [x]. *)
Lemma js_succ_large m : is_double m = true -> 2 ^ 54 <= m -> js_succ m = m.
Proof.
  intros Hd Hm. pose proof (log2_large m 54 ltac:(lia) Hm) as Hl.
  pose proof (is_double_divide m Hd) as Hq.
  rewrite Z.abs_eq, drop_bits_large in Hq by lia.
  set (k := Z.log2 m - 52) in Hq. destruct Hq as [q Hq].
  assert (Hpk : 2 ^ 2 <= 2 ^ k) by (apply Z.pow_le_mono_r; lia).
  assert (Hk : drop_bits (m + 1) = k).
  { rewrite drop_bits_large by lia. rewrite log2_succ_even; [done|lia|].
    exists (q * 2 ^ (k - 1)). rewrite Hq, <-Z.mul_assoc, (Z.mul_comm (2 ^ _)), <-Z.pow_succ_r by lia.
    do 2 f_equal. lia. }
  unfold js_succ, round_double. rewrite Z.abs_eq, Hk by lia.
  replace (m + 1) with (1 + q * 2 ^ k) by lia.
  rewrite Z.mod_add, Z.mod_small, Z.div_add by lia. rewrite (Z.div_small 1) by lia.
  destruct (Z.compare_spec (2 * 1) (2 ^ k)); [lia| |lia].
  rewrite Z.sgn_pos by lia. lia.
Qed.

Lemma is_double_round x : is_double x = true -> round_double x = x.
Proof.
  unfold is_double. intros [Hm _]%andb_prop. apply Z.eqb_eq in Hm. by apply round_double_exact.
Qed.

(** The rounded quotient is at least the truncated one. *)
Lemma round_double_quot a :
  0 <= a -> a / 2 ^ drop_bits a * 2 ^ drop_bits a <= round_double a.
Proof.
  intros Ha. unfold round_double. rewrite Z.abs_eq by done.
  pose proof (drop_bits_nonneg a). assert (0 < 2 ^ drop_bits a) by (apply Z.pow_pos_nonneg; lia).
  assert (0 <= a / 2 ^ drop_bits a) by (apply Z.div_pos; lia).
  destruct (Z.eq_dec a 0) as [->|Hne]; [rewrite Z.div_0_l; simpl Z.sgn; lia|]. rewrite Z.sgn_pos by lia.
  destruct (_ ?= _); try destruct (Z.even _); nia.
Qed.

(** Rounding keeps a number at or above a power of two from [2 ^ 53] on
    there. *)
Lemma round_double_ge_pow m a : 53 <= m -> 2 ^ m <= a -> 2 ^ m <= round_double a.
Proof.
  intros Hm Ha. assert (2 ^ 53 <= 2 ^ m) by (apply Z.pow_le_mono_r; lia).
  assert (H53 : 2 ^ 53 <= a) by lia.
  pose proof (round_double_quot a ltac:(lia)) as Hq.
  pose proof (log2_large a m ltac:(lia) Ha) as Hl. rewrite drop_bits_large in Hq by done.
  assert (Hp : 2 ^ Z.log2 a <= a) by (apply Z.log2_spec; lia).
  assert (Hsplit : 2 ^ Z.log2 a = 2 ^ 52 * 2 ^ (Z.log2 a - 52))
    by (rewrite <-Z.pow_add_r by lia; f_equal; lia).
  assert (H52 : 2 ^ 52 <= a / 2 ^ (Z.log2 a - 52))
    by (apply Z.div_le_lower_bound; [apply Z.pow_pos_nonneg|]; lia).
  assert (0 < 2 ^ (Z.log2 a - 52)) by (apply Z.pow_pos_nonneg; lia).
  assert (2 ^ 52 * 2 ^ (Z.log2 a - 52) <= a / 2 ^ (Z.log2 a - 52) * 2 ^ (Z.log2 a - 52))
    by (apply Z.mul_le_mono_nonneg_r; lia).
  assert (2 ^ m <= 2 ^ Z.log2 a) by (apply Z.pow_le_mono_r; lia).
  lia.
Qed.

Lemma round_double_ge a : 2 ^ 53 <= a -> 2 ^ 53 <= round_double a.
Proof. apply round_double_ge_pow. lia. Qed.

Lemma round_double_nonneg a : 0 <= a -> 0 <= round_double a.
Proof.
  intros Ha. pose proof (round_double_quot a Ha). pose proof (drop_bits_nonneg a).
  assert (0 < 2 ^ drop_bits a) by (apply Z.pow_pos_nonneg; lia).
  assert (0 <= a / 2 ^ drop_bits a) by (apply Z.div_pos; lia). nia.
Qed.

(** [round_double] agrees with the Standard Library's IEEE 754 model
    ([SpecFloat], binary64: precision 53, [emax] 1024) around the
    boundaries of exactness. *)
Definition sf_value (f : spec_float) : option Z :=
  match f with
  | S754_zero _ => Some 0
  | S754_finite sg m e => Some (cond_Zopp sg (Z.shiftl (Z.pos m) e))
  | _ => None
  end.

Lemma round_double_specfloat :
  Forall (fun z => sf_value (binary_normalize 53 1024 z 0 false) = Some (round_double z))
    [0; 1; -7; 2 ^ 53 - 1; 2 ^ 53; 2 ^ 53 + 1; 2 ^ 53 + 2; 2 ^ 53 + 3; -(2 ^ 53 + 3);
     2 ^ 54 + 1; 2 ^ 54 + 2; 2 ^ 54 + 6; 2 ^ 60 + 2 ^ 7; 2 ^ 60 + 2 ^ 7 + 1; 3 * 2 ^ 70 - 1].
Proof. repeat constructor. Qed.

(** Between [2 ^ 53] and [2 ^ 54] the doubles are 2 apart and [x + 1]
    is halfway: it rounds to the neighbour with an even significand. *)
Lemma js_succ_band m :
  is_double m = true -> 2 ^ 53 <= m < 2 ^ 54 ->
  js_succ m = if Z.even (m / 2) then m else m + 2.
Proof.
  intros Hd Hm. pose proof (log2_large m 53 ltac:(lia) (proj1 Hm)) as Hl.
  assert (Hl' : Z.log2 m < 54) by (apply Z.log2_lt_pow2; lia).
  destruct (is_double_even m Hd ltac:(rewrite Z.abs_eq by lia; lia)) as [q Hq].
  assert (Hk : drop_bits (m + 1) = 1).
  { rewrite drop_bits_large by lia. rewrite log2_succ_even; [lia|lia|by exists q]. }
  unfold js_succ, round_double. rewrite Z.abs_eq, Hk by lia. change (2 ^ 1) with 2.
  replace (m + 1) with (1 + q * 2) by lia. rewrite Z.mod_add, Z.div_add by lia.
  change (1 mod 2) with 1. change (1 / 2) with 0. rewrite Z.add_0_l. simpl (Z.compare _ _).
  replace (m / 2) with q by (rewrite Hq; symmetry; apply Z.div_mul; lia).
  rewrite Z.sgn_pos by lia. change ((2 * 1 ?= 2)%positive) with Eq. destruct (Z.even q); lia.
Qed.

(** ** Properties *)

(** C18: [x + 1] on a non-negative integral double [x] is exact exactly
    when [x] is below [2 ^ 53]; between [2 ^ 53] and [2 ^ 54] it is a
    tie, rounded to even ([x] or [x + 2]); from [2 ^ 54] on it gives
    [x] itself, the doubles there being 4 or more apart. *)
Theorem js_succ_bounds m :
  0 <= m -> is_double m = true ->
  (js_succ m = m + 1 <-> m < 2 ^ 53) /\
  (2 ^ 53 <= m < 2 ^ 54 -> js_succ m = if Z.even (m / 2) then m else m + 2) /\
  (2 ^ 54 <= m -> js_succ m = m).
Proof.
  intros Hm Hd. split_and!; [by apply js_succ_exact | by apply js_succ_band | by apply js_succ_large].
Qed.

Lemma js_succ_bounds_witness :
  js_succ (2 ^ 53 - 1) = 2 ^ 53 /\ js_succ (2 ^ 54) = 2 ^ 54.
Proof.
  split.
  - apply (proj2 (proj1 (js_succ_bounds (2 ^ 53 - 1) ltac:(lia) eq_refl))). lia.
  - apply (proj2 (proj2 (js_succ_bounds (2 ^ 54) ltac:(lia) eq_refl))). lia.
Defined.

End Double.
