(* ===== verification/JsNumber.v ===== *)
(** * JavaScript integer conversions used by the route handlers

    [src/app.js] turns the [:id] path parameter into a number with
    [parseInt(req.params.id)] (lines 84 and 113), and JavaScript prints
    numbers back as decimal strings (object keys, [String(n)]).  This
    file models both on the integer values the API handles:
    - [to_dec_string]: the decimal numeral of an integer (what
      [Number::toString] prints below [2 ^ 53], and how [_id]s and
      array indices are printed);
    - [number_to_string]: [Number::toString] on an integral double: the
      shortest decimal significand that rounds back to the number
      ([shortest]), written out below [10 ^ 21] and in exponent
      notation from there;
    - [parseInt]: ECMA-262 [parseInt(string)] with the radix argument
      omitted, as the handlers call it; [None] is [NaN].
    Characters are the 8-bit [ascii] of the Standard Library; the
    whitespace [parseInt] skips is the ASCII part of ECMAScript's
    WhiteSpace and LineTerminator sets. *)

From stdpp Require Import base list.
From Stdlib Require Import ZArith NArith Ascii String.
From S2P Require Import Prelude Double.

Module JsNumber.

(** ** Characters *)

(** ECMAScript WhiteSpace or LineTerminator, ASCII part:
    TAB, LF, VT, FF, CR and SPACE. *)
Definition is_ws (c : ascii) : bool :=
  let n := N_of_ascii c in
  ((9 <=? n) && (n <=? 13) || (n =? 32))%N.

(** Value of a character as a digit of radix up to 36:
    [0-9] then [a-z] / [A-Z]. *)
Definition digit_value (c : ascii) : option N :=
  let n := N_of_ascii c in
  if ((48 <=? n) && (n <=? 57))%N then Some (n - 48)%N
  else if ((97 <=? n) && (n <=? 122))%N then Some (n - 87)%N
  else if ((65 <=? n) && (n <=? 90))%N then Some (n - 55)%N
  else None.

Definition radix_digit (r : N) (c : ascii) : option N :=
  match digit_value c with
  | Some d => if (d <? r)%N then Some d else None
  | None => None
  end.

(** ** [parseInt] *)

(** [TrimString(s, start)]. *)
Fixpoint trim_start (s : string) : string :=
  match s with
  | String c t => if is_ws c then trim_start t else s
  | EmptyString => EmptyString
  end.

(** The longest prefix of radix-[r] digits, as digit values (steps 11
    and 12 of the algorithm: everything from the first non-digit on is
    ignored). *)
Fixpoint take_digits (r : N) (s : string) : list N :=
  match s with
  | String c t =>
      match radix_digit r c with
      | Some d => d :: take_digits r t
      | None => []
      end
  | EmptyString => []
  end.

(** The mathematical value of a digit sequence in radix [r]. *)
Definition digits_value (r : N) (ds : list N) : N :=
  fold_left (fun acc d => acc * r + d)%N ds 0%N.

(** Steps 4 and 5: an optional sign. *)
Definition split_sign (s : string) : Z * string :=
  match s with
  | String c t =>
      if Ascii.eqb c "-" then (-1, t)%Z
      else if Ascii.eqb c "+" then (1, t)%Z
      else (1, s)%Z
  | EmptyString => (1, s)%Z
  end.

(** Steps 6 to 10 with the radix omitted: radix 16 after a [0x] or
    [0X] prefix, radix 10 otherwise. *)
Definition split_radix (s : string) : N * string :=
  match s with
  | String c0 (String c t) =>
      if Ascii.eqb c0 "0" && (Ascii.eqb c "x" || Ascii.eqb c "X") then (16%N, t)
      else (10%N, s)
  | _ => (10%N, s)
  end.

(** [parseInt(s)]; [None] is [NaN].  The value of the digits is
    rounded to a double.  A zero result carries no sign here: [-0] and
    [+0] are the same integer key for the queries. *)
Definition parseInt (s : string) : option Z :=
  let '(sign, s2) := split_sign (trim_start s) in
  let '(r, s3) := split_radix s2 in
  match take_digits r s3 with
  | [] => None
  | ds => Some (sign * Double.round_double (Z.of_N (digits_value r ds)))%Z
  end.

(** ** [Number(string)] on integer literals *)

(** Every character is a radix-[r] digit: the digits, or [None]. *)
Fixpoint all_digits (r : N) (s : string) : option (list N) :=
  match s with
  | EmptyString => Some []
  | String c t =>
      match radix_digit r c, all_digits r t with
      | Some d, Some ds => Some (d :: ds)
      | _, _ => None
      end
  end.

Fixpoint drop_ws (l : list ascii) : list ascii :=
  match l with
  | c :: l' => if is_ws c then drop_ws l' else l
  | [] => []
  end.

(** [TrimString(s, start+end)]. *)
Definition trim (s : string) : string :=
  string_of_list_ascii (rev (drop_ws (rev (drop_ws (list_ascii_of_string s))))).

(** The radix prefixes of a [NonDecimalIntegerLiteral]. *)
Definition literal_radix (c0 c : ascii) : option N :=
  if Ascii.eqb c0 "0" then
    if Ascii.eqb c "x" || Ascii.eqb c "X" then Some 16%N
    else if Ascii.eqb c "o" || Ascii.eqb c "O" then Some 8%N
    else if Ascii.eqb c "b" || Ascii.eqb c "B" then Some 2%N
    else None
  else None.

Definition nonempty_value (r : N) (o : option (list N)) : option Z :=
  match o with
  | Some ((_ :: _) as ds) => Some (Z.of_N (digits_value r ds))
  | _ => None
  end.

(** [StringToNumber] on the integral literals: the whitespace-only
    string is [0], a [0x] / [0o] / [0b] literal is read in its radix, a
    signed run of decimal digits in radix 10.  [None] stands for every
    other string: [NaN], and also the decimal literals with a fraction
    or an exponent and [Infinity], whose values are not integers. *)
Definition signed_decimal (u : string) : option Z :=
  let '(sign, v) := split_sign u in
  option_map (Z.mul sign) (nonempty_value 10 (all_digits 10 v)).

Definition string_to_int (s : string) : option Z :=
  let u := trim s in
  match u with
  | EmptyString => Some 0%Z
  | String c0 (String c t) =>
      match literal_radix c0 c with
      | Some r => nonempty_value r (all_digits r t)
      | None => signed_decimal u
      end
  | _ => signed_decimal u
  end.

(** ** Decimal printing *)

(** Decimal digits of [n], most significant first; [fuel] bounds the
    number of divisions (any [fuel] with [n < 10 ^ (fuel + 1)] gives the
    exact digits). *)
Fixpoint dec_digits (fuel : nat) (n : N) : list N :=
  match fuel with
  | O => [n]
  | S f => if (n <? 10)%N then [n] else dec_digits f (n / 10)%N ++ [(n mod 10)%N]
  end.

Definition digit_char (d : N) : ascii := ascii_of_N (48 + d).

Fixpoint string_of_digits (ds : list N) : string :=
  match ds with
  | [] => EmptyString
  | d :: ds' => String (digit_char d) (string_of_digits ds')
  end.

Definition pos_to_dec_string (p : positive) : string :=
  string_of_digits (dec_digits (Pos.to_nat (Pos.size p)) (Npos p)).

(** [String(n)] for an integral number [n]. *)
Definition to_dec_string (z : Z) : string :=
  match z with
  | Z0 => "0"
  | Zpos p => pos_to_dec_string p
  | Zneg p => String "-" (pos_to_dec_string p)
  end.

(** ** [Number::toString] (ECMA-262, 6.1.6.1.20)

    [String(x)] prints the shortest decimal significand [s] (of [k]
    digits) such that [s * 10 ^ (n - k)] rounds to [x]; among the
    significands of that length it takes the closest to [x], the even
    one on a tie.  For an integral [x] below [10 ^ 21] the result is the
    integer [s * 10 ^ (n - k)] written out, which above [2 ^ 53] need not
    be [x] itself ([String(2 ** 60)] is ["1152921504606847000"]); from
    [10 ^ 21] on it is written [d.ddde+N]. *)

(** The decimal digits of a positive integer. *)
Definition pos_digits (p : positive) : list N := dec_digits (Pos.to_nat (Pos.size p)) (Npos p).

Definition num_digits (x : Z) : nat :=
  match x with Zpos p => List.length (pos_digits p) | _ => 1 end.

(** The multiple of [q] next to [x] that rounds to [x], the closer one
    (the one with the even quotient on a tie), if there is one. *)
Definition candidate (x q : Z) : option Z :=
  let lo := (x / q * q)%Z in
  let hi := (lo + q)%Z in
  let ok v := Z.eqb (Double.round_double v) x in
  if Z.eqb lo x then Some x
  else match ok lo, ok hi with
       | true, true =>
           match Z.compare (x - lo) (hi - x) with
           | Lt => Some lo
           | Gt => Some hi
           | Eq => if Z.even (x / q) then Some lo else Some hi
           end
       | true, false => Some lo
       | false, true => Some hi
       | false, false => None
       end.

(** The candidates with [k], [k + 1], ... significant digits out of
    the [e] digits of [x]; with [k = e] the candidate is [x]. *)
Fixpoint shortest_from (x : Z) (e k fuel : nat) : Z :=
  match fuel with
  | O => x
  | S f =>
      match candidate x (10 ^ Z.of_nat (e - k)) with
      | Some v => v
      | None => shortest_from x e (S k) f
      end
  end.

(** The integer [String] prints for a non-negative integral double. *)
Definition shortest (x : Z) : Z := shortest_from x (num_digits x) 1 (num_digits x).

Fixpoint drop_zeros (ds : list N) : list N :=
  match ds with 0%N :: ds' => drop_zeros ds' | _ => ds end.

(** The significant digits: without the trailing zeros. *)
Definition strip_zeros (ds : list N) : list N := rev (drop_zeros (rev ds)).

(** [d.ddd] followed by [e+N], for the digits [ds] of the integer. *)
Definition exp_notation (ds : list N) : string :=
  match strip_zeros ds with
  | d :: rest =>
      String (digit_char d)
        ((match rest with [] => ""%string | _ => String "." (string_of_digits rest) end) ++
         "e+" ++ to_dec_string (Z.of_nat (List.length ds) - 1))%string
  | [] => "0"%string
  end.

(** [String(z)] for an integral double [z]. *)
Definition number_to_string (z : Z) : string :=
  let v := shortest (Z.abs z) in
  let body := match v with
              | Zpos p => if (v <? 10 ^ 21)%Z then pos_to_dec_string p else exp_notation (pos_digits p)
              | _ => "0"%string
              end in
  if (z <? 0)%Z then String "-" body else body.

(** A suffix that ends a decimal numeral: empty, or starting with a
    character that is neither a decimal digit nor [x] / [X]. *)
Definition ends_numeral (t : string) : bool :=
  match t with
  | EmptyString => true
  | String c _ =>
      match radix_digit 10 c with
      | Some _ => false
      | None => negb (Ascii.eqb c "x" || Ascii.eqb c "X")
      end
  end.

(** ** Characters by their codes *)

Lemma ascii_eqb_N a b : Ascii.eqb a b = (N_of_ascii a =? N_of_ascii b)%N.
Proof.
  destruct (Ascii.eqb_spec a b) as [->|Hne]; [by rewrite N.eqb_refl|].
  symmetry. apply N.eqb_neq. intros Heq. apply Hne.
  by rewrite <-(ascii_N_embedding a), <-(ascii_N_embedding b), Heq.
Qed.

Lemma N_of_digit_char d : (d < 10)%N -> N_of_ascii (digit_char d) = (48 + d)%N.
Proof. intros Hd. unfold digit_char. apply N_ascii_embedding. lia. Qed.

(** A digit character differs from any character outside ['0'..'9']. *)
Lemma digit_char_eqb d c :
  (d < 10)%N -> negb ((48 <=? N_of_ascii c) && (N_of_ascii c <=? 57))%N = true ->
  Ascii.eqb (digit_char d) c = false.
Proof.
  intros Hd Hc. rewrite ascii_eqb_N, N_of_digit_char by done.
  apply N.eqb_neq. destruct (N.leb_spec 48 (N_of_ascii c)),
    (N.leb_spec (N_of_ascii c) 57); simpl in Hc; done || lia.
Qed.

Lemma is_ws_digit_char d : (d < 10)%N -> is_ws (digit_char d) = false.
Proof.
  intros Hd. unfold is_ws. rewrite N_of_digit_char by done.
  destruct (N.leb_spec 9 (48 + d)), (N.leb_spec (48 + d) 13), (N.eqb_spec (48 + d) 32);
    simpl; done || lia.
Qed.

Lemma radix_digit_char d : (d < 10)%N -> radix_digit 10 (digit_char d) = Some d.
Proof.
  intros Hd. unfold radix_digit, digit_value. rewrite N_of_digit_char by done.
  destruct (N.leb_spec 48 (48 + d)), (N.leb_spec (48 + d) 57); simpl; try lia.
  replace (48 + d - 48)%N with d by lia.
  destruct (N.ltb_spec d 10); [done | lia].
Qed.

#[export] Hint Rewrite N_of_digit_char is_ws_digit_char radix_digit_char
  using lia : api_rw.

(** ** Digit sequences *)

Lemma digits_value_snoc r ds d :
  digits_value r (ds ++ [d]) = (digits_value r ds * r + d)%N.
Proof. unfold digits_value. by rewrite fold_left_app. Qed.

Lemma dec_digits_value f n : digits_value 10 (dec_digits f n) = n.
Proof.
  revert n; induction f as [|f IH]; intros n; simpl; [done|].
  destruct (N.ltb_spec n 10); [done|].
  rewrite digits_value_snoc, IH. pose proof (N.div_mod n 10). lia.
Qed.

Lemma dec_digits_lt f n :
  (n < 10 ^ N.of_nat (S f))%N -> Forall (fun d => d < 10)%N (dec_digits f n).
Proof.
  revert n; induction f as [|f IH]; intros n Hn; simpl.
  - constructor; [|constructor]. simpl in Hn. lia.
  - destruct (N.ltb_spec n 10); [repeat constructor; lia|].
    apply Forall_app; split; [|constructor; [apply N.mod_lt; lia | constructor]].
    apply IH. apply N.Div0.div_lt_upper_bound.
    by rewrite Nat2N.inj_succ, N.pow_succ_r' in Hn.
Qed.

Lemma dec_digits_nonempty f n : dec_digits f n <> [].
Proof.
  revert n; induction f as [|f IH]; intros n; simpl; [done|].
  destruct (n <? 10)%N; [done|]. by destruct (dec_digits f (n / 10)).
Qed.

Lemma take_digits_string_of_digits ds t :
  Forall (fun d => d < 10)%N ds ->
  take_digits 10 (string_of_digits ds ++ t)%string = ds ++ take_digits 10 t.
Proof.
  induction 1 as [|d ds Hd _ IH]; [done|]. simpl.
  autorewrite with api_rw. by rewrite IH.
Qed.

(** The digits printed for a positive number are decimal digits. *)
Lemma pos_dec_digits_lt p :
  Forall (fun d => d < 10)%N (dec_digits (Pos.to_nat (Pos.size p)) (Npos p)).
Proof.
  apply dec_digits_lt.
  assert (Hp : (Npos p < 2 ^ Npos (Pos.size p))%N).
  { change (Npos p < Npos (2 ^ Pos.size p))%N. apply Pos.size_gt. }
  rewrite Nat2N.inj_succ, positive_nat_N.
  eapply N.lt_le_trans; [exact Hp|].
  apply (N.le_trans _ (10 ^ Npos (Pos.size p))); [apply N.pow_le_mono_l; lia|].
  apply N.pow_le_mono_r; lia.
Qed.

Lemma take_digits_ends t : ends_numeral t = true -> take_digits 10 t = [].
Proof. destruct t as [|c t]; simpl; [done|]. by destruct (radix_digit 10 c). Qed.

(** A run of decimal digits followed by a numeral end is read in radix
    10 (no [0x] prefix can be formed). *)
Lemma split_radix_digits ds t :
  Forall (fun d => d < 10)%N ds -> ds <> [] -> ends_numeral t = true ->
  split_radix (string_of_digits ds ++ t)%string = (10%N, string_of_digits ds ++ t)%string.
Proof.
  intros Hds Hne Ht. destruct ds as [|d [|d' ds]]; [done| |].
  - destruct t as [|c t]; simpl in *; [done|].
    destruct (radix_digit 10 c); [done|].
    destruct (Ascii.eqb c "x" || Ascii.eqb c "X"); [done|].
    by rewrite andb_false_r.
  - apply Forall_cons in Hds as [_ Hds]. apply Forall_cons in Hds as [Hd' _].
    simpl. rewrite !(digit_char_eqb d') by done. by rewrite andb_false_r.
Qed.

(** The unsigned reading of a digit run: what [parseInt] computes after
    the sign. *)
Lemma parse_digits sign ds t :
  Forall (fun d => d < 10)%N ds -> ds <> [] -> ends_numeral t = true ->
  (let '(r, s3) := split_radix (string_of_digits ds ++ t)%string in
   match take_digits r s3 with
   | [] => None
   | ds' => Some (sign * Double.round_double (Z.of_N (digits_value r ds')))%Z
   end) = Some (sign * Double.round_double (Z.of_N (digits_value 10 ds)))%Z.
Proof.
  intros Hds Hne Ht. rewrite split_radix_digits by done.
  rewrite take_digits_string_of_digits, take_digits_ends, app_nil_r by done.
  by destruct ds.
Qed.

Lemma trim_split_digits ds t :
  Forall (fun d => d < 10)%N ds -> ds <> [] ->
  split_sign (trim_start (string_of_digits ds ++ t)%string) = (1%Z, string_of_digits ds ++ t)%string.
Proof.
  intros Hds Hne. destruct ds as [|d ds]; [done|].
  apply Forall_cons in Hds as [Hd _]. simpl.
  autorewrite with api_rw. simpl.
  by rewrite !(digit_char_eqb d) by done.
Qed.

(** The decimal text of [z], then a numeral end, reads as [z] rounded
    to a double. *)
Lemma parseInt_dec_prefix z t :
  ends_numeral t = true -> parseInt (to_dec_string z ++ t)%string = Some (Double.round_double z).
Proof.
  intros Ht. unfold parseInt.
  destruct z as [|p|p]; simpl to_dec_string.
  - change "0"%string with (string_of_digits [0%N]).
    rewrite trim_split_digits by (repeat constructor; lia || done).
    by rewrite (parse_digits 1 [0%N]) by (repeat constructor; lia || done).
  - pose proof (pos_dec_digits_lt p). pose proof (dec_digits_nonempty (Pos.to_nat (Pos.size p)) (Npos p)).
    unfold pos_to_dec_string. rewrite trim_split_digits by done.
    rewrite parse_digits, dec_digits_value by done. f_equal. simpl. lia.
  - pose proof (pos_dec_digits_lt p). pose proof (dec_digits_nonempty (Pos.to_nat (Pos.size p)) (Npos p)).
    unfold pos_to_dec_string. simpl.
    rewrite parse_digits, dec_digits_value by done. f_equal.
    change (Zneg p) with (- Zpos p)%Z. rewrite Double.round_double_opp. simpl. lia.
Qed.

(** ** [Number::toString] *)

Lemma candidate_round x q v :
  Double.round_double x = x -> candidate x q = Some v -> Double.round_double v = x.
Proof.
  unfold candidate. intros Hx. destruct (Z.eqb_spec (x / q * q) x); [by intros [= <-]|].
  destruct (Z.eqb_spec (Double.round_double (x / q * q)) x) as [Hlo|Hlo],
           (Z.eqb_spec (Double.round_double (x / q * q + q)) x) as [Hhi|Hhi];
    try destruct (Z.compare _ _); try destruct (Z.even _); intros; simplify_eq; done.
Qed.

(** The integer [String] prints rounds to the number printed. *)
Lemma shortest_round x : Double.round_double x = x -> Double.round_double (shortest x) = x.
Proof.
  intros Hx. unfold shortest. generalize 1%nat as k.
  induction (num_digits x) as [|f IH] at 2; intros k; simpl; [done|].
  destruct (candidate x _) eqn:E; [by eapply candidate_round | apply IH].
Qed.

(** Below [2 ^ 53] no other multiple of a power of ten rounds to [x]. *)
Lemma candidate_small x q v : (0 <= x < 2 ^ 53)%Z -> (0 < q)%Z -> candidate x q = Some v -> v = x.
Proof.
  intros Hx Hq Hc. pose proof (Double.round_double_small x ltac:(lia)) as Hrx.
  pose proof (candidate_round x q v Hrx Hc) as Hv. unfold candidate in Hc.
  assert (0 <= x / q * q <= x)%Z by (split; [apply Z.mul_nonneg_nonneg; [apply Z.div_pos|]|
                                          rewrite Z.mul_comm; apply Z.mul_div_le]; lia).
  destruct (Z.eqb (x / q * q) x); [by injection Hc|].
  assert (Hcases : (v = x / q * q \/ v = x / q * q + q)%Z)
    by (repeat case_match; simplify_eq; auto).
  destruct (Z.le_gt_cases v (2 ^ 53)) as [Hle|Hgt].
  - rewrite Double.round_double_small in Hv; [done|]. destruct Hcases; subst; lia.
  - pose proof (Double.round_double_ge v ltac:(lia)). lia.
Qed.

Lemma shortest_small x : (0 <= x < 2 ^ 53)%Z -> shortest x = x.
Proof.
  intros Hx. unfold shortest. generalize 1%nat as k.
  induction (num_digits x) as [|f IH] at 2; intros k; simpl; [done|].
  destruct (candidate x _) eqn:E; [|apply IH].
  eapply candidate_small; [done| |exact E]. apply Z.pow_pos_nonneg; lia.
Qed.

(** Below [2 ^ 53], [String(z)] is the decimal numeral of [z]. *)
Lemma number_to_string_small z : (Z.abs z < 2 ^ 53)%Z -> number_to_string z = to_dec_string z.
Proof.
  intros Hz. assert (Hp : forall p, (Zpos p < 2 ^ 53)%Z -> (Zpos p <? 10 ^ 21)%Z = true)
    by (intros; apply Z.ltb_lt; lia).
  destruct z as [|p|p]; [done| |]; unfold number_to_string; rewrite shortest_small by lia; cbv zeta.
  - change (Z.abs (Zpos p)) with (Zpos p). rewrite Hp by lia. done.
  - change (Z.abs (Zneg p)) with (Zpos p). rewrite Hp by lia. done.
Qed.

(** Digit sequences of the numbers [String] prints. *)

Lemma dec_digits_head f n : (0 < n)%N -> exists d ds, dec_digits f n = d :: ds /\ (0 < d)%N.
Proof.
  revert n; induction f as [|f IH]; intros n Hn; simpl; [by exists n, []|].
  destruct (N.ltb_spec n 10); [by exists n, []|].
  destruct (IH (n / 10)%N) as (d & ds & -> & Hd); [apply N.div_str_pos; lia|].
  by exists d, (ds ++ [(n mod 10)%N]).
Qed.

Lemma dec_digits_length f n m :
  (n < 10 ^ N.of_nat m)%N -> 1 <= m -> List.length (dec_digits f n) <= m.
Proof.
  revert n m; induction f as [|f IH]; intros n m Hn Hm; simpl; [lia|].
  destruct (N.ltb_spec n 10); simpl; [lia|].
  destruct m as [|[|m]]; [lia| simpl in Hn; lia|].
  rewrite length_app. simpl.
  enough (List.length (dec_digits f (n / 10)) <= S m) by lia.
  apply IH; [|lia]. apply N.Div0.div_lt_upper_bound.
  rewrite Nat2N.inj_succ, N.pow_succ_r' in Hn. lia.
Qed.

Lemma digits_chars ds : list_ascii_of_string (string_of_digits ds) = map digit_char ds.
Proof. induction ds as [|d ds IH]; simpl; [done|]. by rewrite IH. Qed.

Lemma digits_value_zeros ts z :
  digits_value 10 (ts ++ replicate z 0%N) = (digits_value 10 ts * 10 ^ N.of_nat z)%N.
Proof.
  induction z as [|z IH]; [simpl; by rewrite app_nil_r, N.mul_1_r|].
  rewrite replicate_S_end, app_assoc, digits_value_snoc, IH, Nat2N.inj_succ, N.pow_succ_r'. lia.
Qed.

Lemma drop_zeros_spec ds : exists z, ds = replicate z 0%N ++ drop_zeros ds.
Proof.
  induction ds as [|d ds (z & Hz)]; [by exists 0|]. simpl.
  destruct d; [exists (S z); simpl; by f_equal | by exists 0].
Qed.

(** The digits are the significant digits followed by zeros. *)
Lemma strip_zeros_spec ds : exists z, ds = strip_zeros ds ++ replicate z 0%N.
Proof.
  unfold strip_zeros. remember (rev ds) as r eqn:Er. destruct (drop_zeros_spec r) as [z Hz]. exists z.
  assert (Hds : ds = rev r) by (rewrite Er; symmetry; apply rev_involutive).
  rewrite Hds at 1. rewrite Hz at 1. rewrite rev_app_distr. f_equal.
  clear. induction z as [|z IH]; [done|]. simpl. by rewrite IH, <-replicate_S_end.
Qed.

Lemma strip_zeros_head d ds : (0 < d)%N -> exists ts, strip_zeros (d :: ds) = d :: ts.
Proof.
  intros Hd. destruct (strip_zeros_spec (d :: ds)) as [z Hz].
  destruct (strip_zeros (d :: ds)) as [|t ts].
  - destruct z; simpl in Hz; [done|]. injection Hz as ->. lia.
  - injection Hz as -> _. by exists ts.
Qed.

Lemma candidate_nonneg x q v : (0 <= x)%Z -> (0 < q)%Z -> candidate x q = Some v -> (0 <= v)%Z.
Proof.
  intros Hx Hq. assert (0 <= x / q * q)%Z by (apply Z.mul_nonneg_nonneg; [apply Z.div_pos|]; lia).
  unfold candidate. repeat case_match; intros; simplify_eq; lia.
Qed.

Lemma shortest_nonneg x : (0 <= x)%Z -> (0 <= shortest x)%Z.
Proof.
  intros Hx. unfold shortest. generalize 1%nat as k.
  induction (num_digits x) as [|f IH] at 2; intros k; simpl; [done|].
  destruct (candidate x _) eqn:E; [|apply IH].
  eapply candidate_nonneg; [done| |exact E]. apply Z.pow_pos_nonneg; lia.
Qed.

(** The numeral of a non-negative integer: its decimal digits. *)
Lemma to_dec_string_digits k :
  (0 <= k)%Z -> exists ds, list_ascii_of_string (to_dec_string k) = map digit_char ds /\
    Forall (fun d => d < 10)%N ds /\ ds <> [] /\ Z.of_N (digits_value 10 ds) = k.
Proof.
  intros Hk. destruct k as [|p|p]; [|simpl|lia].
  - exists [0%N]. repeat split; [by repeat constructor | done].
  - exists (pos_digits p). unfold pos_to_dec_string, pos_digits. rewrite digits_chars.
    split_and!; [done | apply pos_dec_digits_lt | apply dec_digits_nonempty | by rewrite dec_digits_value].
Qed.

(** C17: [parseInt] reads back the decimal text of every integer a
    double holds exactly (up to [2 ^ 53] in magnitude), and ignores
    whatever follows it once a character ends the numeral: the
    handlers' [parseInt(req.params.id)] on ["42"] or ["42abc"] is [42]. *)
Theorem parseInt_dec_string_suffix z t :
  (Z.abs z <= 2 ^ 53)%Z -> ends_numeral t = true -> parseInt (to_dec_string z ++ t)%string = Some z.
Proof.
  intros Hz Ht. rewrite parseInt_dec_prefix by done. by rewrite Double.round_double_small.
Qed.

(** Above [2 ^ 53] the digits are rounded: the path parameter
    ["9007199254740993"] ([2 ^ 53 + 1]) denotes the dealer id [2 ^ 53]. *)
Example parseInt_rounds : parseInt "9007199254740993" = Some (2 ^ 53)%Z.
Proof. vm_compute. reflexivity. Qed.

(** ** Concrete instances *)

Lemma parseInt_dec_string_suffix_witness : parseInt "-42abc" = Some (-42)%Z.
Proof. apply (parseInt_dec_string_suffix (-42) "abc"); [lia | reflexivity]. Defined.

End JsNumber.
