(* ===== verification/UriDecode.v ===== *)
(** * Percent-decoding of route parameters

    Express hands a route parameter to the handler through
    [decodeURIComponent] ([req.params.id], [req.params.state] at lines
    84, 103 and 113 of [src/app.js]); a malformed escape makes the
    router answer [400].  This file models ECMA-262 [Decode] with an
    empty reserved set on byte strings: an escape [%XY] stands for one
    byte, a byte below [0x80] is a character, and a lead byte
    [110xxxxx] / [1110xxxx] / [11110xxx] must be followed by one to
    three escaped continuation bytes [10xxxxxx] forming the shortest
    UTF-8 encoding of a code point that is not a surrogate and at most
    [U+10FFFF].  Decoded text is kept as its UTF-8 bytes.
    [encodeURIComponent] is modelled for the round trip.

    [decode] consumes at least one character per call; its fuel is the
    length of the input, and [decode_fuel] shows any larger fuel gives
    the same result. *)

From stdpp Require Import base list.
From Stdlib Require Import ZArith NArith Ascii String.
From S2P Require Import Prelude JsNumber.

Module Uri.
Import JsNumber.

(** The value of the escape [%c1c2]. *)
Definition hex_byte (c1 c2 : ascii) : option N :=
  match radix_digit 16 c1, radix_digit 16 c2 with
  | Some h, Some l => Some (h * 16 + l)%N
  | _, _ => None
  end.

(** Continuation bytes that follow a lead byte: [None] for a
    continuation byte or a lead byte of five or more bytes. *)
Definition utf8_extra (b : N) : option nat :=
  if (b <? 0xC0)%N then None
  else if (b <? 0xE0)%N then Some 1
  else if (b <? 0xF0)%N then Some 2
  else if (b <? 0xF8)%N then Some 3
  else None.

Definition is_cont (b : N) : bool := ((0x80 <=? b) && (b <? 0xC0))%N.

(** The code point of a lead byte followed by continuation bytes. *)
Definition code_point (b : N) (bs : list N) : N :=
  let lead := match bs with
              | [_] => N.land b 0x1F
              | [_; _] => N.land b 0x0F
              | _ => N.land b 0x07
              end in
  foldl (fun acc c => acc * 64 + N.land c 0x3F)%N lead bs.

(** A multi-byte sequence is the shortest encoding of a scalar value. *)
Definition valid_seq (b : N) (bs : list N) : bool :=
  let cp := code_point b bs in
  let min := match bs with [_] => 0x80 | [_; _] => 0x800 | _ => 0x10000 end%N in
  ((min <=? cp) && (cp <=? 0x10FFFF) && negb ((0xD800 <=? cp) && (cp <=? 0xDFFF)))%N.

(** [n] escaped continuation bytes. *)
Fixpoint take_cont (n : nat) (l : list ascii) : option (list N * list ascii) :=
  match n with
  | O => Some ([], l)
  | S n' =>
      match l with
      | c :: h1 :: h2 :: rest =>
          if Ascii.eqb c "%" then
            match hex_byte h1 h2 with
            | Some b =>
                if is_cont b then
                  match take_cont n' rest with
                  | Some (bs, r) => Some (b :: bs, r)
                  | None => None
                  end
                else None
            | None => None
            end
          else None
      | _ => None
      end
  end.

Fixpoint decode (fuel : nat) (l : list ascii) : option (list ascii) :=
  match fuel with
  | O => None
  | S f =>
      match l with
      | [] => Some []
      | c :: rest =>
          if Ascii.eqb c "%" then
            match rest with
            | h1 :: h2 :: rest' =>
                match hex_byte h1 h2 with
                | None => None
                | Some b =>
                    if (b <? 0x80)%N then cons (ascii_of_N b) <$> decode f rest'
                    else
                      match utf8_extra b with
                      | None => None
                      | Some n =>
                          match take_cont n rest' with
                          | Some (bs, rest'') =>
                              if valid_seq b bs
                              then app (map ascii_of_N (b :: bs)) <$> decode f rest''
                              else None
                          | None => None
                          end
                      end
                end
            | _ => None
            end
          else cons c <$> decode f rest
      end
  end.

(** [decodeURIComponent(s)]; [None] is the [URIError]. *)
Definition decodeURIComponent (s : string) : option string :=
  let l := list_ascii_of_string s in
  string_of_list_ascii <$> decode (S (List.length l)) l.

(** ** Encoding *)

(** Characters [encodeURIComponent] leaves as they are. *)
Definition unreserved (c : ascii) : bool :=
  let n := N_of_ascii c in
  ((48 <=? n) && (n <=? 57))%N || ((65 <=? n) && (n <=? 90))%N ||
  ((97 <=? n) && (n <=? 122))%N ||
  bool_decide (c ∈ ["-"; "_"; "."; "!"; "~"; "*"; "'"; "("; ")"]%char).

Definition hex_char (d : N) : ascii := ascii_of_N (if (d <? 10)%N then 48 + d else 55 + d)%N.

Definition encode_char (c : ascii) : list ascii :=
  if unreserved c then [c]
  else let n := N_of_ascii c in ["%"%char; hex_char (n / 16)%N; hex_char (n mod 16)%N].

(** [encodeURIComponent] of a string of bytes. *)
Definition encodeURIComponent (s : string) : string :=
  string_of_list_ascii (mjoin (map encode_char (list_ascii_of_string s))).

(** ** Lemmas *)

Lemma take_cont_length n l bs r : take_cont n l = Some (bs, r) -> List.length r <= List.length l.
Proof.
  revert l bs; induction n as [|n IH]; intros l bs; simpl; [intros [= _ <-]; lia|].
  destruct l as [|c [|h1 [|h2 rest]]]; try done.
  destruct (Ascii.eqb c "%"); [|done]. destruct (hex_byte h1 h2) as [b|]; [|done].
  destruct (is_cont b); [|done].
  destruct (take_cont n rest) as [[bs' r']|] eqn:E; [|done]. intros [= _ <-].
  apply IH in E. simpl. lia.
Qed.

(** The result does not depend on the fuel once it exceeds the length. *)
Lemma decode_fuel_indep l f1 f2 :
  List.length l < f1 -> List.length l < f2 -> decode f1 l = decode f2 l.
Proof.
  revert l f2; induction f1 as [|f1 IH]; intros l f2 H1 H2; [lia|].
  destruct f2 as [|f2]; [lia|]. destruct l as [|c rest]; [done|]. cbn [decode].
  destruct (Ascii.eqb c "%").
  - destruct rest as [|h1 [|h2 rest']]; [done|done|].
    destruct (hex_byte h1 h2) as [b|]; [|done].
    destruct (b <? 0x80)%N.
    + simpl in *. rewrite (IH rest' f2) by lia. done.
    + destruct (utf8_extra b) as [n|]; [|done].
      destruct (take_cont n rest') as [[bs r]|] eqn:E; [|done].
      apply take_cont_length in E. simpl in *.
      destruct (valid_seq b bs); [|done]. rewrite (IH r f2) by lia. done.
  - simpl in *. rewrite (IH rest f2) by lia. done.
Qed.

Lemma percent_not_unreserved : unreserved "%" = false.
Proof. reflexivity. Qed.

Lemma radix_hex_char d : (d < 16)%N -> radix_digit 16 (hex_char d) = Some d.
Proof.
  intros Hd.
  assert (d = 0 \/ d = 1 \/ d = 2 \/ d = 3 \/ d = 4 \/ d = 5 \/ d = 6 \/ d = 7 \/
          d = 8 \/ d = 9 \/ d = 10 \/ d = 11 \/ d = 12 \/ d = 13 \/ d = 14 \/ d = 15)%N
    as Hcases by lia.
  repeat destruct Hcases as [->|Hcases]; try reflexivity. subst. reflexivity.
Qed.

Lemma hex_byte_encode c :
  (N_of_ascii c < 128)%N ->
  hex_byte (hex_char (N_of_ascii c / 16)) (hex_char (N_of_ascii c mod 16)) = Some (N_of_ascii c).
Proof.
  intros Hc. unfold hex_byte.
  rewrite !radix_hex_char by (apply N.mod_lt || apply N.Div0.div_lt_upper_bound; lia).
  f_equal. pose proof (N.div_mod (N_of_ascii c) 16). lia.
Qed.

Lemma decode_encode_chars l f :
  Forall (fun c => N_of_ascii c < 128)%N l ->
  List.length (mjoin (map encode_char l)) < f ->
  decode f (mjoin (map encode_char l)) = Some l.
Proof.
  revert f; induction l as [|c l IH]; intros f Hl Hf; [destruct f; simpl in *; [lia | done]|].
  apply Forall_cons in Hl as [Hc Hl]. destruct f as [|f]; [lia|].
  cbn [map mjoin] in *. unfold encode_char in *.
  destruct (unreserved c) eqn:Hu.
  - simpl. destruct (Ascii.eqb_spec c "%") as [->|_]; [by rewrite percent_not_unreserved in Hu|].
    simpl in Hf. rewrite IH by (done || lia). done.
  - simpl. rewrite hex_byte_encode by done.
    destruct (N.ltb_spec (N_of_ascii c) 0x80) as [_|]; [|lia].
    simpl in Hf. rewrite IH by (done || lia). by rewrite ascii_N_embedding.
Qed.

Lemma decode_plain l f :
  "%"%char ∉ l -> List.length l < f -> decode f l = Some l.
Proof.
  revert f; induction l as [|c l IH]; intros f Hl Hf; [destruct f; simpl in *; [lia | done]|].
  destruct f as [|f]; [lia|]. apply not_elem_of_cons in Hl as [Hc Hl]. cbn [decode].
  destruct (Ascii.eqb_spec c "%"); [congruence|]. simpl in Hf. by rewrite IH by (done || lia).
Qed.

(** A character that [encodeURIComponent] escapes and that is neither
    [%] nor a hexadecimal digit never appears in its output. *)
Lemma encode_char_not d c :
  unreserved d = false -> d <> "%"%char -> radix_digit 16 d = None -> d ∉ encode_char c.
Proof.
  intros Hu Hp Hr. unfold encode_char. destruct (unreserved c) eqn:Hc.
  - rewrite list_elem_of_singleton. intros ->. congruence.
  - rewrite !elem_of_cons, elem_of_nil. intros [->|[->|[->|[]]]]; [done| |].
    + rewrite radix_hex_char in Hr; [done|]. apply N.Div0.div_lt_upper_bound.
      pose proof (N_ascii_bounded c). lia.
    + rewrite radix_hex_char in Hr; [done|]. apply N.mod_lt. lia.
Qed.

Lemma encode_char_nonempty c : encode_char c <> [].
Proof. unfold encode_char. by destruct (unreserved c). Qed.

Lemma encode_not d s :
  unreserved d = false -> d <> "%"%char -> radix_digit 16 d = None ->
  d ∉ list_ascii_of_string (encodeURIComponent s).
Proof.
  intros Hu Hp Hr. unfold encodeURIComponent. rewrite list_ascii_of_string_of_list_ascii.
  induction (list_ascii_of_string s) as [|c l IH]; simpl; [apply not_elem_of_nil|].
  rewrite elem_of_app. intros [H|H]; [by eapply encode_char_not | done].
Qed.

Lemma encode_no_slash s : "/"%char ∉ list_ascii_of_string (encodeURIComponent s).
Proof. by apply encode_not. Qed.

Lemma encode_no_amp s : "&"%char ∉ list_ascii_of_string (encodeURIComponent s).
Proof. by apply encode_not. Qed.

Lemma encode_no_eq s : "="%char ∉ list_ascii_of_string (encodeURIComponent s).
Proof. by apply encode_not. Qed.

Lemma encode_no_plus s : "+"%char ∉ list_ascii_of_string (encodeURIComponent s).
Proof. by apply encode_not. Qed.

#[export] Hint Resolve encode_no_slash encode_no_amp encode_no_eq encode_no_plus : api.

Lemma encode_nonempty s : s <> ""%string -> encodeURIComponent s <> ""%string.
Proof.
  unfold encodeURIComponent. destruct s as [|c s]; [done|]. intros _. simpl.
  pose proof (encode_char_nonempty c).
  destruct (encode_char c); [done|]. simpl. discriminate.
Qed.

(** Decoding inverts encoding on ASCII text. *)
Lemma decode_encode_ascii s :
  Forall (fun c => N_of_ascii c < 128)%N (list_ascii_of_string s) ->
  decodeURIComponent (encodeURIComponent s) = Some s.
Proof.
  intros Hs. unfold decodeURIComponent, encodeURIComponent.
  rewrite list_ascii_of_string_of_list_ascii, decode_encode_chars by (done || lia).
  simpl. by rewrite string_of_list_ascii_of_string.
Qed.

(** A malformed escape after text without escapes makes decoding fail. *)
Lemma decode_bad_escape_at pre t f :
  "%"%char ∉ pre -> List.length (pre ++ "%"%char :: t) < f ->
  match t with h1 :: h2 :: _ => hex_byte h1 h2 = None | _ => True end ->
  decode f (pre ++ "%"%char :: t) = None.
Proof.
  revert f; induction pre as [|c pre IH]; intros f Hpre Hf Ht; (destruct f as [|f]; [simpl in Hf; lia|]).
  - cbn [app decode]. rewrite Ascii.eqb_refl. destruct t as [|h1 [|h2 t]]; [done|done|].
    by rewrite Ht.
  - apply not_elem_of_cons in Hpre as [Hc Hpre]. cbn [app decode].
    destruct (Ascii.eqb_spec c "%"); [congruence|]. rewrite IH by (done || simpl in Hf; lia).
    done.
Qed.

(** ** Properties *)

(** C24: [decodeURIComponent] inverts [encodeURIComponent] on ASCII
    text: a parameter a client encodes reaches the handler unchanged. *)
Theorem decodeURIComponent_encode s :
  Forall (fun c => N_of_ascii c < 128)%N (list_ascii_of_string s) ->
  decodeURIComponent (encodeURIComponent s) = Some s.
Proof. apply decode_encode_ascii. Qed.

Lemma decodeURIComponent_encode_witness :
  decodeURIComponent (encodeURIComponent "New York/NY") = Some "New York/NY"%string.
Proof. apply decodeURIComponent_encode. by_computation. Defined.

(** An escape [%] not followed by two hexadecimal digits makes
    [decodeURIComponent] fail (the [URIError] Express answers with
    [400]), whatever text without escapes precedes it and whatever
    follows. *)
Theorem decodeURIComponent_bad_escape pre t :
  "%"%char ∉ list_ascii_of_string pre ->
  match list_ascii_of_string t with h1 :: h2 :: _ => hex_byte h1 h2 = None | _ => True end ->
  decodeURIComponent (pre ++ String "%" t) = None.
Proof.
  intros Hpre Ht. unfold decodeURIComponent. rewrite list_ascii_of_string_app.
  cbn [list_ascii_of_string]. rewrite decode_bad_escape_at by (done || lia). done.
Qed.

Lemma decodeURIComponent_bad_escape_witness :
  decodeURIComponent "Texas%zz%20" = None.
Proof. apply (decodeURIComponent_bad_escape "Texas" "zz%20"); by_computation. Defined.

(** [decode] needs no more fuel than one step per character: any
    fuel above the length of the input gives the result of
    [decodeURIComponent]. *)
Theorem decode_fuel_enough l f :
  List.length l < f -> decode f l = decode (S (List.length l)) l.
Proof. intros Hf. apply decode_fuel_indep; lia. Qed.

Lemma decode_fuel_enough_witness :
  decode 100 (list_ascii_of_string "a%20b") = decode 6 (list_ascii_of_string "a%20b").
Proof. apply (decode_fuel_enough (list_ascii_of_string "a%20b") 100). simpl. lia. Defined.

(** [decodeURIComponent] on UTF-8 escapes: a well-formed three-byte
    sequence decodes to its bytes; an overlong encoding, a surrogate, a
    stray continuation byte and a truncated sequence are errors. *)
Example decodeURIComponent_utf8 :
  decodeURIComponent "%E2%82%AC" = Some (String (ascii_of_N 0xE2) (String (ascii_of_N 0x82)
                                          (String (ascii_of_N 0xAC) EmptyString))) /\
  decodeURIComponent "%C0%80" = None /\ decodeURIComponent "%ED%A0%80" = None /\
  decodeURIComponent "%80" = None /\ decodeURIComponent "%E2%82" = None.
Proof. repeat split; vm_compute; reflexivity. Qed.

End Uri.
