(* ===== verification/JsValue.v ===== *)
(** * JavaScript values and the operators [src/app.js] applies to them

    The server manipulates parsed JSON (the seed files, request bodies,
    documents) with a handful of JavaScript operators; this file models
    the values and those operators:
    - [jval]: null, booleans, integral numbers, [NaN] (which [parseInt]
      can return), strings, arrays and objects (an object is the list of
      its own properties, in insertion order); a variable holding
      [undefined] is [None : option jval];
    - [truthy], [js_or] ([a || b], lines 52, 62 and 63), [js_nullish]
      ([a ?? b], line 126), [opt_get] ([a?.k], line 126) and [get_prop]
      ([a.k]);
    - [obj_set] and [obj_spread]: the object literal
      [{ id: new_id, ...data }] of line 127.
    Well-formed values ([wf]) are those JSON.parse and the object
    operations produce: no object has two properties with one key. *)

From stdpp Require Import base list strings.
From Stdlib Require Import ZArith Ascii String.
From S2P Require Import Prelude JsNumber Double.

Module Js.

Unset Elimination Schemes.
Inductive jval : Type :=
| JNull
| JBool (b : bool)
| JNum (n : Z)
| JNaN
| JStr (s : string)
| JArr (vs : list jval)
| JObj (fs : list (string * jval)).
Set Elimination Schemes.

(** Induction through the elements of arrays and the values of objects. *)
Definition jval_ind (P : jval -> Prop)
  (fnull : P JNull) (fbool : forall b, P (JBool b)) (fnum : forall n, P (JNum n))
  (fnan : P JNaN) (fstr : forall s, P (JStr s))
  (farr : forall vs, Forall P vs -> P (JArr vs))
  (fobj : forall fs, Forall (fun kv => P kv.2) fs -> P (JObj fs)) : forall v, P v :=
  fix F (v : jval) : P v :=
    match v with
    | JNull => fnull
    | JBool b => fbool b
    | JNum n => fnum n
    | JNaN => fnan
    | JStr s => fstr s
    | JArr vs => farr vs ((fix G (l : list jval) : Forall P l :=
        match l with [] => @List.Forall_nil _ P | x :: l' => @List.Forall_cons _ P x l' (F x) (G l') end) vs)
    | JObj fs => fobj fs ((fix G (l : list (string * jval)) : Forall (fun kv => P kv.2) l :=
        match l with [] => @List.Forall_nil _ _ | kv :: l' => @List.Forall_cons _ (fun kv => P kv.2) kv l' (F kv.2) (G l') end) fs)
    end.

Fixpoint jval_eqb (x y : jval) : bool :=
  match x, y with
  | JNull, JNull | JNaN, JNaN => true
  | JBool a, JBool b => Bool.eqb a b
  | JNum a, JNum b => Z.eqb a b
  | JStr a, JStr b => String.eqb a b
  | JArr xs, JArr ys =>
      (fix go (xs ys : list jval) : bool :=
         match xs, ys with
         | [], [] => true
         | x :: xs', y :: ys' => jval_eqb x y && go xs' ys'
         | _, _ => false
         end) xs ys
  | JObj fs, JObj gs =>
      (fix go (fs gs : list (string * jval)) : bool :=
         match fs, gs with
         | [], [] => true
         | (k, x) :: fs', (k', y) :: gs' => String.eqb k k' && jval_eqb x y && go fs' gs'
         | _, _ => false
         end) fs gs
  | _, _ => false
  end.

(** A JavaScript variable or property: [None] is [undefined]. *)
Abbreviation jsv := (option jval).

(** ** Operators *)

(** [ToBoolean]. *)
Definition truthy (v : jsv) : bool :=
  match v with
  | None | Some JNull | Some JNaN => false
  | Some (JBool b) => b
  | Some (JNum n) => negb (Z.eqb n 0)
  | Some (JStr s) => negb (String.eqb s "")
  | Some (JArr _) | Some (JObj _) => true
  end.

(** [a || b]: [a] when it is truthy, [b] otherwise. *)
Definition js_or (a b : jsv) : jsv := if truthy a then a else b.

(** [a ?? b]: [b] when [a] is [null] or [undefined]. *)
Definition js_nullish (a b : jsv) : jsv :=
  match a with
  | None | Some JNull => b
  | Some _ => a
  end.

(** Own property [k] of an object's property list (the first, which for
    well-formed objects is the only one). *)
Fixpoint prop (fs : list (string * jval)) (k : string) : jsv :=
  match fs with
  | [] => None
  | (k', v) :: fs' => if String.eqb k' k then Some v else prop fs' k
  end.

(** [v.k] on a value that is not [null] or [undefined]: only objects have
    own data properties among the keys the server reads ([reviews],
    [dealerships], [id]); arrays and primitives yield [undefined]. *)
Definition get_prop (v : jval) (k : string) : jsv :=
  match v with
  | JObj fs => prop fs k
  | _ => None
  end.

(** [a?.k]: [undefined] when [a] is [null] or [undefined]. *)
Definition opt_get (a : jsv) (k : string) : jsv :=
  match a with
  | None => None
  | Some v => get_prop v k
  end.

(** Assignment of property [k] while building an object: an existing
    property keeps its position and takes the new value, a new one is
    appended. *)
Fixpoint obj_set (k : string) (v : jval) (fs : list (string * jval)) : list (string * jval) :=
  match fs with
  | [] => [(k, v)]
  | (k', w) :: fs' => if String.eqb k' k then (k', v) :: fs' else (k', w) :: obj_set k v fs'
  end.

(** The own enumerable properties copied by [...v] in an object
    literal: an object's properties, an array's or a string's elements
    under their index, nothing for other values. *)
Definition spread_entries (v : jsv) : list (string * jval) :=
  match v with
  | Some (JObj fs) => fs
  | Some (JArr vs) =>
      zip (map (fun i => JsNumber.to_dec_string (Z.of_nat i)) (seq 0 (List.length vs))) vs
  | Some (JStr s) =>
      zip (map (fun i => JsNumber.to_dec_string (Z.of_nat i)) (seq 0 (String.length s)))
          (map (fun c => JStr (String c EmptyString)) (list_ascii_of_string s))
  | _ => []
  end.

(** [{ ...fs, ...v }]: the properties of [v] assigned in order. *)
Definition obj_spread (fs : list (string * jval)) (v : jsv) : list (string * jval) :=
  foldl (fun acc kv => obj_set kv.1 kv.2 acc) fs (spread_entries v).

(** [ToString] of a value; an array is joined with commas, its [null]
    elements printed empty ([Array.prototype.join]). *)
Fixpoint to_js_string (v : jval) : string :=
  match v with
  | JNull => "null"
  | JBool b => if b then "true" else "false"
  | JNum n => JsNumber.number_to_string n
  | JNaN => "NaN"
  | JStr s => s
  | JArr vs =>
      (fix join (l : list jval) : string :=
         match l with
         | [] => ""
         | x :: l' =>
             let e := match x with JNull => ""%string | _ => to_js_string x end in
             match l' with [] => e | _ => (e +:+ "," +:+ join l')%string end
         end) vs
  | JObj _ => "[object Object]"
  end%string.

(** [v + 1]: string concatenation when [ToPrimitive(v)] is a string
    (strings, arrays, objects), numeric addition otherwise, rounded to
    a double ([Double.js_succ]). *)
Definition add_one (v : jval) : jval :=
  match v with
  | JNull => JNum 1
  | JBool b => JNum (if b then 2 else 1)
  | JNum n => JNum (Double.js_succ n)
  | JNaN => JNaN
  | JStr s => JStr (s +:+ "1")
  | JArr _ | JObj _ => JStr (to_js_string v +:+ "1")
  end%string.

(** ** Well-formedness: no object has a repeated key *)

Fixpoint wf (v : jval) : Prop :=
  match v with
  | JArr vs => (fix go (l : list jval) : Prop :=
      match l with [] => True | x :: l' => wf x /\ go l' end) vs
  | JObj fs => NoDup fs.*1 /\ (fix go (l : list (string * jval)) : Prop :=
      match l with [] => True | kv :: l' => wf kv.2 /\ go l' end) fs
  | _ => True
  end.

(** ** Equality *)

Lemma jval_eqb_spec x y : jval_eqb x y = true <-> x = y.
Proof.
  revert y; induction x as [| b | n | | s | xs IH | fs IH]; intros [];
    simpl; try (split; congruence).
  - rewrite Bool.eqb_true_iff. naive_solver.
  - rewrite Z.eqb_eq. naive_solver.
  - rewrite String.eqb_eq. naive_solver.
  - revert vs; induction IH as [|x xs Hx _ IHxs]; intros [|y ys]; try (split; congruence).
    rewrite andb_true_iff, Hx, IHxs. naive_solver.
  - revert fs0; induction IH as [|[k x] fs Hx _ IHfs]; intros [|[k' y] gs];
      try (split; congruence).
    rewrite !andb_true_iff, String.eqb_eq, Hx, IHfs. naive_solver.
Qed.

#[export] Instance jval_eq_dec : EqDecision jval.
Proof.
  intros x y. destruct (jval_eqb x y) eqn:E.
  - left. by apply jval_eqb_spec.
  - right. intros ->. assert (jval_eqb y y = true) by (by apply jval_eqb_spec). congruence.
Defined.

(** ** Object properties *)

Lemma prop_notin fs k : k ∉ fs.*1 -> prop fs k = None.
Proof.
  induction fs as [|[k' v] fs IH]; simpl; [done|].
  rewrite not_elem_of_cons. intros [Hne Hin].
  destruct (String.eqb_spec k' k); [congruence | auto].
Qed.

Lemma prop_obj_set k v fs k' :
  prop (obj_set k v fs) k' = if String.eqb k k' then Some v else prop fs k'.
Proof.
  induction fs as [|[k0 w] fs IH]; simpl; [done|].
  destruct (String.eqb_spec k0 k) as [->|Hne]; simpl.
  - by destruct (String.eqb k k').
  - rewrite IH. destruct (String.eqb_spec k0 k'), (String.eqb_spec k k'); congruence.
Qed.

Lemma obj_set_keys k v fs :
  (obj_set k v fs).*1 = if decide (k ∈ fs.*1) then fs.*1 else fs.*1 ++ [k].
Proof.
  induction fs as [|[k0 w] fs IH]; [done|]. cbn [obj_set].
  destruct (String.eqb_spec k0 k) as [->|Hne]; rewrite !fmap_cons; simpl fst.
  - rewrite decide_True by apply list_elem_of_here. done.
  - rewrite IH. destruct (decide (k ∈ fs.*1)).
    + rewrite decide_True by (by apply list_elem_of_further). done.
    + rewrite decide_False by (rewrite elem_of_cons; naive_solver). done.
Qed.

Lemma obj_set_NoDup k v fs : NoDup fs.*1 -> NoDup (obj_set k v fs).*1.
Proof.
  intros Hnd. rewrite obj_set_keys. case_decide; [done|].
  apply NoDup_app; split_and!; [done | | apply NoDup_singleton].
  intros x Hx ->%list_elem_of_singleton. done.
Qed.

#[export] Hint Resolve obj_set_NoDup : api.

(** Spreading an object with distinct keys: its properties win, the
    others are kept. *)
Lemma prop_spread_props fs gs k :
  NoDup gs.*1 ->
  prop (foldl (fun acc kv => obj_set kv.1 kv.2 acc) fs gs) k =
    match prop gs k with Some v => Some v | None => prop fs k end.
Proof.
  revert fs; induction gs as [|[k0 v0] gs IH]; intros fs Hnd; simpl; [done|].
  apply NoDup_cons in Hnd as [Hk0 Hnd]. rewrite IH by done.
  rewrite prop_obj_set. destruct (String.eqb_spec k0 k) as [->|Hne].
  - by rewrite prop_notin.
  - done.
Qed.

Lemma spread_NoDup fs gs :
  NoDup fs.*1 -> NoDup (foldl (fun acc kv => obj_set kv.1 kv.2 acc) fs gs).*1.
Proof.
  revert fs; induction gs as [|kv gs IH]; intros fs Hnd; simpl; [done|].
  apply IH. by auto with api.
Qed.

(** ** Well-formed values through the object operations *)

(** The values of a property list are well formed. *)
Definition values_wf (fs : list (string * jval)) : Prop := Forall (fun kv => wf kv.2) fs.

Lemma wf_obj fs : wf (JObj fs) <-> NoDup fs.*1 /\ values_wf fs.
Proof.
  simpl. apply and_iff_compat_l. unfold values_wf.
  induction fs as [|kv fs IH]; [split; auto|]. by rewrite Forall_cons, IH.
Qed.

Lemma wf_arr vs : wf (JArr vs) <-> Forall wf vs.
Proof. simpl. induction vs as [|v vs IH]; [split; auto|]. by rewrite Forall_cons, IH. Qed.

Lemma prop_elem fs k v : prop fs k = Some v -> (k, v) ∈ fs.
Proof.
  induction fs as [|[k' w] fs IH]; simpl; [done|].
  destruct (String.eqb_spec k' k) as [->|]; [intros [= ->]; apply list_elem_of_here|].
  intros H. apply list_elem_of_further, IH, H.
Qed.

Lemma prop_wf fs k v : values_wf fs -> prop fs k = Some v -> wf v.
Proof. intros Hfs Hp. apply prop_elem in Hp. by apply (proj1 (Forall_forall _ _) Hfs _ Hp). Qed.

Lemma obj_set_Forall (P : jval -> Prop) k v fs :
  Forall (fun kv => P kv.2) fs -> P v -> Forall (fun kv => P kv.2) (obj_set k v fs).
Proof.
  induction fs as [|[k' w] fs IH]; simpl; intros Hfs Hv; [by repeat constructor|].
  apply Forall_cons in Hfs as [Hw Hfs].
  destruct (String.eqb k' k); constructor; auto.
Qed.

Lemma obj_set_wf k v fs : values_wf fs -> wf v -> values_wf (obj_set k v fs).
Proof. apply obj_set_Forall. Qed.

Lemma prop_None_notin fs k : prop fs k = None -> k ∉ fs.*1.
Proof.
  induction fs as [|[k' w] fs IH]; simpl; [intros _; apply not_elem_of_nil|].
  destruct (String.eqb_spec k' k); [done|]. intros H%IH. simpl. rewrite not_elem_of_cons. done.
Qed.

Lemma zip_values_wf (ks : list string) vs : Forall wf vs -> values_wf (zip ks vs).
Proof.
  unfold values_wf. revert ks. induction vs as [|v vs IH]; intros [|k ks] Hvs; simpl; try constructor.
  - by apply Forall_cons in Hvs as [? _].
  - apply IH. by apply Forall_cons in Hvs as [_ ?].
Qed.

Lemma spread_entries_wf v : default True (wf <$> v) -> values_wf (spread_entries v).
Proof.
  destruct v as [[| | | | s | vs | fs]|]; simpl; intros Hv; try constructor.
  - apply zip_values_wf, Forall_forall. intros w ([c ?] & -> & _)%list_elem_of_fmap. done.
  - by apply zip_values_wf, wf_arr.
  - by apply wf_obj.
Qed.

(** [{ ...fs, ...v }] of well-formed values is well formed. *)
Lemma obj_spread_wf fs v :
  NoDup fs.*1 -> values_wf fs -> default True (wf <$> v) -> wf (JObj (obj_spread fs v)).
Proof.
  intros Hnd Hfs Hv. apply wf_obj. unfold obj_spread. split; [by apply spread_NoDup|].
  pose proof (spread_entries_wf v Hv) as He. revert fs Hnd Hfs He.
  generalize (spread_entries v). intros l. induction l as [|kv l IH]; intros fs Hnd Hfs He; [done|].
  apply Forall_cons in He as [Hkv He]. simpl. apply IH; [by auto with api | by apply obj_set_wf | done].
Qed.

End Js.
