(* ===== verification/Json.v ===== *)
(** * JSON text: [JSON.parse] and [JSON.stringify]

    The server reads JSON text in three places: the seed files
    ([JSON.parse(fs.readFileSync(..))], lines 22 and 28 of
    [src/app.js]), request bodies ([express.json()], line 13, which
    calls [JSON.parse]), and it writes JSON text with every [res.json]
    (lines 76 to 129, [JSON.stringify]).  This file models both
    functions of ECMA-262 (25.5) on the values of [JsValue]:
    - [json_parse]: a recursive-descent parser over the bytes of the
      text (the UTF-8 encoding of its characters).  An object literal
      assigns its properties in order, so a repeated key keeps its first
      position and takes its last value ([obj_set]).  A number is the
      double nearest to its decimal value;
    - [json_stringify]: the text [JSON.stringify] writes, numbers by
      [Number::toString] ([JsNumber.number_to_string]), [NaN] as
      [null], strings quoted with the escapes of [QuoteJSONString].
    The parser fails with [SyntaxError] where [JSON.parse] throws one.
    Two outcomes lie outside the model, whose numbers are integral
    doubles and whose strings are byte strings: a number literal whose
    value is not an integer or is beyond the doubles ([Infinity]), and a
    [\u] escape of a lone surrogate; the parser reports them as
    [OutsideModel].  [OutOfFuel] is never the result of [json_parse]
    ([json_parse_total]): the fuel is twice the length of the text. *)

From stdpp Require Import base list strings.
From Stdlib Require Import ZArith NArith Ascii String.
From S2P Require Import Prelude Double JsNumber UriDecode JsValue.

Module Json.
Import Js JsNumber.

Local Open Scope api_scope.

Inductive perr := SyntaxError | OutsideModel | OutOfFuel.

#[export] Instance perr_eq_dec : EqDecision perr.
Proof. solve_decision. Defined.

(** ** Lexical structure *)

(** JSON whitespace: space, tab, line feed, carriage return. *)
Definition json_ws (c : ascii) : bool :=
  let n := N_of_ascii c in ((n =? 32) || (n =? 9) || (n =? 10) || (n =? 13))%N.

Fixpoint skip_ws (l : list ascii) : list ascii :=
  match l with
  | c :: r => if json_ws c then skip_ws r else l
  | [] => []
  end.

Fixpoint strip_prefix (p l : list ascii) : option (list ascii) :=
  match p, l with
  | [], _ => Some l
  | a :: p', b :: l' => if Ascii.eqb a b then strip_prefix p' l' else None
  | _ :: _, [] => None
  end.

(** The character an escape [\c] denotes, for the escapes other than
    [\u]. *)
Definition escape_char (c : ascii) : option ascii :=
  match N_of_ascii c with
  | 34%N | 92%N | 47%N => Some c
  | 98%N => Some (ascii_of_N 8)
  | 102%N => Some (ascii_of_N 12)
  | 110%N => Some (ascii_of_N 10)
  | 114%N => Some (ascii_of_N 13)
  | 116%N => Some (ascii_of_N 9)
  | _ => None
  end.

Definition hex4 (c1 c2 c3 c4 : ascii) : option N :=
  match Uri.hex_byte c1 c2, Uri.hex_byte c3 c4 with
  | Some h, Some l => Some (h * 256 + l)%N
  | _, _ => None
  end.

Definition is_high (u : N) : bool := ((0xD800 <=? u) && (u <=? 0xDBFF))%N.
Definition is_low (u : N) : bool := ((0xDC00 <=? u) && (u <=? 0xDFFF))%N.

(** The UTF-8 bytes of a code point. *)
Definition utf8_encode (cp : N) : list ascii :=
  let b n := ascii_of_N n in
  if (cp <? 0x80)%N then [b cp]
  else if (cp <? 0x800)%N then [b (0xC0 + cp / 64); b (0x80 + cp mod 64)]%N
  else if (cp <? 0x10000)%N then
    [b (0xE0 + cp / 4096); b (0x80 + (cp / 64) mod 64); b (0x80 + cp mod 64)]%N
  else [b (0xF0 + cp / 262144); b (0x80 + (cp / 4096) mod 64);
        b (0x80 + (cp / 64) mod 64); b (0x80 + cp mod 64)]%N.

Definition cons_fst (b : list ascii) (res : result perr (list ascii * list ascii))
    : result perr (list ascii * list ascii) :=
  match res with Ok (s, r) => Ok (b ++ s, r) | Err e => Err e end.

(** The characters of a string literal after its opening quote, and the
    text after its closing quote. *)
Fixpoint lex_string (l : list ascii) : result perr (list ascii * list ascii) :=
  match l with
  | [] => Err SyntaxError
  | c :: r =>
      if Ascii.eqb c "034" then Ok ([], r)
      else if Ascii.eqb c "\" then
        match r with
        | [] => Err SyntaxError
        | e :: r' =>
            match escape_char e with
            | Some b => cons_fst [b] (lex_string r')
            | None =>
                if negb (Ascii.eqb e "u") then Err SyntaxError else
                match r' with
                | h1 :: h2 :: h3 :: h4 :: r'' =>
                    match hex4 h1 h2 h3 h4 with
                    | None => Err SyntaxError
                    | Some u =>
                        (* a lone surrogate: outside the model, unless the
                           rest of the literal is a syntax error *)
                        let lone := match lex_string r'' with Ok _ => Err OutsideModel | Err e => Err e end in
                        if is_high u then
                          match r'' with
                          | b1 :: b2 :: k1 :: k2 :: k3 :: k4 :: r3 =>
                              if Ascii.eqb b1 "\" && Ascii.eqb b2 "u" then
                                match hex4 k1 k2 k3 k4 with
                                | Some u2 =>
                                    if is_low u2 then
                                      cons_fst (utf8_encode (0x10000 + (u - 0xD800) * 1024 + (u2 - 0xDC00))%N)
                                               (lex_string r3)
                                    else lone
                                | None => lone
                                end
                              else lone
                          | _ => lone
                          end
                        else if is_low u then lone
                        else cons_fst (utf8_encode u) (lex_string r'')
                    end
                | _ => Err SyntaxError
                end
            end
        end
      else if (N_of_ascii c <? 32)%N then Err SyntaxError
      else cons_fst [c] (lex_string r)
  end.

(** ** Numbers *)

Fixpoint span_digits (l : list ascii) : list N * list ascii :=
  match l with
  | c :: r =>
      match radix_digit 10 c with
      | Some d => let '(ds, r') := span_digits r in (d :: ds, r')
      | None => ([], l)
      end
  | [] => ([], [])
  end.

Definition digits_Z (ds : list N) : Z := Z.of_N (digits_value 10 ds).

(** The double a literal denotes, [-]? [ip] [.fp]? [e]?: the integer
    [ip fp * 10 ^ (e - |fp|)] rounded, when it is one.  A non-zero
    significand of [d] digits divided by [10 ^ j] with [j > d] is not an
    integer, and one multiplied by [10 ^ j] with [j > 400] is beyond
    the doubles. *)
Definition number_value (neg : bool) (ip fp : list N) (e : Z) : result perr Z :=
  let m := digits_Z (ip ++ fp) in
  let x := (e - Z.of_nat (List.length fp))%Z in
  let mag :=
    if (m =? 0)%Z then Ok 0%Z
    else if (0 <=? x)%Z then (if (400 <? x)%Z then Err OutsideModel else Ok (m * 10 ^ x)%Z)
    else if (Z.of_nat (List.length (ip ++ fp)) <? - x)%Z then Err OutsideModel
    else if (m mod 10 ^ (- x) =? 0)%Z then Ok (m / 10 ^ (- x))%Z
    else Err OutsideModel in
  a <-? mag ;;
  let r := Double.round_double a in
  if (2 ^ 1024 <=? r)%Z then Err OutsideModel else Ok (if neg then (- r)%Z else r).

Definition lex_frac (l : list ascii) : result perr (list N * list ascii) :=
  match l with
  | c :: r =>
      if Ascii.eqb c "." then
        let '(fp, r') := span_digits r in
        match fp with [] => Err SyntaxError | _ => Ok (fp, r') end
      else Ok ([], l)
  | [] => Ok ([], [])
  end.

Definition lex_exp (l : list ascii) : result perr (Z * list ascii) :=
  match l with
  | c :: r =>
      if Ascii.eqb c "e" || Ascii.eqb c "E" then
        let '(sg, r1) :=
          match r with
          | d :: r' => if Ascii.eqb d "+" then (1%Z, r') else if Ascii.eqb d "-" then ((-1)%Z, r') else (1%Z, r)
          | [] => (1%Z, r)
          end in
        let '(ds, r2) := span_digits r1 in
        match ds with [] => Err SyntaxError | _ => Ok ((sg * digits_Z ds)%Z, r2) end
      else Ok (0%Z, l)
  | [] => Ok (0%Z, [])
  end.

Definition lex_number (l : list ascii) : result perr (jval * list ascii) :=
  let '(neg, l1) := match l with
                    | c :: r => if Ascii.eqb c "-" then (true, r) else (false, l)
                    | [] => (false, l)
                    end in
  let '(ip, l2) := span_digits l1 in
  match ip with
  | [] => Err SyntaxError
  | 0%N :: _ :: _ => Err SyntaxError          (* no leading zero *)
  | _ =>
      fr <-? lex_frac l2 ;;
      ex <-? lex_exp fr.2 ;;
      v <-? number_value neg ip fr.1 ex.1 ;;
      Ok (JNum v, ex.2)
  end.

(** ** Values *)

Fixpoint parse_value (fuel : nat) (l : list ascii) {struct fuel} : result perr (jval * list ascii) :=
  match fuel with
  | O => Err OutOfFuel
  | S f =>
      match l with
      | [] => Err SyntaxError
      | c :: r =>
          if Ascii.eqb c "{" then
            match skip_ws r with
            | c' :: r' => if Ascii.eqb c' "}" then Ok (JObj [], r') else parse_members f [] (c' :: r')
            | [] => Err SyntaxError
            end
          else if Ascii.eqb c "[" then
            match skip_ws r with
            | c' :: r' => if Ascii.eqb c' "]" then Ok (JArr [], r') else parse_elements f [] (c' :: r')
            | [] => Err SyntaxError
            end
          else if Ascii.eqb c "034" then
            sr <-? lex_string r ;; Ok (JStr (string_of_list_ascii sr.1), sr.2)
          else
            match strip_prefix (list_ascii_of_string "true") l with
            | Some r' => Ok (JBool true, r')
            | None =>
                match strip_prefix (list_ascii_of_string "false") l with
                | Some r' => Ok (JBool false, r')
                | None =>
                    match strip_prefix (list_ascii_of_string "null") l with
                    | Some r' => Ok (JNull, r')
                    | None => lex_number l
                    end
                end
            end
      end
  end
with parse_elements (fuel : nat) (acc : list jval) (l : list ascii) {struct fuel}
    : result perr (jval * list ascii) :=
  match fuel with
  | O => Err OutOfFuel
  | S f =>
      vr <-? parse_value f l ;;
      match skip_ws vr.2 with
      | c :: r =>
          if Ascii.eqb c "," then parse_elements f (acc ++ [vr.1]) (skip_ws r)
          else if Ascii.eqb c "]" then Ok (JArr (acc ++ [vr.1]), r)
          else Err SyntaxError
      | [] => Err SyntaxError
      end
  end
with parse_members (fuel : nat) (acc : list (string * jval)) (l : list ascii) {struct fuel}
    : result perr (jval * list ascii) :=
  match fuel with
  | O => Err OutOfFuel
  | S f =>
      match l with
      | c :: r =>
          if Ascii.eqb c "034" then
            kr <-? lex_string r ;;
            match skip_ws kr.2 with
            | c1 :: r1 =>
                if Ascii.eqb c1 ":" then
                  vr <-? parse_value f (skip_ws r1) ;;
                  let acc' := obj_set (string_of_list_ascii kr.1) vr.1 acc in
                  match skip_ws vr.2 with
                  | c2 :: r2 =>
                      if Ascii.eqb c2 "," then parse_members f acc' (skip_ws r2)
                      else if Ascii.eqb c2 "}" then Ok (JObj acc', r2)
                      else Err SyntaxError
                  | [] => Err SyntaxError
                  end
                else Err SyntaxError
            | [] => Err SyntaxError
            end
          else Err SyntaxError
      | [] => Err SyntaxError
      end
  end.

(** [JSON.parse(text)]. *)
Definition json_parse (text : string) : result perr jval :=
  let l := list_ascii_of_string text in
  vr <-? parse_value (S (2 * List.length l)) (skip_ws l) ;;
  match skip_ws vr.2 with [] => Ok vr.1 | _ => Err SyntaxError end.

(** ** [JSON.stringify] *)

Definition hex_lower (d : N) : ascii := ascii_of_N (if (d <? 10)%N then 48 + d else 87 + d)%N.

(** [QuoteJSONString], character by character. *)
Definition quote_char (c : ascii) : list ascii :=
  match N_of_ascii c with
  | 8%N => ["\"; "b"]
  | 9%N => ["\"; "t"]
  | 10%N => ["\"; "n"]
  | 12%N => ["\"; "f"]
  | 13%N => ["\"; "r"]
  | 34%N => ["\"; "034"]
  | 92%N => ["\"; "\"]
  | n => if (n <? 32)%N then ["\"; "u"; "0"; "0"; hex_lower (n / 16); hex_lower (n mod 16)]%N else [c]
  end%char.

Definition quote (s : string) : list ascii :=
  "034"%char :: flat_map quote_char (list_ascii_of_string s) ++ ["034"%char].

Fixpoint stringify (v : jval) : list ascii :=
  match v with
  | JNull | JNaN => list_ascii_of_string "null"
  | JBool b => list_ascii_of_string (if b then "true" else "false")
  | JNum n => list_ascii_of_string (number_to_string n)
  | JStr s => quote s
  | JArr vs => "["%char :: join_on ","%char (map stringify vs) ++ ["]"%char]
  | JObj fs => "{"%char :: join_on ","%char (map (fun kv => quote kv.1 ++ ":"%char :: stringify kv.2) fs) ++ ["}"%char]
  end.

(** [JSON.stringify(v)]. *)
Definition json_stringify (v : jval) : string := string_of_list_ascii (stringify v).

(** The values [JSON.parse] reads back from what [JSON.stringify]
    writes: no [NaN] (written [null]), numbers that are doubles, no
    object with a repeated key. *)
Fixpoint json_data (v : jval) : Prop :=
  match v with
  | JNaN => False
  | JNum n => Double.is_double n = true
  | JArr vs => (fix go (l : list jval) : Prop :=
      match l with [] => True | x :: l' => json_data x /\ go l' end) vs
  | JObj fs => NoDup fs.*1 /\ (fix go (l : list (string * jval)) : Prop :=
      match l with [] => True | kv :: l' => json_data kv.2 /\ go l' end) fs
  | _ => True
  end.

(** What may follow a value inside JSON text: nothing, a separator, a
    closing bracket or whitespace. *)
Definition ends_value (l : list ascii) : bool :=
  match l with
  | [] => true
  | c :: _ => Ascii.eqb c "," || Ascii.eqb c "]" || Ascii.eqb c "}" || json_ws c
  end.

(** JSON text written with an apostrophe for each double quote, so
    that the examples below read as the JSON they stand for. *)
Definition jtext (s : string) : string :=
  string_of_list_ascii (map (fun c => if Ascii.eqb c "'" then "034"%char else c) (list_ascii_of_string s)).

(** ** Lexer lemmas *)

Lemma skip_ws_length l : List.length (skip_ws l) <= List.length l.
Proof. induction l as [|c l IH]; simpl; [done|]. destruct (json_ws c); simpl; lia. Qed.

Lemma skip_ws_cons l c r : skip_ws l = c :: r -> List.length r < List.length l.
Proof. intros H. pose proof (skip_ws_length l) as Hl. rewrite H in Hl. simpl in Hl. lia. Qed.

Lemma strip_prefix_length p l r : strip_prefix p l = Some r -> List.length l = List.length p + List.length r.
Proof.
  revert l. induction p as [|a p IH]; intros [|b l]; simpl; [by intros [= <-]..|done|].
  destruct (Ascii.eqb a b); [intros H; rewrite (IH l H); lia | done].
Qed.

Lemma cons_fst_Ok b res s r : cons_fst b res = Ok (s, r) -> exists s', res = Ok (s', r).
Proof. destruct res as [[]|]; simpl; [intros [= _ ->]; by eexists | done]. Qed.

Lemma bind_not_fuel {A B} (m : result perr A) (k : A -> result perr B) :
  m <> Err OutOfFuel -> (forall a, k a <> Err OutOfFuel) -> (a <-? m ;; k a) <> Err OutOfFuel.
Proof. destruct m; simpl; [auto | congruence]. Qed.

Lemma cons_fst_not_fuel b res : res <> Err OutOfFuel -> cons_fst b res <> Err OutOfFuel.
Proof. by destruct res as [[]|]. Qed.

(** The string lexer consumes its input, and fails only with a syntax
    error or outside the model. *)
Lemma lex_string_facts l :
  (forall s r, lex_string l = Ok (s, r) -> List.length r < List.length l) /\
  lex_string l <> Err OutOfFuel.
Proof.
  remember (List.length l) as n eqn:Hn. revert l Hn.
  induction n as [n IH] using lt_wf_ind. intros [|c r] Hn; simpl in *; [done|].
  assert (Hs : forall l', List.length l' < n ->
            (forall b s r', cons_fst b (lex_string l') = Ok (s, r') -> List.length r' < n) /\
            (forall b, cons_fst b (lex_string l') <> Err OutOfFuel)).
  { intros l' Hl. destruct (IH _ Hl l' eq_refl) as [H1 H2]. split.
    - intros b s r' (s' & Hs')%cons_fst_Ok. specialize (H1 _ _ Hs'). lia.
    - intros b. by apply cons_fst_not_fuel. }
  assert (Hlone : forall l', List.length l' < n ->
            match lex_string l' with Ok _ => @Err perr (list ascii * list ascii) OutsideModel | Err e => Err e end
              <> Err OutOfFuel).
  { intros l' Hl. destruct (IH _ Hl l' eq_refl) as [_ H2]. by destruct (lex_string l'). }
  repeat match goal with
    | |- context [match ?x with _ => _ end] =>
        lazymatch x with lex_string _ => fail | _ => destruct x eqn:? end
    end; simplify_eq;
    repeat match goal with
    | |- _ /\ _ => split
    | |- forall _ _, Ok _ = Ok _ -> _ => intros ?? [= _ <-]; lia
    | |- forall _ _, Err _ = Ok _ -> _ => done
    | |- Ok _ <> Err _ => done
    | |- Err ?e <> Err OutOfFuel => done
    | |- forall _ _, match lex_string ?l' with Ok _ => _ | Err _ => _ end = Ok _ -> _ =>
        destruct (lex_string l'); done
    | |- match lex_string ?l' with Ok _ => _ | Err _ => _ end <> Err OutOfFuel =>
        apply Hlone; simpl; lia
    | |- forall _ _, cons_fst ?b (lex_string ?l') = Ok _ -> _ =>
        apply (Hs l'); simpl; lia
    | |- cons_fst ?b (lex_string ?l') <> Err OutOfFuel => apply (Hs l'); simpl; lia
    end.
Qed.

Lemma span_digits_length l ds r : span_digits l = (ds, r) -> List.length l = List.length ds + List.length r.
Proof.
  revert ds r. induction l as [|c l IH]; intros ds r; simpl; [by intros [= <- <-]|].
  destruct (radix_digit 10 c); [|by intros [= <- <-]].
  destruct (span_digits l) as [ds' r'] eqn:E. intros [= <- <-]. simpl. by rewrite (IH _ _ eq_refl).
Qed.

Ltac span_lengths :=
  repeat match goal with H : span_digits _ = _ |- _ => apply span_digits_length in H end.

Lemma lex_frac_length l fp r : lex_frac l = Ok (fp, r) -> List.length r <= List.length l.
Proof. unfold lex_frac. intros H. repeat case_match; simplify_eq; span_lengths; simpl in *; lia. Qed.

Lemma lex_exp_length l e r : lex_exp l = Ok (e, r) -> List.length r <= List.length l.
Proof. unfold lex_exp. intros H. repeat case_match; simplify_eq; span_lengths; simpl in *; lia. Qed.

(** The number lexer consumes at least one digit, and fails only with a
    syntax error or outside the model. *)
Lemma lex_number_facts l :
  (forall v r, lex_number l = Ok (v, r) -> List.length r < List.length l) /\
  lex_number l <> Err OutOfFuel.
Proof.
  unfold lex_number. split.
  - intros v r H. repeat case_match; simplify_eq;
      repeat match goal with p : (_ * _)%type |- _ => destruct p end; cbn [fst snd] in *;
      repeat match goal with
      | H : lex_frac _ = Ok _ |- _ => apply lex_frac_length in H
      | H : lex_exp _ = Ok _ |- _ => apply lex_exp_length in H
      end; simplify_eq; span_lengths; simpl in *; lia.
  - assert (forall l, lex_frac l <> Err OutOfFuel) as Hf
      by (intros l'; unfold lex_frac; repeat case_match; simplify_eq; done).
    assert (forall l, lex_exp l <> Err OutOfFuel) as He
      by (intros l'; unfold lex_exp; repeat case_match; simplify_eq; done).
    assert (forall n i f e, number_value n i f e <> Err OutOfFuel) as Hn
      by (intros; unfold number_value; repeat case_match; simplify_eq; done).
    repeat match goal with
      | |- context [match ?x with _ => _ end] =>
          lazymatch x with
          | lex_frac _ => fail | lex_exp _ => fail | number_value _ _ _ _ => fail
          | _ => destruct x eqn:?
          end
      end; try done;
    repeat (apply bind_not_fuel; [done|intros ?]); done.
Qed.

(** ** The parser consumes its input *)

Ltac len_facts :=
  repeat match goal with
  | H : skip_ws _ = _ :: _ |- _ => apply skip_ws_cons in H
  | H : strip_prefix _ _ = Some _ |- _ => apply strip_prefix_length in H
  | H : lex_string _ = Ok (_, _) |- _ => apply (proj1 (lex_string_facts _)) in H
  | H : lex_number _ = Ok (_, _) |- _ => apply (proj1 (lex_number_facts _)) in H
  | p : (_ * _)%type |- _ => destruct p
  end.

Lemma parse_length f :
  (forall l v r, parse_value f l = Ok (v, r) -> List.length r < List.length l) /\
  (forall acc l v r, parse_elements f acc l = Ok (v, r) -> List.length r < List.length l) /\
  (forall acc l v r, parse_members f acc l = Ok (v, r) -> List.length r < List.length l).
Proof.
  induction f as [|f (IHv & IHe & IHm)]; [split_and!; done|]. split_and!.
  - intros [|c l] v r H; cbn [parse_value] in H; [done|]. pose proof (skip_ws_length l).
    repeat case_match; simplify_eq; cbn [fst snd] in *;
      repeat match goal with
      | H : parse_members f _ _ = Ok (_, _) |- _ => apply IHm in H
      | H : parse_elements f _ _ = Ok (_, _) |- _ => apply IHe in H
      end; len_facts; simpl in *; lia.
  - intros acc l v r H; cbn [parse_elements] in H.
    destruct (parse_value f l) as [[v1 r1]|] eqn:E; [|done]. apply IHv in E. cbn [fst snd] in H.
    destruct (skip_ws r1) as [|c r2] eqn:Ew; [done|]. apply skip_ws_cons in Ew.
    pose proof (skip_ws_length r2).
    repeat case_match; simplify_eq; [apply IHe in H|]; lia.
  - intros acc [|c l] v r H; cbn [parse_members] in H; [done|].
    destruct (Ascii.eqb c "034"); [|done].
    destruct (lex_string l) as [[s r1]|] eqn:Es; [|done]. apply (proj1 (lex_string_facts _)) in Es.
    cbn [fst snd] in H. destruct (skip_ws r1) as [|c1 r2] eqn:Ew; [done|]. apply skip_ws_cons in Ew.
    destruct (Ascii.eqb c1 ":"); [|done]. pose proof (skip_ws_length r2).
    destruct (parse_value f (skip_ws r2)) as [[v1 r3]|] eqn:E; [|done]. apply IHv in E.
    cbn [fst snd] in H. destruct (skip_ws r3) as [|c2 r4] eqn:Ew'; [done|]. apply skip_ws_cons in Ew'.
    pose proof (skip_ws_length r4).
    repeat case_match; simplify_eq; [apply IHm in H|]; simpl; lia.
Qed.

(** ** Enough fuel *)

(** With fuel above twice the length of the text the parser never runs
    out: every call of [parse_value] consumes a character before it
    calls the list parsers, which call it back on what remains. *)
Lemma parse_fuel_enough f :
  (forall l, 2 * List.length l < f -> parse_value f l <> Err OutOfFuel) /\
  (forall acc l, 2 * List.length l + 1 < f -> parse_elements f acc l <> Err OutOfFuel) /\
  (forall acc l, 2 * List.length l + 1 < f -> parse_members f acc l <> Err OutOfFuel).
Proof.
  induction f as [|f (IHv & IHe & IHm)]; [split_and!; intros; lia|].
  pose proof (parse_length f) as (Lv & _ & _). split_and!.
  - intros [|c l] Hl; cbn [parse_value]; [done|]. simpl in Hl. pose proof (skip_ws_length l).
    destruct (Ascii.eqb c "{").
    { destruct (skip_ws l) as [|c' r'] eqn:E; [done|]. apply skip_ws_cons in E.
      destruct (Ascii.eqb c' "}"); [done|]. apply IHm. simpl. lia. }
    destruct (Ascii.eqb c "[").
    { destruct (skip_ws l) as [|c' r'] eqn:E; [done|]. apply skip_ws_cons in E.
      destruct (Ascii.eqb c' "]"); [done|]. apply IHe. simpl. lia. }
    destruct (Ascii.eqb c "034").
    { apply bind_not_fuel; [apply lex_string_facts | done]. }
    repeat case_match; try done. apply lex_number_facts.
  - intros acc l Hl; cbn [parse_elements].
    destruct (parse_value f l) as [[v1 r1]|e] eqn:E; cbn [fst snd].
    + apply Lv in E. destruct (skip_ws r1) as [|c r2] eqn:Ew; [done|]. apply skip_ws_cons in Ew.
      pose proof (skip_ws_length r2). repeat case_match; try done. apply IHe. lia.
    + rewrite <-E. apply IHv. lia.
  - intros acc [|c l] Hl; cbn [parse_members]; [done|]. simpl in Hl.
    destruct (Ascii.eqb c "034"); [|done].
    destruct (lex_string l) as [[s r1]|e] eqn:Es; cbn [fst snd]; [|simpl; intros [= ->]; by apply (proj2 (lex_string_facts l))].
    apply (proj1 (lex_string_facts _)) in Es.
    destruct (skip_ws r1) as [|c1 r2] eqn:Ew; [done|]. apply skip_ws_cons in Ew.
    destruct (Ascii.eqb c1 ":"); [|done]. pose proof (skip_ws_length r2).
    destruct (parse_value f (skip_ws r2)) as [[v1 r3]|e] eqn:E; cbn [fst snd]; [|simpl; rewrite <-E; apply IHv; lia].
    apply Lv in E. destruct (skip_ws r3) as [|c2 r4] eqn:Ew'; [done|]. apply skip_ws_cons in Ew'.
    pose proof (skip_ws_length r4). repeat case_match; try done. apply IHm. lia.
Qed.

(** More fuel does not change a result the parser reached. *)
Lemma parse_fuel_mono f :
  (forall g l, f <= g -> parse_value f l <> Err OutOfFuel -> parse_value g l = parse_value f l) /\
  (forall g acc l, f <= g -> parse_elements f acc l <> Err OutOfFuel ->
     parse_elements g acc l = parse_elements f acc l) /\
  (forall g acc l, f <= g -> parse_members f acc l <> Err OutOfFuel ->
     parse_members g acc l = parse_members f acc l).
Proof.
  induction f as [|f (IHv & IHe & IHm)]; [split_and!; done|].
  split_and!; intros [|g]; try lia.
  - intros l Hle H. destruct l as [|c l]; [done|]. cbn [parse_value] in *.
    destruct (Ascii.eqb c "{").
    { destruct (skip_ws l) as [|c' r']; [done|]. destruct (Ascii.eqb c' "}"); [done|]. apply IHm; [lia|done]. }
    destruct (Ascii.eqb c "[").
    { destruct (skip_ws l) as [|c' r']; [done|]. destruct (Ascii.eqb c' "]"); [done|]. apply IHe; [lia|done]. }
    done.
  - intros acc l Hle H. cbn [parse_elements] in *.
    assert (Hv : parse_value f l <> Err OutOfFuel) by (intros E; by rewrite E in H).
    rewrite (IHv g l) by (done || lia).
    destruct (parse_value f l) as [[v1 r1]|e]; [|done]. cbn [fst snd] in *.
    destruct (skip_ws r1) as [|c r2]; [done|]. destruct (Ascii.eqb c ","); [|done]. apply IHe; [lia|done].
  - intros acc l Hle H. destruct l as [|c l]; [done|]. cbn [parse_members] in *.
    destruct (Ascii.eqb c "034"); [|done]. destruct (lex_string l) as [[s r1]|]; [|done]. cbn [fst snd] in *.
    destruct (skip_ws r1) as [|c1 r2]; [done|]. destruct (Ascii.eqb c1 ":"); [|done].
    assert (Hv : parse_value f (skip_ws r2) <> Err OutOfFuel) by (intros E; by rewrite E in H).
    rewrite (IHv g) by (done || lia).
    destruct (parse_value f (skip_ws r2)) as [[v1 r3]|e]; [|done]. cbn [fst snd] in *.
    destruct (skip_ws r3) as [|c2 r4]; [done|]. destruct (Ascii.eqb c2 ","); [|done]. apply IHm; [lia|done].
Qed.

(** The JSON parser terminates on every text: with fuel twice
    the length of the text [json_parse] never runs out, so it returns a
    value, or fails where [JSON.parse] throws a [SyntaxError], or on a
    number or escape outside the model. *)
Theorem json_parse_total text : json_parse text <> Err OutOfFuel.
Proof.
  unfold json_parse. set (l := list_ascii_of_string text).
  destruct (parse_value _ (skip_ws l)) as [[v r]|e] eqn:E; simpl.
  - by destruct (skip_ws r).
  - intros [= ->]. pose proof (skip_ws_length l). revert E.
    apply (proj1 (parse_fuel_enough _)). lia.
Qed.

(** ** What the parser builds *)

Lemma wf_obj_nil : wf (JObj []).
Proof. cbn. split; [by apply NoDup_nil | done]. Qed.

(** Every value the parser builds is well formed: an object literal with
    a repeated key yields one property for it. *)
Lemma parse_wf f :
  (forall l v r, parse_value f l = Ok (v, r) -> wf v) /\
  (forall acc l v r, Forall wf acc -> parse_elements f acc l = Ok (v, r) -> wf v) /\
  (forall acc l v r, wf (JObj acc) -> parse_members f acc l = Ok (v, r) -> wf v).
Proof.
  induction f as [|f (IHv & IHe & IHm)]; [split_and!; done|]. split_and!.
  - intros [|c l] v r H; cbn [parse_value] in H; [done|].
    repeat case_match; simplify_eq; try done;
      first [ apply wf_obj_nil
            | by eapply IHm; [apply wf_obj_nil|eassumption]
            | by eapply IHe; [constructor|eassumption]
            | unfold lex_number, number_value in *; repeat case_match; simplify_eq; done ].
  - intros acc l v r Hacc H; cbn [parse_elements] in H.
    destruct (parse_value f l) as [[v1 r1]|e] eqn:E; [|done]. apply IHv in E. cbn [fst snd] in H.
    assert (Hacc' : Forall wf (acc ++ [v1])) by (apply Forall_app; auto).
    repeat case_match; simplify_eq; [by eapply IHe | by apply wf_arr].
  - intros acc [|c l] v r Hacc H; cbn [parse_members] in H; [done|].
    destruct (Ascii.eqb c "034"); [|done].
    destruct (lex_string l) as [[s r1]|]; [|done]. cbn [fst snd] in H.
    destruct (skip_ws r1) as [|c1 r2]; [done|]. destruct (Ascii.eqb c1 ":"); [|done].
    destruct (parse_value f (skip_ws r2)) as [[v1 r3]|e] eqn:E; [|done]. apply IHv in E. cbn [fst snd] in H.
    apply wf_obj in Hacc as [Hnd Hvs].
    assert (Hacc' : wf (JObj (obj_set (string_of_list_ascii s) v1 acc)))
      by (apply wf_obj; split; [by apply obj_set_NoDup | by apply obj_set_wf]).
    repeat case_match; simplify_eq; [by eapply IHm | done].
Qed.

Lemma json_parse_wf text v : json_parse text = Ok v -> wf v.
Proof.
  unfold json_parse. intros H. repeat case_match; simplify_eq.
  destruct a as [v r]. eapply (proj1 (parse_wf _)). eassumption.
Qed.

(** ** Reading back what [JSON.stringify] writes *)

Lemma quote_char_lex c l : lex_string (quote_char c ++ l) = cons_fst [c] (lex_string l).
Proof. destruct c as [[][][][][][][][]]; reflexivity. Qed.

Lemma lex_string_quoted cs rest :
  lex_string (flat_map quote_char cs ++ "034"%char :: rest) = Ok (cs, rest).
Proof.
  induction cs as [|c cs IH]; [done|]. simpl. rewrite <-app_assoc, quote_char_lex, IH. done.
Qed.

Lemma lex_quote s rest : lex_string (tail (quote s ++ rest)) = Ok (list_ascii_of_string s, rest).
Proof. unfold quote. simpl. rewrite <-app_assoc. apply lex_string_quoted. Qed.

(** A value's end stops the number lexer. *)
Lemma ends_value_number l :
  ends_value l = true -> span_digits l = ([], l) /\ lex_frac l = Ok ([], l) /\ lex_exp l = Ok (0%Z, l).
Proof. destruct l as [|c l]; [done|]. destruct c as [[][][][][][][][]]; try discriminate; done. Qed.

Lemma span_digits_app ds l :
  Forall (fun d => d < 10)%N ds -> span_digits l = ([], l) -> span_digits (map digit_char ds ++ l) = (ds, l).
Proof.
  intros Hds Hl. induction Hds as [|d ds Hd _ IH]; [done|]. simpl.
  rewrite radix_digit_char by done. by rewrite IH.
Qed.

Lemma digit_not_minus d : (d < 10)%N -> Ascii.eqb (digit_char d) "-" = false.
Proof. intros Hd. apply digit_char_eqb; [done|]. reflexivity. Qed.

Lemma number_value_ok neg ip fp e a :
  digits_Z (ip ++ fp) <> 0%Z -> (0 <= e - Z.of_nat (List.length fp) <= 400)%Z ->
  Double.round_double (digits_Z (ip ++ fp) * 10 ^ (e - Z.of_nat (List.length fp))) = a ->
  (a < 2 ^ 1024)%Z ->
  number_value neg ip fp e = Ok (if neg then (- a)%Z else a).
Proof.
  intros Hm He Ha Hlt. unfold number_value.
  rewrite (proj2 (Z.eqb_neq _ _) Hm), (proj2 (Z.leb_le _ _)) by lia.
  rewrite (proj2 (Z.ltb_ge _ _)) by lia. simpl. rewrite Ha.
  by rewrite (proj2 (Z.leb_gt _ _)) by lia.
Qed.

(** The decimal form [String] writes below [10 ^ 21]. *)
Lemma lex_number_dec (neg : bool) d ds rest :
  Forall (fun d => d < 10)%N (d :: ds) -> (0 < d)%N \/ ds = [] -> ends_value rest = true ->
  lex_number ((if neg then ["-"%char] else []) ++ map digit_char (d :: ds) ++ rest) =
    (v <-? number_value neg (d :: ds) [] 0 ;; Ok (JNum v, rest)).
Proof.
  intros Hds Hd Hr. destruct (ends_value_number rest Hr) as (Hs & Hf & He).
  assert (Hsp : span_digits (digit_char d :: map digit_char ds ++ rest) = (d :: ds, rest))
    by by apply (span_digits_app (d :: ds)).
  unfold lex_number. destruct neg; simpl app; cbn beta iota zeta.
  - change (Ascii.eqb "-" "-") with true. cbv iota zeta. rewrite Hsp.
    destruct d; [destruct Hd as [?| ->]; [lia|]|]; cbn iota; rewrite Hf; simpl; by rewrite He.
  - rewrite digit_not_minus by (by inversion Hds). cbv iota zeta. rewrite Hsp.
    destruct d; [destruct Hd as [?| ->]; [lia|]|]; cbn iota; rewrite Hf; simpl; by rewrite He.
Qed.

Lemma lex_frac_digits fs l :
  Forall (fun d => d < 10)%N fs ->
  lex_frac ((match fs with [] => [] | _ => "."%char :: map digit_char fs end) ++ "e"%char :: l) =
    Ok (fs, "e"%char :: l).
Proof.
  intros Hfs. destruct fs as [|f fs]; [done|].
  assert (Hsp : span_digits (map digit_char (f :: fs) ++ "e"%char :: l) = (f :: fs, "e"%char :: l))
    by by apply span_digits_app.
  unfold lex_frac. cbn [app]. change (Ascii.eqb "." ".") with true. cbv iota beta zeta.
  by rewrite Hsp.
Qed.

Lemma lex_exp_digits eds rest :
  Forall (fun d => d < 10)%N eds -> eds <> [] -> ends_value rest = true ->
  lex_exp ("e"%char :: "+"%char :: map digit_char eds ++ rest) = Ok (digits_Z eds, rest).
Proof.
  intros Heds Hne Hr. destruct (ends_value_number rest Hr) as (Hs & _ & _).
  simpl. rewrite span_digits_app by done. destruct eds; [done|]. by rewrite Z.mul_1_l.
Qed.

(** The exponent form [String] writes from [10 ^ 21] on. *)
Lemma lex_number_exp (neg : bool) d fs eds rest :
  (d < 10)%N -> (0 < d)%N -> Forall (fun d => d < 10)%N fs -> Forall (fun d => d < 10)%N eds ->
  eds <> [] -> ends_value rest = true ->
  lex_number ((if neg then ["-"%char] else []) ++ digit_char d ::
                (match fs with [] => [] | _ => "."%char :: map digit_char fs end) ++
                "e"%char :: "+"%char :: map digit_char eds ++ rest) =
    (v <-? number_value neg [d] fs (digits_Z eds) ;; Ok (JNum v, rest)).
Proof.
  intros Hd Hd0 Hfs Heds Hne Hr.
  set (X := (match fs with [] => [] | _ => "."%char :: map digit_char fs end) ++
              "e"%char :: "+"%char :: map digit_char eds ++ rest).
  assert (Hsp : span_digits (digit_char d :: X) = ([d], X)).
  { simpl. rewrite radix_digit_char by done. subst X. by destruct fs. }
  assert (Hf : lex_frac X = Ok (fs, "e"%char :: "+"%char :: map digit_char eds ++ rest))
    by (subst X; by apply lex_frac_digits).
  unfold lex_number. destruct neg; simpl app; cbn beta iota zeta.
  - change (Ascii.eqb "-" "-") with true. cbv iota zeta. rewrite Hsp.
    destruct d; [lia|]. cbn iota. rewrite Hf. cbn [fst snd]. by rewrite lex_exp_digits.
  - rewrite digit_not_minus by done. cbv iota zeta. rewrite Hsp.
    destruct d; [lia|]. cbn iota. rewrite Hf. cbn [fst snd]. by rewrite lex_exp_digits.
Qed.

Lemma is_double_abs x : Double.is_double x = true ->
  Double.round_double (Z.abs x) = Z.abs x /\ (Z.abs x < 2 ^ 1024)%Z.
Proof.
  unfold Double.is_double. intros [Hm Hl]%andb_prop. apply Z.eqb_eq in Hm. apply Z.ltb_lt in Hl.
  split; [|done]. apply Double.round_double_exact. by rewrite Z.abs_involutive.
Qed.

Lemma sign_text (neg : bool) s :
  list_ascii_of_string (if neg then String "-" s else s) = (if neg then ["-"%char] else []) ++ list_ascii_of_string s.
Proof. by destruct neg. Qed.

(** The text of [String(x)] below [10 ^ 21]: the digits of [shortest |x|]. *)
Lemma number_text_dec x p :
  shortest (Z.abs x) = Zpos p -> (Zpos p < 10 ^ 21)%Z ->
  list_ascii_of_string (number_to_string x) = (if (x <? 0)%Z then ["-"%char] else []) ++ map digit_char (pos_digits p).
Proof.
  intros Hs Hp. unfold number_to_string. rewrite Hs. cbv zeta. rewrite (proj2 (Z.ltb_lt _ _) Hp).
  rewrite sign_text. unfold pos_to_dec_string. by rewrite digits_chars.
Qed.

(** The text of [String(x)] from [10 ^ 21] on: the significant digits
    [d.ts] of [shortest |x|], then [e+] and the number of digits less
    one. *)
Lemma number_text_exp x p :
  shortest (Z.abs x) = Zpos p -> (10 ^ 21 <= Zpos p)%Z ->
  exists d ts z eds,
    pos_digits p = (d :: ts) ++ replicate z 0%N /\ (0 < d)%N /\
    Forall (fun d => d < 10)%N eds /\ eds <> [] /\
    digits_Z eds = (Z.of_nat (List.length (pos_digits p)) - 1)%Z /\
    list_ascii_of_string (number_to_string x) =
      (if (x <? 0)%Z then ["-"%char] else []) ++ digit_char d ::
        (match ts with [] => [] | _ => "."%char :: map digit_char ts end) ++
        "e"%char :: "+"%char :: map digit_char eds.
Proof.
  intros Hs Hp. destruct (dec_digits_head (Pos.to_nat (Pos.size p)) (Npos p)) as (d & ds & Hds & Hd); [lia|].
  fold (pos_digits p) in Hds.
  destruct (strip_zeros_head d ds Hd) as [ts Hts]. destruct (strip_zeros_spec (pos_digits p)) as [z Hz].
  rewrite Hds, Hts in Hz. rewrite <-Hds in Hz.
  destruct (to_dec_string_digits (Z.of_nat (List.length (pos_digits p)) - 1)) as (eds & Heq & Hlt & Hne & Hv);
    [rewrite Hds; simpl; lia|].
  exists d, ts, z, eds. split_and!; [exact Hz | exact Hd | exact Hlt | exact Hne | exact Hv |].
  unfold number_to_string. rewrite Hs. cbv zeta. rewrite (proj2 (Z.ltb_ge _ _) Hp).
  rewrite sign_text. f_equal. unfold exp_notation. rewrite Hds at 1. rewrite Hts. simpl.
  destruct ts; rewrite !list_ascii_of_string_app; cbn [list_ascii_of_string app]; by rewrite ?digits_chars, Heq.
Qed.

Lemma pow2_1024_lt : (2 ^ 1024 < 10 ^ 309)%Z.
Proof. by_computation. Qed.

(** [JSON.parse] reads back the number [JSON.stringify] writes. *)
Lemma lex_number_to_string x rest :
  Double.is_double x = true -> ends_value rest = true ->
  lex_number (list_ascii_of_string (number_to_string x) ++ rest) = Ok (JNum x, rest).
Proof.
  intros Hx Hr. destruct (is_double_abs x Hx) as [Ha Hlt].
  pose proof (shortest_round _ Ha) as Hv. pose proof (shortest_nonneg (Z.abs x) (Z.abs_nonneg x)) as Hv0.
  assert (Hsign : (if (x <? 0)%Z then (- Z.abs x)%Z else Z.abs x) = x)
    by (destruct (Z.ltb_spec x 0); lia).
  destruct (shortest (Z.abs x)) as [|p|p] eqn:Es; [| |lia].
  - assert (x = 0%Z) as -> by (change (Double.round_double 0) with 0%Z in Hv; lia).
    unfold number_to_string. rewrite Es. simpl. by apply (lex_number_dec false 0%N []); [repeat constructor|right|].
  - pose proof (dec_digits_head (Pos.to_nat (Pos.size p)) (Npos p) ltac:(lia)) as (d & ds & Hds & Hd).
    fold (pos_digits p) in Hds. pose proof (pos_dec_digits_lt p) as Hdl. fold (pos_digits p) in Hdl.
    assert (Hpv : Z.of_N (digits_value 10 (pos_digits p)) = Zpos p) by (unfold pos_digits; by rewrite dec_digits_value).
    destruct (Z.ltb_spec (Zpos p) (10 ^ 21)) as [Hp|Hp].
    + rewrite (number_text_dec x p) by done. rewrite <-app_assoc, Hds.
      rewrite lex_number_dec by (try rewrite <-Hds; auto). rewrite <-Hds.
      rewrite (number_value_ok _ _ _ _ (Z.abs x)); [by rewrite Hsign | | simpl; lia | | done].
      * unfold digits_Z. rewrite app_nil_r, Hpv. lia.
      * unfold digits_Z. by rewrite app_nil_r, Hpv, Z.mul_1_r.
    + destruct (number_text_exp x p Es Hp) as (d' & ts & z & eds & Hz & Hd' & Hel & Hne & Hev & ->).
      rewrite Hz in Hdl. apply Forall_app in Hdl as [Hdl _].
      rewrite <-app_assoc, <-app_comm_cons, <-app_assoc. cbn [app].
      rewrite lex_number_exp by (inversion Hdl; auto).
      assert (Hpl : (Zpos p < 2 ^ 1024)%Z).
      { destruct (Z.lt_ge_cases (Zpos p) (2 ^ 1024)) as [|Hge]; [done|].
        pose proof (Double.round_double_ge_pow 1024 _ ltac:(lia) Hge). lia. }
      assert (Hn : List.length (pos_digits p) <= 309).
      { unfold pos_digits. apply dec_digits_length; [|lia]. pose proof pow2_1024_lt. lia. }
      assert (HT : (digits_Z ([d'] ++ ts) * 10 ^ Z.of_nat z)%Z = Zpos p).
      { rewrite <-Hpv, Hz, digits_value_zeros. unfold digits_Z. rewrite N2Z.inj_mul, N2Z.inj_pow, nat_N_Z. done. }
      assert (Hlen : List.length (pos_digits p) = S (List.length ts + z))
        by (rewrite Hz, length_app, length_replicate; simpl; lia).
      rewrite (number_value_ok _ _ _ _ (Z.abs x)); [by rewrite Hsign | | | | done].
      * intros H0. rewrite H0 in HT. lia.
      * rewrite Hev, Hlen. lia.
      * rewrite Hev, Hlen. replace (Z.of_nat (S (List.length ts + z)) - 1 - Z.of_nat (List.length ts))%Z
          with (Z.of_nat z) by lia. by rewrite HT.
Qed.

Lemma json_data_arr vs : json_data (JArr vs) <-> Forall json_data vs.
Proof. simpl. induction vs as [|v vs IH]; [split; auto|]. by rewrite Forall_cons, IH. Qed.

Lemma json_data_obj fs : json_data (JObj fs) <-> NoDup fs.*1 /\ Forall (fun kv => json_data kv.2) fs.
Proof.
  simpl. apply and_iff_compat_l.
  induction fs as [|kv fs IH]; [split; auto|]. by rewrite Forall_cons, IH.
Qed.

(** The first character of a number's text. *)
Definition number_char (c : ascii) : Prop := c = "-"%char \/ exists d, (d < 10)%N /\ c = digit_char d.

Lemma number_text_head x : exists c t, list_ascii_of_string (number_to_string x) = c :: t /\ number_char c.
Proof.
  destruct (Z.ltb_spec x 0) as [Hneg|Hpos].
  - unfold number_to_string. rewrite (proj2 (Z.ltb_lt _ _) Hneg). cbv zeta. eexists _, _. split; [done|by left].
  - destruct (shortest (Z.abs x)) as [|p|p] eqn:Es.
    + unfold number_to_string. rewrite Es, (proj2 (Z.ltb_ge _ _) Hpos). eexists _, _.
      split; [done|]. right. by exists 0%N.
    + destruct (Z.ltb_spec (Zpos p) (10 ^ 21)) as [Hp|Hp].
      * rewrite (number_text_dec x p Es Hp), (proj2 (Z.ltb_ge _ _) Hpos).
        destruct (dec_digits_head (Pos.to_nat (Pos.size p)) (Npos p)) as (d & ds & Hds & _); [lia|].
        pose proof (pos_dec_digits_lt p) as Hdl. fold (pos_digits p) in Hds, Hdl. rewrite Hds in Hdl |- *.
        eexists _, _. split; [done|]. right. exists d. split; [by inversion Hdl|done].
      * destruct (number_text_exp x p Es Hp) as (d & ts & z & eds & Hz & _ & _ & _ & _ & ->).
        pose proof (pos_dec_digits_lt p) as Hdl. fold (pos_digits p) in Hdl. rewrite Hz in Hdl.
        rewrite (proj2 (Z.ltb_ge _ _) Hpos). eexists _, _. split; [done|]. right. exists d.
        split; [by inversion Hdl|done].
    + unfold number_to_string. rewrite Es, (proj2 (Z.ltb_ge _ _) Hpos). eexists _, _.
      split; [done|]. right. by exists 0%N.
Qed.

Lemma number_char_cases c :
  number_char c -> c = "-"%char \/ c = "0"%char \/ c = "1"%char \/ c = "2"%char \/ c = "3"%char \/
    c = "4"%char \/ c = "5"%char \/ c = "6"%char \/ c = "7"%char \/ c = "8"%char \/ c = "9"%char.
Proof.
  intros [->|(d & Hd & ->)]; [by left|right].
  assert (d = 0 \/ d = 1 \/ d = 2 \/ d = 3 \/ d = 4 \/ d = 5 \/ d = 6 \/ d = 7 \/ d = 8 \/ d = 9)%N
    as Hc by lia.
  repeat destruct Hc as [->|Hc]; subst; [left|do 1 right; left|do 2 right; left|do 3 right; left
    |do 4 right; left|do 5 right; left|do 6 right; left|do 7 right; left|do 8 right; left|do 9 right];
    reflexivity.
Qed.

(** A number's text starts with none of the characters that open
    another kind of value or close a list. *)
Lemma parse_number_char f c t :
  number_char c -> parse_value (S f) (c :: t) = lex_number (c :: t) /\ json_ws c = false /\
    c <> "]"%char /\ c <> "}"%char.
Proof.
  intros Hc. apply number_char_cases in Hc.
  repeat destruct Hc as [->|Hc]; [..|subst]; (split; [reflexivity|done]).
Qed.

Lemma parse_value_lift f g l x : f <= g -> parse_value f l = Ok x -> parse_value g l = Ok x.
Proof. intros Hle H. by rewrite (proj1 (parse_fuel_mono f) g l Hle) by (by rewrite H). Qed.

Lemma parse_elements_lift f g acc l x : f <= g -> parse_elements f acc l = Ok x -> parse_elements g acc l = Ok x.
Proof. intros Hle H. by rewrite (proj1 (proj2 (parse_fuel_mono f)) g acc l Hle) by (by rewrite H). Qed.

Lemma parse_members_lift f g acc l x : f <= g -> parse_members f acc l = Ok x -> parse_members g acc l = Ok x.
Proof. intros Hle H. by rewrite (proj2 (proj2 (parse_fuel_mono f)) g acc l Hle) by (by rewrite H). Qed.

Lemma skip_ws_nonws c t : json_ws c = false -> skip_ws (c :: t) = c :: t.
Proof. intros Hc. simpl. by rewrite Hc. Qed.

(** The text of a value starts with a character that is not
    whitespace and closes no list. *)
Lemma stringify_head v : json_data v ->
  exists c t, stringify v = c :: t /\ json_ws c = false /\ c <> "]"%char /\ c <> "}"%char.
Proof.
  intros Hv. destruct v as [| [] | n | | s | vs | fs]; try (eexists _, _; split; [reflexivity | done]).
  destruct (number_text_head n) as (c & t & Ht & Hc). exists c, t. split; [done|].
  apply (parse_number_char 0 c t Hc).
Qed.

Lemma skip_ws_stringify v rest : json_data v -> skip_ws (stringify v ++ rest) = stringify v ++ rest.
Proof. intros Hv. destruct (stringify_head v Hv) as (c & t & -> & Hc & _). by apply skip_ws_nonws. Qed.

Lemma skip_ws_join v l rest :
  json_data v -> skip_ws (join_on ","%char (stringify v :: l) ++ rest) = join_on ","%char (stringify v :: l) ++ rest.
Proof.
  intros Hv. destruct (stringify_head v Hv) as (c & t & -> & Hc & _).
  destruct l; simpl; by apply skip_ws_nonws.
Qed.

(** The round trip of one value, followed by what may end it. *)
Definition roundtrips (v : jval) : Prop :=
  forall rest, ends_value rest = true -> exists f, parse_value f (stringify v ++ rest) = Ok (v, rest).

Lemma parse_elements_stringify vs acc rest :
  vs <> [] -> Forall roundtrips vs -> Forall json_data vs ->
  exists f, parse_elements f acc (join_on ","%char (map stringify vs) ++ "]"%char :: rest) = Ok (JArr (acc ++ vs), rest).
Proof.
  revert acc. induction vs as [|v vs IHvs]; intros acc Hne Hrt Hd; [done|].
  apply Forall_cons in Hrt as [Hv Hrt]. apply Forall_cons in Hd as [Hdv Hd].
  destruct vs as [|v2 vs].
  - destruct (Hv ("]"%char :: rest) eq_refl) as [f Hf]. exists (S f). cbn [parse_elements map join_on].
    rewrite Hf. reflexivity.
  - destruct (Hv (","%char :: join_on ","%char (stringify v2 :: map stringify vs) ++ "]"%char :: rest) eq_refl)
      as [f1 Hf1].
    destruct (IHvs (acc ++ [v]) ltac:(done) Hrt Hd) as [f2 Hf2].
    change (map stringify (v2 :: vs)) with (stringify v2 :: map stringify vs) in Hf2.
    apply Forall_cons in Hd as [Hdv2 _].
    exists (S (f1 `max` f2)). cbn [parse_elements map]. rewrite join_on_cons, <-app_assoc, <-app_comm_cons.
    rewrite (parse_value_lift f1 (f1 `max` f2) _ _ ltac:(lia) Hf1). cbn [fst snd].
    rewrite skip_ws_nonws by reflexivity. change (Ascii.eqb "," ",") with true. cbv iota.
    rewrite skip_ws_join by done.
    rewrite (parse_elements_lift f2 (f1 `max` f2) _ _ _ ltac:(lia) Hf2). by rewrite <-app_assoc.
Qed.

Lemma obj_set_fresh k v acc : k ∉ acc.*1 -> obj_set k v acc = acc ++ [(k, v)].
Proof.
  induction acc as [|[k' w] acc IH]; intros Hk; [done|]. simpl in *.
  apply not_elem_of_cons in Hk as [Hk Hk']. rewrite (proj2 (String.eqb_neq _ _)) by congruence.
  by rewrite IH.
Qed.

(** A member [key:value] read back, then the separator that follows. *)
Lemma parse_member f acc k v X :
  json_data v -> parse_value f (stringify v ++ X) = Ok (v, X) ->
  parse_members (S f) acc ((quote k ++ ":"%char :: stringify v) ++ X) =
    match skip_ws X with
    | c2 :: r2 =>
        if Ascii.eqb c2 "," then parse_members f (obj_set k v acc) (skip_ws r2)
        else if Ascii.eqb c2 "}" then Ok (JObj (obj_set k v acc), r2)
        else Err SyntaxError
    | [] => Err SyntaxError
    end.
Proof.
  intros Hd Hv. unfold quote. rewrite <-!app_assoc. cbn [app parse_members].
  change (Ascii.eqb "034" "034") with true. cbv iota.
  rewrite <-app_assoc. cbn [app]. rewrite lex_string_quoted. cbn [fst snd]. rewrite skip_ws_nonws by reflexivity.
  change (Ascii.eqb ":" ":") with true. cbv iota.
  rewrite skip_ws_stringify, Hv by done. cbn [fst snd]. by rewrite string_of_list_ascii_of_string.
Qed.

Lemma parse_members_stringify fs acc rest :
  fs <> [] -> Forall (fun kv => roundtrips kv.2) fs -> Forall (fun kv => json_data kv.2) fs ->
  NoDup (acc ++ fs).*1 ->
  exists f, parse_members f acc
    (join_on ","%char (map (fun kv => quote kv.1 ++ ":"%char :: stringify kv.2) fs) ++ "}"%char :: rest) =
    Ok (JObj (acc ++ fs), rest).
Proof.
  revert acc. induction fs as [|[k v] fs IHfs]; intros acc Hne Hrt Hd Hnd; [done|].
  apply Forall_cons in Hrt as [Hv Hrt]. apply Forall_cons in Hd as [Hdv Hd]. cbn [fst snd] in *.
  assert (Hk : k ∉ acc.*1).
  { rewrite fmap_app, fmap_cons in Hnd. apply NoDup_app in Hnd as (_ & Hdisj & _).
    intros Hin. apply (Hdisj k Hin). apply list_elem_of_here. }
  destruct fs as [|kv2 fs].
  - destruct (Hv ("}"%char :: rest) eq_refl) as [f Hf]. exists (S f). cbn [map join_on].
    rewrite parse_member by done. rewrite obj_set_fresh by done. reflexivity.
  - destruct (Hv (","%char :: join_on ","%char (map (fun kv => quote kv.1 ++ ":"%char :: stringify kv.2) (kv2 :: fs))
                  ++ "}"%char :: rest) eq_refl) as [f1 Hf1].
    destruct (IHfs (acc ++ [(k, v)]) ltac:(done) Hrt Hd ltac:(by rewrite <-app_assoc)) as [f2 Hf2].
    exists (S (f1 `max` f2)). cbn [map]. rewrite join_on_cons, <-app_assoc. cbn [app].
    rewrite (parse_member (f1 `max` f2)); [|done|by apply (parse_value_lift f1); [lia|]].
    rewrite skip_ws_nonws by reflexivity. change (Ascii.eqb "," ",") with true. cbv iota.
    destruct kv2 as [k2 v2]. cbn [fst snd map] in *.
    remember (join_on ","%char _ ++ "}"%char :: rest) as L eqn:HL.
    assert (Hc' : exists t', L = "034"%char :: t') by (subst L; unfold quote; destruct fs; simpl; eauto).
    destruct Hc' as [t' HL']. rewrite HL', skip_ws_nonws, <-HL' by reflexivity. subst L.
    rewrite obj_set_fresh by done.
    rewrite (parse_members_lift f2 (f1 `max` f2) _ _ _ ltac:(lia) Hf2). by rewrite <-app_assoc.
Qed.

(** Every value [JSON.stringify] writes is read back by [JSON.parse],
    whatever ends it. *)
Lemma stringify_roundtrips v : json_data v -> roundtrips v.
Proof.
  induction v as [| b | n | | s | vs IH | fs IH]; intros Hv rest Hr.
  - by exists 1.
  - exists 1. by destruct b.
  - exists 1. destruct (number_text_head n) as (c & t & Ht & Hc). cbn [stringify]. rewrite Ht.
    rewrite <-app_comm_cons. destruct (parse_number_char 0 c (t ++ rest) Hc) as [-> _].
    rewrite app_comm_cons, <-Ht. by apply lex_number_to_string.
  - done.
  - exists 1. unfold stringify, quote. rewrite <-app_comm_cons, <-app_assoc. cbn [app parse_value].
    change (Ascii.eqb "034" "{") with false. change (Ascii.eqb "034" "[") with false.
    change (Ascii.eqb "034" "034") with true. cbv iota. rewrite lex_string_quoted. cbn [fst snd].
    by rewrite string_of_list_ascii_of_string.
  - apply json_data_arr in Hv.
    assert (Hrt : Forall roundtrips vs) by (eapply Forall_impl; [apply Forall_and; split; [exact IH|exact Hv]|];
                                            intros v [Hi Hd]; by apply Hi).
    destruct vs as [|v vs]; [by exists 1|].
    destruct (parse_elements_stringify (v :: vs) [] rest ltac:(done) Hrt Hv) as [f Hf].
    exists (S f). cbn [stringify]. rewrite <-app_comm_cons, <-app_assoc. cbn [parse_value].
    change (Ascii.eqb "[" "{") with false. change (Ascii.eqb "[" "[") with true. cbv iota.
    apply Forall_cons in Hv as [Hdv _].
    change (map stringify (v :: vs)) with (stringify v :: map stringify vs) in Hf |- *.
    rewrite skip_ws_join by done.
    destruct (stringify_head v Hdv) as (c & t & Hct & _ & Hc & _).
    change (["]"%char] ++ rest) with ("]"%char :: rest).
    assert (Hc' : exists t', join_on ","%char (stringify v :: map stringify vs) ++ "]"%char :: rest = c :: t')
      by (rewrite Hct; destruct vs; simpl; eauto).
    destruct Hc' as [t' HL]. rewrite HL in Hf |- *. rewrite (proj2 (Ascii.eqb_neq c "]") Hc). exact Hf.
  - apply json_data_obj in Hv as [Hnd Hv].
    assert (Hrt : Forall (fun kv => roundtrips kv.2) fs)
      by (eapply Forall_impl; [apply Forall_and; split; [exact IH|exact Hv]|]; intros kv [Hi Hd]; by apply Hi).
    destruct fs as [|kv fs]; [by exists 1|].
    destruct (parse_members_stringify (kv :: fs) [] rest ltac:(done) Hrt Hv Hnd) as [f Hf].
    exists (S f). cbn [stringify]. rewrite <-app_comm_cons, <-app_assoc. cbn [parse_value].
    change (Ascii.eqb "{" "{") with true. cbv iota.
    cbn [map] in Hf |- *. destruct kv as [k v]. cbn [fst snd] in *.
    change (["}"%char] ++ rest) with ("}"%char :: rest).
    assert (Hc' : exists t', join_on ","%char (map (fun kv => quote kv.1 ++ ":"%char :: stringify kv.2) ((k, v) :: fs))
                               ++ "}"%char :: rest = "034"%char :: t')
      by (unfold quote; destruct fs; simpl; eauto).
    destruct Hc' as [t' HL]. cbn [map fst snd] in HL. rewrite HL in Hf |- *. exact Hf.
Qed.

(** C34: [JSON.parse] reads back what [JSON.stringify] writes: for
    every value without [NaN], whose numbers are doubles and whose
    objects repeat no key, [JSON.parse(JSON.stringify(v))] is [v] (the
    numbers printed by [Number::toString], shortest digits and exponent
    form included, parse to the same double; every string, control
    characters and quotes included, comes back byte for byte). *)
Theorem json_parse_stringify v : json_data v -> json_parse (json_stringify v) = Ok v.
Proof.
  intros Hv. destruct (stringify_roundtrips v Hv [] eq_refl) as [f Hf]. rewrite app_nil_r in Hf.
  unfold json_parse, json_stringify. rewrite list_ascii_of_string_of_list_ascii.
  pose proof (skip_ws_stringify v [] Hv) as Hs. rewrite app_nil_r in Hs. rewrite Hs.
  destruct (Nat.le_ge_cases f (S (2 * List.length (stringify v)))) as [Hle|Hge].
  - by rewrite (parse_value_lift f _ _ _ Hle Hf).
  - pose proof (proj1 (parse_fuel_enough (S (2 * List.length (stringify v)))) (stringify v) ltac:(lia)) as Hn.
    rewrite <-(proj1 (parse_fuel_mono _) f (stringify v) Hge Hn), Hf. done.
Qed.

(** ** Concrete instances *)

(** An object whose id is above [2 ^ 53] (printed
    ["1152921504606847000"]) and a string with a quote, a backslash and
    a newline. *)
Lemma json_parse_stringify_witness :
  json_parse (json_stringify (JObj [("id", JNum (2 ^ 60)); ("name", JStr (jtext "a'b\
c")); ("tags", JArr [JBool true; JNull; JNum (-7)])])) =
  Ok (JObj [("id", JNum (2 ^ 60)); ("name", JStr (jtext "a'b\
c")); ("tags", JArr [JBool true; JNull; JNum (-7)])]).
Proof.
  apply json_parse_stringify. cbn. split.
  - by_computation.
  - repeat split; reflexivity.
Defined.

(** A repeated key keeps its first position and its last value; a
    fraction is outside the model; a byte-order mark is a syntax
    error. *)
Example json_parse_examples :
  json_parse (jtext "{'a':1,'b':2,'a':3}") = Ok (JObj [("a", JNum 3); ("b", JNum 2)]) /\
  json_parse "1.5" = Err OutsideModel /\ json_parse "1e3" = Ok (JNum 1000) /\
  json_parse (String (ascii_of_N 0xEF) (String (ascii_of_N 0xBB) (String (ascii_of_N 0xBF) "[]"))) = Err SyntaxError.
Proof. vm_compute. repeat split. Qed.

End Json.
