(* ===== verification/ToNumber.v ===== *)
(** * [Number(string)]: ECMAScript's [StringToNumber]

    [StringToNumber] (ECMA-262 7.1.4.1.1) is what [Number(s)] and the
    unary [+s] compute on a string: the server applies it to the port
    of line 9 inside [app.listen] (line 135, [Listen]), and Mongoose's
    number cast applies it to the strings of a review body ([Schema]).
    [string_to_number] follows the grammar [StringNumericLiteral]: the
    whitespace around the literal is trimmed, the empty literal is [0],
    a [NonDecimalIntegerLiteral] ([0x], [0o], [0b]) has no sign, a
    [StrDecimalLiteral] has an optional sign and is [Infinity] or
    digits with an optional fraction and exponent; anything else is
    [NaN].  The value is rounded to a double.  On the model's numbers
    (integral doubles, the two infinities and [NaN]) a decimal numeral
    whose value is not an integer, or beyond the doubles, is outside the
    model ([Json.OutsideModel]).  The theorems relate it to
    [JsNumber.string_to_int], the integral literals, and read back the
    decimal numerals [to_dec_string] prints. *)

From stdpp Require Import base list strings.
From Stdlib Require Import ZArith NArith Ascii String.
From S2P Require Import Prelude Double JsNumber JsValue Json.

Module ToNumber.
Import Js JsNumber.

Local Open Scope api_scope.

(** A number of the model: an integral double, an infinity, [NaN]. *)
Inductive snum := SFin (z : Z) | SInf (neg : bool) | SNaN.

#[export] Instance snum_eq_dec : EqDecision snum.
Proof. solve_decision. Defined.

(** [StrUnsignedDecimalLiteral] other than [Infinity], after its sign:
    [DecimalDigits], an optional [.] with optional digits, an optional
    [ExponentPart], at least one digit before the exponent, and nothing
    after it. *)
Definition str_decimal (neg : bool) (l : list ascii) : result Json.perr snum :=
  let '(ip, l1) := Json.span_digits l in
  let '(fp, l2) :=
    match l1 with
    | c :: r => if Ascii.eqb c "." then Json.span_digits r else ([], l1)
    | [] => ([], [])
    end in
  match ip ++ fp with
  | [] => Ok SNaN
  | _ =>
      match Json.lex_exp l2 with
      | Ok (e, []) => z <-? Json.number_value neg ip fp e ;; Ok (SFin z)
      | _ => Ok SNaN
      end
  end.

(** [StrDecimalLiteral]: an optional sign, then [Infinity] or an
    unsigned decimal literal. *)
Definition str_signed (l : list ascii) : result Json.perr snum :=
  let '(neg, u) :=
    match l with
    | c :: r => if Ascii.eqb c "-" then (true, r) else if Ascii.eqb c "+" then (false, r) else (false, l)
    | [] => (false, l)
    end in
  if bool_decide (u = list_ascii_of_string "Infinity") then Ok (SInf neg) else str_decimal neg u.

(** [StringToNumber(s)]: the whitespace around the literal is trimmed;
    the empty literal is [0]; a [NonDecimalIntegerLiteral] ([0x], [0o],
    [0b]) has no sign; the value is rounded to a double. *)
Definition string_to_number (s : string) : result Json.perr snum :=
  match list_ascii_of_string (trim s) with
  | [] => Ok (SFin 0)
  | (c0 :: c :: t) as l =>
      match literal_radix c0 c with
      | Some r =>
          match nonempty_value r (all_digits r (string_of_list_ascii t)) with
          | Some z =>
              let d := Double.round_double z in
              if (2 ^ 1024 <=? d)%Z then Ok (SInf false) else Ok (SFin d)
          | None => Ok SNaN
          end
      | None => str_signed l
      end
  | l => str_signed l
  end.

(** The characters [Number::toString] writes for an integral double. *)
Definition num_text_char (c : ascii) : bool :=
  match radix_digit 10 c with Some _ => true | None => false end || Ascii.eqb c "-" || Ascii.eqb c "." || Ascii.eqb c "e" || Ascii.eqb c "+".

(** ** Lemmas *)

Lemma trim_no_ws s : Forall (fun c => is_ws c = false) (list_ascii_of_string s) -> trim s = s.
Proof.
  assert (Hd : forall l, Forall (fun c => is_ws c = false) l -> drop_ws l = l).
  { intros [|c l] Hl; [done|]. apply Forall_cons in Hl as [Hc _]. simpl. by rewrite Hc. }
  intros H. unfold trim. rewrite (Hd _ H), (Hd (rev _)) by by apply Forall_rev.
  by rewrite rev_involutive, string_of_list_ascii_of_string.
Qed.

Lemma num_text_char_facts c :
  num_text_char c = true -> is_ws c = false /\ forall c0, literal_radix c0 c = None.
Proof.
  destruct c as [[][][][][][][][]]; try discriminate;
    (split; [reflexivity | intros c0; unfold literal_radix; by destruct (Ascii.eqb c0 "0")]).
Qed.

Lemma num_text_digits ds :
  Forall (fun d => d < 10)%N ds -> Forall (fun c => num_text_char c = true) (map digit_char ds).
Proof.
  intros H. apply Forall_map. eapply Forall_impl; [exact H|]. intros d Hd.
  unfold num_text_char. by rewrite radix_digit_char.
Qed.

Lemma number_text_chars x :
  Forall (fun c => num_text_char c = true) (list_ascii_of_string (number_to_string x)).
Proof.
  pose proof (shortest_nonneg (Z.abs x) (Z.abs_nonneg x)) as Hv0.
  assert (Hsg : Forall (fun c => num_text_char c = true) (if (x <? 0)%Z then ["-"%char] else []))
    by (destruct (x <? 0)%Z; repeat constructor).
  destruct (shortest (Z.abs x)) as [|p|p] eqn:Es; [| |lia].
  - unfold number_to_string. rewrite Es. destruct (x <? 0)%Z; repeat constructor.
  - pose proof (pos_dec_digits_lt p) as Hdl. fold (pos_digits p) in Hdl.
    destruct (Z.ltb_spec (Zpos p) (10 ^ 21)) as [Hp|Hp].
    + rewrite (Json.number_text_dec x p Es Hp). apply Forall_app; split; [done|].
      by apply num_text_digits.
    + destruct (Json.number_text_exp x p Es Hp) as (d & ts & z & eds & Hz & Hd & Hel & Hne & Hev & ->).
      rewrite Hz in Hdl. apply Forall_app in Hdl as [Hdl _]. apply Forall_cons in Hdl as [Hd0 Hts].
      apply Forall_app; split; [done|]. constructor; [unfold num_text_char; by rewrite radix_digit_char|].
      apply Forall_app; split.
      * destruct ts; [constructor|]. constructor; [done|]. by apply num_text_digits.
      * do 2 (constructor; [done|]). by apply num_text_digits.
Qed.

Lemma span_digits_first u d ds r :
  Json.span_digits u = (d :: ds, r) -> exists c t, u = c :: t /\ radix_digit 10 c = Some d.
Proof.
  destruct u as [|c t]; [done|]. simpl. destruct (radix_digit 10 c) eqn:E; [|done].
  destruct (Json.span_digits t). intros [= -> _ _]. eauto.
Qed.

Lemma lex_frac_some l fp r :
  Json.lex_frac l = Ok (fp, r) ->
  match l with [] => ([], []) | c :: t => if Ascii.eqb c "." then Json.span_digits t else ([], l) end = (fp, r).
Proof.
  destruct l as [|c t]; simpl; [congruence|]. destruct (Ascii.eqb c "."); [|congruence].
  destruct (Json.span_digits t) as [[|d ds] t']; congruence.
Qed.

(** A literal the JSON lexer reads whole is a [StrDecimalLiteral] of
    the same value. *)
Lemma str_signed_lex l v : Json.lex_number l = Ok (JNum v, []) -> str_signed l = Ok (SFin v).
Proof.
  unfold Json.lex_number, str_signed.
  destruct l as [|c r]; [done|].
  destruct (Ascii.eqb c "-") eqn:Em; [|destruct (Ascii.eqb c "+") eqn:Ep].
  2: apply Ascii.eqb_eq in Ep as ->; done.
  all: cbv iota zeta; unfold str_decimal; generalize (c :: r); generalize r; intros u u'.
  1: clear u'. 2: clear u; rename u' into u.
  all: intros H; destruct (Json.span_digits u) as [ip l2] eqn:Es.
  all: destruct ip as [|d ip]; [discriminate|].
  all: destruct (span_digits_first _ _ _ _ Es) as (c' & t' & Hu & Hc').
  all: rewrite bool_decide_false by (intros Hinf; rewrite Hu in Hinf; injection Hinf as -> _; discriminate Hc').
  all: assert (H' : (fr <-? Json.lex_frac l2 ;; ex <-? Json.lex_exp fr.2 ;;
                     w <-? Json.number_value _ (d :: ip) fr.1 ex.1 ;; Ok (JNum w, ex.2)) = Ok (JNum v, []))
         by (destruct d as [|p]; [destruct ip; [exact H | discriminate] | exact H]).
  all: clear H; destruct (Json.lex_frac l2) as [[fp l3]|] eqn:Ef; [|discriminate].
  all: rewrite (lex_frac_some _ _ _ Ef); cbn -[Json.lex_exp Json.number_value] in H' |- *.
  all: destruct (Json.lex_exp l3) as [[e l4]|] eqn:Ex; [|discriminate]; cbn -[Json.number_value] in H' |- *.
  all: destruct (Json.number_value _ _ _ _) eqn:En; [|discriminate]; by injection H' as -> ->.
Qed.

Lemma is_double_small x : (Z.abs x < 2 ^ 53)%Z -> Double.is_double x = true.
Proof.
  intros Hx. unfold Double.is_double.
  assert (Hd : Double.drop_bits (Z.abs x) = 0%Z).
  { destruct (Z.eq_dec (Z.abs x) 0) as [->|Hne]; [reflexivity|].
    apply Double.drop_bits_small. lia. }
  rewrite Hd. apply andb_true_intro. split; [apply Z.eqb_eq; apply Z.mod_1_r | apply Z.ltb_lt; lia].
Qed.

(** The decimal text of a safe integer has no blank and is not empty. *)
Lemma dec_string_text n :
  (Z.abs n < 2 ^ 53)%Z -> trim (to_dec_string n) = to_dec_string n /\ to_dec_string n <> ""%string.
Proof.
  intros Hn. rewrite <-(number_to_string_small n Hn). split.
  - apply trim_no_ws. eapply Forall_impl; [apply number_text_chars|]. intros c Hc.
    by apply num_text_char_facts.
  - destruct (Json.number_text_head n) as (c & t & Ht & _). intros He. by rewrite He in Ht.
Qed.

(** ** Theorems *)

(** [Number(String(x))] is [x] for every double [x]: the text
    [Number::toString] writes reads back as the same number. *)
Theorem string_to_number_to_string x :
  Double.is_double x = true -> string_to_number (number_to_string x) = Ok (SFin x).
Proof.
  intros Hx. pose proof (number_text_chars x) as Hc.
  assert (Hl : Json.lex_number (list_ascii_of_string (number_to_string x)) = Ok (JNum x, [])).
  { rewrite <-(app_nil_r (list_ascii_of_string _)). by apply Json.lex_number_to_string. }
  unfold string_to_number. rewrite trim_no_ws
    by (eapply Forall_impl; [exact Hc|]; intros c Hc'; by apply num_text_char_facts).
  destruct (list_ascii_of_string (number_to_string x)) as [|c0 [|c t]] eqn:E; [done| |].
  - by apply str_signed_lex.
  - apply Forall_cons in Hc as [_ Hc]. apply Forall_cons in Hc as [Hc _].
    rewrite (proj2 (num_text_char_facts c Hc) c0). by apply str_signed_lex.
Qed.

End ToNumber.
