(* ===== verification/Config.v ===== *)
(** * The server's configuration (lines 9 and 33 of [src/app.js])

    [port] (line 9) is [process.env.PORT || 3030] and [mongoUri]
    (line 33) is [process.env.MONGO_URI || 'mongodb://mongo_db:27017/dealershipsDB'];
    [mongoUri] is the address [mongoose.connect] is given (line 35).
    The environment is a list of variables with string values, read as
    [process.env] reads it: the first binding of a name, [undefined]
    without one.  Because [||] tests truthiness, a variable set to the
    empty string does not override its default, and a set [PORT] stays
    a string. *)

From stdpp Require Import base list strings.
From Stdlib Require Import ZArith Ascii String.
From S2P Require Import Prelude JsNumber JsValue.

Module Config.
Import Js.

(** [process.env]. *)
Definition env := list (string * string).

(** [process.env.<k>]. *)
Definition env_get (e : env) (k : string) : jsv :=
  match List.find (fun b => String.eqb b.1 k) e with
  | Some (_, s) => Some (JStr s)
  | None => None
  end.

(** Line 9. *)
Definition port (e : env) : jsv := js_or (env_get e "PORT") (Some (JNum 3030)).

Definition default_mongo_uri : string := "mongodb://mongo_db:27017/dealershipsDB".

(** Line 33. *)
Definition mongoUri (e : env) : jsv := js_or (env_get e "MONGO_URI") (Some (JStr default_mongo_uri)).

(** The value a variable overrides its default with: a set, non-empty
    string. *)
Definition override (e : env) (k : string) : option string :=
  match env_get e k with
  | Some (JStr s) => if String.eqb s "" then None else Some s
  | _ => None
  end.

(** ** Lemmas *)

(** [v || d] for a variable [v] of the environment. *)
Lemma js_or_env e k d :
  js_or (env_get e k) d = match override e k with Some s => Some (JStr s) | None => d end.
Proof.
  unfold js_or, override, env_get. destruct (List.find _ e) as [[? s]|]; [|done].
  simpl. by destruct (String.eqb s "").
Qed.

Lemma port_spec e :
  port e = match override e "PORT" with Some s => Some (JStr s) | None => Some (JNum 3030) end.
Proof. apply js_or_env. Qed.

Lemma mongoUri_spec e :
  mongoUri e = Some (JStr (default default_mongo_uri (override e "MONGO_URI"))).
Proof. unfold mongoUri. rewrite js_or_env. by destruct (override e "MONGO_URI"). Qed.

(** An empty [PORT] is not an override. *)
Lemma override_empty e k : env_get e k = Some (JStr "") -> override e k = None.
Proof. unfold override. by intros ->. Qed.

End Config.
