(* ===== verification/Listen.v ===== *)
(** * The listener's port: [app.listen(port)] (line 135 of [src/app.js])

    [app.listen(port)] calls Node's [net.Server.prototype.listen] with
    the [port] of line 9: the number [3030], or the string of the
    environment variable [PORT].  Node reads that argument in three
    ways ([lib/net.js], [normalizeArgs], [isPipeName], [toNumber], and
    [validatePort] of [lib/internal/validators.js]):
    - a string whose [Number] value is not [>= 0] ([NaN], negative) is
      the path of a pipe (a Unix domain socket) to listen on;
    - any other string, and a number, is a TCP port: it must not be
      blank, and its [Number] value must be an integer in [0 .. 65535],
      or [listen] throws [ERR_SOCKET_BAD_PORT], synchronously, while the
      module's top level is running: the process ends;
    - the port listened on is that value ([0]: any free port).
    [Number] is [ToNumber.string_to_number]; a decimal numeral whose
    value is not an integer, or beyond the doubles, is outside the
    model.  The theorems show which [PORT] values give a TCP port, a
    pipe, or the error. *)

From stdpp Require Import base list strings.
From Stdlib Require Import ZArith NArith Ascii String.
From S2P Require Import Prelude Double JsNumber JsValue Json ToNumber Config.

Module Listen.
Import Js JsNumber ToNumber Config.

Local Open Scope api_scope.

(** ** [net.Server.prototype.listen(port)] *)

(** Where the server listens, or the error [listen] throws. *)
Inductive listen_outcome :=
| ListenTcp (n : Z)          (** a TCP port, [0] for any free one *)
| ListenPipe (path : string) (** a pipe named by the argument *)
| BadPort.                   (** [ERR_SOCKET_BAD_PORT] *)

#[export] Instance listen_outcome_eq_dec : EqDecision listen_outcome.
Proof. solve_decision. Defined.

(** [toNumber(x)] of [net.js]: [(x = Number(x)) >= 0 ? x : false]. *)
Definition nonneg (v : snum) : bool :=
  match v with
  | SFin z => (0 <=? z)%Z
  | SInf neg => negb neg
  | SNaN => false
  end.

(** [validatePort]'s test on [+port]: [+port === (+port >>> 0)] (an
    integer in [0 .. 2^32 - 1]) and [port <= 0xFFFF]. *)
Definition port_number (v : snum) : option Z :=
  match v with
  | SFin z => if ((0 <=? z) && (z <=? 65535))%Z then Some z else None
  | _ => None
  end.

(** [listen(port)] on the values line 9 gives: a string is a pipe name
    when [isPipeName] holds, otherwise it is validated as a port, blank
    strings rejected; a number is validated as a port.  [None]: an
    argument line 9 never gives. *)
Definition listen_arg (p : jsv) : option (result Json.perr listen_outcome) :=
  match p with
  | Some (JStr s) =>
      Some (v <-? string_to_number s ;;
            if negb (nonneg v) then Ok (ListenPipe s)
            else if String.eqb (trim s) "" then Ok BadPort
            else Ok (match port_number v with Some n => ListenTcp n | None => BadPort end))
  | Some (JNum n) => Some (Ok (match port_number (SFin n) with Some m => ListenTcp m | None => BadPort end))
  | Some JNaN => Some (Ok BadPort)
  | _ => None
  end.

(** Line 135 under the environment [e]. *)
Definition listen (e : env) : option (result Json.perr listen_outcome) := listen_arg (port e).

(** ** Theorems *)

(** Without a [PORT] (or with an empty one) the server listens on TCP
    port 3030. *)
Lemma listen_default e : override e "PORT" = None -> listen e = Some (Ok (ListenTcp 3030)).
Proof. intros Ho. unfold listen. by rewrite port_spec, Ho. Qed.

(** C23: a [PORT] holding the decimal text of a safe integer [n] makes
    the server listen on TCP port [n] when [0 <= n <= 65535]; above
    that [listen] throws [ERR_SOCKET_BAD_PORT] and the process ends; a
    negative [n] is not a port at all: the server listens on a pipe
    (a Unix domain socket) named by the text, such as [-1]. *)
Theorem listen_decimal e n :
  override e "PORT" = Some (to_dec_string n) -> (Z.abs n < 2 ^ 53)%Z ->
  listen e = Some (Ok (if (n <? 0)%Z then ListenPipe (to_dec_string n)
                       else if (n <=? 65535)%Z then ListenTcp n else BadPort)).
Proof.
  intros Ho Hn. unfold listen. rewrite port_spec, Ho. cbn [listen_arg].
  destruct (dec_string_text n Hn) as [Ht Hne]. rewrite Ht.
  rewrite <-(number_to_string_small n Hn) at 1.
  rewrite string_to_number_to_string by by apply is_double_small. cbn -[to_dec_string].
  destruct (String.eqb_spec (to_dec_string n) "") as [He|_]; [done|].
  destruct (Z.ltb_spec n 0), (Z.leb_spec 0 n), (Z.leb_spec n 65535); simpl; try lia; done.
Qed.

(** ** Concrete instances *)

Lemma listen_decimal_witness :
  listen [("PORT", "-1")] = Some (Ok (ListenPipe "-1")) /\
  listen [("PORT", "70000")] = Some (Ok BadPort) /\
  listen [("PORT", "8080")] = Some (Ok (ListenTcp 8080)).
Proof.
  split_and!.
  - apply (listen_decimal _ (-1)); reflexivity.
  - apply (listen_decimal _ 70000); reflexivity.
  - apply (listen_decimal _ 8080); reflexivity.
Defined.

(** Values of [PORT] that are not decimal numerals: a name is a pipe,
    hexadecimal and exponent forms are ports, a blank value and
    [Infinity] are rejected, a fraction is outside the model. *)
Example listen_examples :
  listen [("PORT", "abc")] = Some (Ok (ListenPipe "abc")) /\
  listen [("PORT", "3030abc")] = Some (Ok (ListenPipe "3030abc")) /\
  listen [("PORT", "0x1F90")] = Some (Ok (ListenTcp 8080)) /\
  listen [("PORT", " 1e3 ")] = Some (Ok (ListenTcp 1000)) /\
  listen [("PORT", "  ")] = Some (Ok BadPort) /\
  listen [("PORT", "Infinity")] = Some (Ok BadPort) /\
  listen [("PORT", "1.5")] = Some (Err Json.OutsideModel) /\
  listen [] = Some (Ok (ListenTcp 3030)).
Proof. vm_compute. repeat split. Qed.

End Listen.
