(* ===== verification/FormBody.v ===== *)
(** * URL-encoded request bodies

    Line 12 of [src/app.js] installs [bodyParser.urlencoded({ extended:
    false })]: a body of type [application/x-www-form-urlencoded] becomes
    [req.body] through Node's [querystring.parse] ([extended: false]),
    after body-parser's guard that answers [413] ("too many parameters")
    when the body has 1000 or more [&].  An empty body is [{}].

    [querystring.parse] splits the text at [&], skips empty pieces, splits
    each piece at its first [=] (a piece without [=] is a key with the
    empty value), turns [+] into a space, and decodes a key or value when
    it holds a valid escape [%XY]: with [decodeURIComponent], or, when
    that throws, with [unescapeBuffer] (valid escapes decoded, anything
    else kept) followed by a UTF-8 decoding that replaces each ill-formed
    subsequence by U+FFFD.  A repeated key collects its values in an
    array.  The result is an object without prototype, so every key is
    an own property; property order is insertion order.

    Text is modelled as bytes: the body is the ASCII text a browser's
    form serialiser produces (non-ASCII bytes are percent-encoded), and
    decoded text is kept as UTF-8.  The limit [maxKeys] of
    [querystring.parse] is not modelled: body-parser's guard rejects
    every body with enough pieces to reach it. *)

From stdpp Require Import base list strings.
From Stdlib Require Import ZArith NArith Ascii String.
From S2P Require Import Prelude JsNumber UriDecode JsValue.

Module Form.
Import JsNumber Uri Js.

(** ** Decoding a key or a value *)

(** [unescapeBuffer(s, decodeSpaces)]: a [%] followed by two hexadecimal
    digits is the byte they denote; a [%] with fewer than two characters
    after it, or not followed by two digits, is kept. *)
Fixpoint unescape_buffer (spaces : bool) (l : list ascii) : list ascii :=
  match l with
  | [] => []
  | c :: rest =>
      if spaces && Ascii.eqb c "+" then " "%char :: unescape_buffer spaces rest
      else if Ascii.eqb c "%" then
        match rest with
        | h :: ((l2 :: rest') as tl) =>
            match radix_digit 16 h with
            | None => "%"%char :: unescape_buffer spaces rest
            | Some hi =>
                match radix_digit 16 l2 with
                | None => "%"%char :: h :: unescape_buffer spaces tl
                | Some lo => ascii_of_N (hi * 16 + lo) :: unescape_buffer spaces rest'
                end
            end
        | _ => c :: unescape_buffer spaces rest
        end
      else c :: unescape_buffer spaces rest
  end.

(** U+FFFD in UTF-8. *)
Definition replacement : list ascii := [ascii_of_N 0xEF; ascii_of_N 0xBF; ascii_of_N 0xBD].

(** The UTF-8 decoder's state after reading byte [c] with no sequence
    pending: bytes to emit, continuation bytes still needed, the range
    of the next byte, and the pending bytes. *)
Definition utf8_start (c : ascii) : list ascii * nat * N * N * list ascii :=
  let b := N_of_ascii c in
  if (b <? 0x80)%N then ([c], 0, 0x80%N, 0xBF%N, [])
  else if ((0xC2 <=? b) && (b <=? 0xDF))%N then ([], 1, 0x80%N, 0xBF%N, [c])
  else if ((0xE0 <=? b) && (b <=? 0xEF))%N then
    ([], 2, (if (b =? 0xE0)%N then 0xA0%N else 0x80%N), (if (b =? 0xED)%N then 0x9F%N else 0xBF%N), [c])
  else if ((0xF0 <=? b) && (b <=? 0xF4))%N then
    ([], 3, (if (b =? 0xF0)%N then 0x90%N else 0x80%N), (if (b =? 0xF4)%N then 0x8F%N else 0xBF%N), [c])
  else (replacement, 0, 0x80%N, 0xBF%N, []).

(** The UTF-8 decoder of [Buffer.prototype.toString]: a byte out of range
    for the pending sequence ends it with U+FFFD and is read again. *)
Fixpoint utf8_go (need : nat) (lo hi : N) (pend : list ascii) (l : list ascii) : list ascii :=
  match l with
  | [] => match need with O => [] | S _ => replacement end
  | c :: l' =>
      match need with
      | O =>
          let '(out, n, lo', hi', p) := utf8_start c in out ++ utf8_go n lo' hi' p l'
      | S n =>
          let b := N_of_ascii c in
          if ((lo <=? b) && (b <=? hi))%N then
            match n with
            | O => pend ++ [c] ++ utf8_go 0 0x80 0xBF [] l'
            | S _ => utf8_go n 0x80 0xBF (pend ++ [c]) l'
            end
          else
            let '(out, n', lo', hi', p) := utf8_start c in
            replacement ++ out ++ utf8_go n' lo' hi' p l'
      end
  end.

Definition utf8_decode (l : list ascii) : list ascii := utf8_go 0 0x80 0xBF [] l.

(** [querystring.unescape(s)]: [decodeURIComponent], or the byte-wise
    decoding when it throws. *)
Definition qs_unescape (l : list ascii) : list ascii :=
  match Uri.decode (S (List.length l)) l with
  | Some r => r
  | None => utf8_decode (unescape_buffer false l)
  end.

(** Whether [querystring.parse] sees a valid escape: a [%] followed by
    two hexadecimal digits. *)
Fixpoint has_escape (l : list ascii) : bool :=
  match l with
  | c :: ((h :: l2 :: _) as rest) =>
      (Ascii.eqb c "%" && bool_decide (is_Some (radix_digit 16 h)) &&
       bool_decide (is_Some (radix_digit 16 l2))) || has_escape rest
  | _ => false
  end.

Definition plus_to_space (l : list ascii) : list ascii :=
  map (fun c => if Ascii.eqb c "+" then " "%char else c) l.

(** A key, [+] as a space, decoded when it holds a valid escape (a [+]
    breaks an escape there). *)
Definition decode_key (raw : list ascii) : list ascii :=
  let t := plus_to_space raw in if has_escape raw then qs_unescape t else t.

(** A value, likewise; in a value the scan for an escape skips the [+]. *)
Definition decode_value (raw : list ascii) : list ascii :=
  let t := plus_to_space raw in
  if has_escape (filter (fun c => c <> "+"%char) raw) then qs_unescape t else t.

(** ** Parsing *)

(** A piece up to its first [=], and the rest. *)
Fixpoint split_eq (l : list ascii) : list ascii * list ascii :=
  match l with
  | [] => ([], [])
  | c :: l' => if Ascii.eqb c "=" then ([], l') else let '(k, v) := split_eq l' in (c :: k, v)
  end.

(** [addKeyVal]: a new key is appended, a second value makes an array,
    later values are pushed. *)
Definition add_key_val (fs : list (string * jval)) (k v : string) : list (string * jval) :=
  match prop fs k with
  | None => fs ++ [(k, JStr v)]
  | Some (JArr vs) => obj_set k (JArr (vs ++ [JStr v])) fs
  | Some cur => obj_set k (JArr [cur; JStr v]) fs
  end.

Definition add_piece (fs : list (string * jval)) (piece : list ascii) : list (string * jval) :=
  match piece with
  | [] => fs
  | _ =>
      let '(k, v) := split_eq piece in
      add_key_val fs (string_of_list_ascii (decode_key k)) (string_of_list_ascii (decode_value v))
  end.

(** [querystring.parse(body)]. *)
Definition qs_parse (body : string) : list (string * jval) :=
  foldl add_piece [] (split_on "&" (list_ascii_of_string body)).

Definition count_amp (body : string) : nat :=
  List.length (filter (fun c => c = "&"%char) (list_ascii_of_string body)).

(** body-parser's urlencoded parser: [None] is the [413] for 1000 or more
    [&], an empty body is [{}]. *)
Definition urlencoded (body : string) : option jval :=
  if (1000 <=? count_amp body)%nat then None
  else Some (JObj (match body with EmptyString => [] | _ => qs_parse body end)).

(** ** Encoding *)

(** The pieces [k=v] of a form as a browser submits it, each side
    through [encodeURIComponent]. *)
Definition form_pieces (kvs : list (string * string)) : list (list ascii) :=
  map (fun kv => list_ascii_of_string (Uri.encodeURIComponent kv.1) ++ "="%char ::
                 list_ascii_of_string (Uri.encodeURIComponent kv.2)) kvs.

(** The body [k1=v1&k2=v2...]. *)
Definition form_encode (kvs : list (string * string)) : string :=
  string_of_list_ascii (join_on "&" (form_pieces kvs)).

(** A string of 7-bit characters. *)
Definition ascii_text (s : string) : Prop := Forall (fun c => N_of_ascii c < 128)%N (list_ascii_of_string s).

(** ** Lemmas *)

Lemma has_escape_cons c l : has_escape l = true -> has_escape (c :: l) = true.
Proof. destruct l as [|h [|l2 t]]; simpl; try done. intros ->. apply orb_true_r. Qed.

(** An escaped character is a valid escape. *)
Lemma has_escape_encoded c rest :
  Uri.unreserved c = false -> has_escape (Uri.encode_char c ++ rest) = true.
Proof.
  intros Hu. unfold Uri.encode_char. rewrite Hu. cbn [app has_escape].
  rewrite !Uri.radix_hex_char; [done| |].
  - apply N.mod_lt. lia.
  - apply N.Div0.div_lt_upper_bound. pose proof (N_ascii_bounded c). lia.
Qed.

(** Encoded text without an escape is the text itself. *)
Lemma encode_plain l :
  has_escape (mjoin (map Uri.encode_char l)) = false -> mjoin (map Uri.encode_char l) = l.
Proof.
  induction l as [|c l IH]; [done|].
  change (mjoin (map Uri.encode_char (c :: l))) with (Uri.encode_char c ++ mjoin (map Uri.encode_char l)).
  destruct (Uri.unreserved c) eqn:Hu.
  - assert (E : Uri.encode_char c = [c]) by (unfold Uri.encode_char; by rewrite Hu).
    rewrite E. cbn [app]. intros H. f_equal. apply IH.
    destruct (has_escape (mjoin (map Uri.encode_char l))) eqn:He; [|done].
    by rewrite has_escape_cons in H.
  - by rewrite has_escape_encoded.
Qed.

Lemma plus_to_space_id l : "+"%char ∉ l -> plus_to_space l = l.
Proof.
  induction l as [|c l IH]; [done|]. intros [Hc Hl]%not_elem_of_cons. simpl.
  destruct (Ascii.eqb_spec c "+"); [congruence|]. by rewrite IH.
Qed.

Lemma filter_not_plus (l : list ascii) : "+"%char ∉ l -> filter (fun c => c <> "+"%char) l = l.
Proof.
  induction l as [|c l IH]; [done|]. intros [Hc Hl]%not_elem_of_cons.
  rewrite filter_cons_True by done. by rewrite IH.
Qed.

Lemma encoded_list s :
  list_ascii_of_string (Uri.encodeURIComponent s) = mjoin (map Uri.encode_char (list_ascii_of_string s)).
Proof. apply list_ascii_of_string_of_list_ascii. Qed.

(** A key or value of a submitted form reads back as it was. *)
Lemma decode_encoded s :
  ascii_text s ->
  decode_key (list_ascii_of_string (Uri.encodeURIComponent s)) = list_ascii_of_string s /\
  decode_value (list_ascii_of_string (Uri.encodeURIComponent s)) = list_ascii_of_string s.
Proof.
  intros Hs. assert (Hp : "+"%char ∉ list_ascii_of_string (Uri.encodeURIComponent s))
    by auto with api.
  unfold decode_key, decode_value. rewrite plus_to_space_id, filter_not_plus by done.
  rewrite encoded_list in *. destruct (has_escape _) eqn:He.
  - unfold qs_unescape. by rewrite Uri.decode_encode_chars by (done || lia).
  - by rewrite encode_plain.
Qed.

Lemma split_eq_app x y : "="%char ∉ x -> split_eq (x ++ "="%char :: y) = (x, y).
Proof.
  induction x as [|c x IH]; [done|]. intros [Hc Hx]%not_elem_of_cons. simpl.
  destruct (Ascii.eqb_spec c "="); [congruence|]. by rewrite IH.
Qed.

(** A submitted piece [k=v] adds the key [k] with the value [v]. *)
Lemma add_piece_form acc k v :
  ascii_text k -> ascii_text v ->
  add_piece acc (list_ascii_of_string (Uri.encodeURIComponent k) ++ "="%char ::
                 list_ascii_of_string (Uri.encodeURIComponent v)) = add_key_val acc k v.
Proof.
  intros Hk Hv.
  assert (Hpiece : forall x y, add_piece acc (x ++ "="%char :: y) =
                     let '(k, v) := split_eq (x ++ "="%char :: y) in
                     add_key_val acc (string_of_list_ascii (decode_key k))
                                 (string_of_list_ascii (decode_value v))) by (by intros [] y).
  rewrite Hpiece, split_eq_app by auto with api.
  rewrite (proj1 (decode_encoded k Hk)), (proj2 (decode_encoded v Hv)).
  by rewrite !string_of_list_ascii_of_string.
Qed.

(** Distinct keys are added in order. *)
Lemma fold_form acc kvs :
  NoDup (acc.*1 ++ kvs.*1) -> Forall (fun kv => ascii_text kv.1 /\ ascii_text kv.2) kvs ->
  foldl add_piece acc (form_pieces kvs) = acc ++ map (fun kv => (kv.1, JStr kv.2)) kvs.
Proof.
  revert acc; induction kvs as [|[k v] kvs IH]; intros acc Hnd Hkvs; [by rewrite app_nil_r|].
  apply Forall_cons in Hkvs as [[Hk Hv] Hkvs]. cbn [form_pieces map foldl fst snd].
  rewrite fmap_cons in Hnd. apply NoDup_app in Hnd as (Hacc & Hdis & Hrest).
  rewrite add_piece_form by done. unfold add_key_val.
  rewrite prop_notin by (intros Hin; by apply (Hdis k); [|left]).
  rewrite IH, <-app_assoc; [done| |done]. rewrite fmap_app, <-app_assoc. simpl.
  apply NoDup_app. split; [done|]. split; [|done].
  intros x Hx. simpl. intros Hx'. by apply (Hdis x).
Qed.

Lemma count_join sep l :
  Forall (fun x => sep ∉ x) l -> List.length (filter (fun c => c = sep) (join_on sep l)) = List.length l - 1.
Proof.
  assert (Hnone : forall x, sep ∉ x -> filter (fun c => c = sep) x = []).
  { induction x as [|c x IH]; [done|]. intros [Hc Hx]%not_elem_of_cons.
    rewrite filter_cons_False by done. by apply IH. }
  induction l as [|x [|y l] IH]; intros Hl; [done| |].
  - apply Forall_cons in Hl as [Hx _]. simpl. by rewrite Hnone.
  - apply Forall_cons in Hl as [Hx Hl]. rewrite join_on_cons, filter_app, filter_cons_True by done.
    rewrite Hnone, length_app by done. cbn [List.length]. rewrite IH by done. cbn [List.length]. lia.
Qed.

Lemma piece_no_amp k v :
  "&"%char ∉ list_ascii_of_string (Uri.encodeURIComponent k) ++ "="%char ::
             list_ascii_of_string (Uri.encodeURIComponent v).
Proof.
  rewrite elem_of_app, elem_of_cons. intros [H|[H|H]]; [by eapply encode_no_amp | done | by eapply encode_no_amp].
Qed.

Lemma form_pieces_cons kv kvs :
  form_pieces (kv :: kvs) =
  (list_ascii_of_string (Uri.encodeURIComponent kv.1) ++ "="%char ::
   list_ascii_of_string (Uri.encodeURIComponent kv.2)) :: form_pieces kvs.
Proof. done. Qed.

Lemma urlencoded_qs body :
  urlencoded body = if (1000 <=? count_amp body)%nat then None else Some (JObj (qs_parse body)).
Proof. by destruct body. Qed.

Lemma count_amp_form kvs : count_amp (form_encode kvs) = List.length kvs - 1.
Proof.
  unfold count_amp, form_encode. rewrite list_ascii_of_string_of_list_ascii, count_join.
  - unfold form_pieces. by rewrite length_map.
  - apply Forall_map, Forall_forall. intros [k v] _. apply piece_no_amp.
Qed.

Lemma qs_parse_form kvs :
  kvs <> [] -> qs_parse (form_encode kvs) = foldl add_piece [] (form_pieces kvs).
Proof.
  intros Hne. unfold qs_parse, form_encode. rewrite list_ascii_of_string_of_list_ascii, split_join.
  - done.
  - by destruct kvs.
  - apply Forall_map, Forall_forall. intros [k v] _. apply piece_no_amp.
Qed.

(** Further values of a key already holding an array are pushed. *)
Lemma fold_same_key k xs vs :
  ascii_text k -> Forall ascii_text vs ->
  foldl add_piece [(k, JArr xs)] (form_pieces (map (fun v => (k, v)) vs)) =
  [(k, JArr (xs ++ map JStr vs))].
Proof.
  intros Hk Hvs. revert xs; induction Hvs as [|v vs Hv _ IH]; intros xs; [by rewrite app_nil_r|].
  cbn [map]. rewrite form_pieces_cons. cbn [foldl fst snd]. rewrite add_piece_form by done.
  unfold add_key_val. cbn [prop obj_set]. rewrite String.eqb_refl, IH, <-app_assoc. done.
Qed.

(** A key given at least twice collects its values in an array. *)
Lemma urlencoded_same_key k v1 v2 vs :
  ascii_text k -> Forall ascii_text (v1 :: v2 :: vs) -> List.length vs <= 998 ->
  urlencoded (form_encode (map (fun v => (k, v)) (v1 :: v2 :: vs))) =
  Some (JObj [(k, JArr (map JStr (v1 :: v2 :: vs)))]).
Proof.
  intros Hk Hvs Hlen. inversion Hvs as [|? ? Hv1 Hvs']; subst. inversion Hvs' as [|? ? Hv2 Hvs'']; subst.
  rewrite urlencoded_qs, count_amp_form, length_map.
  destruct (Nat.leb_spec 1000 (List.length (v1 :: v2 :: vs) - 1)); [simpl in *; lia|].
  rewrite qs_parse_form by done. cbn [map]. rewrite !form_pieces_cons. cbn [foldl fst snd].
  rewrite !add_piece_form by done.
  assert (H2 : add_key_val (add_key_val [] k v1) k v2 = [(k, JArr [JStr v1; JStr v2])]).
  { unfold add_key_val. cbn [prop app]. rewrite String.eqb_refl. cbn [obj_set].
    by rewrite String.eqb_refl. }
  rewrite H2. by rewrite (fold_same_key k [JStr v1; JStr v2] vs).
Qed.


(** ** Properties *)

(** C33: body-parser's urlencoded parser reads back every form a
    browser submits with distinct ASCII keys: each key maps to its value,
    in the order of the form. *)
Theorem urlencoded_form kvs :
  NoDup kvs.*1 -> Forall (fun kv => ascii_text kv.1 /\ ascii_text kv.2) kvs ->
  List.length kvs <= 1000 ->
  urlencoded (form_encode kvs) = Some (JObj (map (fun kv => (kv.1, JStr kv.2)) kvs)).
Proof.
  intros Hnd Hkvs Hlen. rewrite urlencoded_qs, count_amp_form.
  destruct (Nat.leb_spec 1000 (List.length kvs - 1)); [lia|].
  destruct kvs as [|kv kvs']; [done|]. rewrite qs_parse_form by done.
  by rewrite (fold_form [] (kv :: kvs')).
Qed.

Lemma urlencoded_form_witness :
  urlencoded "name=A%20B&rating=5&purchase=yes" =
  Some (JObj [("name", JStr "A B"); ("rating", JStr "5"); ("purchase", JStr "yes")]).
Proof.
  apply (urlencoded_form [("name", "A B"); ("rating", "5"); ("purchase", "yes")]%string);
    [by_computation | unfold ascii_text; by_computation | simpl; lia].
Defined.

(** A key repeated in a form yields the array of its values, in
    order: [req.body.k] is then an array, not a string. *)
Theorem urlencoded_repeated k v1 v2 vs :
  ascii_text k -> Forall ascii_text (v1 :: v2 :: vs) -> List.length vs <= 998 ->
  urlencoded (form_encode (map (fun v => (k, v)) (v1 :: v2 :: vs))) =
  Some (JObj [(k, JArr (map JStr (v1 :: v2 :: vs)))]).
Proof. apply urlencoded_same_key. Qed.

Lemma urlencoded_repeated_witness :
  urlencoded "dealership=1&dealership=2" =
  Some (JObj [("dealership", JArr [JStr "1"; JStr "2"])]).
Proof.
  apply (urlencoded_repeated "dealership" "1" "2" []);
    [unfold ascii_text; by_computation | unfold ascii_text; repeat constructor; by_computation | simpl; lia].
Defined.

(** ** The parsed body is a well-formed object *)

(** The values [querystring.parse] stores: strings, and arrays of
    strings for a repeated key. *)
Definition form_value (v : jval) : Prop :=
  match v with
  | JStr _ => True
  | JArr vs => Forall (fun w => exists t, w = JStr t) vs
  | _ => False
  end.

Definition form_obj (fs : list (string * jval)) : Prop :=
  NoDup fs.*1 /\ Forall (fun kv => form_value kv.2) fs.

Lemma form_value_wf v : form_value v -> wf v.
Proof.
  destruct v; intros H; try done. apply wf_arr.
  eapply Forall_impl; [exact H|]. intros w [t ->]. exact I.
Qed.

Lemma add_key_val_form fs k v : form_obj fs -> form_obj (add_key_val fs k v).
Proof.
  intros [Hnd Hfs]. unfold add_key_val.
  destruct (prop fs k) as [cur|] eqn:Hp.
  - assert (Hcur : form_value cur) by (apply prop_elem in Hp; by apply (proj1 (Forall_forall _ _) Hfs _ Hp)).
    destruct cur as [| | | | t | vs |]; try done; (split; [by apply obj_set_NoDup|]);
      apply obj_set_Forall; try done; simpl.
    + repeat constructor; eauto.
    + apply Forall_app; split; [done|]. repeat constructor. eauto.
  - split.
    + rewrite fmap_app. apply NoDup_app. split_and!; [done | | apply NoDup_singleton].
      intros x Hx ->%list_elem_of_singleton. by apply (prop_None_notin fs k) in Hp.
    + apply Forall_app. split; [done|]. repeat constructor.
Qed.

Lemma qs_parse_obj body : form_obj (qs_parse body).
Proof.
  unfold qs_parse. generalize (split_on "&" (list_ascii_of_string body)).
  intros pieces. cut (forall acc, form_obj acc -> form_obj (foldl add_piece acc pieces)).
  { intros H. apply H. split; [constructor | constructor]. }
  induction pieces as [|piece pieces IH]; intros acc Hacc; simpl; [done|].
  apply IH. unfold add_piece. destruct piece; [done|].
  destruct (split_eq _). by apply add_key_val_form.
Qed.

(** Every body the parser accepts is a well-formed object. *)
Lemma urlencoded_wf body v : urlencoded body = Some v -> wf v.
Proof.
  unfold urlencoded. case_match; [done|]. intros [= <-]. apply wf_obj.
  assert (Hf : form_obj (match body with EmptyString => [] | _ => qs_parse body end))
    by (destruct body; [split; constructor | apply qs_parse_obj]).
  destruct Hf as [Hnd Hfs]. split; [done|].
  eapply Forall_impl; [exact Hfs|]. intros kv. apply form_value_wf.
Qed.

End Form.
