(* ===== verification/Schema.v ===== *)
(** * The Mongoose schemas of the two collections and value casting

    [src/app.js] loads [./review] and [./dealership] (lines 48 and 49),
    the Mongoose models of the [reviews] and [dealerships] collections.
    Their schema files are not under [src/]; the schemas here follow the
    spec's data model (section 3): a review has a numeric [id], a
    numeric [dealership], a boolean car-purchase flag and free-form
    fields; a dealership has a numeric [id], a string [state] and
    loosely typed descriptive fields.

    Mongoose casts every value written through a model, and every value
    of a query filter, to the type of its schema path; a value that does
    not cast is a [CastError] and the operation is rejected.  This file
    models the casts of the path types in use ([cast_value]), the
    implicit [_id] path of every schema (an ObjectId: [cast_objectid]),
    the
    construction of a document from an object ([cast_doc], strict mode:
    keys outside the schema are dropped) and the casting of an equality
    filter ([cast_filter]).  [matches] is MongoDB's equality match of a
    filter against a document.  [conforms] says that a document holds
    only schema paths, once each, with values of their types;
    [cast_doc_conforms] shows that every cast document does. *)

From stdpp Require Import base list strings.
From Stdlib Require Import ZArith Ascii String.
From S2P Require Import Prelude JsNumber Double JsValue.

Module Schema.
Import Js.

Local Open Scope api_scope.

Inductive stype := TNumber | TString | TBoolean | TMixed | TObjectId.

#[export] Instance stype_eq_dec : EqDecision stype.
Proof. solve_decision. Defined.

Abbreviation schema := (list (string * stype)).

(** Why a store operation is rejected. *)
Inductive error :=
| CastError (path : string)     (** a value does not cast to its path's type *)
| ObjectParameterError          (** a document built from a primitive value *)
| DuplicateKey                  (** E11000: the [_id] is already taken *)
| StoreFault.                   (** the driver or the server failed *)

#[export] Instance error_eq_dec : EqDecision error.
Proof. solve_decision. Defined.

(** The [reviews] schema (spec section 3), and the [_id] path Mongoose
    adds to every schema (listed last here; [Store.doc_json] writes it
    first). *)
Definition review_schema : schema :=
  [("id", TNumber); ("name", TMixed); ("dealership", TNumber); ("review", TMixed);
   ("rating", TMixed); ("purchase", TBoolean); ("purchase_date", TMixed);
   ("car_make", TMixed); ("car_model", TMixed); ("car_year", TMixed); ("_id", TObjectId)].

(** The [dealerships] schema (spec section 3), with Mongoose's [_id]. *)
Definition dealership_schema : schema :=
  [("id", TNumber); ("city", TMixed); ("state", TString); ("st", TMixed);
   ("address", TMixed); ("zip", TMixed); ("lat", TMixed); ("long", TMixed);
   ("short_name", TMixed); ("full_name", TMixed); ("_id", TObjectId)].

(** ** Casting one value *)

(** Mongoose [castNumber]: [null] and [''] are [null], strings and
    booleans go through [Number()] (a string's value rounded to a
    double), and [NaN] is rejected. *)
Definition cast_number (v : jval) : option jval :=
  match v with
  | JNull => Some JNull
  | JNum n => Some (JNum n)
  | JBool b => Some (JNum (if b then 1 else 0)%Z)
  | JStr s =>
      if String.eqb s "" then Some JNull
      else option_map (fun z => JNum (Double.round_double z)) (JsNumber.string_to_int s)
  | JNaN | JArr _ | JObj _ => None
  end.

(** Mongoose [castString]: primitives are converted with [String()],
    arrays and plain objects are rejected. *)
Definition cast_string (v : jval) : option jval :=
  match v with
  | JNull => Some JNull
  | JStr s => Some (JStr s)
  | JNum n => Some (JStr (JsNumber.number_to_string n))
  | JNaN => Some (JStr "NaN")
  | JBool b => Some (JStr (if b then "true" else "false"))
  | JArr _ | JObj _ => None
  end.

(** Mongoose [castBoolean]: [true, 'true', 1, '1', 'yes'] and
    [false, 'false', 0, '0', 'no']. *)
Definition cast_boolean (v : jval) : option jval :=
  match v with
  | JNull => Some JNull
  | JBool b => Some (JBool b)
  | JNum 1 => Some (JBool true)
  | JNum 0 => Some (JBool false)
  | JStr s =>
      if decide (s ∈ ["true"; "1"; "yes"]) then Some (JBool true)
      else if decide (s ∈ ["false"; "0"; "no"]) then Some (JBool false)
      else None
  | _ => None
  end%string.

(** [new ObjectId(s)] on a string: 24 hexadecimal digits, kept in
    lower case (a 12-character string is not an id, as in [bson] 5 and
    later). *)
Definition hex24 (s : string) : option jval :=
  if (String.length s =? 24)%nat &&
     forallb (fun c => match JsNumber.radix_digit 16 c with Some _ => true | None => false end)
             (list_ascii_of_string s)
  then Some (JStr (lower s)) else None.

(** Mongoose [castObjectId]: [null] stays, an object with a truthy
    [_id] is cast through [value._id.toString()], any other value
    through [value.toString()]; a string that is not an id is
    rejected. *)
Definition cast_objectid (v : jval) : option jval :=
  match v with
  | JNull => Some JNull
  | JObj fs =>
      match prop fs "_id" with
      | Some w => if truthy (Some w) then hex24 (to_js_string w) else None
      | None => None
      end
  | _ => hex24 (to_js_string v)
  end.

Definition cast_value (t : stype) (v : jval) : option jval :=
  match t with
  | TNumber => cast_number v
  | TString => cast_string v
  | TBoolean => cast_boolean v
  | TMixed => Some v
  | TObjectId => cast_objectid v
  end.

(** ** Documents *)

(** The properties a document is built from: an object's own, an
    array's indices, none for [null]; other primitives are rejected. *)
Definition doc_props (v : jval) : result error (list (string * jval)) :=
  match v with
  | JObj fs => Ok fs
  | JArr _ => Ok (spread_entries (Some v))
  | JNull => Ok []
  | _ => Err ObjectParameterError
  end.

(** The schema paths present in [fs], cast, in schema order; keys outside
    the schema are dropped (Mongoose's default strict mode). *)
Fixpoint cast_fields (sch : schema) (fs : list (string * jval))
    : result error (list (string * jval)) :=
  match sch with
  | [] => Ok []
  | (p, t) :: sch' =>
      match prop fs p with
      | None => cast_fields sch' fs
      | Some v =>
          match cast_value t v with
          | None => Err (CastError p)
          | Some w => rest <-? cast_fields sch' fs ;; Ok ((p, w) :: rest)
          end
      end
  end.

(** [new Model(v)]: the document's fields. *)
Definition cast_doc (sch : schema) (v : jval) : result error (list (string * jval)) :=
  fs <-? doc_props v ;; cast_fields sch fs.

(** ** Queries *)

Fixpoint path_type (sch : schema) (p : string) : option stype :=
  match sch with
  | [] => None
  | (q, t) :: sch' => if String.eqb q p then Some t else path_type sch' p
  end.

(** Casting of an equality filter [{p: v, ...}]: each value of a schema
    path is cast to the path's type; other paths are kept as given. *)
Definition cast_filter (sch : schema) (f : list (string * jval))
    : result error (list (string * jval)) :=
  mapR (fun pv =>
          match path_type sch pv.1 with
          | Some t =>
              match cast_value t pv.2 with
              | Some w => Ok (pv.1, w)
              | None => Err (CastError pv.1)
              end
          | None => Ok pv
          end) f.

(** MongoDB equality on one field: the value itself, an element of an
    array value, or [null] for a missing field. *)
Definition field_matches (x : jsv) (v : jval) : bool :=
  match x with
  | Some x =>
      bool_decide (x = v) ||
      match x with JArr xs => bool_decide (v ∈ xs) | _ => false end
  | None => bool_decide (v = JNull)
  end.

Definition matches (f : list (string * jval)) (fs : list (string * jval)) : bool :=
  forallb (fun pv => field_matches (prop fs pv.1) pv.2) f.

(** ** Conformance *)

(** The values a path of type [t] holds once cast. *)
Definition has_type (t : stype) (v : jval) : bool :=
  match t, v with
  | _, JNull | TMixed, _ => true
  | TNumber, JNum _ | TString, JStr _ | TBoolean, JBool _ | TObjectId, JStr _ => true
  | _, _ => false
  end.

Definition field_typed (sch : schema) (kv : string * jval) : bool :=
  match path_type sch kv.1 with Some t => has_type t kv.2 | None => false end.

(** A stored document conforms to its schema: each field is a path of
    the schema, present once, holding a value of the path's type. *)
Definition conforms (sch : schema) (fs : list (string * jval)) : bool :=
  bool_decide (NoDup fs.*1) && forallb (field_typed sch) fs.

(** ** Lemmas *)

(** A cast reads the document only at the schema's paths. *)
Lemma cast_fields_ext sch fs fs' :
  (forall p, p ∈ sch.*1 -> prop fs p = prop fs' p) ->
  cast_fields sch fs = cast_fields sch fs'.
Proof.
  induction sch as [|[p t] sch IH]; intros Hfs; [done|]. cbn [cast_fields].
  rewrite (Hfs p) by (rewrite fmap_cons; apply list_elem_of_here).
  rewrite IH; [done|]. intros q Hq. apply Hfs. rewrite fmap_cons. by apply list_elem_of_further.
Qed.

(** The first path of the review schema is [id]. *)
Lemma cast_fields_review fs :
  cast_fields review_schema fs =
    match prop fs "id" with
    | None => cast_fields (tail review_schema) fs
    | Some v =>
        match cast_number v with
        | None => Err (CastError "id")
        | Some w => rest <-? cast_fields (tail review_schema) fs ;; Ok (("id", w) :: rest)
        end
    end.
Proof. reflexivity. Qed.

(** A cast document has only schema paths. *)
Lemma cast_fields_keys sch fs out :
  cast_fields sch fs = Ok out -> Forall (fun kv => kv.1 ∈ sch.*1) out.
Proof.
  revert out; induction sch as [|[p t] sch IH]; intros out; cbn [cast_fields].
  - intros [= <-]. constructor.
  - rewrite fmap_cons. destruct (prop fs p) as [v|].
    + destruct (cast_value t v) as [w|]; [|done].
      destruct (cast_fields sch fs) as [rest|] eqn:E; [|done]. intros [= <-].
      constructor; [apply list_elem_of_here|].
      eapply Forall_impl; [by apply IH|]. intros kv Hkv. by apply list_elem_of_further.
    + intros H. eapply Forall_impl; [by apply IH|]. intros kv Hkv. by apply list_elem_of_further.
Qed.

Lemma prop_not_key fs k : Forall (fun kv => kv.1 <> k) fs -> prop fs k = None.
Proof.
  induction 1 as [|[k' v] fs Hk _ IH]; [done|]. simpl in *.
  destruct (String.eqb_spec k' k); [congruence | done].
Qed.

(** [castNumber] yields a number or [null]. *)
Lemma cast_number_result v w :
  cast_number v = Some w -> w = JNull \/ exists n, w = JNum n.
Proof.
  destruct v as [| | | |s| |]; simpl; try (intros [= <-]; eauto; fail); try done.
  destruct (String.eqb s ""); [intros [= <-]; auto|].
  destruct (JsNumber.string_to_int s); simpl; [intros [= <-]; eauto | done].
Qed.

(** Every cast yields a value of the target type. *)
Lemma cast_value_typed t v w : cast_value t v = Some w -> has_type t w = true.
Proof.
  destruct t; simpl.
  - by intros [->|[n ->]]%cast_number_result.
  - destruct v; simpl; intros; simplify_eq; done.
  - destruct v; simpl; repeat case_match; intros; simplify_eq; done.
  - intros [= ->]. by destruct w.
  - unfold cast_objectid, hex24. destruct v; repeat case_match; intros; simplify_eq; done.
Qed.

Lemma field_typed_cons_ne p t sch k v :
  p <> k -> field_typed ((p, t) :: sch) (k, v) = field_typed sch (k, v).
Proof. intros Hne. unfold field_typed. simpl. by destruct (String.eqb_spec p k). Qed.

(** Fields cast against a schema are typed by the schema extended with
    a path in front that they do not use. *)
Lemma typed_weaken p t sch out :
  p ∉ sch.*1 -> Forall (fun kv => kv.1 ∈ sch.*1) out ->
  Forall (fun kv => field_typed sch kv = true) out ->
  Forall (fun kv => field_typed ((p, t) :: sch) kv = true) out.
Proof.
  induction out as [|[k v] out IH]; intros Hp Hk Ht; [constructor|].
  apply Forall_cons in Hk as [Hk1 Hk], Ht as [Ht1 Ht]. constructor; [|by apply IH].
  rewrite field_typed_cons_ne; [done|]. intros ->. simpl in Hk1. done.
Qed.

(** Casting against a schema without repeated paths yields a document
    without repeated fields, each holding a value of its path's type. *)
Lemma cast_fields_conforms sch fs out :
  NoDup sch.*1 -> cast_fields sch fs = Ok out ->
  NoDup out.*1 /\ Forall (fun kv => field_typed sch kv = true) out.
Proof.
  revert out; induction sch as [|[p t] sch IH]; intros out Hnd; cbn [cast_fields].
  - intros [= <-]. split; constructor.
  - rewrite fmap_cons in Hnd. apply NoDup_cons in Hnd as [Hp Hnd].
    destruct (prop fs p) as [v|].
    + destruct (cast_value t v) as [w|] eqn:Hw; [|done].
      destruct (cast_fields sch fs) as [rest|] eqn:E; [|done]. intros [= <-].
      destruct (IH rest Hnd eq_refl) as [Hnd' Ht].
      pose proof (cast_fields_keys _ _ _ E) as Hk. split.
      * apply NoDup_cons; split; [|done]. intros ([k v'] & Heq & Hkv)%list_elem_of_fmap.
        simpl in Heq. subst k. apply Hp. rewrite Forall_forall in Hk. exact (Hk _ Hkv).
      * constructor; [|by apply typed_weaken].
        unfold field_typed. simpl. rewrite String.eqb_refl. by eapply cast_value_typed.
    + intros E. destruct (IH out Hnd E) as [Hnd' Ht]. split; [done|].
      apply typed_weaken; [done | by eapply cast_fields_keys | done].
Qed.

Lemma cast_doc_conforms sch v out :
  NoDup sch.*1 -> cast_doc sch v = Ok out -> conforms sch out = true.
Proof.
  unfold cast_doc, conforms. destruct (doc_props v) as [fs|]; [|done]. simpl.
  intros Hnd (Hnd' & Ht)%cast_fields_conforms; [|done].
  rewrite bool_decide_eq_true_2 by done. by apply forallb_Forall.
Qed.

(** A value without any path of the schema casts to the empty document. *)
Lemma cast_fields_absent sch fs :
  Forall (fun kv => kv.1 ∉ sch.*1) fs -> cast_fields sch fs = Ok [].
Proof.
  intros Hk. induction sch as [|[p t] sch IH]; [done|]. cbn [cast_fields].
  rewrite prop_not_key.
  - apply IH. eapply Forall_impl; [exact Hk|]. intros kv Hkv Hin. apply Hkv.
    rewrite fmap_cons. by apply list_elem_of_further.
  - eapply Forall_impl; [exact Hk|]. intros kv Hkv Heq. apply Hkv.
    rewrite Heq, fmap_cons. apply list_elem_of_here.
Qed.

(** A path the input lacks is absent from the cast document. *)
Lemma cast_fields_absent_key sch fs out p :
  prop fs p = None -> cast_fields sch fs = Ok out -> prop out p = None.
Proof.
  intros Hp. revert out. induction sch as [|[q t] sch IH]; intros out; cbn [cast_fields].
  - by intros [= <-].
  - destruct (prop fs q) as [v|] eqn:Hq; [|apply IH].
    destruct (cast_value t v); [|done]. destruct (cast_fields sch fs) as [rest|] eqn:E; [|done].
    intros [= <-]. simpl. destruct (String.eqb_spec q p) as [->|]; [congruence|]. by apply IH.
Qed.

Lemma cast_doc_absent_key sch gs out p :
  prop gs p = None -> cast_doc sch (JObj gs) = Ok out -> prop out p = None.
Proof. unfold cast_doc. cbn [doc_props]. apply cast_fields_absent_key. Qed.

(** A path of the schema the input holds is cast by the path's type: the
    document casts only when that value does, and then holds the cast
    value under the path. *)
Lemma cast_fields_key sch fs out p t v :
  NoDup sch.*1 -> (p, t) ∈ sch -> prop fs p = Some v -> cast_fields sch fs = Ok out ->
  exists w, cast_value t v = Some w /\ prop out p = Some w.
Proof.
  intros Hnd Hin Hp. revert out. induction sch as [|[q t'] sch IH]; intros out; [by apply not_elem_of_nil in Hin|].
  rewrite fmap_cons in Hnd. apply NoDup_cons in Hnd as [Hq Hnd]. cbn [cast_fields].
  apply elem_of_cons in Hin as [[= <- <-]|Hin].
  - rewrite Hp. destruct (cast_value t v) as [w|]; [|done].
    destruct (cast_fields sch fs); [|done]. intros [= <-]. exists w. simpl. by rewrite String.eqb_refl.
  - assert (Hne : q <> p) by (intros ->; apply Hq, (list_elem_of_fmap_2 fst _ (p, t)), Hin).
    destruct (prop fs q) as [u|]; [|by apply IH].
    destruct (cast_value t' u); [|done]. destruct (cast_fields sch fs) as [rest|] eqn:E; [|done].
    intros [= <-]. simpl. apply String.eqb_neq in Hne. rewrite Hne. by apply IH.
Qed.

Lemma cast_doc_key sch gs out p t v :
  NoDup sch.*1 -> (p, t) ∈ sch -> prop gs p = Some v -> cast_doc sch (JObj gs) = Ok out ->
  exists w, cast_value t v = Some w /\ prop out p = Some w.
Proof. unfold cast_doc. cbn [doc_props]. apply cast_fields_key. Qed.

(** ** Casting keeps values well formed *)

Lemma cast_value_wf t v w : cast_value t v = Some w -> wf v -> wf w.
Proof.
  destruct t; simpl; [| | |by intros [= <-]|]; intros Hc _;
    destruct v; simpl in Hc; unfold option_map, cast_objectid, hex24 in *; repeat case_match; simplify_eq; done.
Qed.

Lemma cast_fields_wf sch fs out : values_wf fs -> cast_fields sch fs = Ok out -> values_wf out.
Proof.
  revert out. induction sch as [|[p t] sch IH]; intros out Hfs; simpl; [intros [= <-]; constructor|].
  destruct (prop fs p) as [v|] eqn:Hp; [|by apply IH].
  destruct (cast_value t v) as [w|] eqn:Hw; [|done]. simpl.
  destruct (cast_fields sch fs) as [rest|] eqn:Hr; [|done]. intros [= <-].
  constructor; [by eapply cast_value_wf, prop_wf | by apply IH].
Qed.

(** A well-formed value casts to a document of well-formed values. *)
Lemma cast_doc_wf sch v out : wf v -> cast_doc sch v = Ok out -> values_wf out.
Proof.
  unfold cast_doc. intros Hv. destruct v as [| | | | | vs | fs]; simpl; try discriminate.
  - apply cast_fields_wf. constructor.
  - apply cast_fields_wf, zip_values_wf. by apply wf_arr.
  - apply cast_fields_wf. by apply wf_obj.
Qed.

(** The keys of a conforming document are paths of the schema. *)
Lemma conforms_keys sch fs k : conforms sch fs = true -> k ∈ fs.*1 -> k ∈ sch.*1.
Proof.
  unfold conforms. intros [_ Hf]%andb_prop (kv & -> & Hin)%list_elem_of_fmap.
  rewrite forallb_forall in Hf. apply list_elem_of_In in Hin. specialize (Hf kv Hin).
  unfold field_typed in Hf. destruct kv as [k v]. simpl in *.
  destruct (path_type sch k) eqn:E; [|done]. clear -E.
  induction sch as [|[q t'] sch IH]; simpl in *; [done|].
  destruct (String.eqb_spec q k) as [->|]; [apply list_elem_of_here|].
  apply list_elem_of_further, IH, E.
Qed.

End Schema.
