(* ===== verification/Store.v ===== *)
(** * The document store and the programs that await it

    The server issues every store operation through a Mongoose model and
    [await]s its promise: [find], [find().sort()], [findOne],
    [deleteMany], [insertMany], [new Model(..).save()] and, before
    seeding, [mongoose.connection.asPromise()].  This file models
    - [db]: the two collections of the database (documents in natural
      order) and the supply of fresh [_id]s;
    - [cmd]: one constructor per operation the code awaits, indexed by
      the type its promise resolves to, and [exec], its effect on [db];
    - [prog]: a program that awaits commands one after another (the body
      of an [async] function), [run], its sequential execution against a
      schedule of store faults;
    - [Sorter]: what [.sort({ id: -1 })] promises, a permutation in
      descending order of the key with [SorterLaws]; the order among
      equal or missing keys is the server's, so [exec] and [run] take the
      sorter as a parameter, and [insertion_sorter] is one instance.
    An operation either takes effect as a whole or is rejected with no
    effect ([StoreFault] from the schedule, a cast error, or a
    [DuplicateKey] when a document is given an [_id] the collection
    already holds), except [insertMany], which inserts in order and
    keeps the documents before the first one refused. *)

From stdpp Require Import base list strings sorting.
From Stdlib Require Import ZArith String.
From S2P Require Import Prelude JsNumber JsValue Schema.

Module Store.
Import Js Schema.

Local Open Scope api_scope.

(** A stored document: the [_id] generated for it (abstracted to a
    number, allocated from a counter) and its cast fields, among which
    the [_id] it was given, if any. *)
Record doc := mkDoc { oid : N; fields : list (string * jval) }.

#[export] Instance doc_eq_dec : EqDecision doc.
Proof. solve_decision. Defined.

(** The [_id] a document was given, if any. *)
Definition given_id (d : doc) : option jval := prop (fields d) "_id".

(** [doc.toJSON()]: [_id] first (the one the document was given, or the
    one generated for it), the other fields, and the version key [__v]. *)
Definition doc_json (d : doc) : jval :=
  match given_id d with
  | Some v => JObj ((("_id", v) :: List.filter (fun kv => negb (String.eqb kv.1 "_id")) (fields d))
                    ++ [("__v", JNum 0)])
  | None => JObj ((("_id", JStr (JsNumber.to_dec_string (Z.of_N (oid d)))) :: fields d)
                  ++ [("__v", JNum 0)])
  end.

(** [doc.k]: a schema path read through the document's getter. *)
Definition doc_get (d : doc) (k : string) : jsv := prop (fields d) k.

Inductive coll := Reviews | Dealerships.

#[export] Instance coll_eq_dec : EqDecision coll.
Proof. solve_decision. Defined.

Definition schema_of (c : coll) : schema :=
  match c with
  | Reviews => review_schema
  | Dealerships => dealership_schema
  end.

Record db := mkDb { reviews : list doc; dealerships : list doc; next_oid : N }.

Definition docs (c : coll) (s : db) : list doc :=
  match c with
  | Reviews => reviews s
  | Dealerships => dealerships s
  end.

Definition set_docs (c : coll) (l : list doc) (s : db) : db :=
  match c with
  | Reviews => mkDb l (dealerships s) (next_oid s)
  | Dealerships => mkDb (reviews s) l (next_oid s)
  end.

(** Every stored document conforms to the schema of its collection. *)
Definition db_typed (s : db) : Prop :=
  Forall (fun d => conforms review_schema (fields d) = true) (reviews s) /\
  Forall (fun d => conforms dealership_schema (fields d) = true) (dealerships s).

(** ** Sorting by a numeric path, descending *)

(** The sort key: the number at path [k], or [None] for [null] or a
    missing field, which sort below every number. *)
Definition sort_key (k : string) (d : doc) : option Z :=
  match doc_get d k with
  | Some (JNum n) => Some n
  | _ => None
  end.

(** [a] may come before [b] in a descending order. *)
Definition key_ge (a b : option Z) : bool :=
  match a, b with
  | _, None => true
  | None, Some _ => false
  | Some x, Some y => (y <=? x)%Z
  end.

Definition sorted_desc (k : string) (l : list doc) : Prop :=
  StronglySorted (fun a b => key_ge (sort_key k a) (sort_key k b) = true) l.

Fixpoint insert_desc (k : string) (d : doc) (l : list doc) : list doc :=
  match l with
  | [] => [d]
  | d' :: l' =>
      if key_ge (sort_key k d) (sort_key k d') then d :: l else d' :: insert_desc k d l'
  end.

(** Insertion sort by descending key. *)
Definition sort_desc (k : string) (l : list doc) : list doc :=
  foldr (insert_desc k) [] l.

(** The order [find().sort({ k: -1 })] returns.  The server promises a
    permutation of the documents in descending order of [k]
    ([SorterLaws]); the order among equal keys and documents without [k]
    is its own choice. *)
Class Sorter := sort_by : string -> list doc -> list doc.

Class SorterLaws (SO : Sorter) : Prop := {
  sort_by_perm k l : sort_by k l ≡ₚ l;
  sort_by_sorted k l : sorted_desc k (sort_by k l)
}.

(** Insertion sort is a sorter: the one the concrete instances compute
    with. *)
#[export] Instance insertion_sorter : Sorter := sort_desc.

(** ** Commands *)

Inductive cmd : Type -> Type :=
| Connect : cmd unit                                  (** [connection.asPromise()] *)
| Find (c : coll) (f : list (string * jval)) : cmd (list doc)        (** [find(f)] *)
| FindSortDesc (c : coll) (k : string) : cmd (list doc)  (** [find().sort({k: -1})] *)
| FindOne (c : coll) (f : list (string * jval)) : cmd (option doc)   (** [findOne(f)] *)
| DeleteMany (c : coll) : cmd unit                    (** [deleteMany({})] *)
| InsertMany (c : coll) (vs : list jval) : cmd (list doc)  (** [insertMany(vs)] *)
| Save (c : coll) (v : jval) : cmd doc.               (** [new Model(v).save()] *)

(** Documents numbered with fresh [_id]s from [n] on. *)
Fixpoint number_docs (n : N) (fss : list (list (string * jval))) : list doc :=
  match fss with
  | [] => []
  | fs :: fss' => mkDoc n fs :: number_docs (n + 1)%N fss'
  end.

Definition find_docs (c : coll) (f : list (string * jval)) (s : db)
    : result error (list doc) :=
  f' <-? cast_filter (schema_of c) f ;;
  Ok (filter (fun d => matches f' (fields d) = true) (docs c s)).

(** MongoDB's unique index on [_id]: a document given an [_id] that a
    document of the collection already has.  Generated ids never
    collide. *)
Definition dup_key (existing : list doc) (d : doc) : bool :=
  match given_id d with
  | Some v => existsb (fun e => bool_decide (given_id e = Some v)) existing
  | None => false
  end.

(** An ordered [insertMany]: the documents go in one by one, and the
    first one whose [_id] is taken stops the insertion, the ones before
    it staying; [true] when one was refused. *)
Fixpoint insert_ordered (existing ds : list doc) : list doc * bool :=
  match ds with
  | [] => ([], false)
  | d :: ds' =>
      if dup_key existing d then ([], true)
      else let '(ins, e) := insert_ordered (existing ++ [d]) ds' in (d :: ins, e)
  end.

Section Exec.
Context {SO : Sorter}.

(** The effect of a command that the store accepts. *)
Definition exec {R} (c : cmd R) (s : db) : result error R * db :=
  match c in cmd R return result error R * db with
  | Connect => (Ok tt, s)
  | Find c f => (find_docs c f s, s)
  | FindSortDesc c k => (Ok (sort_by k (docs c s)), s)
  | FindOne c f =>
      (match find_docs c f s with Ok l => Ok (head l) | Err e => Err e end, s)
  | DeleteMany c => (Ok tt, set_docs c [] s)
  | InsertMany c vs =>
      match mapR (cast_doc (schema_of c)) vs with
      | Ok fss =>
          let ds := number_docs (next_oid s) fss in
          let '(ins, dup) := insert_ordered (docs c s) ds in
          (if dup then Err DuplicateKey else Ok ds,
           set_docs c (docs c s ++ ins)
             (mkDb (reviews s) (dealerships s) (next_oid s + N.of_nat (List.length fss))))
      | Err e => (Err e, s)
      end
  | Save c v =>
      match cast_doc (schema_of c) v with
      | Ok fs =>
          let d := mkDoc (next_oid s) fs in
          if dup_key (docs c s) d then (Err DuplicateKey, s)
          else (Ok d, set_docs c (docs c s ++ [d])
                        (mkDb (reviews s) (dealerships s) (next_oid s + 1)))
      | Err e => (Err e, s)
      end
  end.

(** A command under a fault flag: a faulty store rejects it unchanged. *)
Definition step_cmd {R} (c : cmd R) (fault : bool) (s : db) : result error R * db :=
  if fault then (Err StoreFault, s) else exec c s.

End Exec.

(** ** Programs awaiting commands *)

Inductive prog (A : Type) : Type :=
| Ret (a : A)
| Op {R : Type} (c : cmd R) (k : result error R -> prog A).
Arguments Ret {A} a.
Arguments Op {A R} c k.

(** [v = await c] inside [try]: continue with [k v], or with the
    [catch] block [h] when the promise rejects. *)
Definition await {A R} (c : cmd R) (k : R -> prog A) (h : error -> prog A) : prog A :=
  Op c (fun r => match r with Ok v => k v | Err e => h e end).

Fixpoint prog_bind {A B} (f : A -> prog B) (p : prog A) : prog B :=
  match p with
  | Ret a => f a
  | Op c k => Op c (fun r => prog_bind f (k r))
  end.

#[export] Instance prog_ret : MRet prog := @Ret.
#[export] Instance prog_mbind : MBind prog := @prog_bind.

Section Run.
Context {SO : Sorter}.

(** Sequential execution; the [i]-th command meets the [i]-th fault
    flag (no fault once the schedule is exhausted). *)
Fixpoint run {A} (p : prog A) (faults : list bool) (s : db) : A * db :=
  match p with
  | Ret a => (a, s)
  | Op c k =>
      let '(r, s') := step_cmd c (default false (head faults)) s in
      run (k r) (tail faults) s'
  end.

End Run.

(** ** Sorting lemmas *)

Lemma key_ge_total a b : key_ge a b = true \/ key_ge b a = true.
Proof. destruct a, b; simpl; auto. destruct (Z.leb_spec z0 z); auto. right. apply Z.leb_le. lia. Qed.

Lemma key_ge_trans a b c : key_ge a b = true -> key_ge b c = true -> key_ge a c = true.
Proof. destruct a, b, c; simpl; rewrite ?Z.leb_le; try done; lia. Qed.

(** A key that may precede another is the larger of the two. *)
Lemma key_ge_max a b : key_ge a b = true -> max_opt a b = a.
Proof. destruct a, b; simpl; rewrite ?Z.leb_le; try done. intros. f_equal. lia. Qed.

Lemma insert_desc_perm k d l : insert_desc k d l ≡ₚ d :: l.
Proof.
  induction l as [|d' l IH]; simpl; [done|].
  destruct (key_ge _ _); [done|]. by rewrite IH, Permutation_swap.
Qed.

Lemma sort_desc_perm k l : sort_desc k l ≡ₚ l.
Proof.
  induction l as [|d l IH]; simpl; [done|]. by rewrite insert_desc_perm, IH.
Qed.

Lemma insert_desc_sorted k d l : sorted_desc k l -> sorted_desc k (insert_desc k d l).
Proof.
  unfold sorted_desc. induction 1 as [|d' l Hs IH Hf]; simpl; [by repeat constructor|].
  destruct (key_ge (sort_key k d) (sort_key k d')) eqn:Hge.
  - constructor; [by constructor|]. constructor; [done|].
    eapply Forall_impl; [exact Hf|]. intros x Hx. by eapply key_ge_trans.
  - constructor; [done|]. rewrite insert_desc_perm.
    constructor; [|done]. by destruct (key_ge_total (sort_key k d) (sort_key k d')) as [?|?];
      [congruence|].
Qed.

Lemma sort_desc_sorted k l : sorted_desc k (sort_desc k l).
Proof.
  induction l as [|d l IH]; simpl; [constructor|]. by apply insert_desc_sorted.
Qed.

#[export] Instance insertion_sorter_laws : SorterLaws insertion_sorter.
Proof. split; [apply sort_desc_perm | apply sort_desc_sorted]. Qed.

Lemma list_max_opt_dominated a bs :
  Forall (fun b => key_ge a b = true) bs -> list_max_opt (a :: bs) = a.
Proof.
  induction 1 as [|b bs Hb _ IH]; [by destruct a|].
  autorewrite with api_rw in *. by rewrite max_opt_assoc, (key_ge_max a b Hb).
Qed.

(** The first document of any descending order carries the largest key
    of the collection: what the server returns first for
    [.sort({ k: -1 })] does not depend on how it breaks ties. *)
Lemma sorted_perm_first_key k l l' :
  l' ≡ₚ l -> sorted_desc k l' ->
  from_option (sort_key k) None (head l') = list_max_opt (map (sort_key k) l).
Proof.
  intros Hp Hs. rewrite <-Hp. destruct l' as [|d l']; [done|]. simpl.
  apply StronglySorted_inv in Hs as [_ Hf].
  symmetry. apply list_max_opt_dominated. by apply Forall_map.
Qed.

(** ** Programs *)

(** Mapping the result of a program changes neither the commands it
    issues nor the faults they meet. *)
Lemma run_map {SO : Sorter} {A B} (g : A -> B) (p : prog A) faults s :
  run (prog_bind (fun x => Ret (g x)) p) faults s = (g (run p faults s).1, (run p faults s).2).
Proof.
  revert faults s; induction p as [a|R c k IH]; intros faults s; [done|]. simpl.
  destruct (step_cmd c _ s). apply IH.
Qed.

(** ** Queries *)

(** The empty filter [{}] selects the whole collection in stored order. *)
Lemma find_docs_all c s : find_docs c [] s = Ok (docs c s).
Proof.
  unfold find_docs. simpl. f_equal. induction (docs c s) as [|d l IH]; [done|].
  rewrite filter_cons_True by done. by rewrite IH.
Qed.

(** ** Documents given no [_id] *)

Lemma dup_key_fresh l d : given_id d = None -> dup_key l d = false.
Proof. unfold dup_key. by intros ->. Qed.

(** A document given an [_id] no stored one has is not a duplicate. *)
Lemma dup_key_new l d w :
  given_id d = Some w -> Forall (fun e => given_id e <> Some w) l -> dup_key l d = false.
Proof.
  unfold dup_key. intros -> Hl. apply not_true_iff_false. intros (e & He & Hew)%existsb_exists.
  apply bool_decide_eq_true in Hew. rewrite Forall_forall in Hl.
  by apply (Hl e); [apply list_elem_of_In|].
Qed.

(** A document given the [_id] of a stored one is a duplicate key. *)
Lemma dup_key_hit l d e :
  e ∈ l -> given_id e = given_id d -> given_id d <> None -> dup_key l d = true.
Proof.
  unfold dup_key. intros Hin He Hd. destruct (given_id d) as [v|]; [|done].
  apply existsb_exists. exists e. split; [by apply list_elem_of_In | by apply bool_decide_eq_true_2].
Qed.

(** Documents given no [_id] are all inserted. *)
Lemma insert_ordered_fresh existing ds :
  Forall (fun d => given_id d = None) ds -> insert_ordered existing ds = (ds, false).
Proof.
  intros H. revert existing. induction H as [|d ds Hd _ IH]; intros existing; [done|].
  simpl. rewrite dup_key_fresh by done. by rewrite IH.
Qed.

(** What an ordered insertion keeps is a prefix of the documents. *)
Lemma insert_ordered_prefix existing ds ins e :
  insert_ordered existing ds = (ins, e) -> exists rest, ds = ins ++ rest.
Proof.
  revert existing ins e. induction ds as [|d ds IH]; intros existing ins e; simpl.
  - intros [= <- _]. by exists [].
  - destruct (dup_key existing d); [intros [= <- _]; by exists (d :: ds)|].
    destruct (insert_ordered (existing ++ [d]) ds) as [ins' e'] eqn:E. intros [= <- _].
    destruct (IH _ _ _ E) as [rest ->]. by exists rest.
Qed.

Lemma number_docs_fresh n fss :
  Forall (fun fs => prop fs "_id" = None) fss -> Forall (fun d => given_id d = None) (number_docs n fss).
Proof.
  intros H. revert n. induction H as [|fs fss Hfs _ IH]; intros n; simpl; constructor; [done | apply IH].
Qed.

(** Documents whose given [_id]s are distinct, and new to the
    collection, are all inserted, and the insertion goes on with the
    documents after them. *)
Lemma insert_ordered_app existing ds rest :
  NoDup (omap given_id ds) -> (forall v, v ∈ omap given_id ds -> v ∉ omap given_id existing) ->
  insert_ordered existing (ds ++ rest) =
    let '(ins, e) := insert_ordered (existing ++ ds) rest in (ds ++ ins, e).
Proof.
  revert existing. induction ds as [|d ds IH]; intros existing Hnd Hnew.
  - rewrite app_nil_r. simpl. by destruct (insert_ordered existing rest).
  - assert (Hd : dup_key existing d = false).
    { unfold dup_key. destruct (given_id d) as [v|] eqn:Hv; [|done].
      apply not_true_iff_false. intros (e & He & Hev)%existsb_exists.
      apply bool_decide_eq_true in Hev. apply (Hnew v).
      - rewrite list_elem_of_omap. exists d. split; [apply list_elem_of_here | done].
      - rewrite list_elem_of_omap. exists e. split; [by apply list_elem_of_In | done]. }
    cbn [app insert_ordered]. rewrite Hd, IH; [| |].
    + rewrite <-app_assoc. cbn [app]. by destruct (insert_ordered _ rest).
    + simpl in Hnd. destruct (given_id d); [by apply NoDup_cons in Hnd as [_ ?] | done].
    + intros v Hv. rewrite omap_app, elem_of_app. intros [Hin|Hin].
      * apply (Hnew v); [|done]. simpl. destruct (given_id d); [by apply list_elem_of_further | done].
      * simpl in Hin, Hnd. destruct (given_id d) as [w|]; [|by apply elem_of_nil in Hin].
        apply list_elem_of_singleton in Hin as ->. apply NoDup_cons in Hnd as [Hw _]. done.
Qed.

Lemma insert_ordered_distinct existing ds :
  NoDup (omap given_id ds) -> (forall v, v ∈ omap given_id ds -> v ∉ omap given_id existing) ->
  insert_ordered existing ds = (ds, false).
Proof.
  intros Hnd Hnew. rewrite <-(app_nil_r ds) at 1. rewrite insert_ordered_app by done.
  cbn [insert_ordered]. by rewrite app_nil_r.
Qed.

(** A document given an [_id] that an earlier one has stops the
    insertion: only the documents before it are inserted. *)
Lemma insert_ordered_stop existing ds d rest v :
  NoDup (omap given_id ds) -> (forall v, v ∈ omap given_id ds -> v ∉ omap given_id existing) ->
  given_id d = Some v -> v ∈ omap given_id ds ->
  insert_ordered existing (ds ++ d :: rest) = (ds, true).
Proof.
  intros Hnd Hnew Hv Hin. rewrite insert_ordered_app by done. cbn [insert_ordered].
  apply list_elem_of_omap in Hin as (e & He & Hev).
  rewrite (dup_key_hit _ _ e); [by rewrite app_nil_r | | by rewrite Hev, Hv | by rewrite Hv].
  apply elem_of_app. by right.
Qed.

Lemma number_docs_app n fss gss :
  number_docs n (fss ++ gss) = number_docs n fss ++ number_docs (n + N.of_nat (List.length fss)) gss.
Proof.
  revert n. induction fss as [|fs fss IH]; intros n; simpl; [by rewrite N.add_0_r|].
  rewrite IH. do 3 f_equal. lia.
Qed.

(** The [_id]s given to numbered documents are those of their fields. *)
Lemma number_docs_ids n fss : omap given_id (number_docs n fss) = omap (fun fs => prop fs "_id") fss.
Proof.
  revert n. induction fss as [|fs fss IH]; intros n; [done|]. simpl. unfold given_id at 1. simpl.
  destruct (prop fs "_id"); by rewrite IH.
Qed.

Lemma doc_json_fresh d :
  given_id d = None ->
  doc_json d = JObj ((("_id", JStr (JsNumber.to_dec_string (Z.of_N (oid d)))) :: fields d) ++ [("__v", JNum 0)]).
Proof. unfold doc_json. by intros ->. Qed.

(** ** The schema invariant *)

Lemma db_typed_docs s :
  db_typed s <-> forall c, Forall (fun d => conforms (schema_of c) (fields d) = true) (docs c s).
Proof. split; [intros [Hr Hd] []; done | intros H; split; [apply (H Reviews) | apply (H Dealerships)]]. Qed.

Lemma docs_set_docs c c' l s :
  docs c' (set_docs c l s) = if decide (c = c') then l else docs c' s.
Proof. by destruct c, c'. Qed.

Lemma schema_nodup c : NoDup (schema_of c).*1.
Proof. destruct c; by_computation. Qed.

Lemma number_docs_conforms sch n fss :
  Forall (fun fs => conforms sch fs = true) fss ->
  Forall (fun d => conforms sch (fields d) = true) (number_docs n fss).
Proof.
  intros H. revert n. induction H as [|fs fss Hfs _ IH]; intros n; constructor; [done | apply IH].
Qed.

(** Every command the store accepts keeps every document conforming to
    its schema. *)
Lemma exec_typed {SO : Sorter} {R} (c : cmd R) s r s' :
  exec c s = (r, s') -> db_typed s -> db_typed s'.
Proof.
  rewrite !db_typed_docs.
  assert (Hupd : forall c0 l n, Forall (fun d => conforms (schema_of c0) (fields d) = true) l ->
            (forall c', Forall (fun d => conforms (schema_of c') (fields d) = true) (docs c' s)) ->
            forall c', Forall (fun d => conforms (schema_of c') (fields d) = true)
                         (docs c' (set_docs c0 l (mkDb (reviews s) (dealerships s) n)))).
  { intros c0 l n Hl Hs c'. rewrite docs_set_docs. case_decide; [by subst|]. by destruct c'; apply Hs. }
  destruct c as [|c f|c k|c f|c|c vs|c v]; cbn [exec];
    try (intros [= _ <-]; done).
  - intros [= _ <-] Hs c'. rewrite docs_set_docs. case_decide; [constructor | apply Hs].
  - destruct (mapR _ vs) as [fss|] eqn:Hm; [|intros [= _ <-]; done].
    destruct (insert_ordered _ _) as [ins e] eqn:Hi. intros [= _ <-] Hs.
    destruct (insert_ordered_prefix _ _ _ _ Hi) as [rest Hds].
    apply Hupd; [|done]. apply Forall_app; split; [apply Hs|].
    assert (Hall : Forall (fun d => conforms (schema_of c) (fields d) = true) (ins ++ rest)).
    { rewrite <-Hds. apply number_docs_conforms. clear -Hm.
      apply mapR_Ok_iff in Hm. induction Hm; constructor; [|done].
      by eapply cast_doc_conforms; [apply schema_nodup|]. }
    by apply Forall_app in Hall as [? _].
  - destruct (cast_doc _ v) as [fs|] eqn:Hc; [|intros [= _ <-]; done].
    destruct (dup_key _ _); [intros [= _ <-]; done|]. intros [= _ <-] Hs.
    apply Hupd; [|done]. apply Forall_app; split; [apply Hs|]. constructor; [|constructor].
    by eapply cast_doc_conforms; [apply schema_nodup|].
Qed.

End Store.
