(* ===== verification/Handlers.v ===== *)
(** * The route handlers of [src/app.js]

    Each Express handler (lines 71 to 133) is a [prog response]: the
    commands it awaits inside its [try] block, the response it sends on
    success, and the [500] response of its [catch] block.  The path
    parameters reach the handlers as strings ([req.params]); the body of
    [POST /insert_review] is the parsed JSON body ([req.body], [None]
    when absent).

    The theorems give each handler's result on every branch (store
    fault, cast error, not found, success), state the contract of the
    id allocation of [insert_review] as an abstract specification
    ([insert_spec], computed from the maximum id) and prove that the
    sort-based code refines it while the maximum is a safe integer
    ([safe_max]): the code adds 1 in double arithmetic
    ([insert_with (Double.js_succ max)]), which from [2 ^ 54] on gives
    the maximum back, so the new review repeats its id. *)

From stdpp Require Import base list strings sorting.
From Stdlib Require Import ZArith String.
From S2P Require Import Prelude JsNumber Double JsValue Schema Store.

Module Handlers.
Import Js Schema Store.

Local Open Scope api_scope.

Inductive body := BJson (j : jval) | BText (s : string).

Record response := mkResp { status : Z; body_of : body }.

Definition json200 (j : jval) : response := mkResp 200 (BJson j).

(** [res.status(code).json({ key: msg })]. *)
Definition json_msg (code : Z) (key msg : string) : response :=
  mkResp code (BJson (JObj [(key, JStr msg)])).

(** The number [parseInt] returned, [NaN] included. *)
Definition num_of (o : option Z) : jval :=
  match o with Some z => JNum z | None => JNaN end.

(** [GET /] (line 71). *)
Definition root : prog response :=
  Ret (mkResp 200 (BText "Welcome to the Mongoose API")).

(** [GET /fetchReviews] (lines 73 to 80). *)
Definition fetchReviews : prog response :=
  await (Find Reviews [])
    (fun ds => Ret (json200 (JArr (map doc_json ds))))
    (fun _ => Ret (json_msg 500 "error" "Error fetching documents")).

(** [GET /fetchReviews/dealer/:id] (lines 82 to 90). *)
Definition fetchReviewsByDealer (id : string) : prog response :=
  let dealerId := num_of (JsNumber.parseInt id) in
  await (Find Reviews [("dealership", dealerId)])
    (fun ds => Ret (json200 (JArr (map doc_json ds))))
    (fun _ => Ret (json_msg 500 "error" "Error fetching documents")).

(** [GET /fetchDealers] (lines 92 to 99). *)
Definition fetchDealers : prog response :=
  await (Find Dealerships [])
    (fun ds => Ret (json200 (JArr (map doc_json ds))))
    (fun _ => Ret (json_msg 500 "error" "Error fetching dealers")).

(** [GET /fetchDealers/:state] (lines 101 to 109). *)
Definition fetchDealersByState (state : string) : prog response :=
  await (Find Dealerships [("state", JStr state)])
    (fun ds => Ret (json200 (JArr (map doc_json ds))))
    (fun _ => Ret (json_msg 500 "error" "Error fetching dealers by state")).

(** [GET /fetchDealer/:id] (lines 111 to 120). *)
Definition fetchDealer (id : string) : prog response :=
  let dealerId := num_of (JsNumber.parseInt id) in
  await (FindOne Dealerships [("id", dealerId)])
    (fun o => match o with
              | None => Ret (json_msg 404 "message" "Dealer not found")
              | Some d => Ret (json200 (doc_json d))
              end)
    (fun _ => Ret (json_msg 500 "error" "Error fetching dealer by id")).

(** [(documents[0]?.id ?? 0) + 1] (line 126). *)
Definition new_id_of (documents : list doc) : jval :=
  let first := match head documents with Some d => doc_get d "id" | None => None end in
  add_one (default (JNum 0) (js_nullish first (Some (JNum 0)))).

(** [{ id: new_id, ...data }] (line 127). *)
Definition review_literal (new_id : jval) (data : jsv) : jval :=
  JObj (obj_spread [("id", new_id)] data).

(** [POST /insert_review] (lines 122 to 133). *)
Definition insert_review (data : jsv) : prog response :=
  let fail := fun (_ : error) => Ret (json_msg 500 "error" "Error inserting review") in
  await (FindSortDesc Reviews "id")
    (fun documents =>
       let new_id := new_id_of documents in
       await (Save Reviews (review_literal new_id data))
         (fun saved => Ret (json200 (doc_json saved)))
         fail)
    fail.

(** ** The contract of [insert_review] *)

(** A document whose [id] is a number, [null] or absent, as the schema
    casts guarantee. *)
Definition id_ok (d : doc) : bool :=
  match doc_get d "id" with
  | None | Some JNull | Some (JNum _) => true
  | _ => false
  end.

(** The largest review id, [0] when no review has one. *)
Definition max_review_id (s : db) : Z :=
  default 0%Z (list_max_opt (map (sort_key "id") (reviews s))).

(** The largest id is a safe integer ([Number.isSafeInteger]): below
    [2 ^ 53] in magnitude, where [+ 1] on doubles is exact. *)
Definition safe_max (s : db) : Prop := (Z.abs (max_review_id s) < 2 ^ 53)%Z.

#[export] Instance safe_max_dec s : Decision (safe_max s).
Proof. unfold safe_max. apply _. Defined.

(** An insertion that gives the review the id [new_id]: under fault
    flags [f1] (the query) and [f2] (the save), the stored review is the
    request body with id [new_id] unless the body carries its own,
    appended to the collection under a fresh [_id], or under the [_id]
    the body gives unless a review already has it. *)
Definition insert_with (new_id : Z) (f1 f2 : bool) (data : jsv) (s : db) : response * db :=
  let fail := json_msg 500 "error" "Error inserting review" in
  if f1 then (fail, s) else
  if f2 then (fail, s) else
  match cast_doc review_schema (review_literal (JNum new_id) data) with
  | Ok fs =>
      let d := mkDoc (next_oid s) fs in
      if dup_key (reviews s) d then (fail, s)
      else (json200 (doc_json d), mkDb (reviews s ++ [d]) (dealerships s) (next_oid s + 1))
  | Err _ => (fail, s)
  end.

(** What [insert_review] promises: the id [max + 1]. *)
Definition insert_spec (f1 f2 : bool) (data : jsv) (s : db) : response * db :=
  insert_with (max_review_id s + 1) f1 f2 data s.


(** The documents of a collection whose field [p] equals [v]. *)
Definition with_field (p : string) (v : jval) (l : list doc) : list doc :=
  filter (fun d => field_matches (doc_get d p) v = true) l.

(** The spec's scenario (section 8): one dealership [{id: 1, state:
    "NY"}] and no review. *)
Definition scenario_db : db :=
  mkDb [] [mkDoc 0 [("id", JNum 1); ("state", JStr "NY")]] 1.

Definition scenario_body : jval :=
  JObj [("dealership", JNum 1); ("name", JStr "A"); ("rating", JNum 5)].

(** A store with three reviews (ids 3 and 7, and one without id), for
    the concrete instances of the theorems. *)
Definition sample_db : db :=
  mkDb [mkDoc 0 [("id", JNum 3); ("dealership", JNum 1)];
        mkDoc 1 [("id", JNum 7); ("dealership", JNum 2)];
        mkDoc 2 [("name", JStr "anonymous")]]
       [mkDoc 3 [("id", JNum 1); ("state", JStr "NY")]] 4.

(** ** Lemmas *)

(** For a document with a well-typed id, [doc.id ?? 0] is its sort key
    or [0]. *)
Lemma id_nullish d :
  id_ok d = true ->
  default (JNum 0) (js_nullish (doc_get d "id") (Some (JNum 0))) =
    JNum (default 0%Z (sort_key "id" d)).
Proof. unfold id_ok, sort_key. by destruct (doc_get d "id") as [[]|]. Qed.

Ltac run_handler :=
  unfold await; cbn [run step_cmd];
  destruct (default false (head _)); [reflexivity|]; cbn -[matches].

(** The first id of a descending order is the maximum. *)
Lemma new_id_first_is_max (l l' : list doc) :
  Forall (fun d => id_ok d = true) l -> l' ≡ₚ l -> sorted_desc "id" l' ->
  new_id_of l' = JNum (Double.js_succ (default 0%Z (list_max_opt (map (sort_key "id") l)))).
Proof.
  intros Hok Hp Hs. pose proof (sorted_perm_first_key "id" l l' Hp Hs) as Hk.
  unfold new_id_of. destruct l' as [|d l'']; simpl in *.
  - by rewrite <-Hk.
  - rewrite id_nullish, Hk; [done|].
    rewrite Forall_forall in Hok. apply Hok. rewrite <-Hp. apply list_elem_of_here.
Qed.

(** A positive maximum id is the id of a stored review. *)
Lemma max_review_id_attained s :
  (0 < max_review_id s)%Z ->
  exists d', d' ∈ reviews s /\ doc_get d' "id" = Some (JNum (max_review_id s)).
Proof.
  unfold max_review_id. destruct (list_max_opt _) as [m|] eqn:E; simpl; [|lia]. intros _.
  apply list_max_opt_in, list_elem_of_In, in_map_iff in E as (d' & Hk & Hin).
  exists d'. split; [by apply list_elem_of_In|]. revert Hk. unfold sort_key.
  destruct (doc_get d' "id") as [[]|]; congruence.
Qed.

Section WithSorter.
Context {SO : Sorter} {SOL : SorterLaws SO}.

(** Whatever order the server returns, the id computed is the maximum
    plus one, as a double. *)
Lemma new_id_of_sort_by s :
  Forall (fun d => id_ok d = true) (reviews s) ->
  new_id_of (sort_by "id" (reviews s)) = JNum (Double.js_succ (max_review_id s)).
Proof.
  intros Hok. apply new_id_first_is_max; [done | apply sort_by_perm | apply sort_by_sorted].
Qed.

(** ... and exactly the maximum plus one when that is a safe integer. *)
Lemma new_id_of_sort_by_safe s :
  Forall (fun d => id_ok d = true) (reviews s) -> safe_max s ->
  new_id_of (sort_by "id" (reviews s)) = JNum (max_review_id s + 1).
Proof.
  intros Hok Hs. rewrite new_id_of_sort_by, Double.js_succ_small by (done || unfold safe_max in Hs; lia).
  done.
Qed.

(** [insert_review] computes the insertion with the id [max + 1]
    rounded to a double. *)
Lemma run_insert_review_js data fs s :
  Forall (fun d => id_ok d = true) (reviews s) ->
  run (insert_review data) fs s =
    insert_with (Double.js_succ (max_review_id s))
      (default false (head fs)) (default false (head (tail fs))) data s.
Proof.
  intros Hok. unfold insert_review, insert_with, await. cbn [run step_cmd].
  destruct (default false (head fs)); [done|]. cbn -[new_id_of sort_by cast_doc].
  rewrite new_id_of_sort_by by done.
  destruct (default false (head (tail fs))); [done|]. cbn -[cast_doc].
  destruct (cast_doc review_schema _); [|done]. by destruct (dup_key _ _).
Qed.

(** With a safe maximum, [insert_review] computes [insert_spec]. *)
Lemma run_insert_review data fs s :
  Forall (fun d => id_ok d = true) (reviews s) -> safe_max s ->
  run (insert_review data) fs s =
    insert_spec (default false (head fs)) (default false (head (tail fs))) data s.
Proof.
  intros Hok Hsafe. rewrite run_insert_review_js by done. unfold insert_spec, safe_max in *.
  by rewrite Double.js_succ_small by lia.
Qed.

(** A body that no id makes castable is rejected by the save: [500],
    store unchanged, under every fault schedule. *)
Lemma insert_review_rejected data fs s :
  (forall v, exists e, cast_doc review_schema (review_literal v data) = Err e) ->
  run (insert_review data) fs s = (json_msg 500 "error" "Error inserting review", s).
Proof.
  intros Hc. unfold insert_review, await. cbn [run step_cmd].
  destruct (default false (head fs)); [done|]. cbn -[new_id_of sort_by cast_doc review_literal].
  destruct (default false (head (tail fs))); [done|]. cbn -[new_id_of sort_by cast_doc review_literal].
  match goal with |- context [cast_doc review_schema (review_literal ?v data)] =>
    destruct (Hc v) as [e ->] end.
  done.
Qed.

(** A body whose [dealership] is an array never casts. *)
Lemma cast_array_dealership v xs :
  exists e, cast_doc review_schema (review_literal v (Some (JObj [("dealership", JArr xs)]))) = Err e.
Proof. unfold cast_doc. cbn. destruct (cast_number v); simpl; eauto. Qed.

(** The object literal [{ id: v, ...data }] for a body object [gs]: the
    body's properties, and [id] only if the body has none. *)
Lemma prop_review_literal v gs k :
  NoDup gs.*1 ->
  prop (obj_spread [("id", v)] (Some (JObj gs))) k =
    match prop gs k with
    | Some w => Some w
    | None => if String.eqb "id" k then Some v else None
    end.
Proof. intros Hnd. unfold obj_spread, spread_entries. by rewrite prop_spread_props. Qed.

Lemma cast_review_literal v gs :
  NoDup gs.*1 ->
  cast_doc review_schema (review_literal v (Some (JObj gs))) =
    match prop gs "id" with
    | Some _ => cast_doc review_schema (JObj gs)
    | None =>
        match cast_number v with
        | None => Err (CastError "id")
        | Some w => rest <-? cast_doc review_schema (JObj gs) ;; Ok (("id", w) :: rest)
        end
    end.
Proof.
  intros Hnd. unfold cast_doc, review_literal; cbn [doc_props].
  rewrite !cast_fields_review, prop_review_literal by done.
  rewrite (cast_fields_ext (tail review_schema) (obj_spread _ _) gs).
  - by destruct (prop gs "id").
  - intros p Hp. rewrite prop_review_literal by done.
    destruct (prop gs p); [done|]. destruct (String.eqb_spec "id" p) as [<-|]; [|done].
    exfalso. revert Hp. refute_by_computation.
Qed.

(** A fault-free insertion of a body without [id]: the review gets
    the id [max + 1] rounded to a double. *)
(** A body without [id] that casts, saved when no stored review has
    the [_id] it gives. *)
Lemma run_insert_review_saved gs fs s :
  Forall (fun d => id_ok d = true) (reviews s) -> NoDup gs.*1 ->
  prop gs "id" = None -> cast_doc review_schema (JObj gs) = Ok fs ->
  let d := mkDoc (next_oid s) (("id", JNum (Double.js_succ (max_review_id s))) :: fs) in
  dup_key (reviews s) d = false ->
  run (insert_review (Some (JObj gs))) [] s =
    (json200 (doc_json d), mkDb (reviews s ++ [d]) (dealerships s) (next_oid s + 1)).
Proof.
  intros Hok Hnd Hid Hcast d Hdup. rewrite run_insert_review_js by done.
  unfold insert_with. cbn [default head tail]. rewrite cast_review_literal, Hid, Hcast by done.
  cbn -[dup_key]. fold d. by rewrite Hdup.
Qed.

Lemma run_insert_review_fresh_js gs fs s :
  Forall (fun d => id_ok d = true) (reviews s) -> NoDup gs.*1 ->
  prop gs "id" = None -> prop gs "_id" = None -> cast_doc review_schema (JObj gs) = Ok fs ->
  let d := mkDoc (next_oid s) (("id", JNum (Double.js_succ (max_review_id s))) :: fs) in
  run (insert_review (Some (JObj gs))) [] s =
    (json200 (doc_json d), mkDb (reviews s ++ [d]) (dealerships s) (next_oid s + 1)).
Proof.
  intros Hok Hnd Hid Hg Hcast d. apply run_insert_review_saved; [done..|].
  rewrite dup_key_fresh; [done|]. unfold given_id. simpl. by eapply cast_doc_absent_key.
Qed.

Lemma run_insert_review_fresh gs fs s :
  Forall (fun d => id_ok d = true) (reviews s) -> safe_max s -> NoDup gs.*1 ->
  prop gs "id" = None -> prop gs "_id" = None -> cast_doc review_schema (JObj gs) = Ok fs ->
  let d := mkDoc (next_oid s) (("id", JNum (max_review_id s + 1)) :: fs) in
  run (insert_review (Some (JObj gs))) [] s =
    (json200 (doc_json d), mkDb (reviews s ++ [d]) (dealerships s) (next_oid s + 1)).
Proof.
  intros Hok Hsafe Hnd Hid Hg Hcast d. unfold safe_max in Hsafe.
  rewrite (run_insert_review_fresh_js gs fs) by done. by rewrite Double.js_succ_small by lia.
Qed.

(** C4: a body that carries its own [id] keeps it: the spread of line
    127 overrides the id the server computed, and the review is stored
    under the client's id (cast to a number). *)
Theorem insert_review_client_id gs fs s v :
  Forall (fun d => id_ok d = true) (reviews s) -> NoDup gs.*1 ->
  prop gs "id" = Some v -> prop gs "_id" = None -> cast_doc review_schema (JObj gs) = Ok fs ->
  let d := mkDoc (next_oid s) fs in
  run (insert_review (Some (JObj gs))) [] s =
    (json200 (doc_json d), mkDb (reviews s ++ [d]) (dealerships s) (next_oid s + 1)) /\
  doc_get d "id" = cast_number v.
Proof.
  intros Hok Hnd Hid Hg Hcast d. split.
  - rewrite run_insert_review_js by done.
    unfold insert_with. cbn [default head tail]. rewrite cast_review_literal, Hid, Hcast by done.
    rewrite dup_key_fresh; [done|]. by eapply cast_doc_absent_key.
  - revert Hcast. unfold cast_doc. cbn [doc_props]. rewrite cast_fields_review, Hid.
    destruct (cast_number v); [|done].
    destruct (cast_fields (tail review_schema) gs); intros [= <-]. unfold d, doc_get. simpl.
    done.
Qed.

(** A one-condition equality query on a path of the schema, once cast. *)
Lemma filter_matches_one p v l :
  filter (fun d => matches [(p, v)] (fields d) = true) l = with_field p v l.
Proof. apply list_filter_iff. intros d. unfold matches. simpl. by rewrite andb_true_r. Qed.

(** C9: [GET /fetchReviews/dealer/:id] answers, on a working store, the
    reviews whose [dealership] equals [parseInt(id)] in their stored
    order; a parameter that is not a number ([NaN]) is rejected by the
    cast of the query and answered [500]; the store is unchanged. *)
Theorem fetchReviewsByDealer_spec id fs s :
  run (fetchReviewsByDealer id) fs s =
    (if default false (head fs) then json_msg 500 "error" "Error fetching documents"
     else match JsNumber.parseInt id with
          | Some n => json200 (JArr (map doc_json (with_field "dealership" (JNum n) (reviews s))))
          | None => json_msg 500 "error" "Error fetching documents"
          end, s).
Proof.
  unfold fetchReviewsByDealer. run_handler.
  destruct (JsNumber.parseInt id); cbn -[matches]; [|done]. by rewrite filter_matches_one.
Qed.

(** C10: [GET /fetchDealers/:state] answers the dealerships whose [state]
    is exactly the parameter (case-sensitive), in stored order. *)
Theorem fetchDealersByState_spec st fs s :
  run (fetchDealersByState st) fs s =
    (if default false (head fs) then json_msg 500 "error" "Error fetching dealers by state"
     else json200 (JArr (map doc_json (with_field "state" (JStr st) (dealerships s)))), s).
Proof. unfold fetchDealersByState. run_handler. by rewrite filter_matches_one. Qed.

(** C30: [GET /fetchReviews] and [GET /fetchDealers] answer, on a
    working store, the whole collection in stored order, and [500] on a
    store fault; the store is unchanged. *)
Theorem fetch_all_spec fs s :
  run fetchReviews fs s =
    (if default false (head fs) then json_msg 500 "error" "Error fetching documents"
     else json200 (JArr (map doc_json (reviews s))), s) /\
  run fetchDealers fs s =
    (if default false (head fs) then json_msg 500 "error" "Error fetching dealers"
     else json200 (JArr (map doc_json (dealerships s))), s).
Proof.
  split; [unfold fetchReviews | unfold fetchDealers]; unfold await; cbn [run step_cmd];
    (destruct (default false (head fs)); [done|]);
    cbn [step_cmd exec]; by rewrite find_docs_all.
Qed.

(** C8: [GET /fetchDealer/:id] answers the first dealership whose [id]
    equals [parseInt(id)], [404] with ["Dealer not found"] when there is
    none, and [500] when the store fails or the parameter is not a
    number. *)
Theorem fetchDealer_spec id fs s :
  run (fetchDealer id) fs s =
    (if default false (head fs) then json_msg 500 "error" "Error fetching dealer by id"
     else match JsNumber.parseInt id with
          | None => json_msg 500 "error" "Error fetching dealer by id"
          | Some n =>
              match head (with_field "id" (JNum n) (dealerships s)) with
              | None => json_msg 404 "message" "Dealer not found"
              | Some d => json200 (doc_json d)
              end
          end, s).
Proof.
  unfold fetchDealer. run_handler.
  destruct (JsNumber.parseInt id); cbn -[matches]; [|done]. rewrite filter_matches_one.
  by destruct (head _).
Qed.

(** A review built by a cast of the review schema has a well-typed id. *)
Lemma cast_review_id_ok v n out :
  cast_doc review_schema v = Ok out -> id_ok (mkDoc n out) = true.
Proof.
  unfold cast_doc. destruct (doc_props v) as [fs|]; [|done].
  rewrite cast_fields_review. unfold id_ok, doc_get. cbn [fields].
  destruct (prop fs "id") as [x|].
  - destruct (cast_number x) as [w|] eqn:Hw; [|done].
    destruct (cast_fields (tail review_schema) fs); [|done]. intros [= <-]. simpl.
    by destruct (cast_number_result x w Hw) as [->|[? ->]].
  - intros Hc. rewrite prop_not_key; [done|].
    eapply Forall_impl; [by apply (cast_fields_keys (tail review_schema) fs)|].
    intros [k x] Hkv Heq. simpl in *. subst k. revert Hkv. refute_by_computation.
Qed.

(** C2: the id computed from [find().sort({ id: -1 })] is the largest id
    plus one, as a double ([1] for a collection without ids), whichever
    descending order the server returns: the sort-and-take-first of
    line 125 is equivalent to a maximum. *)
Theorem new_id_of_sorted (l l' : list doc) :
  Forall (fun d => id_ok d = true) l -> l' ≡ₚ l -> sorted_desc "id" l' ->
  new_id_of l' = JNum (Double.js_succ (default 0%Z (list_max_opt (map (sort_key "id") l)))).
Proof. apply new_id_first_is_max. Qed.

(** C1: [POST /insert_review] implements [insert_spec]: on every fault
    schedule, the response and the new store are those of the abstract
    specification, as long as the largest id is a safe integer. *)
Theorem insert_review_refines data fs s :
  Forall (fun d => id_ok d = true) (reviews s) -> safe_max s ->
  run (insert_review data) fs s =
    insert_spec (default false (head fs)) (default false (head (tail fs))) data s.
Proof. apply run_insert_review. Qed.

(** C5: on a fault-free store, a body without [id] and [_id] whose fields cast
    is stored as a new review with id [max + 1] and a fresh [_id], and
    the response is that review (the largest id being a safe integer). *)
Theorem insert_review_ok gs fs s :
  Forall (fun d => id_ok d = true) (reviews s) -> safe_max s -> NoDup gs.*1 ->
  prop gs "id" = None -> prop gs "_id" = None -> cast_doc review_schema (JObj gs) = Ok fs ->
  let d := mkDoc (next_oid s) (("id", JNum (max_review_id s + 1)) :: fs) in
  run (insert_review (Some (JObj gs))) [] s =
    (json200 (doc_json d), mkDb (reviews s ++ [d]) (dealerships s) (next_oid s + 1)).
Proof. apply run_insert_review_fresh. Qed.

(** C27: beyond the safe integers the ids repeat: when the largest id
    is a double of at least [2 ^ 54], [(documents[0]?.id ?? 0) + 1]
    (line 126) rounds back to it, and a body without [id] is stored
    under the id a stored review already has. *)
Theorem insert_review_id_overflow gs fs s :
  Forall (fun d => id_ok d = true) (reviews s) -> NoDup gs.*1 ->
  prop gs "id" = None -> prop gs "_id" = None -> cast_doc review_schema (JObj gs) = Ok fs ->
  Double.is_double (max_review_id s) = true -> (2 ^ 54 <= max_review_id s)%Z ->
  let d := mkDoc (next_oid s) (("id", JNum (max_review_id s)) :: fs) in
  run (insert_review (Some (JObj gs))) [] s =
    (json200 (doc_json d), mkDb (reviews s ++ [d]) (dealerships s) (next_oid s + 1)) /\
  exists d', d' ∈ reviews s /\ doc_get d' "id" = doc_get d "id".
Proof.
  intros Hok Hnd Hid Hg Hc Hd Hm d. split.
  - rewrite (run_insert_review_fresh_js gs fs) by done. by rewrite Double.js_succ_large.
  - apply max_review_id_attained. lia.
Qed.

(** The [_id] path of [review_schema]: a body's [_id], once the body
    casts, is the cast of its value by [castObjectId]. *)
Lemma cast_review_object_id gs out v :
  prop gs "_id" = Some v -> cast_doc review_schema (JObj gs) = Ok out ->
  exists w, cast_objectid v = Some w /\ prop out "_id" = Some w.
Proof.
  intros Hg Hc. eapply (cast_doc_key _ _ _ _ TObjectId); [apply (schema_nodup Reviews) | | exact Hg | exact Hc].
  by_computation.
Qed.

(** C25: a body whose [_id] is not an ObjectId (not 24 hexadecimal
    digits), or is the [_id] of a stored review, is rejected: Mongoose's
    cast fails, or MongoDB's unique [_id] index refuses the save
    (E11000), and the request is answered 500 with the store unchanged. *)
Theorem insert_review_bad_object_id gs s v :
  Forall (fun d => id_ok d = true) (reviews s) -> NoDup gs.*1 -> prop gs "_id" = Some v ->
  (cast_objectid v = None \/ exists e, e ∈ reviews s /\ given_id e = cast_objectid v) ->
  run (insert_review (Some (JObj gs))) [] s = (json_msg 500 "error" "Error inserting review", s).
Proof.
  intros Hok Hnd Hg Hbad. rewrite run_insert_review_js by done.
  unfold insert_with. cbn [default head tail]. rewrite cast_review_literal by done.
  destruct (cast_doc review_schema (JObj gs)) as [out|] eqn:Hc;
    [|by destruct (prop gs "id"); [|destruct (cast_number _)]].
  destruct (cast_review_object_id gs out v Hg Hc) as (w & Hw & Ho). rewrite Hw in Hbad.
  destruct Hbad as [|(e & He & Hid)]; [done|].
  destruct (prop gs "id"); [|destruct (cast_number _)]; cbn -[dup_key]; try done;
    (rewrite (dup_key_hit _ _ e); [done | done | rewrite Hid; unfold given_id; simpl; by rewrite Ho | unfold given_id; simpl; by rewrite Ho]).
Qed.

(** C21: a body without [id] whose [_id] is an ObjectId that no stored
    review has is saved under that [_id], lower-cased, with the id
    [max + 1]; the response is the saved review, [_id] first. *)
Theorem insert_review_given_object_id gs fs s v w :
  Forall (fun d => id_ok d = true) (reviews s) -> safe_max s -> NoDup gs.*1 ->
  prop gs "id" = None -> prop gs "_id" = Some v -> cast_objectid v = Some w ->
  Forall (fun e => given_id e <> Some w) (reviews s) ->
  cast_doc review_schema (JObj gs) = Ok fs ->
  let d := mkDoc (next_oid s) (("id", JNum (max_review_id s + 1)) :: fs) in
  run (insert_review (Some (JObj gs))) [] s =
    (json200 (doc_json d), mkDb (reviews s ++ [d]) (dealerships s) (next_oid s + 1)) /\
  given_id d = Some w /\ exists rest, doc_json d = JObj (("_id", w) :: rest).
Proof.
  intros Hok Hsafe Hnd Hid Hg Hw Hnew Hc d.
  destruct (cast_review_object_id gs fs v Hg Hc) as (w' & Hw' & Ho). rewrite Hw in Hw'.
  injection Hw' as <-. unfold safe_max in Hsafe.
  assert (Hgd : given_id d = Some w) by (unfold given_id, d; simpl; exact Ho).
  split_and!; [| done | unfold doc_json; rewrite Hgd; by eexists].
  pose proof (run_insert_review_saved gs fs s Hok Hnd Hid Hc) as H. cbv zeta in H.
  rewrite Double.js_succ_small in H by lia. apply H. by apply (dup_key_new _ _ w).
Qed.

End WithSorter.

(** In the spec's scenario, [GET /fetchDealers/NY] returns the one
    dealership with id 1, and two [POST /insert_review] of the same body
    return the ids 1 then 2. *)
Example spec_scenario :
  let '(r1, s1) := run (fetchDealersByState "NY") [] scenario_db in
  let '(r2, s2) := run (insert_review (Some scenario_body)) [] s1 in
  let '(r3, s3) := run (insert_review (Some scenario_body)) [] s2 in
  r1 = json200 (JArr [doc_json (mkDoc 0 [("id", JNum 1); ("state", JStr "NY")])]) /\
  status r2 = 200%Z /\ status r3 = 200%Z /\
  map (fun d => doc_get d "id") (reviews s3) = [Some (JNum 1); Some (JNum 2)].
Proof. vm_compute. repeat split. Qed.

(** ** Concrete instances *)

Lemma new_id_of_sorted_witness :
  new_id_of (sort_desc "id" (reviews sample_db)) = JNum 8.
Proof. apply (new_id_of_sorted (reviews sample_db)); by_computation. Defined.

Lemma insert_review_refines_witness :
  run (insert_review (Some scenario_body)) [false; true] sample_db =
    insert_spec false true (Some scenario_body) sample_db.
Proof. apply (insert_review_refines (Some scenario_body) [false; true] sample_db); by_computation. Defined.

Lemma insert_review_ok_witness :
  run (insert_review (Some (JObj [("dealership", JNum 1); ("purchase", JStr "yes")]))) [] sample_db =
    (json200 (doc_json (mkDoc 4 [("id", JNum 8); ("dealership", JNum 1); ("purchase", JBool true)])),
     mkDb (reviews sample_db ++ [mkDoc 4 [("id", JNum 8); ("dealership", JNum 1); ("purchase", JBool true)]])
          (dealerships sample_db) 5).
Proof.
  apply (insert_review_ok [("dealership", JNum 1); ("purchase", JStr "yes")]
           [("dealership", JNum 1); ("purchase", JBool true)] sample_db);
    [by_computation | by_computation | by_computation | reflexivity | reflexivity | reflexivity].
Defined.

Lemma insert_review_client_id_witness :
  doc_get (mkDoc 4 [("id", JNum 3); ("dealership", JNum 1)]) "id" = Some (JNum 3).
Proof.
  apply (proj2 (insert_review_client_id [("id", JStr "3"); ("dealership", JNum 1)]
           [("id", JNum 3); ("dealership", JNum 1)] sample_db (JStr "3")
           ltac:(by_computation) ltac:(by_computation) eq_refl eq_refl eq_refl)).
Defined.

(** A store whose largest review id is [2 ^ 54]. *)
Definition big_id_db : db := mkDb [mkDoc 0 [("id", JNum (2 ^ 54)%Z)]] [] 1.

Lemma insert_review_id_overflow_witness :
  run (insert_review (Some (JObj [("dealership", JNum 1)]))) [] big_id_db =
    (json200 (doc_json (mkDoc 1 [("id", JNum (2 ^ 54)%Z); ("dealership", JNum 1)])),
     mkDb [mkDoc 0 [("id", JNum (2 ^ 54)%Z)]; mkDoc 1 [("id", JNum (2 ^ 54)%Z); ("dealership", JNum 1)]] [] 2).
Proof.
  apply (proj1 (insert_review_id_overflow [("dealership", JNum 1)] [("dealership", JNum 1)] big_id_db
           ltac:(by_computation) ltac:(by_computation) eq_refl eq_refl eq_refl eq_refl ltac:(by_computation))).
Defined.

(** A store holding a review saved under a given [_id]. *)
Definition oid_db : db :=
  mkDb [mkDoc 0 [("id", JNum 1); ("_id", JStr "65f0aa00bb11cc22dd33ee44")]] [] 1.

Lemma insert_review_given_object_id_witness :
  run (insert_review (Some (JObj [("dealership", JNum 1); ("_id", JStr "65F0AA00BB11CC22DD33EE45")])))
      [] oid_db =
    (json200 (doc_json (mkDoc 1 [("id", JNum 2); ("dealership", JNum 1); ("_id", JStr "65f0aa00bb11cc22dd33ee45")])),
     mkDb (reviews oid_db ++ [mkDoc 1 [("id", JNum 2); ("dealership", JNum 1); ("_id", JStr "65f0aa00bb11cc22dd33ee45")]])
          [] 2).
Proof.
  eapply proj1.
  apply (insert_review_given_object_id _ [("dealership", JNum 1); ("_id", JStr "65f0aa00bb11cc22dd33ee45")] oid_db
           (JStr "65F0AA00BB11CC22DD33EE45") (JStr "65f0aa00bb11cc22dd33ee45"));
    first [reflexivity | by_computation].
Defined.

Lemma insert_review_bad_object_id_witness :
  run (insert_review (Some (JObj [("dealership", JNum 1); ("_id", JStr "65F0AA00BB11CC22DD33EE44")])))
      [] oid_db = (json_msg 500 "error" "Error inserting review", oid_db) /\
  run (insert_review (Some (JObj [("dealership", JNum 1); ("_id", JStr "42")]))) [] oid_db =
    (json_msg 500 "error" "Error inserting review", oid_db).
Proof.
  split.
  - apply (insert_review_bad_object_id _ _ (JStr "65F0AA00BB11CC22DD33EE44"));
      [by_computation | by_computation | reflexivity |].
    right. exists (mkDoc 0 [("id", JNum 1); ("_id", JStr "65f0aa00bb11cc22dd33ee44")]).
    split; [apply list_elem_of_here | reflexivity].
  - apply (insert_review_bad_object_id _ _ (JStr "42"));
      [by_computation | by_computation | reflexivity | left; reflexivity].
Defined.

End Handlers.
