(* ===== verification/Router.v ===== *)
(** * Express routing of [src/app.js]

    Requests pass the middleware of lines 11 to 13 and then the routes
    registered at lines 71 to 133, in that order:
    - [cors()] answers every [OPTIONS] request (a preflight) with [204];
    - the body parsers parse a URL-encoded body ([FormBody]; [413]
      when it has too many parameters) and a JSON body ([json_body]:
      the bytes decoded as UTF-8, then [Json.json_parse]); a malformed
      JSON body, or one whose top level is not an object or an array
      (the parser's strict mode), is answered [400]; without a body
      [req.body] is [{}];
    - the first route whose method and path pattern match handles the
      request; [app.get] routes also serve [HEAD], without the body.
      A pattern is matched as Express's path regexp: case-insensitive,
      with an optional trailing slash, a parameter being a non-empty
      segment; parameters are percent-decoded ([400] when that fails);
    - no match: [404] ["Cannot <METHOD> <path>"].
    [dispatch] is this pipeline, returning the handler's program. *)

From stdpp Require Import base list strings.
From Stdlib Require Import ZArith Ascii String.
From S2P Require Import Prelude JsNumber UriDecode JsValue Json FormBody Schema Store Handlers.

Module Router.
Import Js Schema Store Handlers.

Inductive method := GET | HEAD | POST | OPTIONS | OtherMethod (m : string).

Definition method_name (m : method) : string :=
  match m with
  | GET => "GET" | HEAD => "HEAD" | POST => "POST" | OPTIONS => "OPTIONS"
  | OtherMethod s => s
  end.

(** The request body as the parsers see it: none (or of a type no
    parser handles), parsed JSON, malformed JSON, or the text of an
    [application/x-www-form-urlencoded] body. *)
Inductive body_in := NoBody | JsonBody (v : jval) | MalformedBody | FormBody (s : string).

Record request := mkReq { meth : method; req_path : string; req_body : body_in }.

Inductive seg := Lit (s : string) | Param.

#[export] Instance seg_eq_dec : EqDecision seg.
Proof. solve_decision. Defined.

(** The routes, in registration order. *)
Inductive route := RRoot | RFetchReviews | RReviewsByDealer | RFetchDealers
                 | RDealersByState | RFetchDealer | RInsertReview.

#[export] Instance route_eq_dec : EqDecision route.
Proof. solve_decision. Defined.

Definition routes : list route :=
  [RRoot; RFetchReviews; RReviewsByDealer; RFetchDealers; RDealersByState; RFetchDealer;
   RInsertReview].

Definition route_method (r : route) : method :=
  match r with RInsertReview => POST | _ => GET end.

Definition route_pattern (r : route) : list seg :=
  match r with
  | RRoot => []
  | RFetchReviews => [Lit "fetchReviews"]
  | RReviewsByDealer => [Lit "fetchReviews"; Lit "dealer"; Param]
  | RFetchDealers => [Lit "fetchDealers"]
  | RDealersByState => [Lit "fetchDealers"; Param]
  | RFetchDealer => [Lit "fetchDealer"; Param]
  | RInsertReview => [Lit "insert_review"]
  end.

(** The handler a route runs on its decoded parameters and the body. *)
Definition route_handler (r : route) (ps : list string) (data : jsv) : prog response :=
  let p1 := default "" (head ps) in
  match r with
  | RRoot => root
  | RFetchReviews => fetchReviews
  | RReviewsByDealer => fetchReviewsByDealer p1
  | RFetchDealers => fetchDealers
  | RDealersByState => fetchDealersByState p1
  | RFetchDealer => fetchDealer p1
  | RInsertReview => insert_review data
  end.

(** ** Matching *)

(** The segments a path offers to the route regexps [^\/a\/b\/?$]: after
    the leading slash and one optional trailing slash. *)
Definition path_segments (p : string) : option (list string) :=
  match list_ascii_of_string p with
  | c :: rest =>
      if Ascii.eqb c "/" then
        match rest with
        | [] => Some []
        | _ =>
            let rest' := match last rest with
                         | Some c' => if Ascii.eqb c' "/" then take (List.length rest - 1) rest
                                      else rest
                         | None => rest
                         end in
            Some (map string_of_list_ascii (split_on "/"%char rest'))
        end
      else None
  | [] => None
  end.

(** The raw parameters of a pattern matched by the segments. *)
Fixpoint match_segs (pat : list seg) (ss : list string) : option (list string) :=
  match pat, ss with
  | [], [] => Some []
  | Lit l :: pat', s :: ss' =>
      if String.eqb (lower l) (lower s) then match_segs pat' ss' else None
  | Param :: pat', s :: ss' =>
      if String.eqb s "" then None else cons s <$> match_segs pat' ss'
  | _, _ => None
  end.

Definition method_ok (rm m : method) : bool :=
  match rm, m with
  | GET, GET | GET, HEAD | POST, POST => true
  | _, _ => false
  end.

(** The first registered route serving the request, with its raw
    parameters. *)
Fixpoint find_route (rs : list route) (m : method) (ss : list string)
    : option (route * list string) :=
  match rs with
  | [] => None
  | r :: rs' =>
      match (if method_ok (route_method r) m then match_segs (route_pattern r) ss else None) with
      | Some ps => Some (r, ps)
      | None => find_route rs' m ss
      end
  end.

(** ** The pipeline *)

Definition bad_request : response := mkResp 400 (BText "Bad Request").

Definition too_many_parameters : response := mkResp 413 (BText "Payload Too Large").

(** [req.body] after the parsers, or the error they answer. *)
Definition parse_body (b : body_in) : result response jsv :=
  match b with
  | NoBody => Ok (Some (JObj []))
  | JsonBody (JObj fs) => Ok (Some (JObj fs))
  | JsonBody (JArr vs) => Ok (Some (JArr vs))
  | JsonBody _ | MalformedBody => Err bad_request
  | FormBody t =>
      match Form.urlencoded t with
      | Some v => Ok (Some v)
      | None => Err too_many_parameters
      end
  end.

(** The text of a body read as UTF-8 by body-parser (iconv-lite): an
    ill-formed sequence becomes U+FFFD and a leading byte-order mark is
    dropped. *)
Definition decode_body (raw : string) : list ascii :=
  match Form.utf8_decode (list_ascii_of_string raw) with
  | c1 :: c2 :: c3 :: r =>
      if (N_of_ascii c1 =? 0xEF)%N && (N_of_ascii c2 =? 0xBB)%N && (N_of_ascii c3 =? 0xBF)%N
      then r else c1 :: c2 :: c3 :: r
  | l => l
  end.

(** [express.json()] (line 13) on the bytes of a body sent as
    [application/json]: an empty body is [{}]; in strict mode the first
    character that is not blank must open an object or an array ([400]
    otherwise); then [JSON.parse], whose [SyntaxError] is answered
    [400].  [None]: the body holds a number or an escape outside the
    model ([Json.OutsideModel]). *)
Definition json_body (raw : string) : option body_in :=
  let l := decode_body raw in
  match l with
  | [] => Some (JsonBody (JObj []))
  | _ =>
      match Json.skip_ws l with
      | c :: _ =>
          if Ascii.eqb c "{" || Ascii.eqb c "[" then
            match Json.json_parse (string_of_list_ascii l) with
            | Ok v => Some (JsonBody v)
            | Err Json.OutsideModel => None
            | Err _ => Some MalformedBody
            end
          else Some MalformedBody
      | [] => Some MalformedBody
      end
  end.

Definition not_found (req : request) : response :=
  mkResp 404 (BText ("Cannot " ++ method_name (meth req) ++ " " ++ req_path req)).

(** A [HEAD] response carries the status of the [GET] response, no body. *)
Definition head_response (r : response) : response := mkResp (status r) (BText "").

Definition dispatch (req : request) : prog response :=
  match meth req with
  | OPTIONS => Ret (mkResp 204 (BText ""))
  | m =>
      match parse_body (req_body req) with
      | Err resp => Ret resp
      | Ok data =>
          match path_segments (req_path req) ≫= find_route routes m with
          | None => Ret (not_found req)
          | Some (r, raw) =>
              match mapM Uri.decodeURIComponent raw with
              | None => Ret bad_request
              | Some ps =>
                  match m with
                  | HEAD => prog_bind (fun r => Ret (head_response r)) (route_handler r ps data)
                  | _ => route_handler r ps data
                  end
              end
          end
      end
  end.

(** ** Paths built from a route *)

(** Whether some segment list can match both patterns (an
    over-approximation used to show that routes are disjoint). *)
Fixpoint overlap (p q : list seg) : bool :=
  match p, q with
  | [], [] => true
  | Lit a :: p', Lit b :: q' => String.eqb (lower a) (lower b) && overlap p' q'
  | Lit _ :: p', Param :: q' | Param :: p', Lit _ :: q' | Param :: p', Param :: q' =>
      overlap p' q'
  | _, _ => false
  end.

(** The segments of the path for a route, the parameters [xs] as they
    appear in the path. *)
Fixpoint fill (pat : list seg) (xs : list string) : list string :=
  match pat, xs with
  | [], _ => []
  | Lit l :: pat', _ => l :: fill pat' xs
  | Param :: pat', x :: xs' => x :: fill pat' xs'
  | Param :: pat', [] => "" :: fill pat' []
  end.

Definition raw_path (r : route) (xs : list string) : string :=
  string_of_list_ascii ("/"%char :: join_on "/"%char (map list_ascii_of_string (fill (route_pattern r) xs))).

(** The path a client builds, each parameter through [encodeURIComponent]. *)
Definition build_path (r : route) (ps : list string) : string :=
  raw_path r (map Uri.encodeURIComponent ps).

Definition n_params (pat : list seg) : nat := List.length (filter (fun x => x = Param) pat).

Definition params_count (r : route) : nat := n_params (route_pattern r).

(** A segment a path can carry: non-empty and without a slash. *)
Definition good_seg (x : string) : Prop := x <> ""%string /\ "/"%char ∉ list_ascii_of_string x.

(** What a literal segment of a pattern must be. *)
Definition lit_good (x : seg) : Prop :=
  match x with Lit l => good_seg l | Param => True end.

(** ** Lemmas *)

Lemma overlap_sound p q ss ps qs :
  match_segs p ss = Some ps -> match_segs q ss = Some qs -> overlap p q = true.
Proof.
  revert q ss ps qs; induction p as [|[a|] p IH]; intros q ss ps qs;
    destruct q as [|[b|] q], ss as [|s ss]; simpl; try done.
  - destruct (String.eqb_spec (lower a) (lower s)) as [Ha|]; [|done].
    destruct (String.eqb_spec (lower b) (lower s)) as [Hb|]; [|done].
    intros H1 H2. rewrite Ha, <-Hb, String.eqb_refl. simpl. eauto.
  - destruct (String.eqb (lower a) (lower s)); [|done].
    destruct (String.eqb s ""); [done|]. destruct (match_segs q ss) eqn:E; [|done]. eauto.
  - destruct (String.eqb s ""); [done|]. destruct (match_segs p ss) eqn:E; [|done].
    destruct (String.eqb (lower b) (lower s)); [|done]. eauto.
  - destruct (String.eqb s ""); [done|].
    destruct (match_segs p ss) eqn:E1, (match_segs q ss) eqn:E2; try done. eauto.
Qed.

(** Two different routes never serve the same request. *)
Lemma routes_disjoint r1 r2 m ss ps1 ps2 :
  r1 <> r2 -> method_ok (route_method r1) m = true -> method_ok (route_method r2) m = true ->
  match_segs (route_pattern r1) ss = Some ps1 -> match_segs (route_pattern r2) ss = Some ps2 ->
  False.
Proof.
  intros Hne Hm1 Hm2 H1 H2. pose proof (overlap_sound _ _ _ _ _ H1 H2) as Ho.
  destruct r1, r2; try congruence; destruct m; simpl in *; try done; vm_compute in Ho; done.
Qed.

Lemma find_route_unique rs r m ss ps :
  r ∈ rs -> method_ok (route_method r) m = true -> match_segs (route_pattern r) ss = Some ps ->
  find_route rs m ss = Some (r, ps).
Proof.
  induction rs as [|r' rs IH]; intros Hin Hm Hs; [by apply elem_of_nil in Hin|]. simpl.
  destruct (decide (r' = r)) as [->|Hne].
  - by rewrite Hm, Hs.
  - destruct (method_ok (route_method r') m) eqn:Hm';
      [destruct (match_segs (route_pattern r') ss) eqn:Hs'|].
    + exfalso. by eapply (routes_disjoint r' r m ss).
    + apply IH; [|done..]. apply elem_of_cons in Hin as [->|]; [congruence|done].
    + apply IH; [|done..]. apply elem_of_cons in Hin as [->|]; [congruence|done].
Qed.

Lemma path_segments_slash rest :
  (exists c, last rest = Some c /\ c <> "/"%char) ->
  path_segments (string_of_list_ascii ("/"%char :: rest)) =
  Some (map string_of_list_ascii (split_on "/"%char rest)).
Proof.
  intros [c [Hl Hc]]. unfold path_segments. rewrite list_ascii_of_string_of_list_ascii.
  cbn [Ascii.eqb Bool.eqb]. destruct rest as [|a l]; [done|]. rewrite Hl.
  by destruct (Ascii.eqb_spec c "/").
Qed.

Lemma map_string_list_ascii (l : list string) :
  map string_of_list_ascii (map list_ascii_of_string l) = l.
Proof. induction l as [|x l IH]; [done|]. simpl. by rewrite string_of_list_ascii_of_string, IH. Qed.

Lemma path_segments_join segs :
  segs <> [] -> Forall good_seg segs ->
  path_segments (string_of_list_ascii ("/"%char :: join_on "/"%char (map list_ascii_of_string segs)))
  = Some segs.
Proof.
  intros Hne Hs. rewrite path_segments_slash.
  - rewrite split_join; [by rewrite map_string_list_ascii | by destruct segs |].
    apply Forall_fmap, (Forall_impl _ _ _ Hs). by intros x [_ ?].
  - apply join_last; [by destruct segs|]. apply Forall_fmap, (Forall_impl _ _ _ Hs).
    intros [|c x] [Hx Hx']; [done|]. split; [discriminate|done].
Qed.

(** Literal segments of the registered patterns are good segments. *)
Lemma route_lits_good r : Forall lit_good (route_pattern r).
Proof.
  assert (forall l, bool_decide (l <> ""%string) && bool_decide ("/"%char ∉ list_ascii_of_string l)
                    = true -> good_seg l) as Hg.
  { intros l [H1 H2]%andb_prop. by split; apply bool_decide_eq_true_1 in H1, H2. }
  destruct r; repeat constructor; apply Hg; reflexivity.
Qed.

(** A parameter is good once encoded. *)
Lemma encode_good p : p <> ""%string -> good_seg (Uri.encodeURIComponent p).
Proof. split; [by apply Uri.encode_nonempty | apply Uri.encode_no_slash]. Qed.

Lemma fill_good pat xs :
  Forall lit_good pat -> Forall good_seg xs -> List.length xs = n_params pat ->
  Forall good_seg (fill pat xs).
Proof.
  unfold n_params. revert xs; induction pat as [|[l|] pat IH]; intros xs Hpat Hxs Hn; [constructor|..];
    apply Forall_cons in Hpat as [Hx Hpat]; rewrite filter_cons in Hn.
  - rewrite decide_False in Hn by done. constructor; [done|]. by apply IH.
  - rewrite decide_True in Hn by done. destruct xs as [|x xs]; [done|].
    apply Forall_cons in Hxs as [Hx' Hxs]. constructor; [done|].
    apply IH; [done..|]. simpl in Hn. lia.
Qed.

Lemma match_fill pat xs :
  Forall good_seg xs -> List.length xs = n_params pat -> match_segs pat (fill pat xs) = Some xs.
Proof.
  unfold n_params. revert xs; induction pat as [|[l|] pat IH]; intros xs Hxs Hn;
    rewrite ?filter_cons in Hn.
  - by destruct xs.
  - rewrite decide_False in Hn by done. simpl. rewrite String.eqb_refl. by apply IH.
  - rewrite decide_True in Hn by done. destruct xs as [|x xs]; [done|].
    apply Forall_cons in Hxs as [[Hx _] Hxs]. simpl.
    destruct (String.eqb_spec x ""); [done|]. rewrite IH by (done || simpl in Hn; lia). done.
Qed.

Lemma path_segments_raw r xs :
  Forall good_seg xs -> List.length xs = params_count r ->
  path_segments (raw_path r xs) = Some (fill (route_pattern r) xs).
Proof.
  intros Hxs Hn. destruct (decide (r = RRoot)) as [->|Hr]; [done|].
  apply path_segments_join.
  - destruct r; done.
  - by apply fill_good; [apply route_lits_good | |].
Qed.

Lemma encode_all_good ps :
  Forall (fun p => p <> ""%string) ps -> Forall good_seg (map Uri.encodeURIComponent ps).
Proof. intros Hps. apply Forall_map, (Forall_impl _ _ _ Hps), encode_good. Qed.

Lemma decode_all ps :
  Forall (fun p => Forall (fun c => N_of_ascii c < 128)%N (list_ascii_of_string p)) ps ->
  mapM Uri.decodeURIComponent (map Uri.encodeURIComponent ps) = Some ps.
Proof.
  induction 1 as [|p ps Hp _ IH]; [done|]. simpl. by rewrite Uri.decode_encode_ascii, IH.
Qed.

(** A request on the path of a route with raw parameters [xs], for a
    method the route serves, reaches that route; its parameters are then
    decoded. *)
Lemma dispatch_raw r xs m :
  method_ok (route_method r) m = true -> m <> OPTIONS ->
  Forall good_seg xs -> List.length xs = params_count r ->
  dispatch (mkReq m (raw_path r xs) NoBody) =
  match mapM Uri.decodeURIComponent xs with
  | None => Ret bad_request
  | Some ps =>
      match m with
      | HEAD => prog_bind (fun x => Ret (head_response x)) (route_handler r ps (Some (JObj [])))
      | _ => route_handler r ps (Some (JObj []))
      end
  end.
Proof.
  intros Hm Ho Hxs Hn.
  assert (Hf : path_segments (raw_path r xs) ≫= find_route routes m = Some (r, xs)).
  { rewrite path_segments_raw by done.
    apply find_route_unique; [by destruct r; by_computation | done | by apply match_fill]. }
  unfold dispatch. cbn [meth req_body req_path].
  destruct m; try done; cbn [parse_body]; by rewrite Hf.
Qed.

Lemma dispatch_build r ps m :
  method_ok (route_method r) m = true -> m <> OPTIONS ->
  List.length ps = params_count r ->
  Forall (fun p => p <> ""%string /\ Forall (fun c => N_of_ascii c < 128)%N (list_ascii_of_string p)) ps ->
  dispatch (mkReq m (build_path r ps) NoBody) =
  match m with
  | HEAD => prog_bind (fun x => Ret (head_response x)) (route_handler r ps (Some (JObj [])))
  | _ => route_handler r ps (Some (JObj []))
  end.
Proof.
  intros Hm Ho Hn [Hne Hasc]%Forall_and. unfold build_path.
  rewrite dispatch_raw, decode_all by (rewrite ?length_map; auto using encode_all_good). done.
Qed.

Lemma find_route_sound rs m ss r ps :
  find_route rs m ss = Some (r, ps) ->
  r ∈ rs /\ method_ok (route_method r) m = true /\ match_segs (route_pattern r) ss = Some ps.
Proof.
  induction rs as [|r' rs IH]; [done|]. simpl.
  destruct (method_ok (route_method r') m) eqn:Hm; [destruct (match_segs (route_pattern r') ss) eqn:Hs|].
  - intros [= <- <-]. split; [by left|done].
  - intros (? & ? & ?)%IH. split; [by right|done].
  - intros (? & ? & ?)%IH. split; [by right|done].
Qed.

(** ** Properties *)

(** Every handler but [GET /] first awaits a store command, and its
    [catch] answers [500] when that command is rejected. *)
Lemma route_handler_rejected {SO : Sorter} r ps data fs s :
  r <> RRoot -> status (run (route_handler r ps data) (true :: fs) s).1 = 500%Z.
Proof. intros Hr. by destruct r. Qed.

Lemma parse_body_rejected b resp :
  parse_body b = Err resp -> resp = bad_request \/ resp = too_many_parameters.
Proof.
  destruct b as [|[]| |t]; simpl; try (intros [= <-]; by left).
  by destruct (Form.urlencoded t); [|intros [= <-]; right].
Qed.

(** Under a store that rejects every command, no answer is a [200]
    carrying data: the only [200] is the text of [GET /] (or its
    bodiless [HEAD]); every data route answers its [500]. *)
Lemma dispatch_rejected_no_data {SO : Sorter} q s :
  status (run (dispatch q) [true; true] s).1 = 200%Z ->
  (run (dispatch q) [true; true] s).1 = mkResp 200 (BText "Welcome to the Mongoose API") \/
  (run (dispatch q) [true; true] s).1 = mkResp 200 (BText "").
Proof.
  unfold dispatch. destruct (meth q) as [| | | |m]; [| | |done|];
    (destruct (parse_body (req_body q)) as [data|resp] eqn:Hb;
     [|by destruct (parse_body_rejected _ _ Hb) as [-> | ->]]);
    (destruct (_ ≫= find_route routes _) as [[r raw]|]; [|done]);
    (destruct (mapM Uri.decodeURIComponent raw) as [ps|]; [|done]);
    (destruct (decide (r = RRoot)) as [->|Hr]; [cbn; auto|]).
  all: try rewrite run_map; cbn [fst head_response status].
  all: by rewrite route_handler_rejected.
Qed.

(** C19: a request by the method of a route on the path a client builds
    from that route and its parameters (non-empty ASCII text, each through
    [encodeURIComponent]) runs that route's handler on exactly those
    parameters, with the empty body [{}]. *)
Theorem dispatch_route r ps :
  List.length ps = params_count r ->
  Forall (fun p => p <> ""%string /\ Forall (fun c => N_of_ascii c < 128)%N (list_ascii_of_string p)) ps ->
  dispatch (mkReq (route_method r) (build_path r ps) NoBody) = route_handler r ps (Some (JObj [])).
Proof.
  intros Hn Hps. rewrite dispatch_build by (done || by destruct r). by destruct r.
Qed.

Lemma dispatch_route_witness :
  build_path RDealersByState ["New York"] = "/fetchDealers/New%20York"%string /\
  dispatch (mkReq GET "/fetchDealers/New%20York" NoBody) = fetchDealersByState "New York".
Proof.
  split; [reflexivity|].
  apply (dispatch_route RDealersByState ["New York"]); [reflexivity | by_computation].
Defined.

(** C20: the order in which [src/app.js] registers its routes does not
    matter: the router picks route [r] with raw parameters [ps] exactly
    when [r] serves the method and its pattern matches the path. *)
Theorem find_route_spec m ss r ps :
  find_route routes m ss = Some (r, ps) <->
  method_ok (route_method r) m = true /\ match_segs (route_pattern r) ss = Some ps.
Proof.
  split; [by intros (_ & ?)%find_route_sound|].
  intros [Hm Hs]. apply find_route_unique; [by destruct r; by_computation|done..].
Qed.

(** [HEAD] on the path of a [GET] route runs the [GET] handler,
    with the same store effects under the same faults, and answers its
    status without a body. *)
Theorem dispatch_head {SO : Sorter} r ps fs s :
  route_method r = GET -> List.length ps = params_count r ->
  Forall (fun p => p <> ""%string /\ Forall (fun c => N_of_ascii c < 128)%N (list_ascii_of_string p)) ps ->
  run (dispatch (mkReq HEAD (build_path r ps) NoBody)) fs s =
  (head_response (run (dispatch (mkReq GET (build_path r ps) NoBody)) fs s).1,
   (run (dispatch (mkReq GET (build_path r ps) NoBody)) fs s).2).
Proof.
  intros Hr Hn Hps. rewrite !dispatch_build by (rewrite ?Hr; done). apply run_map.
Qed.

Lemma dispatch_head_witness :
  run (dispatch (mkReq HEAD "/fetchDealer/1" NoBody)) [] sample_db =
  (head_response (run (dispatch (mkReq GET "/fetchDealer/1" NoBody)) [] sample_db).1,
   (run (dispatch (mkReq GET "/fetchDealer/1" NoBody)) [] sample_db).2).
Proof. apply (dispatch_head RFetchDealer ["1"]); [reflexivity | reflexivity | by_computation]. Defined.

(** C22: a path parameter holding an escape [%] that is not followed by
    two hexadecimal digits, after text without escapes (such as
    [/fetchDealer/%zz] or [/fetchDealers/Texas%2]), is answered [400]
    before any handler runs, whatever else the path holds: Express's
    [decodeURIComponent] of the parameter throws. *)
Theorem dispatch_decode_error r xs pre t :
  Forall good_seg xs -> List.length xs = params_count r ->
  (pre +:+ String "%" t) ∈ xs ->
  "%"%char ∉ list_ascii_of_string pre ->
  match list_ascii_of_string t with h1 :: h2 :: _ => Uri.hex_byte h1 h2 = None | _ => True end ->
  dispatch (mkReq (route_method r) (raw_path r xs) NoBody) = Ret bad_request.
Proof.
  intros Hxs Hn Hin Hpre Ht.
  assert (Hd : mapM Uri.decodeURIComponent xs = None).
  { apply mapM_None_2, Exists_exists. eexists; split; [exact Hin|].
    by apply Uri.decodeURIComponent_bad_escape. }
  rewrite dispatch_raw, Hd by (done || by destruct r). done.
Qed.

Lemma dispatch_decode_error_witness :
  raw_path RFetchDealer ["%zz"] = "/fetchDealer/%zz"%string /\
  dispatch (mkReq GET "/fetchDealer/%zz" NoBody) = Ret bad_request /\
  dispatch (mkReq GET "/fetchDealers/Texas%2" NoBody) = Ret bad_request.
Proof.
  split_and!; [reflexivity| |].
  - apply (dispatch_decode_error RFetchDealer ["%zz"] "" "zz");
      [unfold good_seg; by_computation | reflexivity | by_computation | by_computation | reflexivity].
  - apply (dispatch_decode_error RDealersByState ["Texas%2"] "Texas" "2");
      [unfold good_seg; by_computation | reflexivity | by_computation | by_computation | exact I].
Defined.

(** The [GET] routes do not answer [POST]: a [POST] on their paths
    finds no route and is answered [404] ["Cannot POST <path>"]. *)
Theorem dispatch_post_get_route r ps :
  route_method r = GET -> List.length ps = params_count r -> Forall (fun p => p <> ""%string) ps ->
  dispatch (mkReq POST (build_path r ps) NoBody) =
  Ret (not_found (mkReq POST (build_path r ps) NoBody)).
Proof.
  intros Hr Hn Hps. unfold dispatch. cbn [meth req_body req_path parse_body].
  unfold build_path. rewrite path_segments_raw by (rewrite ?length_map; auto using encode_all_good).
  destruct r; try discriminate; reflexivity.
Qed.

Lemma dispatch_post_get_route_witness :
  dispatch (mkReq POST "/fetchReviews" NoBody) =
  Ret (mkResp 404 (BText "Cannot POST /fetchReviews")).
Proof. apply (dispatch_post_get_route RFetchReviews []); [reflexivity..| constructor]. Defined.

(** Route literals match without regard to case and with an
    optional trailing slash, while the parameter keeps its case: the
    state filter of [/fetchDealers/:state] sees [ny] and [NY] as
    different states. *)
Example dispatch_case_insensitive :
  dispatch (mkReq GET "/FETCHDEALERS/NY/" NoBody) = fetchDealersByState "NY" /\
  dispatch (mkReq GET "/fetchdealers/ny" NoBody) = fetchDealersByState "ny" /\
  dispatch (mkReq GET "/fetchDealers//" NoBody) =
    Ret (mkResp 404 (BText "Cannot GET /fetchDealers//")).
Proof. repeat split; vm_compute; reflexivity. Qed.

(** A review submitted as a form is stored with its [Number] and
    [Boolean] paths cast from their text ([dealership] [1],
    [purchase] [true]) and its loosely typed fields kept as text
    ([rating] ["5"]), [+] read as a space. *)
Example dispatch_form_review :
  run (dispatch (mkReq POST "/insert_review"
                  (FormBody "name=A+B&dealership=1&rating=5&purchase=yes"))) [] sample_db =
  (json200 (doc_json (mkDoc 4 [("id", JNum 8); ("name", JStr "A B"); ("dealership", JNum 1);
                               ("rating", JStr "5"); ("purchase", JBool true)])),
   mkDb (reviews sample_db ++
         [mkDoc 4 [("id", JNum 8); ("name", JStr "A B"); ("dealership", JNum 1);
                   ("rating", JStr "5"); ("purchase", JBool true)]])
        (dealerships sample_db) 5).
Proof. vm_compute. reflexivity. Qed.

(** A form that repeats [dealership] makes [req.body.dealership]
    an array, which the [Number] path does not cast: [POST
    /insert_review] answers [500] and stores nothing, under every fault
    schedule. *)
Theorem dispatch_form_repeated_dealership {SO : Sorter} v1 v2 fs s :
  Form.ascii_text v1 -> Form.ascii_text v2 ->
  run (dispatch (mkReq POST "/insert_review"
                  (FormBody (Form.form_encode [("dealership", v1); ("dealership", v2)])))) fs s =
  (json_msg 500 "error" "Error inserting review", s).
Proof.
  intros H1 H2. unfold dispatch. cbn [meth req_body req_path parse_body].
  pose proof (Form.urlencoded_same_key "dealership" v1 v2 []) as Hf. cbn [map] in Hf.
  rewrite Hf; [| unfold Form.ascii_text; by_computation | by repeat constructor | simpl; lia].
  change (path_segments "/insert_review" ≫= find_route routes POST) with (Some (RInsertReview, @nil string)).
  cbn [mapM route_handler]. apply insert_review_rejected. intros v. apply cast_array_dealership.
Qed.

Lemma dispatch_form_repeated_dealership_witness :
  run (dispatch (mkReq POST "/insert_review" (FormBody "dealership=1&dealership=2"))) [] sample_db =
  (json_msg 500 "error" "Error inserting review", sample_db).
Proof.
  apply (dispatch_form_repeated_dealership "1" "2"); unfold Form.ascii_text; by_computation.
Defined.

End Router.
