(* ===== verification/Cors.v ===== *)
(** * The headers of [app.use(cors())] (line 11 of [src/app.js])

    The [cors] middleware runs before every other one, with its default
    options: origin [*], the methods [GET,HEAD,PUT,PATCH,POST,DELETE],
    the request's [Access-Control-Request-Headers] reflected, no
    credentials, no max age, no exposed headers.  On an [OPTIONS]
    request (a preflight) it sets the origin, the methods, [Vary] and
    the reflected headers, answers [204] with [Content-Length: 0] and
    ends the response; on any other request it sets the origin and
    passes the request on.  [cors_headers] is the list of headers it
    sets, in order; [serve] is a request served by the whole
    application: the headers of [cors], then the response of
    [dispatch]. *)

From stdpp Require Import base list strings.
From Stdlib Require Import ZArith String.
From S2P Require Import Prelude JsValue Store Handlers Router.

Module Cors.
Import Store Handlers Router.

Definition header := (string * string)%type.

Definition allow_origin : header := ("Access-Control-Allow-Origin", "*").

(** The headers [cors()] sets; [acrh] is the request's
    [Access-Control-Request-Headers], if any. *)
Definition cors_headers (m : method) (acrh : option string) : list header :=
  match m with
  | OPTIONS =>
      [allow_origin;
       ("Access-Control-Allow-Methods", "GET,HEAD,PUT,PATCH,POST,DELETE");
       ("Vary", "Access-Control-Request-Headers")] ++
      match acrh with
      | Some h => if String.eqb h "" then [] else [("Access-Control-Allow-Headers", h)]
      | None => []
      end ++
      [("Content-Length", "0")]
  | _ => [allow_origin]
  end.

(** A request served by the application: the headers of [cors], then
    the router's response. *)
Definition serve {SO : Sorter} (req : request) (acrh : option string) (faults : list bool) (s : db)
    : (list header * response) * db :=
  let '(r, s') := run (dispatch req) faults s in
  ((cors_headers (meth req) acrh, r), s').

(** ** Lemmas *)

Lemma allow_origin_in m acrh : allow_origin ∈ cors_headers m acrh.
Proof. destruct m; simpl; apply list_elem_of_here. Qed.

Section Serve.
Context {SO : Sorter}.

(** Every response carries [Access-Control-Allow-Origin: *]: any origin
    may read any answer of the API. *)
Lemma serve_allow_origin req acrh fs s :
  allow_origin ∈ (serve req acrh fs s).1.1.
Proof. unfold serve. destruct (run _ _ _). apply allow_origin_in. Qed.

(** A preflight is answered [204] with the methods and the requested
    headers allowed, and leaves the store as it is. *)
Lemma serve_preflight p b h fs s :
  h <> ""%string ->
  serve (mkReq OPTIONS p b) (Some h) fs s =
    ((cors_headers OPTIONS (Some h), mkResp 204 (BText "")), s) /\
  ("Access-Control-Allow-Headers", h) ∈ cors_headers OPTIONS (Some h).
Proof.
  intros Hh. split; [done|]. simpl. apply String.eqb_neq in Hh. rewrite Hh. simpl.
  do 3 apply list_elem_of_further. apply list_elem_of_here.
Qed.

End Serve.

End Cors.
