(* ===== verification/Frontend.v ===== *)
(** * The front-end router of [src/server/frontend/src/App.js]

    [App] (lines 5 to 15) renders React Router's [<Routes>] with two
    [<Route>] children: [/login] shows [LoginPanel] (line 9) and
    [/register] shows [Register] (line 12).  At a location, [<Routes>]
    (react-router 6, [matchRoutes]) flattens its children into branches,
    ranks them by [computeScore] (a stable sort, so equal scores keep the
    declaration order), decodes the pathname segment by segment
    ([decodePath]: [decodeURIComponent] on each segment, a decoded slash
    written back as [%2F], the whole path kept as it is when a segment
    does not decode), and renders the element of the first branch whose
    pattern matches: [matchPath] with [end: true] and
    [caseSensitive: false], the regexp [^\/login\/*$] with the [i] flag.
    With no match it renders nothing.

    Only static patterns are modelled, which are all that [App.js]
    declares; dynamic segments, splats, index routes, nesting and a
    basename are not. *)

From stdpp Require Import base list strings.
From Stdlib Require Import ZArith Ascii String.
From S2P Require Import Prelude UriDecode.

Module Frontend.

Inductive element := LoginPanel | Register.

#[export] Instance element_eq_dec : EqDecision element.
Proof. solve_decision. Defined.

(** A [<Route path element />]. *)
Record route := mkRoute { path : string; element_of : element }.

(** The children of [<Routes>] in [App], in order. *)
Definition app_routes : list route :=
  [mkRoute "/login" LoginPanel; mkRoute "/register" Register].

(** ** Ranking *)

(** [computeScore(path, false)] of a static path: one point per segment
    of [path.split("/")], and ten more per non-empty segment, one more
    per empty one. *)
Definition compute_score (p : string) : Z :=
  let segs := split_on "/"%char (list_ascii_of_string p) in
  foldr (fun seg acc => (match seg with [] => 1 | _ => 10 end) + acc)%Z
        (Z.of_nat (List.length segs)) segs.

(** Insert a scored branch before the first branch of lower or equal
    score among those after it. *)
Fixpoint insert_ranked (b : Z * route) (l : list (Z * route)) : list (Z * route) :=
  match l with
  | [] => [b]
  | b' :: l' => if (b'.1 <=? b.1)%Z then b :: l else b' :: insert_ranked b l'
  end.

(** [rankRouteBranches]: by descending score, siblings of equal score in
    declaration order. *)
Definition rank_routes (rs : list route) : list route :=
  map snd (foldr insert_ranked [] (map (fun r => (compute_score (path r), r)) rs)).

(** ** Matching *)

Fixpoint escape_slash (l : list ascii) : list ascii :=
  match l with
  | [] => []
  | c :: l' => if Ascii.eqb c "/" then ["%"; "2"; "F"]%char ++ escape_slash l' else c :: escape_slash l'
  end.

(** [decodePath(pathname)]. *)
Definition decodePath (p : string) : string :=
  match mapM (fun seg => Uri.decodeURIComponent (string_of_list_ascii seg))
             (split_on "/"%char (list_ascii_of_string p)) with
  | Some segs => string_of_list_ascii (join_on "/"%char (map (fun s => escape_slash (list_ascii_of_string s)) segs))
  | None => p
  end.

Fixpoint drop_slashes (l : list ascii) : list ascii :=
  match l with
  | c :: l' => if Ascii.eqb c "/" then drop_slashes l' else l
  | [] => []
  end.

(** The literal of the regexp [compilePath] builds from a static path:
    trailing slashes removed, the leading ones made one. *)
Definition pattern_source (p : string) : list ascii :=
  "/"%char :: drop_slashes (rev (drop_slashes (rev (list_ascii_of_string p)))).

(** [matchPath({ path: p, caseSensitive: false, end: true }, pathname)]
    succeeds: [pathname] is the literal, compared without regard to
    case, followed by any number of slashes. *)
Definition match_path (p pathname : string) : bool :=
  let src := pattern_source p in
  let l := list_ascii_of_string pathname in
  (List.length src <=? List.length l) &&
  bool_decide (map lower_char (take (List.length src) l) = map lower_char src) &&
  forallb (fun c => Ascii.eqb c "/") (drop (List.length src) l).

(** [matchRoutes(routes, pathname)]: the first ranked branch whose pattern
    matches the decoded pathname. *)
Definition match_routes (rs : list route) (pathname : string) : option route :=
  let decoded := decodePath pathname in
  List.find (fun r => match_path (path r) decoded) (rank_routes rs).

(** What [App] renders at a pathname: the element of the matched route,
    or nothing. *)
Definition App (pathname : string) : option element :=
  element_of <$> match_routes app_routes pathname.

(** ** Lemmas *)

Lemma rank_app_routes : rank_routes app_routes = app_routes.
Proof. reflexivity. Qed.

Lemma split_slash_replicate k : split_on "/"%char (replicate k "/"%char) = replicate (S k) [].
Proof. induction k as [|k IH]; [done|]. simpl. by rewrite IH. Qed.

Lemma split_slash_seg x k :
  "/"%char ∉ x -> split_on "/"%char (x ++ replicate k "/"%char) = x :: replicate k [].
Proof.
  intros Hx. destruct k as [|k].
  - rewrite app_nil_r. by apply split_no_sep.
  - simpl. rewrite split_on_app, split_slash_replicate by done. done.
Qed.

Lemma join_slash_replicate x k : join_on "/"%char (x :: replicate k []) = x ++ replicate k "/"%char.
Proof.
  revert x; induction k as [|k IH]; intros x; [by rewrite app_nil_r|].
  cbn [replicate]. rewrite join_on_cons, IH. done.
Qed.

Lemma escape_slash_id l : "/"%char ∉ l -> escape_slash l = l.
Proof.
  induction l as [|c l IH]; [done|]. intros [Hc Hl]%not_elem_of_cons. simpl.
  destruct (Ascii.eqb_spec c "/"); [congruence|]. by rewrite IH.
Qed.

Lemma mapM_decode_empty k :
  mapM (fun seg => Uri.decodeURIComponent (string_of_list_ascii seg)) (replicate k []) =
  Some (replicate k ""%string).
Proof. induction k as [|k IH]; [done|]. simpl. by rewrite IH. Qed.

Lemma map_escape_empty k :
  map (fun s => escape_slash (list_ascii_of_string s)) (replicate k ""%string) = replicate k [].
Proof. induction k as [|k IH]; [done|]. simpl. by rewrite IH. Qed.

(** A path of one segment and trailing slashes decodes segment-wise. *)
Lemma decodePath_seg q q' k :
  "/"%char ∉ list_ascii_of_string q -> Uri.decodeURIComponent q = Some q' ->
  "/"%char ∉ list_ascii_of_string q' ->
  decodePath (string_of_list_ascii ("/"%char :: list_ascii_of_string q ++ replicate k "/"%char)) =
  string_of_list_ascii ("/"%char :: list_ascii_of_string q' ++ replicate k "/"%char).
Proof.
  intros Hq Hd Hq'. unfold decodePath. rewrite list_ascii_of_string_of_list_ascii.
  cbn [split_on Ascii.eqb Bool.eqb]. rewrite split_slash_seg by done.
  cbn [mapM]. simpl (Uri.decodeURIComponent (string_of_list_ascii [])).
  rewrite string_of_list_ascii_of_string, Hd. simpl. rewrite mapM_decode_empty. simpl.
  rewrite map_escape_empty. cbn [escape_slash list_ascii_of_string].
  rewrite escape_slash_id by done.
  rewrite <-join_slash_replicate. by destruct k.
Qed.

Lemma match_path_login l k :
  map lower_char l = list_ascii_of_string "login" ->
  match_path "/login" (string_of_list_ascii ("/"%char :: l ++ replicate k "/"%char)) = true.
Proof.
  intros Hl. assert (Hlen : List.length l = 5) by (rewrite <-(length_map lower_char), Hl; done).
  unfold match_path. rewrite list_ascii_of_string_of_list_ascii.
  change (pattern_source "/login") with (list_ascii_of_string "/login").
  cbn [List.length list_ascii_of_string take drop]. rewrite <-Hlen, take_app_length, drop_app_length.
  cbn [map]. rewrite Hl, bool_decide_eq_true_2 by done. simpl.
  rewrite length_app, length_replicate, Hlen. simpl.
  induction k as [|k IH]; [done|]. simpl. by rewrite IH.
Qed.

(** Lower-casing keeps the slashes. *)
Lemma lower_no_slash l : "/"%char ∉ map lower_char l -> "/"%char ∉ l.
Proof. intros Hl Hin. apply Hl. change "/"%char with (lower_char "/"). by apply list_elem_of_fmap_2. Qed.

(** The two patterns of [App] never match the same pathname. *)
Lemma login_register_disjoint x :
  match_path "/login" x = true -> match_path "/register" x = true -> False.
Proof.
  unfold match_path. change (pattern_source "/login") with (list_ascii_of_string "/login").
  change (pattern_source "/register") with (list_ascii_of_string "/register").
  intros [[_ H1]%andb_prop _]%andb_prop [[_ H2]%andb_prop _]%andb_prop.
  apply bool_decide_eq_true_1 in H1, H2.
  assert (H := f_equal (take 6) H2). rewrite firstn_map, take_take in H.
  cbn [List.length list_ascii_of_string] in H, H1. simpl (Nat.min _ _) in H.
  rewrite H1 in H. discriminate.
Qed.

(** ** Properties *)

(** C31: [App] shows [LoginPanel] at [/login] written in any case, with
    any of its letters percent-encoded, and followed by any number of
    slashes: the pathname is decoded before it is matched, and the match
    ignores case and trailing slashes. *)
Theorem App_login q q' k :
  "/"%char ∉ list_ascii_of_string q -> Uri.decodeURIComponent q = Some q' ->
  lower q' = "login"%string ->
  App (string_of_list_ascii ("/"%char :: list_ascii_of_string q ++ replicate k "/"%char)) =
  Some LoginPanel.
Proof.
  intros Hq Hd Hl.
  assert (Hl' : map lower_char (list_ascii_of_string q') = list_ascii_of_string "login")
    by (rewrite <-Hl; unfold lower; by rewrite list_ascii_of_string_of_list_ascii).
  assert (Hs : "/"%char ∉ list_ascii_of_string q')
    by (apply lower_no_slash; rewrite Hl'; by_computation).
  unfold App, match_routes. rewrite rank_app_routes, (decodePath_seg q q') by done.
  cbn [List.find app_routes path]. by rewrite match_path_login.
Qed.

Lemma App_login_witness : App "/%4Cogin//" = Some LoginPanel.
Proof. apply (App_login "%4Cogin" "Login" 2); by_computation. Defined.

(** C32: [App] renders an element exactly when the pathname, decoded,
    matches the route that declares it: the two patterns never match
    together, so the first-match order of [<Routes>] does not matter. *)
Theorem App_spec p e :
  App p = Some e <->
  Exists (fun r => element_of r = e /\ match_path (path r) (decodePath p) = true) app_routes.
Proof.
  unfold App, match_routes. rewrite rank_app_routes. cbn [List.find app_routes path].
  unfold app_routes. rewrite !Exists_cons, Exists_nil. cbn [path element_of].
  pose proof (login_register_disjoint (decodePath p)).
  destruct (match_path "/login" _), (match_path "/register" _), e; simpl; naive_solver.
Qed.

(** [App] renders nothing at the root, below a route, at a
    doubled leading slash, at an encoded slash and at a pathname that
    does not decode; [/register/] shows [Register]. *)
Example App_examples :
  App "/" = None /\ App "/login/x" = None /\ App "//login" = None /\
  App "/log%2Fin" = None /\ App "/%E0%A4%A" = None /\ App "/register/" = Some Register.
Proof. repeat split; vm_compute; reflexivity. Qed.

End Frontend.
