(* ===== verification/Seeder.v ===== *)
(** * Loading the seed files and seeding the store at startup

    Lines 18 to 31 of [src/app.js] read [reviews.json] and
    [dealerships.json]; a file that cannot be read or parsed leaves its
    variable [null].  [read_json] is that [try] block on the file's
    contents: [readFileSync(.., 'utf8')] decodes them as UTF-8 and
    keeps a byte-order mark, which [JSON.parse] ([Json]) rejects, so a
    file saved with one loads as [null] ([read_json_bom]).  Lines 51 to 69 are an [async] function run once at
    startup: unless one of the two values is falsy it waits for the
    connection, empties both collections, and inserts the seed records,
    taken from the [reviews] / [dealerships] field of the parsed value
    or, when that field is falsy, from the value itself.  A rejected
    step ends the function (logged), leaving whatever the earlier steps
    did.

    [seed] is that function as a [prog]; the theorems give its result
    when seeding is skipped, when every step succeeds, when any one step
    is the first to fail (the effects of the earlier ones stay), when a
    seed record does not cast, and when a seed file is an
    object whose records field is missing (the object itself becomes
    the one review). *)

From stdpp Require Import base list strings.
From Stdlib Require Import ZArith NArith Ascii String.
From S2P Require Import Prelude JsNumber JsValue Json FormBody Schema Store Handlers.

Module Seeder.
Import Js Schema Store Handlers.

Local Open Scope api_scope.

(** [fs.readFileSync(p, 'utf8')]: the bytes of the file decoded as
    UTF-8, malformed sequences replaced by U+FFFD; a byte-order mark is
    kept (it is the character U+FEFF of the string). *)
Definition read_utf8 (raw : string) : string :=
  string_of_list_ascii (Form.utf8_decode (list_ascii_of_string raw)).

(** The [try] block of lines 21 to 25 (and 27 to 31):
    [JSON.parse(fs.readFileSync(path, 'utf8'))] on the file's contents
    ([None]: the file cannot be read).  [Some v] is the parsed value,
    [None] an exception caught by the [catch] block; a text whose value
    lies outside the model of [Json] is an error of the model. *)
Definition read_json (file : option string) : result Json.perr (option jval) :=
  match file with
  | None => Ok None
  | Some raw =>
      match Json.json_parse (read_utf8 raw) with
      | Ok v => Ok (Some v)
      | Err Json.SyntaxError => Ok None
      | Err e => Err e
      end
  end.

(** [let x = null; try { x = JSON.parse(fs.readFileSync(..)) } catch {..}]:
    the parsed value, or [null] when reading or parsing failed. *)
Definition load (parsed : option jval) : jval := default JNull parsed.

(** Lines 18 to 31 for one file: its contents to the value of the
    variable. *)
Definition load_file (file : option string) : result Json.perr jval :=
  r <-? read_json file ;; Ok (load r).

(** A file's contents preceded by the UTF-8 byte-order mark [EF BB BF],
    as an editor saving "UTF-8 with BOM" writes them. *)
Definition with_bom (raw : string) : string :=
  String (ascii_of_N 0xEF) (String (ascii_of_N 0xBB) (String (ascii_of_N 0xBF) raw)).

(** What the seeding function logs before it ends. *)
Inductive outcome :=
| Skipped                   (** "Skipping seeding because JSON files were not loaded." *)
| Seeded                    (** "Database seeded successfully" *)
| SeedError (e : error).    (** "Error seeding database" *)

(** The argument of [Model.insertMany]: an array is the list of
    documents, any other value one document. *)
Definition insert_arg (v : jsv) : list jval :=
  match v with
  | Some (JArr vs) => vs
  | Some v => [v]
  | None => []
  end.

(** [data.<field> || data]. *)
Definition seed_records (data : jval) (field : string) : list jval :=
  insert_arg (js_or (get_prop data field) (Some data)).

(** The seeding function of lines 51 to 69. *)
Definition seed (reviews_data dealerships_data : jval) : prog outcome :=
  if negb (truthy (Some reviews_data)) || negb (truthy (Some dealerships_data)) then
    Ret Skipped
  else
    let fail := fun e => Ret (SeedError e) in
    await Connect (fun _ =>
    await (DeleteMany Reviews) (fun _ =>
    await (DeleteMany Dealerships) (fun _ =>
    await (InsertMany Reviews (seed_records reviews_data "reviews")) (fun _ =>
    await (InsertMany Dealerships (seed_records dealerships_data "dealerships")) (fun _ =>
    Ret Seeded) fail) fail) fail) fail) fail.

(** Seed files in the two accepted shapes: a bare array of reviews, and
    dealerships wrapped in a [dealerships] field. *)
Definition sample_reviews_file : jval :=
  JArr [JObj [("id", JNum 1); ("dealership", JNum 15); ("name", JStr "Berkly")]].

Definition sample_dealers_file : jval :=
  JObj [("dealerships", JArr [JObj [("id", JNum 15); ("state", JStr "NY")]])].

(** ** Theorems *)

(** The store after a successful seeding: both collections replaced by
    the cast seed records, numbered from the next free [_id]. *)
Definition seeded_db (rfs dfs : list (list (string * jval))) (s : db) : db :=
  let n := next_oid s in
  let m := (n + N.of_nat (List.length rfs))%N in
  mkDb (number_docs n rfs) (number_docs m dfs) (m + N.of_nat (List.length dfs))%N.

(** The store left by a seeding whose [i]-th awaited step (0: the
    connection, 1 and 2: the two deletions, 3 and 4: the two insertions)
    is the first to fail: what the earlier steps did stays. *)
Definition seed_fault_db (i : nat) (rfs : list (list (string * jval))) (s : db) : db :=
  match i with
  | 0 | 1 => s
  | 2 => mkDb [] (dealerships s) (next_oid s)
  | 3 => mkDb [] [] (next_oid s)
  | _ => mkDb (number_docs (next_oid s) rfs) [] (next_oid s + N.of_nat (List.length rfs))%N
  end.

(** ** Reading the seed files *)

(** The decoder passes a byte-order mark through. *)
Lemma utf8_decode_bom l :
  Form.utf8_decode (ascii_of_N 0xEF :: ascii_of_N 0xBB :: ascii_of_N 0xBF :: l) =
  ascii_of_N 0xEF :: ascii_of_N 0xBB :: ascii_of_N 0xBF :: Form.utf8_decode l.
Proof. reflexivity. Qed.

(** [JSON.parse] throws on the byte-order mark: U+FEFF is not JSON
    whitespace and starts no value. *)
Lemma read_json_bom raw : read_json (Some (with_bom raw)) = Ok None.
Proof.
  unfold read_json, read_utf8, with_bom. cbn [list_ascii_of_string].
  rewrite utf8_decode_bom. unfold Json.json_parse.
  rewrite list_ascii_of_string_of_list_ascii. reflexivity.
Qed.

(** Records given no two equal [_id]s (records given none included):
    inserted into an emptied collection, none is refused. *)
Definition distinct_ids (fss : list (list (string * jval))) : Prop :=
  NoDup (omap (fun fs => prop fs "_id") fss).

Ltac seed_steps :=
  unfold seed, await; cbn [run step_cmd default head tail exec set_docs docs].

Section Seeding.
Context {SO : Sorter}.

Lemma insert_ordered_seed n fss :
  distinct_ids fss -> insert_ordered [] (number_docs n fss) = (number_docs n fss, false).
Proof.
  intros H. apply insert_ordered_distinct; [by rewrite number_docs_ids | intros v _; apply not_elem_of_nil].
Qed.

Lemma run_seed_ok r d rfs dfs s :
  truthy (Some r) = true -> truthy (Some d) = true ->
  mapR (cast_doc review_schema) (seed_records r "reviews") = Ok rfs ->
  mapR (cast_doc dealership_schema) (seed_records d "dealerships") = Ok dfs ->
  distinct_ids rfs -> distinct_ids dfs ->
  run (seed r d) [] s = (Seeded, seeded_db rfs dfs s).
Proof.
  intros Hr Hd Hrfs Hdfs Hri Hdi. seed_steps. rewrite Hr, Hd. cbn -[mapR insert_ordered].
  rewrite Hrfs. cbn -[mapR insert_ordered]. rewrite insert_ordered_seed by done.
  cbn -[mapR insert_ordered]. rewrite Hdfs. cbn -[insert_ordered].
  by rewrite insert_ordered_seed.
Qed.

(** [data.reviews || data] falls back to the whole value when the field
    is falsy. *)
Lemma seed_records_fallback fs field :
  truthy (prop fs field) = false -> seed_records (JObj fs) field = [JObj fs].
Proof. intros Hf. unfold seed_records, js_or. simpl. by rewrite Hf. Qed.

(** When one of the loaded values is falsy (a file that could not be
    read or parsed is [null]), seeding is skipped and the store is left
    as it was: neither collection is emptied. *)
Theorem seed_skipped r d fs s :
  negb (truthy (Some r)) || negb (truthy (Some d)) = true ->
  run (seed r d) fs s = (Skipped, s).
Proof. intros H. unfold seed. by rewrite H. Qed.

(** C13: a seed file that cannot be read, or whose text starts with a
    UTF-8 byte-order mark (kept by [readFileSync], rejected by
    [JSON.parse]), loads as [null] whatever else it holds; seeding is
    then skipped, whichever of the two files it is, and the store is
    left as it was. *)
Theorem seed_skipped_file file raw v fs s :
  file = None \/ file = Some (with_bom raw) ->
  load_file file = Ok JNull /\
  run (seed JNull v) fs s = (Skipped, s) /\ run (seed v JNull) fs s = (Skipped, s).
Proof.
  intros Hf. split; [|split; apply seed_skipped; simpl; [done | apply orb_true_r]].
  destruct Hf as [->| ->]; [done|]. unfold load_file. by rewrite read_json_bom.
Qed.

(** C11: with both values loaded, records that cast, no two records of
    a file given the same [_id], and a working store, seeding replaces
    the two collections by the seed records. *)
Theorem seed_ok r d rfs dfs s :
  truthy (Some r) = true -> truthy (Some d) = true ->
  mapR (cast_doc review_schema) (seed_records r "reviews") = Ok rfs ->
  mapR (cast_doc dealership_schema) (seed_records d "dealerships") = Ok dfs ->
  distinct_ids rfs -> distinct_ids dfs ->
  run (seed r d) [] s = (Seeded, seeded_db rfs dfs s).
Proof. apply run_seed_ok. Qed.

(** C12: seeding is not atomic: when a dealership record fails to
    cast (Mongoose's [CastError], raised before [insertMany] inserts
    anything), the last step is rejected: the reviews are already
    replaced and the dealerships collection stays empty.  (A rejection
    for a repeated [_id] keeps the records before it: C7.) *)
Theorem seed_dealers_rejected r d rfs e s :
  truthy (Some r) = true -> truthy (Some d) = true ->
  mapR (cast_doc review_schema) (seed_records r "reviews") = Ok rfs ->
  mapR (cast_doc dealership_schema) (seed_records d "dealerships") = Err e ->
  distinct_ids rfs ->
  run (seed r d) [] s =
    (SeedError e, mkDb (number_docs (next_oid s) rfs) []
                       (next_oid s + N.of_nat (List.length rfs))%N).
Proof.
  intros Hr Hd Hrfs He Hri. seed_steps. rewrite Hr, Hd. cbn -[mapR insert_ordered].
  rewrite Hrfs. cbn -[mapR insert_ordered]. rewrite insert_ordered_seed by done.
  cbn -[mapR insert_ordered]. by rewrite He.
Qed.

(** A reviews file that is an object without a truthy [reviews]
    field (a wrapper under another name, or [{"reviews": null}]) is
    itself inserted as the one review: strict casting drops its fields,
    and seeding stores a single empty review in place of the records. *)
Theorem seed_wrapper_empty_review fs d dfs s :
  truthy (prop fs "reviews") = false -> Forall (fun kv => kv.1 ∉ review_schema.*1) fs ->
  truthy (Some d) = true ->
  mapR (cast_doc dealership_schema) (seed_records d "dealerships") = Ok dfs -> distinct_ids dfs ->
  run (seed (JObj fs) d) [] s = (Seeded, seeded_db [[]] dfs s).
Proof.
  intros Hf Hk Hd Hdfs Hdi. apply run_seed_ok; [done|done| |done|by apply NoDup_nil|done].
  rewrite seed_records_fallback by done. cbn [mapR]. unfold cast_doc. cbn [doc_props].
  by rewrite cast_fields_absent.
Qed.

(** C37: seeding is not atomic and nothing is rolled back (spec section
    4.2): when the [i]-th awaited step is the first the store rejects,
    the seeder logs the error and the store keeps exactly the effects of
    the steps before it; a failed connection deletes nothing. *)
Theorem seed_fault_at i r d rfs s :
  i <= 4 -> truthy (Some r) = true -> truthy (Some d) = true ->
  mapR (cast_doc review_schema) (seed_records r "reviews") = Ok rfs -> distinct_ids rfs ->
  run (seed r d) (replicate i false ++ [true]) s = (SeedError StoreFault, seed_fault_db i rfs s).
Proof.
  intros Hi Hr Hd Hrfs Hri.
  destruct i as [|[|[|[|[|i]]]]]; [..|lia]; seed_steps; rewrite Hr, Hd; cbn -[mapR insert_ordered];
    rewrite ?Hrfs; cbn -[mapR insert_ordered]; rewrite ?insert_ordered_seed by done; done.
Qed.

(** A reviews file in which a record is given an [_id] an earlier one
    has: the ordered insertion keeps the records before it, refuses it
    and the rest, and seeding ends there, the dealerships deleted and
    not reinserted. *)
Lemma seed_duplicate_ids r d rfs ins s :
  truthy (Some r) = true -> truthy (Some d) = true ->
  mapR (cast_doc review_schema) (seed_records r "reviews") = Ok rfs ->
  insert_ordered [] (number_docs (next_oid s) rfs) = (ins, true) ->
  run (seed r d) [] s =
    (SeedError DuplicateKey, mkDb ins [] (next_oid s + N.of_nat (List.length rfs))%N).
Proof.
  intros Hr Hd Hrfs Hins. seed_steps. rewrite Hr, Hd. cbn -[mapR insert_ordered].
  rewrite Hrfs. cbn -[mapR insert_ordered]. by rewrite Hins.
Qed.

(** C7: the review records hold [pre], with distinct [_id]s, then a record
    given an [_id] one of [pre] has: [Reviews.insertMany] (ordered)
    stores [pre], is rejected with the duplicate key, and seeding ends
    there: the dealerships, deleted, are not reinserted. *)
Theorem seed_duplicate_id r d pre fs post v s :
  truthy (Some r) = true -> truthy (Some d) = true ->
  mapR (cast_doc review_schema) (seed_records r "reviews") = Ok (pre ++ fs :: post) ->
  distinct_ids pre -> prop fs "_id" = Some v -> v ∈ omap (fun g => prop g "_id") pre ->
  run (seed r d) [] s =
    (SeedError DuplicateKey,
     mkDb (number_docs (next_oid s) pre) []
          (next_oid s + N.of_nat (List.length (pre ++ fs :: post)))%N).
Proof.
  intros Hr Hd Hrfs Hpre Hv Hin. apply seed_duplicate_ids; [done..|].
  rewrite number_docs_app. cbn [number_docs].
  apply (insert_ordered_stop _ _ _ _ v); [by rewrite number_docs_ids | intros ? _; apply not_elem_of_nil | done |].
  by rewrite number_docs_ids.
Qed.

End Seeding.

(** ** Concrete instances *)

Lemma seed_skipped_witness :
  run (seed (load None) sample_dealers_file) [] sample_db = (Skipped, sample_db).
Proof. apply seed_skipped. reflexivity. Defined.

Lemma seed_skipped_file_witness :
  load_file (Some (with_bom (Json.json_stringify sample_reviews_file))) = Ok JNull /\
  run (seed JNull sample_dealers_file) [] sample_db = (Skipped, sample_db) /\
  run (seed sample_dealers_file JNull) [] sample_db = (Skipped, sample_db).
Proof.
  apply (seed_skipped_file _ (Json.json_stringify sample_reviews_file)). right. reflexivity.
Defined.

Lemma seed_ok_witness :
  run (seed sample_reviews_file sample_dealers_file) [] sample_db =
    (Seeded, mkDb [mkDoc 4 [("id", JNum 1); ("name", JStr "Berkly"); ("dealership", JNum 15)]]
                  [mkDoc 5 [("id", JNum 15); ("state", JStr "NY")]] 6).
Proof.
  apply (seed_ok sample_reviews_file sample_dealers_file
           [[("id", JNum 1); ("name", JStr "Berkly"); ("dealership", JNum 15)]]
           [[("id", JNum 15); ("state", JStr "NY")]]);
    first [reflexivity | unfold distinct_ids; by_computation].
Defined.

Lemma seed_dealers_rejected_witness :
  run (seed sample_reviews_file (JObj [("dealerships", JArr [JNum 15])])) [] sample_db =
    (SeedError ObjectParameterError,
     mkDb [mkDoc 4 [("id", JNum 1); ("name", JStr "Berkly"); ("dealership", JNum 15)]] [] 5).
Proof.
  apply (seed_dealers_rejected sample_reviews_file (JObj [("dealerships", JArr [JNum 15])])
           [[("id", JNum 1); ("name", JStr "Berkly"); ("dealership", JNum 15)]]);
    first [reflexivity | unfold distinct_ids; by_computation].
Defined.

Lemma seed_wrapper_empty_review_witness :
  run (seed (JObj [("items", JArr [JObj [("id", JNum 1); ("dealership", JNum 15)]])])
            sample_dealers_file) [] sample_db =
    (Seeded, mkDb [mkDoc 4 []] [mkDoc 5 [("id", JNum 15); ("state", JStr "NY")]] 6).
Proof.
  apply (seed_wrapper_empty_review [("items", JArr [JObj [("id", JNum 1); ("dealership", JNum 15)]])]
           sample_dealers_file [[("id", JNum 15); ("state", JStr "NY")]]);
    first [reflexivity | by_computation | unfold distinct_ids; by_computation].
Defined.

Lemma seed_fault_at_witness :
  run (seed sample_reviews_file sample_dealers_file) [false; false; true] sample_db =
    (SeedError StoreFault, mkDb [] (dealerships sample_db) 4).
Proof.
  apply (seed_fault_at 2 sample_reviews_file sample_dealers_file
           [[("id", JNum 1); ("name", JStr "Berkly"); ("dealership", JNum 15)]]);
    first [lia | reflexivity | unfold distinct_ids; by_computation].
Defined.

(** A reviews file whose second record repeats the [_id] of the first:
    the first review is stored, the seeding ends with the duplicate-key
    error, the dealerships stay deleted. *)
Lemma seed_duplicate_id_witness :
  run (seed (JArr [JObj [("_id", JStr "5f1d7a3b2c4e5f6a7b8c9d0e"); ("id", JNum 1)];
                   JObj [("_id", JStr "5f1d7a3b2c4e5f6a7b8c9d0e"); ("id", JNum 2)]])
            sample_dealers_file) [] sample_db =
    (SeedError DuplicateKey, mkDb [mkDoc 4 [("id", JNum 1); ("_id", JStr "5f1d7a3b2c4e5f6a7b8c9d0e")]] [] 6).
Proof.
  apply (seed_duplicate_id _ _ [[("id", JNum 1); ("_id", JStr "5f1d7a3b2c4e5f6a7b8c9d0e")]]
           [("id", JNum 2); ("_id", JStr "5f1d7a3b2c4e5f6a7b8c9d0e")] [] (JStr "5f1d7a3b2c4e5f6a7b8c9d0e"));
    first [reflexivity | unfold distinct_ids; by_computation | by_computation].
Defined.

End Seeder.
