(* ===== verification/Concurrency.v ===== *)
(** * Interleaving of the handlers and the seeder on the shared store

    Node runs every request handler and the startup seeding function
    concurrently on one event loop: each [await] yields, and the store
    operations of different functions interleave in any order, each
    operation being applied atomically by the store.  A configuration
    is the store with the list of running functions; [step] advances one
    function by one awaited command, which the store applies or rejects
    with a fault.  Reachability is stdpp's reflexive-transitive closure
    [rtc step].

    The theorems show that the sequential [run] is one interleaving,
    that two concurrent [POST /insert_review] can store two reviews with
    the same id (the read-then-write race of lines 125 to 128), that
    the same requests one after the other get consecutive ids, that a
    request served during seeding can see the emptied collections, and
    that every reachable store keeps its documents conforming to their
    schemas; [insert_then_fetch] is the insert-then-list property of
    spec section 8. *)

From stdpp Require Import base list strings relations sorting.
From Stdlib Require Import ZArith String.
From S2P Require Import Prelude JsNumber Double JsValue Schema Store Handlers Seeder.

Module Concurrency.
Import Js Schema Store Handlers Seeder.

Local Open Scope api_scope.

Section Interleaving.
Context {SO : Sorter} {A : Type}.

Record config := Cfg { cstore : db; threads : list (prog A) }.

Inductive step : config -> config -> Prop :=
| step_exec s ts i R (c : cmd R) k r s' :
    ts !! i = Some (Op c k) -> exec c s = (r, s') ->
    step (Cfg s ts) (Cfg s' (<[i := k r]> ts))
| step_fault s ts i R (c : cmd R) k :
    ts !! i = Some (Op c k) ->
    step (Cfg s ts) (Cfg s (<[i := k (Err StoreFault)]> ts)).

End Interleaving.
Arguments config : clear implicits.

(** Run a list of programs one after the other on a working store. *)
Fixpoint run_all {SO : Sorter} {A} (ps : list (prog A)) (s : db) : list A * db :=
  match ps with
  | [] => ([], s)
  | p :: ps' =>
      let '(a, s1) := run p [] s in
      let '(as_, s2) := run_all ps' s1 in (a :: as_, s2)
  end.

(** Tagging the results of a program, to run programs of two kinds in
    one configuration. *)
Definition prog_map {A B} (f : A -> B) (p : prog A) : prog B :=
  prog_bind (fun a => Ret (f a)) p.

(** ** Lemmas *)

Section Theorems.
Context {SO : Sorter} {SOL : SorterLaws SO}.

Lemma max_review_id_snoc s d n :
  sort_key "id" d = Some n -> (max_review_id s <= n)%Z ->
  default 0%Z (list_max_opt (map (sort_key "id") (reviews s ++ [d]))) = n.
Proof.
  unfold max_review_id. intros Hd Hle.
  rewrite map_app. autorewrite with api_rw. simpl. rewrite Hd.
  destruct (list_max_opt _); simpl in *; f_equal; lia.
Qed.

(** The save of a review built from the id a request computed on an
    earlier state [s0], applied to the current state [s]. *)
Lemma exec_save_review s0 s gs fs :
  Forall (fun d => id_ok d = true) (reviews s0) -> NoDup gs.*1 ->
  prop gs "id" = None -> prop gs "_id" = None -> cast_doc review_schema (JObj gs) = Ok fs ->
  exec (Save Reviews (review_literal (new_id_of (sort_by "id" (reviews s0))) (Some (JObj gs)))) s =
    (Ok (mkDoc (next_oid s) (("id", JNum (Double.js_succ (max_review_id s0))) :: fs)),
     mkDb (reviews s ++ [mkDoc (next_oid s) (("id", JNum (Double.js_succ (max_review_id s0))) :: fs)])
          (dealerships s) (next_oid s + 1)).
Proof.
  intros Hok Hnd Hid Hg Hcast. rewrite new_id_of_sort_by by done.
  cbn [exec]. rewrite cast_review_literal, Hid, Hcast by done. cbn -[dup_key].
  rewrite dup_key_fresh; [done|]. unfold given_id. simpl. by eapply cast_doc_absent_key.
Qed.

Lemma number_docs_id_ok n vs fss :
  mapR (cast_doc review_schema) vs = Ok fss ->
  Forall (fun d => id_ok d = true) (number_docs n fss).
Proof.
  intros H%mapR_Ok_iff. revert n.
  induction H as [|v fs vs fss Hv _ IH]; intros n; simpl; [constructor|].
  constructor; [by eapply cast_review_id_ok | apply IH].
Qed.

(** Every command the store accepts keeps the review ids well typed. *)
Lemma exec_id_ok {R} (c : cmd R) s r s' :
  exec c s = (r, s') ->
  Forall (fun d => id_ok d = true) (reviews s) ->
  Forall (fun d => id_ok d = true) (reviews s').
Proof.
  destruct c as [|c f|c k|c f|c|c vs|c v]; cbn [exec];
    try (intros [= _ <-]; done).
  - destruct c; intros [= _ <-]; simpl; [constructor | done].
  - destruct (mapR _ vs) as [fss|] eqn:Hm; [|intros [= _ <-]; done].
    destruct (insert_ordered _ _) as [ins e] eqn:Hi.
    destruct (insert_ordered_prefix _ _ _ _ Hi) as [rest Hds].
    destruct c; intros [= _ <-]; simpl; [|done].
    intros Hok. apply Forall_app; split; [done|].
    pose proof (number_docs_id_ok (next_oid s) vs fss Hm) as Hall. rewrite Hds in Hall.
    by apply Forall_app in Hall as [? _].
  - destruct (cast_doc _ v) as [fs|] eqn:Hc; [|intros [= _ <-]; done].
    destruct (dup_key _ _); [intros [= _ <-]; done|].
    destruct c; intros [= _ <-]; simpl; [|done].
    intros Hok. apply Forall_app; split; [done|]. constructor; [|constructor].
    by eapply cast_review_id_ok.
Qed.

(** The sequential execution of a program is one interleaving of the
    concurrent semantics. *)
Theorem run_is_interleaving {A} (p : prog A) s :
  rtc step (Cfg s [p]) (Cfg (run p [] s).2 [Ret (run p [] s).1]).
Proof.
  revert s; induction p as [a|R c k IH]; intros s; [apply rtc_refl|].
  cbn [run step_cmd default head tail].
  destruct (exec c s) as [r s'] eqn:He.
  eapply rtc_l; [eapply (step_exec s [Op c k] 0); [done | exact He] |]. apply IH.
Qed.

(** C3: two concurrent [POST /insert_review] requests can both read the
    reviews before either saves; both then store a review with the id
    [max + 1] (as a double): the ids are not unique. *)
Theorem concurrent_inserts_duplicate_id s gs1 gs2 fs1 fs2 :
  Forall (fun d => id_ok d = true) (reviews s) ->
  NoDup gs1.*1 -> NoDup gs2.*1 -> prop gs1 "id" = None -> prop gs2 "id" = None ->
  prop gs1 "_id" = None -> prop gs2 "_id" = None ->
  cast_doc review_schema (JObj gs1) = Ok fs1 -> cast_doc review_schema (JObj gs2) = Ok fs2 ->
  exists s' r1 r2,
    rtc step (Cfg s [insert_review (Some (JObj gs1)); insert_review (Some (JObj gs2))])
             (Cfg s' [Ret r1; Ret r2]) /\
    reviews s' = reviews s ++
      [mkDoc (next_oid s) (("id", JNum (Double.js_succ (max_review_id s))) :: fs1);
       mkDoc (next_oid s + 1) (("id", JNum (Double.js_succ (max_review_id s))) :: fs2)].
Proof.
  intros Hok Hnd1 Hnd2 Hid1 Hid2 Hg1 Hg2 Hc1 Hc2. do 3 eexists. split.
  - eapply rtc_l; [eapply (step_exec _ _ 0); [reflexivity | reflexivity]|].
    eapply rtc_l; [eapply (step_exec _ _ 1); [reflexivity | reflexivity]|].
    eapply rtc_l; [eapply (step_exec _ _ 0); [reflexivity | by apply exec_save_review]|].
    eapply rtc_l; [eapply (step_exec _ _ 1); [reflexivity | by apply exec_save_review]|].
    apply rtc_refl.
  - simpl. by rewrite <-app_assoc.
Qed.

(** C6: the same requests served one after the other store their
    reviews with the consecutive ids [max + 1], ..., [max + n], as long
    as these are safe integers. *)
Theorem sequential_inserts_consecutive_ids bodies s :
  Forall (fun d => id_ok d = true) (reviews s) ->
  (- 2 ^ 53 < max_review_id s /\ max_review_id s + Z.of_nat (List.length bodies) <= 2 ^ 53)%Z ->
  Forall (fun gs => NoDup gs.*1 /\ prop gs "id" = None /\ prop gs "_id" = None /\
                    exists fs, cast_doc review_schema (JObj gs) = Ok fs) bodies ->
  exists ds,
    reviews (run_all (map (fun gs => insert_review (Some (JObj gs))) bodies) s).2 =
      reviews s ++ ds /\
    map (fun d => doc_get d "id") ds =
      map (fun i => Some (JNum (max_review_id s + Z.of_nat i))) (seq 1 (List.length bodies)).
Proof.
  revert s; induction bodies as [|gs bodies IH]; intros s Hok Hbnd Hb.
  - exists []. by rewrite app_nil_r.
  - apply Forall_cons in Hb as [(Hnd & Hid & Hg & fs & Hc) Hb]. cbn [List.length] in Hbnd.
    assert (Hsafe : safe_max s) by (unfold safe_max; lia).
    pose proof (run_insert_review_fresh gs fs s Hok Hsafe Hnd Hid Hg Hc) as Hrun. cbv zeta in Hrun.
    cbn [map run_all]. rewrite Hrun.
    set (d := mkDoc (next_oid s) (("id", JNum (max_review_id s + 1)) :: fs)).
    set (s1 := mkDb (reviews s ++ [d]) (dealerships s) (next_oid s + 1)).
    assert (Hok1 : Forall (fun d => id_ok d = true) (reviews s1)).
    { apply Forall_app; split; [done | by repeat constructor]. }
    assert (Hmax : max_review_id s1 = (max_review_id s + 1)%Z).
    { apply max_review_id_snoc; [done | lia]. }
    destruct (IH s1 Hok1 ltac:(lia) Hb) as (ds & Hds & Hids).
    destruct (run_all _ s1) as [rs s2]. simpl in Hds |- *.
    exists (d :: ds). split; [by rewrite Hds, <-app_assoc|].
    cbn [map seq]. rewrite Hids, Hmax, <-(seq_shift _ 1), map_map.
    apply f_equal2; [unfold d, doc_get; cbn; do 2 f_equal; lia|].
    apply map_ext. intros i. do 2 f_equal. lia.
Qed.

(** C14: the startup seeding and the request handlers are not ordered:
    a [GET /fetchDealers] served between the emptying of the collections
    and the insertion of the seed records answers an empty list. *)
Theorem seeding_race_empty_read s r d :
  truthy (Some r) = true -> truthy (Some d) = true ->
  exists cfg,
    rtc step (Cfg s [prog_map inl (seed r d); prog_map inr fetchDealers]) cfg /\
    threads cfg !! 1 = Some (Ret (inr (json200 (JArr [])))).
Proof.
  intros Hr Hd. unfold seed. rewrite Hr, Hd. cbn [negb orb]. eexists. split.
  - eapply rtc_l; [eapply (step_exec _ _ 0); [reflexivity | reflexivity]|].
    eapply rtc_l; [eapply (step_exec _ _ 0); [reflexivity | reflexivity]|].
    eapply rtc_l; [eapply (step_exec _ _ 0); [reflexivity | reflexivity]|].
    eapply rtc_l; [eapply (step_exec _ _ 1); [reflexivity | reflexivity]|].
    apply rtc_refl.
  - reflexivity.
Qed.

(** In every interleaving of handlers and seeding, every stored
    review has a numeric, [null] or absent [id]: the hypothesis of the
    id-allocation theorems holds in every reachable state. *)
Theorem reviews_id_ok_invariant {A} (cfg cfg' : config A) :
  rtc step cfg cfg' ->
  Forall (fun d => id_ok d = true) (reviews (cstore cfg)) ->
  Forall (fun d => id_ok d = true) (reviews (cstore cfg')).
Proof.
  induction 1 as [|x y z Hs _ IH]; [done|]. intros Hok. apply IH.
  destruct Hs as [s ts i R c k r s' _ He|s ts i R c k _]; simpl in *; [|done].
  by eapply exec_id_ok.
Qed.

(** In every interleaving of handlers and seeding, every stored
    document conforms to its collection's schema: only schema paths, each
    once, holding [null] or a value of the path's type (a [Number] path a
    number, [state] a string, [purchase] a boolean). *)
Theorem db_typed_invariant {A} (cfg cfg' : config A) :
  rtc step cfg cfg' -> db_typed (cstore cfg) -> db_typed (cstore cfg').
Proof.
  induction 1 as [|x y z Hs _ IH]; [done|]. intros Hok. apply IH.
  destruct Hs as [s ts i R c k r s' _ He|s ts i R c k _]; simpl in *; [|done].
  by eapply exec_typed.
Qed.

(** C29: the testable property of spec section 8: after a
    [POST /insert_review] of a valid body without [id] or [_id], a following
    [GET /fetchReviews] lists the earlier reviews and the new one, whose
    id is the previous maximum plus one. *)
Theorem insert_then_fetch gs fs s :
  Forall (fun d => id_ok d = true) (reviews s) -> safe_max s -> NoDup gs.*1 ->
  prop gs "id" = None -> prop gs "_id" = None -> cast_doc review_schema (JObj gs) = Ok fs ->
  exists d,
    (run_all [insert_review (Some (JObj gs)); fetchReviews] s).1 =
      [json200 (doc_json d); json200 (JArr (map doc_json (reviews s ++ [d])))] /\
    doc_get d "id" = Some (JNum (max_review_id s + 1)).
Proof.
  intros Hok Hsafe Hnd Hid Hg Hc. pose proof (run_insert_review_fresh gs fs s Hok Hsafe Hnd Hid Hg Hc) as Hrun.
  cbv zeta in Hrun. eexists. split.
  - cbn [run_all]. rewrite Hrun. unfold fetchReviews, await. cbn [run step_cmd default head exec].
    by rewrite (find_docs_all Reviews).
  - reflexivity.
Qed.

End Theorems.

(** ** Concrete instances *)

Lemma concurrent_inserts_duplicate_id_witness :
  exists s' r1 r2,
    rtc step (Cfg sample_db [insert_review (Some (JObj [("dealership", JNum 1)]));
                             insert_review (Some (JObj [("dealership", JNum 2)]))])
             (Cfg s' [Ret r1; Ret r2]) /\
    reviews s' = reviews sample_db ++
      [mkDoc 4 [("id", JNum 8); ("dealership", JNum 1)];
       mkDoc 5 [("id", JNum 8); ("dealership", JNum 2)]].
Proof.
  apply (concurrent_inserts_duplicate_id sample_db [("dealership", JNum 1)]
           [("dealership", JNum 2)] [("dealership", JNum 1)] [("dealership", JNum 2)]);
    (by_computation || reflexivity).
Defined.

Lemma sequential_inserts_consecutive_ids_witness :
  exists ds,
    reviews (run_all (map (fun gs => insert_review (Some (JObj gs)))
                          [[("dealership", JNum 1)]; [("dealership", JNum 2)]]) sample_db).2 =
      reviews sample_db ++ ds /\
    map (fun d => doc_get d "id") ds = [Some (JNum 8); Some (JNum 9)].
Proof.
  apply (sequential_inserts_consecutive_ids [[("dealership", JNum 1)]; [("dealership", JNum 2)]]
           sample_db); [by_computation | by_computation |].
  repeat constructor; try by_computation; eexists; reflexivity.
Defined.

Lemma seeding_race_empty_read_witness :
  exists cfg,
    rtc step (Cfg sample_db [prog_map inl (seed sample_reviews_file sample_dealers_file);
                             prog_map inr fetchDealers]) cfg /\
    threads cfg !! 1 = Some (Ret (inr (json200 (JArr [])))).
Proof. apply seeding_race_empty_read; reflexivity. Defined.

Lemma reviews_id_ok_invariant_witness :
  Forall (fun d => id_ok d = true)
    (reviews sample_db ++ [mkDoc 4 [("name", JStr "A"); ("dealership", JNum 1); ("rating", JNum 5)]]).
Proof.
  apply (reviews_id_ok_invariant
           (Cfg sample_db [Op (Save Reviews scenario_body) (fun _ => Ret tt)])
           (Cfg (mkDb (reviews sample_db ++
                         [mkDoc 4 [("name", JStr "A"); ("dealership", JNum 1); ("rating", JNum 5)]])
                      (dealerships sample_db) 5) [Ret tt])).
  - eapply rtc_l; [eapply (step_exec _ _ 0); reflexivity | apply rtc_refl].
  - by_computation.
Defined.

Lemma db_typed_invariant_witness :
  db_typed (mkDb (reviews sample_db ++
                    [mkDoc 4 [("name", JStr "A"); ("dealership", JNum 1); ("rating", JNum 5)]])
                 (dealerships sample_db) 5).
Proof.
  apply (db_typed_invariant
           (Cfg sample_db [Op (Save Reviews scenario_body) (fun _ => Ret tt)])
           (Cfg (mkDb (reviews sample_db ++
                         [mkDoc 4 [("name", JStr "A"); ("dealership", JNum 1); ("rating", JNum 5)]])
                      (dealerships sample_db) 5) [Ret tt])).
  - eapply rtc_l; [eapply (step_exec _ _ 0); reflexivity | apply rtc_refl].
  - unfold db_typed. by_computation.
Defined.

Lemma insert_then_fetch_witness :
  exists d,
    (run_all [insert_review (Some scenario_body); fetchReviews] sample_db).1 =
      [json200 (doc_json d); json200 (JArr (map doc_json (reviews sample_db ++ [d])))] /\
    doc_get d "id" = Some (JNum 8).
Proof.
  apply (insert_then_fetch [("dealership", JNum 1); ("name", JStr "A"); ("rating", JNum 5)]
           [("name", JStr "A"); ("dealership", JNum 1); ("rating", JNum 5)] sample_db);
    (by_computation || reflexivity).
Defined.

End Concurrency.
