(* ===== verification/Liveness.v ===== *)
(** * Every interleaving of the requests and the seeding terminates

    The functions Node runs concurrently ([Concurrency.step]) each await
    a bounded number of store operations: a route handler at most two
    ([insert_review]: the query, then the save), [dispatch] no more than
    the handler it runs, the startup seeding five (the connection, two
    deletions, two insertions).  [bounded n p] says that [p] awaits at
    most [n] commands on every path.  Each step of the interleaving
    semantics advances one function by one command, so the sum of the
    bounds decreases: every execution is finite, whatever the order in
    which the event loop resumes the functions, and a configuration in
    which no step applies is one where every function has returned
    (an awaited command can always be applied or rejected).  Hence every
    request is answered. *)

From stdpp Require Import base list strings relations.
From Stdlib Require Import ZArith String.
From S2P Require Import Prelude JsNumber JsValue Schema Store Handlers Router Seeder Concurrency.

Module Liveness.
Import Js Schema Store Handlers Router Seeder Concurrency.

(** A program that awaits at most [n] commands on every path. *)
Fixpoint bounded {A} (n : nat) (p : prog A) {struct p} : Prop :=
  match p with
  | Ret _ => True
  | Op c k => match n with O => False | S n' => forall r, bounded n' (k r) end
  end.

(** A function that has returned. *)
Definition finished {A} (p : prog A) : bool :=
  match p with Ret _ => true | Op _ _ => false end.

(** ** Bounds of the programs *)

Lemma bounded_ret {A} n (a : A) : bounded n (Ret a).
Proof. exact I. Qed.

Lemma bounded_mono {A} n m (p : prog A) : n <= m -> bounded n p -> bounded m p.
Proof.
  revert n m. induction p as [a|R c k IH]; intros n m Hle Hb; [done|].
  destruct n as [|n]; [done|]. destruct m as [|m]; [lia|].
  intros r. apply (IH r n); [lia | apply Hb].
Qed.

Lemma await_bounded {A R} n (c : cmd R) (k : R -> prog A) h :
  (forall v, bounded n (k v)) -> (forall e, bounded n (h e)) -> bounded (S n) (await c k h).
Proof. intros Hk Hh [v|e]; auto. Qed.

Lemma bind_bounded {A B} n m (f : A -> prog B) p :
  bounded n p -> (forall a, bounded m (f a)) -> bounded (n + m) (prog_bind f p).
Proof.
  revert n. induction p as [a|R c k IH]; intros n Hb Hf; simpl.
  - apply (bounded_mono m); [lia | apply Hf].
  - destruct n as [|n]; [done|]. intros r. apply IH; [apply Hb | done].
Qed.

Lemma map_bounded {A B} n (f : A -> B) p : bounded n p -> bounded n (prog_map f p).
Proof.
  intros Hb. rewrite <-(Nat.add_0_r n). apply bind_bounded; [done|]. intros a. apply bounded_ret.
Qed.

Create HintDb bounded.
#[export] Hint Resolve bounded_ret await_bounded : bounded.

(** Solve [bounded n p] for a program built from [await]s. *)
Ltac solve_bounded :=
  repeat first
    [ progress intros
    | apply bounded_ret
    | apply await_bounded
    | progress case_match
    | apply (bounded_mono 0); [lia|] ].

Lemma route_handler_bounded r ps data : bounded 2 (route_handler r ps data).
Proof.
  destruct r; unfold route_handler, root, fetchReviews, fetchReviewsByDealer, fetchDealers,
    fetchDealersByState, fetchDealer, insert_review; solve_bounded.
Qed.

Lemma dispatch_bounded req : bounded 2 (dispatch req).
Proof.
  unfold dispatch. repeat case_match; try apply bounded_ret;
    try apply route_handler_bounded.
  rewrite <-(Nat.add_0_r 2). apply bind_bounded; [apply route_handler_bounded|]. intros ?. apply bounded_ret.
Qed.

Lemma seed_bounded r d : bounded 5 (seed r d).
Proof. unfold seed. case_match; solve_bounded. Qed.

(** ** The interleaving semantics decreases the bounds *)

Section Steps.
Context {SO : Sorter} {A : Type}.

Lemma sum_list_insert (ns : list nat) i n m :
  ns !! i = Some n -> sum_list (<[i := m]> ns) + n = sum_list ns + m.
Proof.
  revert i. induction ns as [|x ns IH]; intros [|i] Hi; simplify_eq/=; [lia|].
  specialize (IH i Hi). lia.
Qed.

Lemma step_bounded ns (cfg cfg' : config A) :
  Forall2 bounded ns (threads cfg) -> step cfg cfg' ->
  exists ns', Forall2 bounded ns' (threads cfg') /\ S (sum_list ns') = sum_list ns.
Proof.
  intros Hb Hs.
  destruct Hs as [s ts i R c k r s' Hi _|s ts i R c k Hi]; simpl in *;
    destruct (Forall2_lookup_r _ _ _ _ _ Hb Hi) as ([|n'] & Hn & Hbn); try done;
    exists (<[i := n']> ns); (split; [apply Forall2_insert; [done | apply Hbn] |]);
    pose proof (sum_list_insert ns i (S n') n' Hn); lia.
Qed.

(** Every execution from a configuration of bounded functions has at
    most the sum of the bounds as its number of steps. *)
Lemma nsteps_bounded ns m (cfg cfg' : config A) :
  Forall2 bounded ns (threads cfg) -> nsteps step m cfg cfg' -> m <= sum_list ns.
Proof.
  intros Hb Hn. revert ns Hb. induction Hn as [cfg|m cfg1 cfg2 cfg3 Hs _ IH]; intros ns Hb; [lia|].
  destruct (step_bounded ns cfg1 cfg2 Hb Hs) as (ns' & Hb' & Hsum).
  specialize (IH ns' Hb'). lia.
Qed.

(** A configuration where no step applies has every function returned:
    a pending command can always be rejected. *)
Lemma nf_finished (cfg : config A) :
  nf step cfg -> Forall (fun p => finished p = true) (threads cfg).
Proof.
  intros Hnf. apply Forall_lookup. intros i p Hi.
  destruct p as [a|R c k]; [done|]. exfalso. apply Hnf. destruct cfg as [s ts].
  eexists. by apply (step_fault s ts i R c k).
Qed.

(** Strong normalisation: no infinite execution. *)
Lemma bounded_sn ns (cfg : config A) : Forall2 bounded ns (threads cfg) -> sn step cfg.
Proof.
  remember (sum_list ns) as m eqn:Hm. revert ns cfg Hm.
  induction m as [m IH] using lt_wf_ind. intros ns cfg -> Hb.
  constructor. intros cfg' Hs. destruct (step_bounded ns cfg cfg' Hb Hs) as (ns' & Hb' & Hsum).
  apply (IH (sum_list ns') ltac:(lia) ns'); done.
Qed.

Lemma rtc_step_length (cfg cfg' : config A) :
  rtc step cfg cfg' -> List.length (threads cfg') = List.length (threads cfg).
Proof.
  induction 1 as [|x y z Hs _ IH]; [done|]. rewrite IH.
  destruct Hs; simpl; apply length_insert.
Qed.

End Steps.

(** The startup seeding beside requests dispatched by the router. *)
Definition startup_config {SO : Sorter} (s : db) (r d : jval) (reqs : list request)
    : config (outcome + response) :=
  Cfg s (prog_map inl (seed r d) :: map (fun q => prog_map inr (dispatch q)) reqs).

Lemma startup_config_bounded {SO : Sorter} s r d reqs :
  Forall2 bounded (5 :: replicate (List.length reqs) 2) (threads (startup_config s r d reqs)).
Proof.
  constructor; [by apply map_bounded, seed_bounded|].
  induction reqs as [|q reqs IH]; constructor; [by apply map_bounded, dispatch_bounded | done].
Qed.

Lemma sum_list_startup n : sum_list (5 :: replicate n 2) = 5 + 2 * n.
Proof. induction n as [|n IH]; simpl in *; lia. Qed.

Section Properties.
Context {SO : Sorter}.

(** Every request is answered and the seeding ends, whatever the
    order in which the event loop interleaves them: from the startup
    seeding running beside any requests dispatched by the router there
    is no infinite execution, every execution takes at most
    [5 + 2 * (number of requests)] store steps, and an execution that
    cannot be extended has every function returned: each request has
    its response. *)
Theorem requests_answered s r d reqs :
  sn step (startup_config s r d reqs) /\
  (forall m cfg', nsteps step m (startup_config s r d reqs) cfg' -> m <= 5 + 2 * List.length reqs) /\
  (forall cfg', rtc step (startup_config s r d reqs) cfg' -> nf step cfg' ->
     Forall (fun p => finished p = true) (threads cfg') /\ List.length (threads cfg') = S (List.length reqs)).
Proof.
  pose proof (startup_config_bounded s r d reqs) as Hb. split; [|split].
  - by eapply bounded_sn.
  - intros m cfg' Hn. rewrite <-sum_list_startup. by eapply nsteps_bounded.
  - intros cfg' Hr Hnf. split; [by apply nf_finished|].
    rewrite (rtc_step_length _ _ Hr). simpl. by rewrite length_map.
Qed.

End Properties.

(** ** Concrete instances *)

Lemma requests_answered_witness :
  sn step (startup_config sample_db sample_reviews_file sample_dealers_file
             [mkReq GET "/fetchDealers" NoBody; mkReq POST "/insert_review" NoBody]).
Proof.
  apply (proj1 (requests_answered sample_db sample_reviews_file sample_dealers_file
                  [mkReq GET "/fetchDealers" NoBody; mkReq POST "/insert_review" NoBody])).
Defined.

End Liveness.
