(* ===== verification/Startup.v ===== *)
(** * The life of the server process: startup, store connection, listener

    Running [src/app.js] first executes its top level synchronously
    ([module_top], then [boot]): it names the two seed files with
    [path.join(__dirname, ..)] (lines 15 and 16), reads and parses them
    (lines 18 to 31, logging a file that does not load), calls [mongoose.connect(mongoUri)] (line
    35), registers the connection's [connected] and [error] listeners
    (lines 40 to 46), starts the seeding function (lines 51 to 69),
    which runs until its first [await] or returns at once when a file
    did not load, registers the routes and calls [app.listen(port)]
    (line 135).  Everything else happens later, as events of the event
    loop ([sys_step]):
    - the connection opens or fails, once; the listener logs it;
    - the listener is bound and logs [Server running on http://localhost:<port>];
    - a request arrives (only once the server listens) and [dispatch]
      starts serving it;
    - a running function (the seeding or a request) advances by one
      awaited store command.  Mongoose buffers the commands issued while
      the connection is pending ([asPromise()] waits as well); once the
      connection is open they run as in [Concurrency.step], and once it
      has failed they are rejected.  A buffered command may also be
      rejected while it waits ([bufferTimeoutMS]: the model has no
      clock, so the timeout may happen at any point).  The seeding logs
      its outcome when it returns;
    - an open connection is lost ([disconnected], which the code does
      not listen to) and the driver reconnects by itself, when Mongoose
      emits [connected] again and line 41 logs it again; meanwhile the
      commands are buffered again and [asPromise()] resolves at once.
    The state [sys] is the configuration of [Concurrency] (thread 0 is
    the seeding, thread [i + 1] the [i]-th request), the state of
    [mongoose.connection], whether the server listens, the requests
    accepted, and the console output [log], in order.

    The theorems show, for every order of the events: the store is
    untouched until the connection has opened once, and requests arrive
    only once the server listens ([startup_store_untouched]); the log
    reports the seeding's success only after the connection
    ([seeding_after_connection]); a request answered before the
    connection opened got the answer of a store that rejects every
    command ([early_requests_rejected]); and, from a normalized
    [__dirname], the files read are that directory's [reviews.json] and
    [dealerships.json] ([module_top_seed_files]). *)

From stdpp Require Import base list strings relations gmap.
From Stdlib Require Import ZArith String.
From S2P Require Import Prelude NodePath JsNumber JsValue Json Config Schema Store Handlers Router Seeder Concurrency Liveness.

Module Startup.
Import Js NodePath Config Schema Store Handlers Router Seeder Concurrency Liveness.

(** [mongoose.connection.readyState], as far as the code observes it:
    the initial connection is pending, open, lost after it opened (the
    driver reconnects by itself), or failed (the initial connection is
    not retried). *)
Inductive conn_state := Connecting | Connected | Disconnected | Failed.

(** Whether the connection has opened once. *)
Definition opened (k : conn_state) : bool :=
  match k with Connected | Disconnected => true | Connecting | Failed => false end.

(** The commands Mongoose buffers while the connection is not open:
    every model operation; [asPromise()] instead waits for the initial
    connection only. *)
Definition buffered {R} (c : cmd R) : bool :=
  match c with Connect => false | _ => true end.

#[export] Instance conn_state_eq_dec : EqDecision conn_state.
Proof. solve_decision. Defined.

(** A line of the console output. *)
Inductive log_line :=
| LogReadError (file : string)   (** lines 24 and 30: [Could not read <file>] *)
| LogConnected (uri : string)    (** line 41: [MongoDB connected successfully: <uri>] *)
| LogConnectionError             (** line 45: [MongoDB connection error] *)
| LogSkipSeeding                 (** line 53 *)
| LogSeeded                      (** line 65: [Database seeded successfully] *)
| LogSeedError (e : error)       (** line 67: [Error seeding database] *)
| LogListening (url : string).   (** line 136: [Server running on <url>] *)

#[export] Instance log_line_eq_dec : EqDecision log_line.
Proof. solve_decision. Defined.

(** What the seeding function logs when it returns. *)
Definition outcome_log (o : outcome) : log_line :=
  match o with
  | Skipped => LogSkipSeeding
  | Seeded => LogSeeded
  | SeedError e => LogSeedError e
  end.

Record sys := mkSys {
  cfg : config (outcome + response);
  conn : conn_state;
  listening : bool;
  requests : list request;
  log : list log_line
}.

(** The store address [mongoose.connect] is given (lines 33 and 35). *)
Definition connect_uri (e : env) : string :=
  match mongoUri e with Some (JStr u) => u | _ => "" end.

(** The URL the listener callback prints (line 136), from [port]. *)
Definition listen_url (e : env) : string :=
  "http://localhost:" +:+ to_js_string (default JNull (port e)).

(** The log line of the seeding function when thread 0 has just
    returned. *)
Definition seed_log (before after : config (outcome + response)) : list log_line :=
  match threads before !! 0, threads after !! 0 with
  | Some (Op _ _), Some (Ret (inl o)) => [outcome_log o]
  | _, _ => []
  end.

(** The synchronous top level of the module, on the seed files' parsed
    contents ([None]: the file did not load) and the store as the
    process finds it. *)
Definition boot (rfile dfile : option jval) (s0 : db) : sys :=
  let p := seed (load rfile) (load dfile) in
  let read_errors :=
    (if rfile is None then [LogReadError "reviews.json"] else []) ++
    (if dfile is None then [LogReadError "dealerships.json"] else []) in
  let seed_now := match p with Ret o => [outcome_log o] | Op _ _ => [] end in
  mkSys (Cfg s0 [prog_map inl p]) Connecting false [] (read_errors ++ seed_now).

(** The file system the process finds: the contents of each file, by
    path; a path it lacks cannot be read. *)
Definition files := gmap string string.

(** Lines 15 to 31: the two seed paths built by [path.join], each file
    read and parsed in its own [try] block, reviews first; then the rest
    of the top level, [boot].  [Err]: a text [JSON.parse] reads outside
    the model of [Json]. *)
Definition module_top (fsys : files) (dirname : string) (s0 : db) : result Json.perr sys :=
  let reviewsJsonPath := NodePath.join [dirname; "reviews.json"] in
  let dealersJsonPath := NodePath.join [dirname; "dealerships.json"] in
  (reviews_data <-? read_json (fsys !! reviewsJsonPath) ;;
   dealerships_data <-? read_json (fsys !! dealersJsonPath) ;;
   Ok (boot reviews_data dealerships_data s0))%api.

Section Events.
Context {SO : Sorter} (e : env).

Inductive sys_step : sys -> sys -> Prop :=
| sys_connected c l b rs :
    sys_step (mkSys c Connecting l rs b) (mkSys c Connected l rs (b ++ [LogConnected (connect_uri e)]))
| sys_connection_error c l b rs :
    sys_step (mkSys c Connecting l rs b) (mkSys c Failed l rs (b ++ [LogConnectionError]))
| sys_listen c k b rs :
    sys_step (mkSys c k false rs b) (mkSys c k true rs (b ++ [LogListening (listen_url e)]))
| sys_request s ts k b rs q :
    sys_step (mkSys (Cfg s ts) k true rs b)
             (mkSys (Cfg s (ts ++ [prog_map inr (dispatch q)])) k true (rs ++ [q]) b)
| sys_run c c' l b rs :
    step c c' ->
    sys_step (mkSys c Connected l rs b) (mkSys c' Connected l rs (b ++ seed_log c c'))
| sys_reject s ts i R (c : cmd R) k l b rs :
    ts !! i = Some (Op c k) ->
    let c' := Cfg s (<[i := k (Err StoreFault)]> ts) in
    sys_step (mkSys (Cfg s ts) Failed l rs b) (mkSys c' Failed l rs (b ++ seed_log (Cfg s ts) c'))
| sys_disconnected c l b rs :
    sys_step (mkSys c Connected l rs b) (mkSys c Disconnected l rs b)
| sys_reconnected c l b rs :
    sys_step (mkSys c Disconnected l rs b) (mkSys c Connected l rs (b ++ [LogConnected (connect_uri e)]))
| sys_timeout s ts i R (c : cmd R) k kc l b rs :
    kc = Connecting \/ kc = Disconnected -> buffered c = true ->
    ts !! i = Some (Op c k) ->
    let c' := Cfg s (<[i := k (Err StoreFault)]> ts) in
    sys_step (mkSys (Cfg s ts) kc l rs b) (mkSys c' kc l rs (b ++ seed_log (Cfg s ts) c'))
| sys_ready s ts i k l b rs :
    ts !! i = Some (Op Connect k) ->
    let c' := Cfg s (<[i := k (Ok tt)]> ts) in
    sys_step (mkSys (Cfg s ts) Disconnected l rs b) (mkSys c' Disconnected l rs (b ++ seed_log (Cfg s ts) c')).

End Events.

(** ** Invariant of the process *)

Section Invariant.
Context {SO : Sorter} (e : env) (s0 : db).

(** The store is the one the process found as long as the connection
    has not opened, and requests exist only once the server listens. *)
Definition startup_inv (st : sys) : Prop :=
  (opened (conn st) = false -> cstore (cfg st) = s0) /\
  (requests st <> [] -> listening st = true).

Lemma sys_step_inv st st' : sys_step e st st' -> startup_inv st -> startup_inv st'.
Proof.
  unfold startup_inv. intros Hs [Hdb Hreq].
  destruct Hs; simpl in *; split; first [done | intros ?; by apply Hdb].
Qed.

Lemma rtc_sys_step_inv st st' : rtc (sys_step e) st st' -> startup_inv st -> startup_inv st'.
Proof. induction 1 as [|x y z Hs _ IH]; [done|]. intros H. apply IH. by eapply sys_step_inv. Qed.

Lemma boot_inv rfile dfile : startup_inv (boot rfile dfile s0).
Proof. split; done. Qed.

End Invariant.

(** ** The seeding reports success only after the connection *)

(** Thread 0 as the seeding function leaves it: every awaited command
    that is rejected ends the function with an error. *)
Fixpoint seed_shape (p : prog (outcome + response)) : Prop :=
  match p with
  | Ret _ => True
  | Op c k => (forall err, exists err', k (Err err) = Ret (inl (SeedError err'))) /\
              forall r, seed_shape (k r)
  end.

Lemma seed_shape_boot r d : seed_shape (prog_map inl (seed r d)).
Proof.
  unfold seed. case_match; [done|]. simpl.
  repeat (split; [intros err; eexists; reflexivity | intros [?|?]]); done.
Qed.

Section Ordering.
Context {SO : Sorter} (e : env).

(** [LogConnected] is in the log, before [LogSeeded] when that is. *)
Definition ordered_log (st : sys) : Prop :=
  (LogSeeded ∈ log st ->
     exists l1 l2, log st = l1 ++ LogConnected (connect_uri e) :: l2 /\ LogSeeded ∈ l2) /\
  (opened (conn st) = true -> LogConnected (connect_uri e) ∈ log st) /\
  (forall p, threads (cfg st) !! 0 = Some p -> seed_shape p) /\
  threads (cfg st) <> [].

Lemma ordered_log_app st l :
  ordered_log st -> LogSeeded ∉ l ->
  LogSeeded ∈ log st ++ l ->
  exists l1 l2, log st ++ l = l1 ++ LogConnected (connect_uri e) :: l2 /\ LogSeeded ∈ l2.
Proof.
  intros [Hs _] Hl [Hin|Hin]%elem_of_app; [|done].
  destruct (Hs Hin) as (l1 & l2 & -> & H2). exists l1, (l2 ++ l).
  rewrite <-app_assoc. split; [done|]. apply elem_of_app; by left.
Qed.

Lemma seed_log_reject s (ts : list (prog (outcome + response))) i R (c : cmd R) k :
  (forall p, ts !! 0 = Some p -> seed_shape p) -> ts !! i = Some (Op c k) ->
  LogSeeded ∉ seed_log (Cfg s ts) (Cfg s (<[i := k (Err StoreFault)]> ts)).
Proof.
  intros Hsh Hi. unfold seed_log. simpl. destruct i as [|i].
  - rewrite Hi, list_lookup_insert_eq by (by eapply lookup_lt_Some).
    destruct (proj1 (Hsh _ Hi) StoreFault) as [err' ->].
    simpl. intros ?%list_elem_of_singleton. discriminate.
  - rewrite list_lookup_insert_ne by done. destruct (ts !! 0) as [[|]|]; [| |set_solver..].
    + set_solver.
    + destruct (ts !! 0); set_solver.
Qed.

Lemma shape_insert (ts : list (prog (outcome + response))) i R (c : cmd R) k r :
  (forall p, ts !! 0 = Some p -> seed_shape p) -> ts !! i = Some (Op c k) ->
  forall p, <[i := k r]> ts !! 0 = Some p -> seed_shape p.
Proof.
  intros Hsh Hi p. destruct i as [|i].
  - rewrite list_lookup_insert_eq by (by eapply lookup_lt_Some). intros [= <-].
    apply (proj2 (Hsh _ Hi)).
  - rewrite list_lookup_insert_ne by done. apply Hsh.
Qed.

(** Once the connection has opened, whatever the log receives keeps
    [LogConnected] before [LogSeeded]. *)
Lemma ordered_log_connected st l :
  ordered_log st -> opened (conn st) = true ->
  LogSeeded ∈ log st ++ l ->
  exists l1 l2, log st ++ l = l1 ++ LogConnected (connect_uri e) :: l2 /\ LogSeeded ∈ l2.
Proof.
  intros [Hs [Hc _]] Hk Hin. apply elem_of_app in Hin as [Hin|Hin].
  - destruct (Hs Hin) as (l1 & l2 & Hb & H2). exists l1, (l2 ++ l).
    rewrite Hb, <-app_assoc. split; [done|]. apply elem_of_app; by left.
  - destruct (list_elem_of_split _ _ (Hc Hk)) as (l1 & l2 & Hb). exists l1, (l2 ++ l).
    rewrite Hb, <-app_assoc. split; [done|]. apply elem_of_app; by right.
Qed.

Lemma insert_threads_nonempty (ts : list (prog (outcome + response))) i p :
  ts <> [] -> <[i := p]> ts <> [].
Proof. by rewrite <-!length_zero_iff_nil, length_insert. Qed.

(** A function resumed without a store effect (a rejected or timed-out
    command, [asPromise()] after the connection opened once) keeps the
    log ordered, [LogSeeded] included when it is the seeding that
    returns. *)
Lemma resume_ordered s ts kc l b rs i R (c : cmd R) k r :
  ordered_log (mkSys (Cfg s ts) kc l rs b) -> ts !! i = Some (Op c k) ->
  (r = Err StoreFault \/ opened kc = true) ->
  ordered_log (mkSys (Cfg s (<[i := k r]> ts)) kc l rs (b ++ seed_log (Cfg s ts) (Cfg s (<[i := k r]> ts)))).
Proof.
  intros Ho Hi Hr. pose proof Ho as (Hs1 & Hc & Hsh & Hne). unfold ordered_log; simpl in *.
  split; [|split; [intros Hk; apply elem_of_app; left; by apply Hc|]].
  - destruct Hr as [->|Hk].
    + apply (ordered_log_app (mkSys (Cfg s ts) kc l rs b)); [done | by eapply seed_log_reject].
    + by apply (ordered_log_connected (mkSys (Cfg s ts) kc l rs b)).
  - split; [by eapply shape_insert | by apply insert_threads_nonempty].
Qed.

Lemma sys_step_ordered st st' : sys_step e st st' -> ordered_log st -> ordered_log st'.
Proof.
  intros Hs Ho. pose proof Ho as (Hs1 & Hc & Hsh & Hne).
  destruct Hs as [c l b rs|c l b rs|c k b rs|s ts k b rs q|c c' l b rs Hstep|s ts i R c k l b rs Hi
                 |c l b rs|c l b rs|s ts i R c k kc l b rs Hkc _ Hi|s ts i k l b rs Hi].
  - split; [apply (ordered_log_app (mkSys c Connecting l rs b)); set_solver|].
    split; [set_solver|done].
  - split; [apply (ordered_log_app (mkSys c Connecting l rs b)); set_solver|]. done.
  - split; [apply (ordered_log_app (mkSys c k false rs b)); set_solver|].
    split; [intros Hk; apply elem_of_app; left; by apply Hc | done].
  - split; [done|]. split; [done|]. split; [|destruct ts; done].
    intros p. simpl. rewrite lookup_app_l by (destruct ts; [done|simpl; lia]). apply Hsh.
  - split; [apply (ordered_log_connected (mkSys c Connected l rs b)); done|].
    split; [simpl; set_solver|].
    destruct Hstep as [s ts i R c k r s' Hi _|s ts i R c k Hi]; simpl in *;
      (split; [by eapply shape_insert | by apply insert_threads_nonempty]).
  - eapply resume_ordered; [done | exact Hi | by left].
  - split; [done|]. split; [intros _; by apply Hc | done].
  - split; [apply (ordered_log_app (mkSys c Disconnected l rs b)); set_solver|].
    split; [simpl; set_solver | done].
  - eapply resume_ordered; [done | exact Hi | by left].
  - eapply resume_ordered; [done | exact Hi | by right].
Qed.

Lemma rtc_sys_step_ordered st st' : rtc (sys_step e) st st' -> ordered_log st -> ordered_log st'.
Proof. induction 1 as [|x y z Hs _ IH]; [done|]. intros H. apply IH. by eapply sys_step_ordered. Qed.

Lemma boot_ordered rfile dfile s0 : ordered_log (boot rfile dfile s0).
Proof.
  unfold ordered_log, boot, seed. simpl.
  split; [|split; [done | split; [|done]]].
  - case_match; simpl; rewrite ?app_nil_r; repeat case_match; set_solver.
  - intros p [= <-]. apply (seed_shape_boot (load rfile) (load dfile)).
Qed.

End Ordering.

(** ** Requests answered before the connection opens *)

(** A function after its first [n] awaited commands were rejected. *)
Fixpoint rejected {A} (n : nat) (p : prog A) : prog A :=
  match n, p with
  | S n', Op c k => rejected n' (k (Err StoreFault))
  | _, _ => p
  end.

Lemma rejected_ret {A} n (a : A) : rejected n (Ret a) = Ret a.
Proof. by destruct n. Qed.

Lemma rejected_add {A} n m (p : prog A) : rejected (n + m) p = rejected m (rejected n p).
Proof.
  revert p. induction n as [|n IH]; intros [a|R c k]; simpl; [done..| |apply IH].
  by rewrite rejected_ret.
Qed.

Lemma rejected_S {A} n (p : prog A) R (c : cmd R) k :
  rejected n p = Op c k -> rejected (S n) p = k (Err StoreFault).
Proof. intros H. by rewrite <-Nat.add_1_r, rejected_add, H. Qed.

Lemma rejected_map {A B} n (f : A -> B) p : rejected n (prog_map f p) = prog_map f (rejected n p).
Proof. revert p. induction n as [|n IH]; intros [a|R c k]; simpl; [done..|apply IH]. Qed.

Lemma bounded_rejected {A} m (p : prog A) : bounded m p -> exists a, rejected m p = Ret a.
Proof.
  revert m. induction p as [a|R c k IH]; intros m Hb; [exists a; apply rejected_ret|].
  destruct m as [|m]; [done|]. apply IH, Hb.
Qed.

(** A function that returns once [n] commands were rejected returns
    the same when at most [m] commands are awaited on every path. *)
Lemma rejected_bounded {A} n m (p : prog A) a :
  bounded m p -> rejected n p = Ret a -> rejected m p = Ret a.
Proof.
  intros Hb Hn. destruct (bounded_rejected m p Hb) as [a' Ha'].
  destruct (decide (n <= m)) as [Hle|Hlt].
  - replace m with (n + (m - n)) by lia. by rewrite rejected_add, Hn, rejected_ret.
  - replace n with (m + (n - m)) in Hn by lia. rewrite rejected_add, Ha', rejected_ret in Hn.
    by rewrite Ha'.
Qed.

Lemma run_rejected {SO : Sorter} {A} n (p : prog A) a s :
  rejected n p = Ret a -> run p (replicate n true) s = (a, s).
Proof.
  revert p. induction n as [|n IH]; intros [a'|R c k]; simpl; try congruence.
  apply IH.
Qed.

Section Early.
Context {SO : Sorter} (e : env) (s0 : db).

(** Before the connection opens, the [i]-th request's function has
    met only rejections. *)
Definition early_inv (st : sys) : Prop :=
  List.length (threads (cfg st)) = S (List.length (requests st)) /\
  (opened (conn st) = false -> forall i q, requests st !! i = Some q ->
     exists n, threads (cfg st) !! S i = Some (rejected n (prog_map inr (dispatch q)))).

Lemma early_reject (ts : list (prog (outcome + response))) (rs : list request) j R (c : cmd R) k :
  (forall i q, rs !! i = Some q ->
     exists n, ts !! S i = Some (rejected n (prog_map inr (dispatch q)))) ->
  ts !! j = Some (Op c k) ->
  forall i q, rs !! i = Some q ->
    exists n, <[j := k (Err StoreFault)]> ts !! S i = Some (rejected n (prog_map inr (dispatch q))).
Proof.
  intros Hts Hj i q Hq. destruct (Hts i q Hq) as [n Hn].
  destruct (decide (j = S i)) as [->|Hne].
  - exists (S n). rewrite list_lookup_insert_eq by (by eapply lookup_lt_Some).
    rewrite Hn in Hj. injection Hj as Hj. by erewrite rejected_S.
  - exists n. by rewrite list_lookup_insert_ne.
Qed.

Lemma step_threads_length (c c' : config (outcome + response)) :
  step c c' -> List.length (threads c') = List.length (threads c).
Proof. destruct 1; simpl; apply length_insert. Qed.

Lemma sys_step_early st st' : sys_step e st st' -> early_inv st -> early_inv st'.
Proof.
  intros Hs [Hlen Hth]. unfold early_inv.
  destruct Hs as [c l b rs|c l b rs|c k b rs|s ts k b rs q|c c' l b rs Hstep|s ts i R c k l b rs Hi
                 |c l b rs|c l b rs|s ts i R c k kc l b rs Hkc _ Hi|s ts i k l b rs Hi];
    simpl in *; try (split; [done | discriminate]).
  - split; [done | exact Hth].
  - split; [done | exact Hth].
  - rewrite !length_app, Hlen. simpl. split; [lia|]. intros Hk i q' Hq.
    apply lookup_app_Some in Hq as [Hq|[Hle Hq]].
    + destruct (Hth Hk i q' Hq) as [n Hn]. exists n. rewrite lookup_app_l; [done|].
      apply lookup_lt_Some in Hq. lia.
    + exists 0. rewrite lookup_app_r by lia. apply list_lookup_singleton_Some in Hq as [Hi ->].
      rewrite Hlen. by replace (S i - S (List.length rs)) with 0 by lia.
  - rewrite (step_threads_length _ _ Hstep). split; [done | discriminate].
  - rewrite length_insert. split; [done|]. intros Hk. by eapply early_reject; [apply Hth|].
  - rewrite length_insert. split; [done|]. intros Hk. by eapply early_reject; [apply Hth|].
  - rewrite length_insert. split; [done | discriminate].
Qed.

Lemma rtc_sys_step_early st st' : rtc (sys_step e) st st' -> early_inv st -> early_inv st'.
Proof. induction 1 as [|x y z Hs _ IH]; [done|]. intros H. apply IH. by eapply sys_step_early. Qed.

Lemma boot_early rfile dfile : early_inv (boot rfile dfile s0).
Proof. split; [done|]. intros _ i q Hq. simpl in Hq. by rewrite lookup_nil in Hq. Qed.

(** A request function that has returned after meeting only
    rejections returns what it returns under a store that rejects
    every command: [dispatch] awaits at most two. *)
Lemma rejected_dispatch n q r :
  rejected n (prog_map (@inr outcome _) (dispatch q)) = Ret (inr r) ->
  (run (dispatch q) [true; true] s0).1 = r.
Proof.
  rewrite rejected_map. destruct (rejected n (dispatch q)) as [a|] eqn:E; [|done].
  intros [= ->]. apply (rejected_bounded _ 2) in E; [|apply dispatch_bounded].
  by rewrite (run_rejected 2 _ _ s0 E).
Qed.

End Early.

(** ** Properties *)

Section Properties.
Context {SO : Sorter}.

(** The store is untouched until the connection opens, and
    requests are served only once the server listens: in every state
    the process reaches from its start, whatever the order of the
    events, a connection that has never opened (still pending, or
    failed) means the store is the one the process found (Mongoose
    buffers the commands of the seeding and of the requests, then
    rejects them when the buffering times out or the connection fails),
    and an accepted request means the listener is bound. *)
Theorem startup_store_untouched e rfile dfile s0 st :
  rtc (sys_step e) (boot rfile dfile s0) st ->
  (opened (conn st) = false -> cstore (cfg st) = s0) /\
  (requests st <> [] -> listening st = true).
Proof.
  intros Hr. apply (rtc_sys_step_inv e s0 _ _ Hr), boot_inv.
Qed.

(** C28: the seeding waits for the connection: in every state the
    process reaches, whatever the order of the events, the log reports
    the seeding's success only after it has reported the connection open
    ([LogConnected] with the address [mongoose.connect] was given); under
    a connection that failed the seeding can only report an error. *)
Theorem seeding_after_connection e rfile dfile s0 st :
  rtc (sys_step e) (boot rfile dfile s0) st ->
  LogSeeded ∈ log st ->
  exists l1 l2, log st = l1 ++ LogConnected (connect_uri e) :: l2 /\ LogSeeded ∈ l2.
Proof. intros Hr Hin. by apply (rtc_sys_step_ordered e _ _ Hr (boot_ordered e rfile dfile s0)). Qed.

(** C16: requests served before the connection opens never see the
    store: in every state the process reaches from its start, whatever
    the order of the events, while the connection has never opened
    (still pending, or failed) a request that has been answered got
    exactly the answer of a store that rejects every command (Mongoose
    buffers its commands, which time out or fail with the connection),
    and so never data: each data route answers the [500] of its own
    [catch], and the only [200] is the text of [GET /] (or its
    bodiless [HEAD]). *)
Theorem early_requests_rejected e rfile dfile s0 st i q r :
  rtc (sys_step e) (boot rfile dfile s0) st ->
  opened (conn st) = false ->
  requests st !! i = Some q ->
  threads (cfg st) !! S i = Some (Ret (inr r)) ->
  r = (run (dispatch q) [true; true] s0).1 /\
  (status r = 200%Z ->
   r = mkResp 200 (BText "Welcome to the Mongoose API") \/ r = mkResp 200 (BText "")).
Proof.
  intros Hr Hk Hq Hi.
  destruct (rtc_sys_step_early e _ _ Hr (boot_early s0 rfile dfile)) as [_ Hth].
  destruct (Hth Hk i q Hq) as [n Hn]. rewrite Hi in Hn. injection Hn as Hn.
  assert (Hd : r = (run (dispatch q) [true; true] s0).1) by (symmetry; by apply (rejected_dispatch s0 n)).
  split; [done|]. rewrite Hd. apply dispatch_rejected_no_data.
Qed.

End Properties.

(** C15: lines 15 to 31 from a module directory of plain segments (the root
    when there is none), as [__dirname] is: the process reads the files
    [reviews.json] and [dealerships.json] of that directory, in that
    order, and boots with what they parse to. *)
Theorem module_top_seed_files segs fsys s0 :
  Forall (fun d => plain_segment (list_ascii_of_string d) = true) segs ->
  module_top fsys ("/" +:+ String.concat "/" segs) s0 =
    (reviews_data <-? read_json (fsys !! ("/" +:+ String.concat "/" (segs ++ ["reviews.json"]))) ;;
     dealerships_data <-? read_json (fsys !! ("/" +:+ String.concat "/" (segs ++ ["dealerships.json"]))) ;;
     Ok (boot reviews_data dealerships_data s0))%api.
Proof. intros Hs. unfold module_top. by rewrite !join_child by (done || by_computation). Qed.

(** ** Concrete instances *)

(** A start where the reviews file did not load, the listener is bound,
    a request arrives and the connection fails. *)
Definition failed_start : sys :=
  mkSys (Cfg sample_db [Ret (inl Skipped); prog_map inr (dispatch (mkReq GET "/fetchDealers" NoBody))])
        Failed true [mkReq GET "/fetchDealers" NoBody]
        [LogReadError "reviews.json"; LogSkipSeeding; LogListening (listen_url []); LogConnectionError].

Lemma startup_store_untouched_witness : cstore (cfg failed_start) = sample_db.
Proof.
  apply (proj1 (startup_store_untouched [] None (Some sample_dealers_file) sample_db failed_start
                  ltac:(eapply rtc_l; [apply sys_listen|];
                        eapply rtc_l; [apply (sys_request _ _ _ _ _ _ (mkReq GET "/fetchDealers" NoBody))|];
                        eapply rtc_l; [apply sys_connection_error|]; apply rtc_refl))).
  reflexivity.
Defined.

Lemma seeding_after_connection_witness :
  exists st, rtc (sys_step []) (boot (Some sample_reviews_file) (Some sample_dealers_file) sample_db) st /\
  exists l1 l2, log st = l1 ++ LogConnected (connect_uri []) :: l2 /\ LogSeeded ∈ l2.
Proof.
  assert (Hr : exists st, rtc (sys_step []) (boot (Some sample_reviews_file) (Some sample_dealers_file)
                                                  sample_db) st /\ LogSeeded ∈ log st).
  { eexists. split.
    - unfold boot. simpl. eapply rtc_l; [apply sys_connected|].
      do 5 (eapply rtc_l; [apply sys_run; eapply (step_exec _ _ 0); reflexivity|]).
      apply rtc_refl.
    - simpl. set_solver. }
  destruct Hr as (st & Hr & Hin). exists st. split; [done|].
  apply (seeding_after_connection [] _ _ _ st Hr Hin).
Defined.

(** A request for the dealerships arrives while the connection is
    pending; its [find] times out in the buffer. *)
Lemma early_requests_rejected_witness :
  json_msg 500 "error" "Error fetching dealers" =
  (run (dispatch (mkReq GET "/fetchDealers" NoBody)) [true; true] sample_db).1.
Proof.
  eapply proj1. eapply (early_requests_rejected [] None (Some sample_dealers_file) sample_db _ 0).
  - eapply rtc_l; [apply sys_listen|].
    eapply rtc_l; [apply (sys_request _ _ _ _ _ _ (mkReq GET "/fetchDealers" NoBody))|].
    eapply rtc_l; [eapply (sys_timeout [] _ _ 1); [left; reflexivity | | reflexivity]; reflexivity|].
    apply rtc_refl.
  - reflexivity.
  - reflexivity.
  - reflexivity.
Defined.

(** The module in [/srv/app], whose two seed files hold empty arrays. *)
Lemma module_top_seed_files_witness :
  module_top (<["/srv/app/reviews.json" := "[]"]> (<["/srv/app/dealerships.json" := "[]"]> ∅))
    "/srv/app" sample_db = Ok (boot (Some (JArr [])) (Some (JArr [])) sample_db).
Proof.
  change "/srv/app"%string with ("/" +:+ String.concat "/" ["srv"; "app"])%string.
  rewrite (module_top_seed_files ["srv"; "app"]) by (vm_compute; repeat constructor).
  vm_compute. reflexivity.
Defined.

End Startup.
