(* ===== verification/Responses.v ===== *)
(** * What the server sends: the type of its responses

    Every response of [src/app.js] is built by [res.send] (a text, line
    71), [res.json] (a document, a list of documents or a message object,
    lines 73 to 133), or by Express and its middleware (the [204] of the
    CORS preflight, [400] and [413] of the body parsers, [404] for a
    path no route serves, a bodiless answer to [HEAD]).  This file states
    the type of a response, [response_typed]: a status among the six the
    application answers with, and a JSON body that is well formed (no
    object with a repeated key, so that [JSON.stringify] writes every
    property the server means to send).  A stored document is sent as
    [doc_json]: its fields between [_id] (the given one, moved first,
    or the generated one) and [__v], which no schema declares.  The theorem shows that [dispatch] answers every request
    with a response of that type, under every fault schedule, from a
    store whose documents conform to their schemas and hold well-formed
    values, and for a JSON body that is well formed (a URL-encoded body
    always is); [json_body_ok] shows that every body [express.json()]
    accepts is, so the theorem holds for every raw JSON body the
    parser lets through. *)

From stdpp Require Import base list strings.
From Stdlib Require Import ZArith String.
From S2P Require Import Prelude JsNumber UriDecode JsValue Json FormBody Schema Store Handlers Router.

Module Responses.
Import Js Schema Store Handlers Router.

(** The statuses the application answers with. *)
Definition app_statuses : list Z := [200; 204; 400; 404; 413; 500]%Z.

Definition response_typed (r : response) : Prop :=
  status r ∈ app_statuses /\
  match body_of r with BJson j => wf j | BText _ => True end.

(** A stored document as the schema and [JSON.parse] make it. *)
Definition doc_ok (sch : schema) (d : doc) : Prop :=
  conforms sch (fields d) = true /\ values_wf (fields d).

Definition store_wf (s : db) : Prop :=
  forall c, Forall (doc_ok (schema_of c)) (docs c s).

(** A request body as the JSON parser makes it. *)
Definition body_ok (b : body_in) : Prop :=
  match b with JsonBody v => wf v | _ => True end.

(** ** Documents as JSON *)

Lemma conforms_NoDup sch fs : conforms sch fs = true -> NoDup fs.*1.
Proof. unfold conforms. intros [H _]%andb_prop. by apply bool_decide_eq_true_1 in H. Qed.

(** Dropping every property named [k] keeps the keys distinct, the
    values well formed, and the keys among the original ones. *)
Lemma filter_key_wf k fs :
  NoDup fs.*1 -> values_wf fs ->
  let gs := List.filter (fun kv => negb (String.eqb kv.1 k)) fs in
  NoDup gs.*1 /\ values_wf gs /\ k ∉ gs.*1 /\ (forall x, x ∈ gs.*1 -> x ∈ fs.*1).
Proof.
  induction fs as [|[k' w] fs IH]; intros Hnd Hv; simpl.
  - split_and!; [constructor | constructor | apply not_elem_of_nil | done].
  - apply NoDup_cons in Hnd as [Hk' Hnd]. unfold values_wf in Hv. apply Forall_cons in Hv as [Hw Hv].
    destruct (IH Hnd Hv) as (Hnd' & Hv' & Hk & Hsub).
    destruct (String.eqb_spec k' k) as [->|Hne]; simpl.
    + split_and!; [exact Hnd' | exact Hv' | exact Hk |].
      intros x Hx. apply list_elem_of_further, Hsub, Hx.
    + split_and!.
      * constructor; [|done]. intros Hin. by apply Hk', Hsub.
      * by constructor.
      * rewrite elem_of_cons. intros [->|?]; [done|by apply Hk].
      * intros x [->|Hx]%elem_of_cons; [apply list_elem_of_here|].
        apply list_elem_of_further, Hsub, Hx.
Qed.

(** An object [_id] first, then [fs], then [__v]. *)
Lemma wf_doc_obj fs v :
  NoDup fs.*1 -> values_wf fs -> "_id" ∉ fs.*1 -> "__v" ∉ fs.*1 -> wf v ->
  wf (JObj ((("_id", v) :: fs) ++ [("__v", JNum 0)])).
Proof.
  intros Hnd Hvs Hid Hv' Hv. apply wf_obj.
  rewrite fmap_app, fmap_cons. simpl (_ <$> [_]). cbn [fst]. split.
  - apply NoDup_cons. split.
    + rewrite elem_of_app, list_elem_of_singleton. intros [?|?]; [done | discriminate].
    + apply NoDup_app. split_and!; [done | | apply NoDup_singleton].
      intros x Hx ->%list_elem_of_singleton. done.
  - unfold values_wf. rewrite Forall_app, Forall_cons. split_and!; try done; repeat constructor.
Qed.

Lemma doc_json_wf c d : doc_ok (schema_of c) d -> wf (doc_json d).
Proof.
  intros [Hc Hv]. pose proof (conforms_NoDup _ _ Hc) as Hnd.
  assert (Hv' : "__v" ∉ (fields d).*1)
    by (intros Hin; apply (conforms_keys _ _ _ Hc) in Hin; destruct c; revert Hin; refute_by_computation).
  unfold doc_json, given_id. destruct (prop (fields d) "_id") as [v|] eqn:Hg.
  - destruct (filter_key_wf "_id" (fields d) Hnd Hv) as (Hnd' & Hvs' & Hid & Hsub).
    apply wf_doc_obj; [exact Hnd' | exact Hvs' | exact Hid | by intros ?%Hsub | exact (prop_wf _ _ _ Hv Hg)].
  - apply wf_doc_obj; [exact Hnd | exact Hv | by apply prop_None_notin | exact Hv' | constructor].
Qed.

Lemma docs_json_wf c ds : Forall (doc_ok (schema_of c)) ds -> wf (JArr (map doc_json ds)).
Proof.
  intros Hds. apply wf_arr, Forall_fmap. eapply Forall_impl; [exact Hds|]. apply doc_json_wf.
Qed.

Lemma find_docs_ok c f s ds :
  store_wf s -> find_docs c f s = Ok ds -> Forall (doc_ok (schema_of c)) ds.
Proof.
  unfold find_docs. intros Hs. destruct (cast_filter _ f); [|done]. intros [= <-].
  apply Forall_forall. intros d [_ Hd]%list_elem_of_filter. by apply (proj1 (Forall_forall _ _) (Hs c)).
Qed.

(** ** Handlers *)

Lemma json_msg_typed code key msg : code ∈ app_statuses -> response_typed (json_msg code key msg).
Proof.
  intros Hc. split; [done|]. apply wf_obj. split; [apply NoDup_singleton | by repeat constructor].
Qed.

Lemma add_one_wf v : wf (add_one v).
Proof. by destruct v. Qed.

Ltac msg_typed := apply json_msg_typed; by_computation.

Section Handlers.
Context {SO : Sorter}.

Lemma find_handler_typed c f msg fs s :
  store_wf s ->
  response_typed (run (await (Find c f) (fun ds => Ret (json200 (JArr (map doc_json ds))))
                              (fun _ => Ret (json_msg 500 "error" msg))) fs s).1.
Proof.
  intros Hs. unfold await. cbn [run step_cmd]. destruct (default false (head fs)); [msg_typed|].
  cbn [step_cmd exec run]. destruct (find_docs c f s) as [ds|] eqn:E; [|msg_typed].
  split; [by_computation|]. by eapply docs_json_wf, find_docs_ok.
Qed.

Lemma fetchDealer_typed id fs s : store_wf s -> response_typed (run (fetchDealer id) fs s).1.
Proof.
  intros Hs. unfold fetchDealer, await. cbn [run step_cmd]. destruct (default false (head fs)); [msg_typed|].
  cbn [step_cmd exec run]. destruct (find_docs _ _ s) as [[|d ds]|] eqn:E; simpl; try msg_typed.
  split; [by_computation|]. apply (doc_json_wf Dealerships).
  apply find_docs_ok in E; [|done]. by apply Forall_cons in E as [? _].
Qed.

Lemma insert_review_typed data fs s :
  store_wf s -> default True (wf <$> data) -> response_typed (run (insert_review data) fs s).1.
Proof.
  intros Hs Hd. unfold insert_review, await. cbn [run step_cmd].
  destruct (default false (head fs)); [msg_typed|]. cbn [step_cmd exec run].
  destruct (default false (head (tail fs))); [msg_typed|]. cbn [exec run step_cmd].
  match goal with |- context [cast_doc (schema_of Reviews) ?v] =>
    destruct (cast_doc (schema_of Reviews) v) as [out|] eqn:E end; cbn -[dup_key doc_json]; [|msg_typed].
  destruct (dup_key _ _); cbn -[doc_json]; [msg_typed|].
  split; [by_computation|]. apply (doc_json_wf Reviews). split.
  - by apply (cast_doc_conforms _ _ _ (schema_nodup Reviews)) in E.
  - assert (Hl : wf (review_literal (new_id_of (sort_by "id" (docs Reviews s))) data)).
    { unfold review_literal. apply obj_spread_wf; [simpl; apply NoDup_singleton | | done].
      constructor; [apply add_one_wf | constructor]. }
    exact (cast_doc_wf _ _ _ Hl E).
Qed.

Lemma route_handler_typed r ps data fs s :
  store_wf s -> default True (wf <$> data) -> response_typed (run (route_handler r ps data) fs s).1.
Proof.
  intros Hs Hd. destruct r; simpl.
  - split; [by_computation | done].
  - apply find_handler_typed, Hs.
  - apply find_handler_typed, Hs.
  - apply find_handler_typed, Hs.
  - apply find_handler_typed, Hs.
  - by apply fetchDealer_typed.
  - by apply insert_review_typed.
Qed.

(** The body the parsers hand to a route is well formed. *)
Lemma parse_body_wf b data : body_ok b -> parse_body b = Ok data -> default True (wf <$> data).
Proof.
  destruct b as [|v| |t]; simpl; intros Hb.
  - intros [= <-]. split; [constructor | done].
  - destruct v; intros [= <-]; done.
  - done.
  - destruct (Form.urlencoded t) eqn:E; intros [= <-]. by apply Form.urlencoded_wf in E.
Qed.


Lemma parse_body_err b r : parse_body b = Err r -> response_typed r.
Proof.
  destruct b as [|[]| |t]; simpl; try discriminate; try (intros [= <-]; split; [by_computation | done]).
  destruct (Form.urlencoded t); intros [= <-]. split; [by_computation | done].
Qed.

End Handlers.

(** What [express.json()] yields is well formed. *)
Lemma json_body_ok raw b : json_body raw = Some b -> body_ok b.
Proof.
  unfold json_body. intros H. repeat case_match; simplify_eq; try done.
  all: try exact Json.wf_obj_nil.
  all: by eapply Json.json_parse_wf.
Qed.

(** ** Properties *)

Section Properties.
Context {SO : Sorter}.

(** [dispatch] answers typed responses for a well-formed body. *)
Lemma dispatch_typed q fs s :
  store_wf s -> body_ok (req_body q) -> response_typed (run (dispatch q) fs s).1.
Proof.
  intros Hs Hb. unfold dispatch.
  assert (Hmeth : forall m, response_typed (run (
    match parse_body (req_body q) with
    | Err resp => Ret resp
    | Ok data =>
        match path_segments (req_path q) ≫= find_route routes m with
        | None => Ret (not_found q)
        | Some (r, raw) =>
            match mapM Uri.decodeURIComponent raw with
            | None => Ret bad_request
            | Some ps =>
                match m with
                | HEAD => prog_bind (fun r => Ret (head_response r)) (route_handler r ps data)
                | _ => route_handler r ps data
                end
            end
        end
    end) fs s).1).
  { intros m. destruct (parse_body (req_body q)) as [data|r] eqn:Hp; [|by eapply parse_body_err].
    pose proof (parse_body_wf _ _ Hb Hp) as Hd.
    destruct (_ ≫= find_route routes m) as [[r raw]|]; [|split; [simpl; repeat constructor | done]].
    destruct (mapM Uri.decodeURIComponent raw) as [ps|]; [|split; [simpl; repeat constructor | done]].
    destruct (route_handler_typed r ps data fs s Hs Hd) as [Hst Hbd].
    destruct m; try by split.
    rewrite run_map. by split. }
  destruct (meth q); try apply Hmeth. split; [simpl; repeat constructor | done].
Qed.

(** C35: every response the server sends is typed: whatever the
    request and the fault schedule, [dispatch] answers from a store of
    well-formed documents that conform to their schemas, for a
    well-formed JSON body, with one of the statuses [200], [204],
    [400], [404], [413] or [500] and a JSON body in which no object has
    a repeated key ([_id] and [__v] never collide with a field). *)
Theorem dispatch_response_typed q fs s :
  store_wf s -> body_ok (req_body q) -> response_typed (run (dispatch q) fs s).1.
Proof. apply dispatch_typed. Qed.

(** C36: every request sent with a JSON body is answered with a typed
    response: whatever bytes the client sends as [application/json]
    (ill-formed UTF-8, a byte-order mark, blanks, a primitive, text that
    is not JSON, an object with a repeated key), [express.json()] either
    rejects them ([400]) or yields a well-formed value, and [dispatch]
    answers from a store of well-formed documents with one of the six
    statuses and a JSON body without a repeated key. *)
Theorem dispatch_json_body_typed m p raw b fs s :
  store_wf s -> json_body raw = Some b -> response_typed (run (dispatch (mkReq m p b)) fs s).1.
Proof. intros Hs Hb. apply dispatch_typed; [done|]. by eapply json_body_ok. Qed.

End Properties.

(** ** Concrete instances *)

(** A body with a repeated key, decoded by [json_body], is answered by
    a typed response. *)
Lemma dispatch_json_body_typed_witness :
  response_typed (run (dispatch (mkReq POST "/insert_review"
    (JsonBody (JObj [("dealership", JNum 15); ("name", JStr "B")])))) [] sample_db).1.
Proof.
  apply (dispatch_json_body_typed POST "/insert_review"
           (Json.jtext "{'dealership':15,'name':'A','name':'B'}")).
  - intros []; repeat constructor.
  - vm_compute. reflexivity.
Defined.

Lemma dispatch_response_typed_witness :
  response_typed (run (dispatch (mkReq GET "/fetchDealers" NoBody)) [] sample_db).1.
Proof.
  apply dispatch_response_typed; [|exact I].
  intros []; repeat constructor.
Defined.

End Responses.
