(* ===== verification/Send.v ===== *)
(** * What goes on the wire: [res.send], ETags and conditional requests

    Every route handler of [src/app.js] ends in [res.json] or
    [res.send] (lines 71 to 129); [res.json] writes its value with
    [JSON.stringify] and calls [res.send].  Before writing, Express's
    [res.send] tags the body with a weak ETag ([etag] package:
    [W/"<length in hex>-<SHA-1 in base64, 27 characters>"]) and asks
    [req.fresh] ([fresh] package) whether the client's copy is still
    good: for a [GET] or [HEAD] answered [2xx], when the request carries
    [If-None-Match] naming that ETag (or [*]) and no
    [Cache-Control: no-cache].  A fresh request is answered [304 Not
    Modified] and no body; [204] and [304] responses and every answer
    to [HEAD] carry no body.  [res.json] sets no [Last-Modified], so an
    [If-Modified-Since] alone never makes a request fresh.

    This file models that last stage: [cond] holds the request's
    conditional headers, [etag_of] the tag of a body (the SHA-1 digest
    is the Section variable [sha1_b64], not computed), [fresh] and
    [req_fresh] the two tests, [respond] the status and body text a
    request gets.  The theorems show when a [304] is sent, that only a
    [GET] or [HEAD] answered [2xx] can get one, and that every status
    on the wire is one of the seven the application sends.  The pages
    Express's [finalhandler] writes for [404] and for the body parsers'
    errors are not [res.send] responses; their text is not modelled. *)

From stdpp Require Import base list strings.
From Stdlib Require Import ZArith NArith Ascii String.
From S2P Require Import Prelude JsNumber JsValue Json Store Handlers Router Responses.

Module Send.
Import Js Store Handlers Router Responses.

Local Open Scope api_scope.

(** The conditional headers of a request, as [req.headers] has them. *)
Record cond := mkCond {
  if_none_match : option string;
  if_modified_since : option string;
  cache_control : option string
}.

(** An unconditional request. *)
Definition no_cond : cond := mkCond None None None.

(** A header [fresh] tests with [if (h)]: present and not empty. *)
Definition present (h : option string) : bool :=
  match h with Some v => negb (String.eqb v "") | None => false end.

(** [\s] of a regular expression, on the Latin-1 characters of a
    header. *)
Definition re_space (c : ascii) : bool :=
  let n := N_of_ascii c in (((9 <=? n) && (n <=? 13)) || (n =? 32) || (n =? 160))%N.

Fixpoint drop_spaces (l : list ascii) : list ascii :=
  match l with
  | c :: l' => if re_space c then drop_spaces l' else l
  | [] => []
  end.

(** [CACHE_CONTROL_NO_CACHE_REGEXP.test(cc)], the regular expression
    [/(?:^|,)\s*?no-cache\s*?(?:,|$)/]: one comma-separated item of the
    header is [no-cache] between blanks. *)
Definition no_cache (cc : string) : bool :=
  existsb (fun item => bool_decide (rev (drop_spaces (rev (drop_spaces item))) = list_ascii_of_string "no-cache"))
          (split_on "," (list_ascii_of_string cc)).

(** [str.substring(a, b)] for [a <= b]. *)
Definition slice (str : list ascii) (a b : nat) : string :=
  string_of_list_ascii (take (b - a) (drop a str)).

(** The loop of [parseTokenList] from index [i] on, [start] and
    [stop] delimiting the current token: a space before the token moves
    its start, a comma ends it, any other character extends it. *)
Fixpoint tokens_go (str : list ascii) (i start stop : nat) (l : list ascii) : list string :=
  match l with
  | [] => [slice str start stop]
  | c :: l' =>
      if Ascii.eqb c " " then
        if Nat.eqb start stop then tokens_go str (S i) (S i) (S i) l' else tokens_go str (S i) start stop l'
      else if Ascii.eqb c "," then slice str start stop :: tokens_go str (S i) (S i) (S i) l'
      else tokens_go str (S i) start (S i) l'
  end.

(** [parseTokenList(str)] of [fresh]: the comma-separated tokens of
    [If-None-Match], without their surrounding spaces. *)
Definition parse_token_list (s : string) : list string :=
  let l := list_ascii_of_string s in tokens_go l 0 0 0 l.

(** [fresh(reqHeaders, { etag: tag })] with no [last-modified]: an
    unconditional request is stale, and so is one with
    [Cache-Control: no-cache]; [If-None-Match] must be [*] or list the
    tag, weak or strong; [If-Modified-Since] finds no [Last-Modified]
    and makes the request stale. *)
Definition etag_matches (tag m : string) : bool :=
  String.eqb m tag || String.eqb m ("W/" ++ tag) || String.eqb ("W/" ++ m) tag.

Definition fresh (h : cond) (tag : string) : bool :=
  if negb (present (if_modified_since h)) && negb (present (if_none_match h)) then false
  else if (match cache_control h with Some cc => present (Some cc) && no_cache cc | None => false end) then false
  else
    (match if_none_match h with
     | Some nm =>
         if present (Some nm) && negb (String.eqb nm "*")
         then existsb (etag_matches tag) (parse_token_list nm) else true
     | None => true
     end) && negb (present (if_modified_since h)).

(** [req.fresh]: only a [GET] or [HEAD] answered [2xx] or [304]. *)
Definition req_fresh (m : method) (st : Z) (h : cond) (tag : string) : bool :=
  match m with
  | GET | HEAD => if ((200 <=? st) && (st <? 300)) || (st =? 304) then fresh h tag else false
  | _ => false
  end%Z.

(** The hexadecimal digits of [n], [n.toString(16)]. *)
Fixpoint hex_go (fuel : nat) (n : N) (acc : list ascii) : list ascii :=
  match fuel with
  | O => acc
  | S f =>
      let acc' := Json.hex_lower (n mod 16)%N :: acc in
      if (n <? 16)%N then acc' else hex_go f (n / 16)%N acc'
  end.

Definition to_hex (n : N) : string :=
  string_of_list_ascii (hex_go (S (N.to_nat (N.size n))) n []).

(** The text [res.send] writes: the JSON text of a value, or a string. *)
Definition wire_text (b : body) : string :=
  match b with BJson j => Json.json_stringify j | BText s => s end.

(** A [HEAD] request runs the [GET] route, whose body the ETag is
    computed from. *)
Definition as_get (q : request) : request :=
  match meth q with HEAD => mkReq GET (req_path q) (req_body q) | _ => q end.

(** A character that neither separates nor pads the tokens of
    [If-None-Match]. *)
Definition token_char (c : ascii) : bool := negb (Ascii.eqb c " ") && negb (Ascii.eqb c ",").

Section Wire.
Context {SO : Sorter}.

(** The SHA-1 digest of a text in base64, cut to 27 characters. *)
Variable sha1_b64 : string -> string.

(** Base64 has no space and no comma. *)
Hypothesis sha1_b64_token : forall t, forallb token_char (list_ascii_of_string (sha1_b64 t)) = true.

(** The weak ETag Express's default [etag fn] gives a body. *)
Definition etag_of (text : string) : string :=
  let len := N.of_nat (String.length text) in
  let q := String "034" EmptyString in
  "W/" ++ q ++ (if (len =? 0)%N then "0-2jmj7l5rSw0yVb/vlWAYkK/YBwk" else to_hex len ++ "-" ++ sha1_b64 text) ++ q.

(** The status and body a request gets, and the store after it. *)
Definition respond (q : request) (h : cond) (fs : list bool) (s : db) : (Z * string) * db :=
  let '(r, s') := run (dispatch (as_get q)) fs s in
  let text := wire_text (body_of r) in
  let st := if req_fresh (meth q) (status r) h (etag_of text) then 304%Z else status r in
  let sent := match meth q with
              | HEAD => ""%string
              | _ => if (st =? 204)%Z || (st =? 304)%Z then ""%string else text
              end in
  ((st, sent), s').

(** ** Lemmas *)

Lemma tokens_go_plain str i start stop l :
  forallb token_char l = true -> l <> [] ->
  tokens_go str i start stop l = [slice str start (i + List.length l)].
Proof.
  revert i stop. induction l as [|c l IH]; intros i stop Hl Hne; [done|].
  apply andb_prop in Hl as [Hc Hl]. unfold token_char in Hc.
  apply andb_prop in Hc as [Hs Hcm]. apply negb_true_iff in Hs, Hcm.
  simpl. rewrite Hs, Hcm. destruct l as [|c' l'].
  - simpl. do 3 f_equal. lia.
  - rewrite IH by done. simpl. do 3 f_equal. lia.
Qed.

(** A tag without spaces and commas is one token. *)
Lemma parse_token_list_plain t :
  forallb token_char (list_ascii_of_string t) = true -> t <> ""%string -> parse_token_list t = [t].
Proof.
  intros Ht Hne. unfold parse_token_list. rewrite tokens_go_plain; [|done|].
  - unfold slice. rewrite Nat.add_0_l, Nat.sub_0_r, drop_0, take_ge by done.
    by rewrite string_of_list_ascii_of_string.
  - intros He. apply Hne. by rewrite <-(string_of_list_ascii_of_string t), He.
Qed.

Lemma hex_lower_token d : (d < 16)%N -> token_char (Json.hex_lower d) = true.
Proof.
  intros Hd.
  assert (d = 0 \/ d = 1 \/ d = 2 \/ d = 3 \/ d = 4 \/ d = 5 \/ d = 6 \/ d = 7 \/ d = 8 \/ d = 9 \/
          d = 10 \/ d = 11 \/ d = 12 \/ d = 13 \/ d = 14 \/ d = 15)%N as Hc by lia.
  repeat destruct Hc as [->|Hc]; [reflexivity..|]. subst. reflexivity.
Qed.

Lemma to_hex_token n : forallb token_char (list_ascii_of_string (to_hex n)) = true.
Proof.
  unfold to_hex. rewrite list_ascii_of_string_of_list_ascii.
  assert (Hgo : forall f m acc, forallb token_char acc = true -> forallb token_char (hex_go f m acc) = true).
  { induction f as [|f IH]; intros m acc Hacc; [done|]. simpl.
    assert (Hd : token_char (Json.hex_lower (m mod 16)) = true) by (apply hex_lower_token, N.mod_lt; lia).
    destruct (m <? 16)%N; [simpl; by rewrite Hd, Hacc | apply IH; simpl; by rewrite Hd, Hacc]. }
  by apply Hgo.
Qed.

Lemma etag_token t : forallb token_char (list_ascii_of_string (etag_of t)) = true.
Proof.
  unfold etag_of. rewrite !list_ascii_of_string_app, !forallb_app. cbv zeta.
  destruct (N.of_nat (String.length t) =? 0)%N; [reflexivity|].
  rewrite !list_ascii_of_string_app, !forallb_app, to_hex_token, sha1_b64_token. reflexivity.
Qed.

Lemma etag_nonempty t : etag_of t <> ""%string.
Proof. unfold etag_of. discriminate. Qed.

Lemma etag_not_star t : String.eqb (etag_of t) "*" = false.
Proof. apply String.eqb_neq. unfold etag_of. discriminate. Qed.

(** A request naming the tag [t] in [If-None-Match], and nothing else,
    is fresh for [t]. *)
Lemma fresh_own_tag t : fresh (mkCond (Some (etag_of t)) None None) (etag_of t) = true.
Proof.
  unfold fresh; cbn [if_none_match if_modified_since cache_control present].
  rewrite (proj2 (String.eqb_neq _ "") (etag_nonempty t)), etag_not_star.
  rewrite parse_token_list_plain by (apply etag_token || apply etag_nonempty).
  cbn. unfold etag_matches. by rewrite String.eqb_refl.
Qed.

(** A fresh request carries [If-None-Match] and no [If-Modified-Since]. *)
Lemma fresh_present h t :
  fresh h t = true -> present (if_none_match h) = true /\ present (if_modified_since h) = false.
Proof.
  unfold fresh. intros H.
  destruct (present (if_modified_since h)), (present (if_none_match h)); cbn [negb andb] in H;
    try discriminate; [..|done].
  all: revert H; repeat case_match; rewrite ?andb_false_r; intros Hc; discriminate Hc.
Qed.

(** A [304] comes from [req.fresh]: a [GET] or [HEAD] whose route
    answered [2xx], sent with [If-None-Match]. *)
Lemma respond_fresh_inv q h fs s st b s' :
  respond q h fs s = ((st, b), s') -> st = 304%Z -> status (run (dispatch (as_get q)) fs s).1 <> 304%Z ->
  (meth q = GET \/ meth q = HEAD) /\ b = ""%string /\ present (if_none_match h) = true /\
  (200 <= status (run (dispatch (as_get q)) fs s).1 < 300)%Z.
Proof.
  unfold respond. destruct (run (dispatch (as_get q)) fs s) as [r s0]. cbn [fst snd].
  intros Hr Hst Hn. injection Hr as Hst' Hb _. rewrite Hst in Hst'. clear Hst.
  destruct (req_fresh (meth q) (status r) h _) eqn:Hf; [|by rewrite Hst' in Hn].
  unfold req_fresh in Hf.
  destruct (((200 <=? status r) && (status r <? 300)) || (status r =? 304))%Z eqn:Hs;
    [|destruct (meth q); discriminate].
  assert (H2xx : (200 <= status r < 300)%Z).
  { apply orb_prop in Hs as [Hs|Hs]; [apply andb_prop in Hs as [H1 H2]; apply Z.leb_le in H1;
      apply Z.ltb_lt in H2; lia | apply Z.eqb_eq in Hs; lia]. }
  assert (Hinm : present (if_none_match h) = true)
    by (eapply fresh_present; by destruct (meth q); [exact Hf|exact Hf|discriminate..]).
  destruct (meth q); try discriminate Hf; split_and!; try tauto; by rewrite <-Hb.
Qed.

(** ** Theorems *)

(** [fresh] on an [If-None-Match] of one entity tag (and no other
    conditional header): [*], or the tag matching the response's
    ETag, weakly or strongly. *)
Lemma fresh_single_tag tag t :
  forallb token_char (list_ascii_of_string tag) = true -> tag <> ""%string ->
  fresh (mkCond (Some tag) None None) t = String.eqb tag "*" || etag_matches t tag.
Proof.
  intros Ht Hne. unfold fresh; cbn [if_none_match if_modified_since cache_control present].
  rewrite (proj2 (String.eqb_neq _ "") Hne). cbn [negb andb].
  destruct (String.eqb tag "*"); [done|]. cbn [negb andb orb].
  rewrite parse_token_list_plain by done. cbn [existsb]. by rewrite orb_false_r, andb_true_r.
Qed.

(** C26: a [GET] that its route answers [2xx], sent with an
    [If-None-Match] of one entity tag (and neither [Cache-Control] nor
    [If-Modified-Since]), is answered [304] with no body exactly when
    the tag is [*] or matches the ETag of the body it would get
    ([W/] prefixes aside); any other tag gets the route's status and
    full body.  Either way the route runs, with its effects on the
    store. *)
Theorem respond_not_modified q tag fs s :
  meth q = GET -> (200 <= status (run (dispatch q) fs s).1 < 300)%Z ->
  forallb token_char (list_ascii_of_string tag) = true -> tag <> ""%string ->
  respond q (mkCond (Some tag) None None) fs s =
    (if String.eqb tag "*" || etag_matches (etag_of (wire_text (body_of (run (dispatch q) fs s).1))) tag
     then (304%Z, ""%string)
     else (status (run (dispatch q) fs s).1,
           if (status (run (dispatch q) fs s).1 =? 204)%Z then ""%string
           else wire_text (body_of (run (dispatch q) fs s).1)),
     (run (dispatch q) fs s).2).
Proof.
  intros Hm Hst Ht Hne. unfold respond, as_get. rewrite Hm.
  destruct (run (dispatch q) fs s) as [r s'] eqn:E. cbn [fst snd] in *.
  unfold req_fresh. rewrite (proj2 (Z.leb_le 200 (status r))), (proj2 (Z.ltb_lt (status r) 300)) by lia.
  cbn [andb orb]. rewrite fresh_single_tag by done.
  destruct (String.eqb tag "*" || _); [done|].
  destruct (Z.eqb_spec (status r) 304); [lia|]. by rewrite orb_false_r.
Qed.

(** Every status on the wire is one the routes answer with, or [304]. *)
Lemma respond_status q h fs s :
  store_wf s -> body_ok (req_body q) -> (respond q h fs s).1.1 ∈ 304%Z :: app_statuses.
Proof.
  intros Hs Hb. assert (Hb' : body_ok (req_body (as_get q))) by (unfold as_get; by destruct (meth q)).
  pose proof (dispatch_typed (as_get q) fs s Hs Hb') as [Hst _].
  unfold respond. destruct (run (dispatch (as_get q)) fs s) as [r s']. cbn [fst snd] in *.
  destruct (req_fresh _ _ _ _); [apply list_elem_of_here | by apply list_elem_of_further].
Qed.

End Wire.

(** ** Concrete instances *)

Lemma respond_not_modified_witness :
  respond (fun _ => "Ym9keQ"%string) (mkReq GET "/fetchDealers" NoBody) (mkCond (Some "*") None None) [] sample_db =
    ((304%Z, ""%string), (run (dispatch (mkReq GET "/fetchDealers" NoBody)) [] sample_db).2) /\
  respond (fun _ => "Ym9keQ"%string) (mkReq GET "/fetchDealers" NoBody) (mkCond (Some "W/abc") None None) [] sample_db =
    ((200%Z, wire_text (body_of (run (dispatch (mkReq GET "/fetchDealers" NoBody)) [] sample_db).1)),
     (run (dispatch (mkReq GET "/fetchDealers" NoBody)) [] sample_db).2).
Proof.
  split.
  - rewrite (respond_not_modified (fun _ => "Ym9keQ"%string));
      [reflexivity | reflexivity | vm_compute; split; congruence | reflexivity | discriminate].
  - rewrite (respond_not_modified (fun _ => "Ym9keQ"%string));
      [vm_compute; reflexivity | reflexivity | vm_compute; split; congruence | reflexivity | discriminate].
Defined.

End Send.
